(* ===== verification/_CoqProject ===== *)
-Q . S2P
Prelude.v
Abi.v
Cap.v
Task.v
Sched.v
Ipc.v
Radix.v
Paging.v
User.v
Build.v
Kernel.v
System.v
Fdt.v
FdtBuild.v
Fuzz.v
Spawn.v
Boot.v
Image.v
Sha256.v
Arch.v
Asm.v
Entry.v
Link.v
Scripts.v
PowerOn.v
Secure.v
HighRam.v
Fair.v
Machine.v
Trap.v
RootTask.v
SelfTest.v
