(* ===== verification/Prelude.v ===== *)
(** * Verification of the K0 capability microkernel

    K0 is a single-core capability microkernel for AArch64 (QEMU virt and Apple
    Silicon).  This library models the whole path from the bootloader's jump to
    user programs that talk over IPC, and proves that the parts do what they are
    for and fit together.

    ** The program

    The bootloader enters boot.S, which drops to EL1 and calls [kernel_init].  The
    kernel parses an untrusted device tree, builds its page tables, turns the MMU
    on, jumps to the higher half, checks the root task's hash, hardens the
    processor, starts the timer, loads the root task from the image that the build
    script made of its ELF, hands all remaining memory to it as capabilities, and
    enters user mode.  From then on it runs only on exceptions: the vectors save a
    task's registers, [el0_sync] dispatches system calls and faults, the timer
    preempts, and [__user_restore] goes back to whichever task is current.  RETYPE
    turns untyped memory into frames, page tables, TCBs and endpoints; MAP, SEND,
    RECV, CALL, REPLY_RECV and the TCB calls work on these.

    ** Files and sources (all paths under src/)

    - Prelude: machine integers with Rust's overflow checks, the result and
      state monads, the weakest-precondition predicate [post], slices, hints.
    - Abi: crates/k0-abi.  The platform, [plat-virt] or [plat-apple], is an
      instance of [Platform]; every theorem holds for both unless it names one.
    - Cap: crates/k0-cap.  The root CNode, [populate], [retype].
    - Task, Sched, Ipc: crates/k0-task, k0-sched, k0-ipc.  TCBs and endpoints are
      objects at addresses, linked by their [next] fields; the contracts are
      functions on lists ([Sched.astate]), and [Sched.rep] relates the two.
    - Radix, Paging, User, Build: crates/k0-mm.  Radix holds the theory that the
      kernel's static table pool and the user tables in physical memory share.
    - Kernel, System, Secure, Fair: kernel/src/main.rs after the handoff and the
      dispatcher of crates/k0-arch/src/usermode.rs; the system invariant [kinv],
      the step relation of the system, the theorems about every reachable state,
      and the bound on how long a ready task waits.
    - HighRam: what the code does on a board with RAM that it cannot address.
    - Fdt, FdtBuild, Fuzz: crates/k0-boot/src/fdt.rs and its test support, the
      builder and the fuzzer.
    - Image: the ELF conversion of crates/k0-boot/build.rs, src/roottask.rs and
      src/entropy.rs, over the interface [Hash] of the hash they call.
    - Sha256: the hash, vendor/sha2 with the buffering of vendor/block-buffer and
      vendor/digest, an instance of that interface.
    - Spawn, Boot: [spawn_root] of crates/k0-task and phase 3 of [kernel_main].
    - Arch: crates/k0-arch (console, vectors.rs, hardening, interrupts, cache
      maintenance), [switch_on] of k0-mm and kernel/src/panic.rs, as accesses to
      arbitrary hardware.
    - Asm: boot.S, vectors.S and [enter_user], instruction by instruction.
    - Entry: [kernel_init], [enable_mmu], [kernel_main] with their messages and
      self-checks, over Arch, Paging, User and Boot.
    - Link: the linker scripts kernel/virt.ld, kernel/apple.ld and
      userspace/root-task/user.ld, in a model of the language they use, with the
      boot image header of boot.S.
    - Scripts: the build scripts kernel/build.rs, userspace/root-task/build.rs and
      the [main] of crates/k0-boot/build.rs, on a host that is an argument.
    - PowerOn: Link, Image, Asm and Entry joined, from the first instruction to the
      root task.
    - Trap: the vector code of Asm around a turn of Machine.
    - Machine, RootTask, SelfTest: user programs as interaction trees on the
      kernel, the programs of userspace/root-task, and their run from boot.

    ** State

    Each component's state is a record of its own, and the kernel's state
    ([Kernel.kstate]) is the record of the components': CNode, tasks, table pool,
    physical memory, console.  Physical memory is a map from word addresses to
    64-bit words.  An operation is a function of the monad [M S E]: it takes the
    state and returns a result with the new state, so that an error leaves exactly
    the changes made before it.  A result is [Ok], [Err], [Panic] (overflow, index,
    explicit) or [OutOfFuel].  Pointers are addresses; where the source mutates an
    object through two names, both are the same address here.

    ** What the theorems show

    - The whole system: no synchronous exception and no timer tick makes a
      reachable state panic, user mappings are apart from the kernel's memory and
      from each other's objects, a task changes nothing but its writable pages, a
      fault kills one task only, and only filtered bytes reach the console
      (Secure); a ready task runs after at most as many ticks as there are tasks
      in front of it, whatever system calls the others make (Fair).  Programs of
      system calls, aligned loads and stores and trapping instructions, under any
      timer, are executions of that system (Machine); the root task's self-test
      passes under every timer whose slices are long enough, and has a race under
      a faster one (SelfTest).
    - Boot: from boot.S to [kernel_init] (Asm); from there, for any other behaviour
      of the hardware and any contents of the device tree, to a listed refusal or
      to a state that satisfies the invariant (Entry, Boot), under the conditions
      on RAM and on the tree's address below; with every message in order
      ([boot_log]); and the two joined, for images laid out by the linker scripts
      (PowerOn).
    - Build: what the linker scripts fix is what the code relies on, for whatever
      sections the compiler produced (Link); the constants that the kernel embeds
      are exactly what the build made of the root task's ELF (Scripts, Image).
    - Exceptions: a trap saves and restores exactly the task's registers, an
      interrupt in the kernel is transparent, every other vector reports and stops
      (Asm, Arch); in every reachable state the vector code brings the handler
      the state of a turn of Machine, and resumes the task that the turn chose
      (Trap).
    - System calls: RETYPE, MAP, TCB_CONFIGURE and TCB_RESUME on every branch, with
      the exact cause of each error code (Secure); the four IPC calls refine an
      abstract contract and keep the task state machine (Ipc).
    - Memory: mapping is transactional and exact in kernel and user tables
      (Paging, User, Spawn); retype keeps capabilities disjoint (Cap).
    - Untrusted input: the parser is total and safe, recovers exactly what a built
      tree describes, and no input of the fuzzer can fail its assertions (Fdt,
      FdtBuild, Fuzz); the build script accepts exactly the ELF files that meet
      its contract, and what it emits loads (Image); the vendored hash computes
      SHA-256 as the standard defines it (Sha256).

    ** Bounds and fuel

    Loops without structural recursion run on fuel that the definitions fix, and
    the theorems about them exclude [OutOfFuel]: the walk of a device tree on one
    more than its length, since each round consumes bytes; mapping loops on their
    number of pages; [push_untypeds] and [pick_loop] on more than the number of
    regions, since each round passes one; the key derivation on its number of
    words; the GIC waits on the code's own [POLL_LIMIT].  boot.S has four steps for
    each 16 bytes of .bss ([Asm.boot_fuel]).  Only the wait for the UART is not
    bounded by the code: there the fuel is an argument and the theorems assume that
    the UART becomes ready within it.  A run of [Machine] has as many turns as its
    argument says, and theorems hold for every number.

    ** Assumptions

    - What the boot code needs of its hash is the class [Image.HashOk]; the instance
      is in Sha256.v, so no theorem about the kernel with that hash assumes it.
    - The linker's symbols are arguments of Entry and Asm, with their order and
      alignment as [Entry.symbols_ok] and [Asm.boot_symbols]; Link.v derives both,
      and [Paging.PoolVaOk], from the scripts.  There the linker is the model
      [Link.link]; the sections of the compiler are within [Link.inputs_ok], and
      two statics lie inside them ([Link.statics]).
    - RAM.  The code reaches physical memory at its alias, so it can only use RAM
      below 2^48, and nothing checks the device tree's regions against that (known
      gap of design/dtb.md, GHSA-hj3f-38h9-hrpj).  [Boot.ram_addressable] says that
      all declared RAM is there; it is an explicit hypothesis of the theorems about
      the running system.  The boot sequence alone needs less, that the boot window
      is there ([Boot.high_window], [Entry.window_low]).  HighRam proves that
      without them the kernel panics, at boot or at a RETYPE.  Declared RAM is also
      taken to exist.
    - The firmware loads the image where it was linked and passes a device tree
      placed within the 48-bit physical space ([PowerOn.firmware]).
    - The handlers are compiled Rust: [Trap.trap_simulates_turn] starts the return
      path in any memory that holds the state the handler computes.
    - A handler of an interrupt respects the calling convention (a hypothesis of
      [Asm.irq_transparent] about compiled code).
    - The UART becomes ready (above).

    ** Not modelled

    - Cargo and rustc.  The build scripts see the outcome of the inner cargo run and
      the files as the record [Scripts.host]; of the compiler's output, Link knows
      the alignment and size of each input section.
    - Output sections that a linker adds without being told (orphans), KEEP, which
      guards against garbage collection, and NOLOAD, which keeps .bss out of the
      file: they move no address that the scripts assign.
    - The text that the fuzzer prints.
    - In the step relation of the system, exceptions other than those of user mode
      and the timer.  An unexpected interrupt and an SError stop the machine with
      a report ([Arch.interrupt_exact], [Arch.fatal_report]); a machine that has
      stopped takes no further step.
    - The back end for x86 that sha2 may choose on the build host.
    - The unit tests: their claims are instances of the theorems.  The exceptions are
      the tests of the builder, which are in Fuzz, and the known answers of the key
      derivation, which are checked in Sha256.
    - Caches, TLBs and memory order.  Maintenance instructions and barriers are
      events in the log of Arch, and their order is stated there, but a stale
      translation or cache line has no state in the model.  One core runs.
    - Timer interrupts taken by the kernel during boot, which only count and print.
    - The program counter of user programs between traps: a program of Machine is a
      tree of operations. *)

From Stdlib Require Export ZArith Lia.
From stdpp Require Export base tactics option list gmap numbers.

#[global] Open Scope Z_scope.

(** ** Machine integers

    A [u64] or a [usize] (the targets are 64-bit) is a [Z] in [0, U64).  The
    workspace compiles with [overflow-checks = true] in every profile, so the
    plain operators panic on overflow and only the [checked_] operators return
    [None]. *)

Abbreviation U64 := 0x10000000000000000 (only parsing).
Abbreviation U32 := 0x100000000 (only parsing).

Definition is_u64 (x : Z) : Prop := 0 <= x < U64.

Definition checked_add (a b : Z) : option Z :=
  if a + b <? U64 then Some (a + b) else None.

Definition checked_mul (a b : Z) : option Z :=
  if a * b <? U64 then Some (a * b) else None.

(** Bitwise complement of a [u64]. *)
Definition not64 (x : Z) : Z := U64 - 1 - x.

(** [x as u64] for a negative [i64]: two's complement. *)
Definition as_u64 (x : Z) : Z := x mod U64.

(** [x as i64] for a [u64]. *)
Definition as_i64 (x : Z) : Z := if x <? 2 ^ 63 then x else x - U64.

(** ** Results

    [Ok] and [Err] are Rust's [Result]; [Panic] is a panic (overflow check,
    slice index, explicit); [OutOfFuel] is reached only by a fuelled loop whose
    bound was too small, and is excluded by the theorems. *)

Inductive res (E A : Type) : Type :=
| Ok (a : A)
| Err (e : E)
| Panic
| OutOfFuel.
Arguments Ok {E A} a.
Arguments Err {E A} e.
Arguments Panic {E A}.
Arguments OutOfFuel {E A}.

(** A result the code can really return: no panic, no divergence. *)
Definition returns {E A} (r : res E A) : Prop := r <> Panic /\ r <> OutOfFuel.

Definition rbind {E A B} (r : res E A) (k : A -> res E B) : res E B :=
  match r with
  | Ok a => k a
  | Err e => Err e
  | Panic => Panic
  | OutOfFuel => OutOfFuel
  end.

Definition ok_or {E A} (o : option A) (e : E) : res E A :=
  match o with Some a => Ok a | None => Err e end.

Definition map_err {E F A} (f : E -> F) (r : res E A) : res F A :=
  match r with
  | Ok a => Ok a
  | Err e => Err (f e)
  | Panic => Panic
  | OutOfFuel => OutOfFuel
  end.

(** The plain operators, with their overflow check. *)
Definition add_p {E} (a b : Z) : res E Z := if a + b <? U64 then Ok (a + b) else Panic.
Definition sub_p {E} (a b : Z) : res E Z := if b <=? a then Ok (a - b) else Panic.
Definition mul_p {E} (a b : Z) : res E Z := if a * b <? U64 then Ok (a * b) else Panic.

(** ** A state and error monad

    An operation on a mutable object takes the state and returns its result
    with the state as it is at that point, also on an error: what an error path
    has already written stays written unless the code undoes it. *)

Definition M (S E A : Type) : Type := S -> res E A * S.

Definition ret {S E A} (a : A) : M S E A := fun s => (Ok a, s).
Definition throw {S E A} (e : E) : M S E A := fun s => (Err e, s).
Definition panic {S E A} : M S E A := fun s => (Panic, s).
Definition lift {S E A} (r : res E A) : M S E A := fun s => (r, s).
Definition getS {S E} : M S E S := fun s => (Ok s, s).
Definition putS {S E} (s : S) : M S E unit := fun _ => (Ok tt, s).
Definition modS {S E} (f : S -> S) : M S E unit := fun s => (Ok tt, f s).

Definition bind {S E A B} (m : M S E A) (k : A -> M S E B) : M S E B :=
  fun s =>
    match m s with
    | (Ok a, s') => k a s'
    | (Err e, s') => (Err e, s')
    | (Panic, s') => (Panic, s')
    | (OutOfFuel, s') => (OutOfFuel, s')
    end.

Definition throw_map {S E F A} (f : E -> F) (m : M S E A) : M S F A :=
  fun s => let '(r, s') := m s in (map_err f r, s').

Declare Scope k0_scope.
Delimit Scope k0_scope with k0.
#[global] Open Scope k0_scope.

Notation "'let?' x := c 'in' k" := (rbind c (fun x => k))
  (at level 10, x pattern at level 0, c at level 200, k at level 200,
   format "'[v' 'let?'  x  :=  c  'in'  '/' k ']'") : k0_scope.
Notation "'do!' x := c 'in' k" := (bind c (fun x => k))
  (at level 10, x pattern at level 0, c at level 200, k at level 200,
   format "'[v' 'do!'  x  :=  c  'in'  '/' k ']'") : k0_scope.

(** ** Slices and arrays *)

(** [s.get(i)]. *)
Definition get {A} (l : list A) (i : Z) : option A :=
  if (0 <=? i) && (i <? Z.of_nat (length l)) then l !! Z.to_nat i else None.

(** [s.get(a..b)]; the indexing form [&s[a..b]] panics where this is [None]. *)
Definition get_range {A} (l : list A) (a b : Z) : option (list A) :=
  if (0 <=? a) && (a <=? b) && (b <=? Z.of_nat (length l))
  then Some (take (Z.to_nat (b - a)) (drop (Z.to_nat a) l)) else None.

(** [s[i] = v] for an index in range. *)
Definition set {A} (l : list A) (i : Z) (v : A) : list A := <[Z.to_nat i := v]> l.

(** ** Proof automation *)

Create HintDb k0.

(** Turns the boolean tests of the code into arithmetic facts. *)
Ltac bool_to_prop :=
  repeat match goal with
  | H : _ && _ = true |- _ => apply andb_true_iff in H; destruct H
  | H : _ || _ = false |- _ => apply orb_false_iff in H; destruct H
  | H : _ && _ = false |- _ =>
      rewrite !andb_false_iff, ?Z.ltb_ge, ?Z.leb_gt, ?Z.eqb_neq, ?negb_false_iff in H
  | H : _ || _ = true |- _ =>
      rewrite !orb_true_iff, ?Z.ltb_lt, ?Z.leb_le, ?Z.eqb_eq, ?negb_true_iff in H
  | H : negb _ = true |- _ => apply negb_true_iff in H
  | H : negb _ = false |- _ => apply negb_false_iff in H
  | H : (_ <? _) = true |- _ => apply Z.ltb_lt in H
  | H : (_ <? _) = false |- _ => apply Z.ltb_ge in H
  | H : (_ <=? _) = true |- _ => apply Z.leb_le in H
  | H : (_ <=? _) = false |- _ => apply Z.leb_gt in H
  | H : (_ =? _) = true |- _ => apply Z.eqb_eq in H
  | H : (_ =? _) = false |- _ => apply Z.eqb_neq in H
  end.

(** Evaluates powers of two with constant exponents. *)
Ltac pow_consts :=
  repeat match goal with
  | |- context [2 ^ ?e] => let v := eval vm_compute in (2 ^ e) in
      match v with Z.pow_pos _ _ => fail 1 | _ => change (2 ^ e) with v end
  | H : context [2 ^ ?e] |- _ => let v := eval vm_compute in (2 ^ e) in
      match v with Z.pow_pos _ _ => fail 1 | _ => change (2 ^ e) with v in H end
  end.

(** Linear arithmetic with division and remainder by constants. *)
Ltac div_lia := pow_consts; Z.to_euclidean_division_equations; lia.

(** Splits the [if]s and [match]es of an executed definition, innermost test
    first, keeping the equations. *)
Ltac case_code :=
  repeat (simpl in *; simplify_eq; case_match; try discriminate).

(** ** Shared lemmas: arithmetic *)

Lemma checked_add_Some a b c : checked_add a b = Some c <-> c = a + b /\ a + b < U64.
Proof. unfold checked_add. case_match eqn:E; bool_to_prop; naive_solver lia. Qed.

Lemma checked_add_None a b : checked_add a b = None <-> U64 <= a + b.
Proof. unfold checked_add. case_match eqn:E; bool_to_prop; naive_solver lia. Qed.

Lemma add_p_ok {E} a b : a + b < U64 -> @add_p E a b = Ok (a + b).
Proof. intros. unfold add_p. case_match eqn:E'; bool_to_prop; [done|lia]. Qed.

Lemma sub_p_ok {E} a b : b <= a -> @sub_p E a b = Ok (a - b).
Proof. intros. unfold sub_p. case_match eqn:E'; bool_to_prop; [done|lia]. Qed.

Lemma mul_p_ok {E} a b : a * b < U64 -> @mul_p E a b = Ok (a * b).
Proof. intros. unfold mul_p. case_match eqn:E'; bool_to_prop; [done|lia]. Qed.

(** Masking with [!(2^k - 1)] rounds down to a multiple of [2^k]. *)
Lemma land_not64_pow2 x k :
  0 <= k <= 64 -> is_u64 x -> Z.land x (not64 (2 ^ k - 1)) = x - x mod 2 ^ k.
Proof.
  intros Hk [Hx0 Hx].
  assert (Hp : 0 < 2 ^ k) by (apply Z.pow_pos_nonneg; lia).
  assert (H64 : 2 ^ 64 = 2 ^ k * 2 ^ (64 - k)) by (rewrite <- Z.pow_add_r by lia; f_equal; lia).
  change U64 with (2 ^ 64) in *.
  assert (Hnot : not64 (2 ^ k - 1) = Z.shiftl (Z.ones (64 - k)) k).
  { unfold not64. change U64 with (2 ^ 64). rewrite Z.shiftl_mul_pow2 by lia.
    rewrite Z.ones_equiv, H64. lia. }
  rewrite Hnot.
  assert (Hsh : Z.land x (Z.shiftl (Z.ones (64 - k)) k)
                = Z.shiftl (Z.land (Z.shiftr x k) (Z.ones (64 - k))) k).
  { apply Z.bits_inj'. intros n Hn. rewrite Z.land_spec, !Z.shiftl_spec by lia.
    destruct (Z.ltb_spec n k).
    - rewrite !(Z.testbit_neg_r _ (n - k)) by lia. apply andb_false_r.
    - rewrite Z.land_spec, Z.shiftr_spec by lia. do 2 f_equal; lia. }
  rewrite Hsh, Z.land_ones by lia.
  rewrite Z.mod_small.
  - rewrite Z.shiftl_mul_pow2, Z.shiftr_div_pow2 by lia.
    pose proof (Z.div_mod x (2 ^ k)). lia.
  - rewrite Z.shiftr_div_pow2 by lia. split; [apply Z.div_pos; lia|].
    apply Z.div_lt_upper_bound; lia.
Qed.

(** Joining a shifted value with bits below the shift adds them. *)
Lemma lor_shift_add a b n : 0 <= n -> 0 <= b < 2 ^ n -> Z.lor (a * 2 ^ n) b = a * 2 ^ n + b.
Proof.
  intros Hn Hb. symmetry. apply Z.add_nocarry_lor, Z.bits_inj'. intros i Hi. rewrite Z.land_spec, Z.bits_0.
  destruct (Z.lt_ge_cases i n); [by rewrite Z.mul_pow2_bits_low|].
  replace b with (b mod 2 ^ n) by (by apply Z.mod_small). by rewrite Z.mod_pow2_bits_high, andb_false_r by lia.
Qed.

(** ** Shared lemmas: the monads *)

Lemma bind_Ok {S E A B} (m : M S E A) (k : A -> M S E B) s b s' :
  bind m k s = (Ok b, s') -> exists a s1, m s = (Ok a, s1) /\ k a s1 = (Ok b, s').
Proof. unfold bind. destruct (m s) as [[a| | |] s1]; try done. eauto. Qed.

Lemma lift_Ok {S E A} (r : res E A) (s : S) a s' : lift r s = (Ok a, s') -> r = Ok a /\ s' = s.
Proof. unfold lift. naive_solver. Qed.

Lemma rbind_Ok {E A B} (r : res E A) (k : A -> res E B) b :
  rbind r k = Ok b -> exists a, r = Ok a /\ k a = Ok b.
Proof. destruct r; simpl; try done. eauto. Qed.

(** Runs a successful monadic computation in a hypothesis. *)
Ltac bind_inv H :=
  let a := fresh "a" in let s := fresh "s" in let E := fresh "E" in
  apply bind_Ok in H as (a & s & E & H); try (apply lift_Ok in E as [E ->]).

(** The code returns, and a success satisfies [P]. *)
Definition post {E A} (r : res E A) (P : A -> Prop) : Prop :=
  match r with Ok a => P a | Err _ => True | _ => False end.

Lemma post_bind {E A B} (r : res E A) (k : A -> res E B) (P : A -> Prop) (Q : B -> Prop) :
  post r P -> (forall a, P a -> post (k a) Q) -> post (rbind r k) Q.
Proof. destruct r; simpl; auto. Qed.

Lemma post_mono {E A} (r : res E A) (P Q : A -> Prop) : post r P -> (forall a, P a -> Q a) -> post r Q.
Proof. destruct r; simpl; auto. Qed.

Lemma post_ok_or {E A} (o : option A) (e : E) (P : A -> Prop) : (forall a, o = Some a -> P a) -> post (ok_or o e) P.
Proof. destruct o; simpl; auto. Qed.

(** ** Shared lemmas: lists *)

Lemma length_filter_le {A} (P Q : A -> Prop) `{!forall x, Decision (P x), !forall x, Decision (Q x)}
    (l : list A) :
  (forall x, P x -> Q x) -> (length (filter P l) <= length (filter Q l))%nat.
Proof.
  intros HPQ. induction l as [|x l IH]; [done|].
  rewrite !filter_cons. repeat case_decide; simpl; naive_solver lia.
Qed.

Lemma length_filter_lt {A} (P Q : A -> Prop) `{!forall x, Decision (P x), !forall x, Decision (Q x)}
    (l : list A) x :
  (forall x, P x -> Q x) -> x ∈ l -> Q x -> ~ P x ->
  (length (filter P l) < length (filter Q l))%nat.
Proof.
  intros HPQ Hx HQ HP. induction Hx as [x l|x y l Hx IH].
  - rewrite !filter_cons, decide_False, decide_True by done. simpl.
    pose proof (length_filter_le P Q l HPQ). lia.
  - specialize (IH HQ HP). rewrite !filter_cons. repeat case_decide; simpl; naive_solver lia.
Qed.

Lemma decide_and_true {A} (P Q : Prop) `{Decision P, Decision (P /\ Q)} (x y : A) :
  Q -> (if decide (P /\ Q) then x else y) = if decide P then x else y.
Proof. intros HQ. repeat case_decide; tauto. Qed.

Lemma decide_and_false {A} (P Q : Prop) `{Decision (P /\ Q)} (x y : A) :
  ~ Q -> (if decide (P /\ Q) then x else y) = y.
Proof. intros HQ. case_decide; tauto. Qed.

(** Rounding up to a power of two, as [(x + (g - 1)) & !(g - 1)]. *)
Definition round_up (g x : Z) : Z := x + (g - 1) - (x + (g - 1)) mod g.

Lemma round_up_spec g x :
  0 < g -> round_up g x mod g = 0 /\ x <= round_up g x < x + g.
Proof.
  intros Hg. unfold round_up. pose proof (Z.mod_pos_bound (x + (g - 1)) g Hg).
  split; [|lia].
  rewrite Zminus_mod_idemp_r, Z.sub_diag. by apply Z.mod_0_l; lia.
Qed.

(** A multiple of [g] below [b + g], for a multiple [b], is at most [b]. *)
Lemma multiple_lt g a b : 0 < g -> a mod g = 0 -> b mod g = 0 -> a < b + g -> a <= b.
Proof.
  intros Hg Ha Hb Hlt. apply Z.mod_divide in Ha as [qa ->]; [|lia..].
  apply Z.mod_divide in Hb as [qb ->]; [|lia..].
  apply Z.mul_le_mono_nonneg_r; [lia|]. apply Z.lt_succ_r, (Z.mul_lt_mono_pos_r g); lia.
Qed.

(** ** Shared lemmas: slices *)

Lemma get_Some {A} (l : list A) i x :
  get l i = Some x <-> 0 <= i /\ l !! Z.to_nat i = Some x.
Proof.
  unfold get. destruct (_ && _) eqn:E; bool_to_prop.
  - split; [|tauto]. intros Hx. split; [lia|done].
  - split; [done|]. intros [Hi Hx]. pose proof (lookup_lt_Some _ _ _ Hx). lia.
Qed.

Lemma get_in_range {A} (l : list A) i :
  0 <= i < Z.of_nat (length l) -> exists x, get l i = Some x.
Proof.
  intros Hi. destruct (lookup_lt_is_Some_2 l (Z.to_nat i)) as [x Hx]; [lia|].
  exists x. apply get_Some. split; [lia|done].
Qed.

Lemma get_set {A} (l : list A) i j (v : A) :
  0 <= i < Z.of_nat (length l) ->
  get (set l i v) j = if decide (i = j) then Some v else get l j.
Proof.
  intros Hi. unfold get, set. rewrite length_insert. destruct (_ && _) eqn:E; bool_to_prop; case_decide.
  - subst. apply list_lookup_insert_eq. lia.
  - apply list_lookup_insert_ne. lia.
  - subst. lia.
  - done.
Qed.

Lemma length_set {A} (l : list A) i (v : A) : length (set l i v) = length l.
Proof. apply length_insert. Qed.
