(* ===== verification/Abi.v ===== *)
(** * The ABI shared by the kernel and user space

    The constants of crates/k0-abi/src/lib.rs: the kernel alias offset, system
    call numbers, object types, permissions, error codes and the bootinfo
    layout; and the platform choice (cfg features [plat-virt] and
    [plat-apple]) that fixes the translation granule. *)

From S2P Require Import Prelude.

(** ** Platform

    Every definition that depends on a cfg feature takes the platform as an
    instance argument, so each theorem holds for both builds. *)

Inductive platform := PlatVirt | PlatApple.

Class Platform := plat : platform.

Definition GRANULE `{Platform} : Z :=
  match plat with PlatVirt => 4096 | PlatApple => 16384 end.

Definition PAGE_SHIFT `{Platform} : Z :=
  match plat with PlatVirt => 12 | PlatApple => 14 end.

Lemma granule_pow2 `{Platform} : GRANULE = 2 ^ PAGE_SHIFT.
Proof. unfold GRANULE, PAGE_SHIFT. by destruct plat. Qed.

Lemma granule_bounds `{Platform} : 4096 <= GRANULE <= 16384.
Proof. unfold GRANULE. destruct plat; lia. Qed.

Lemma page_shift_bounds `{Platform} : 12 <= PAGE_SHIFT <= 14.
Proof. unfold PAGE_SHIFT. destruct plat; lia. Qed.

(** ** Kernel alias *)

Definition KERNEL_VA_OFFSET : Z := 0xFFFF000000000000.

(** ** System call numbers (x8) *)

Module syscall.
Definition DEBUG_PUTC : Z := 0.
Definition YIELD : Z := 1.
Definition EXIT : Z := 2.
Definition RETYPE : Z := 3.
Definition MAP : Z := 4.
Definition TCB_CONFIGURE : Z := 5.
Definition TCB_RESUME : Z := 6.
Definition SEND : Z := 7.
Definition RECV : Z := 8.
Definition CALL : Z := 9.
Definition REPLY_RECV : Z := 10.
End syscall.

Module ipc.
Definition NONBLOCK : Z := 1.
End ipc.

Module obj.
Definition FRAME : Z := 1.
Definition PAGE_TABLE : Z := 2.
Definition TCB : Z := 3.
Definition ENDPOINT : Z := 4.
End obj.

Module perm.
Definition RO : Z := 0.
Definition RW : Z := 1.
End perm.

(** ** Error codes (negative [i64]) *)

Module err.
Definition BAD_SLOT : Z := -1.
Definition NOT_UNTYPED : Z := -2.
Definition EXHAUSTED : Z := -3.
Definition OUT_OF_SLOTS : Z := -4.
Definition BAD_TYPE : Z := -5.
Definition BAD_VA : Z := -6.
Definition BAD_PERM : Z := -7.
Definition ALREADY_MAPPED : Z := -8.
Definition MISSING_TABLE : Z := -9.
Definition OVERLAP : Z := -10.
Definition KERNEL_RESOURCE : Z := -11.
Definition BAD_CAP : Z := -12.
Definition BAD_STATE : Z := -13.
Definition WOULD_BLOCK : Z := -14.
Definition NO_REPLY : Z := -15.
End err.

(** ** The bootinfo page *)

Module bootinfo.
Definition VA : Z := 0x0F000000.
Definition VERSION : Z := 1.

Record Header := mkHeader { version : Z; frame_size : Z; cap_count : Z }.
Record CapDesc := mkCapDesc { kind : Z; base : Z; size : Z }.
End bootinfo.

Module cap_kind.
Definition EMPTY : Z := 0.
Definition TCB : Z := 1.
Definition ADDR_SPACE : Z := 2.
Definition UNTYPED : Z := 3.
Definition FRAME : Z := 4.
Definition PAGE_TABLE : Z := 5.
Definition ENDPOINT : Z := 6.
Definition CONSOLE : Z := 7.
End cap_kind.
