(* ===== verification/Cap.v ===== *)
(** * Capabilities, untyped memory and retype

    crates/k0-cap/src/lib.rs: the root CNode, its bootstrap from the memory map
    ([populate], [push_untypeds]) and [retype].  The crate is pure bookkeeping;
    the memory preparation of [retype] is a callback over a world state. *)

From S2P Require Import Prelude Abi.

(** ** Data *)

Definition CNODE_SLOTS : Z := 32.

Record PhysRegion := mkRegion { r_base : Z; r_size : Z }.

#[export] Instance PhysRegion_eq_dec : EqDecision PhysRegion.
Proof. solve_decision. Defined.

(** [PhysRegion::end], a plain [+]. *)
Definition r_end {E} (r : PhysRegion) : res E Z := add_p (r_base r) (r_size r).

Module Cap.
Inductive t :=
| Empty
| RootTcb
| AddrSpace (root_pa : Z)
| Console
| Tcb (base : Z)
| Untyped (base size used : Z)
| Frame (base : Z) (mapped : bool)
| PageTable (base : Z) (installed : bool)
| Endpoint (base : Z).
End Cap.

#[export] Instance Cap_eq_dec : EqDecision Cap.t.
Proof. solve_decision. Defined.

Module ObjKind.
Inductive t := Frame | PageTable | Tcb | Endpoint.
End ObjKind.

Module CapError.
Inductive t := OutOfSlots | BadRegion.
End CapError.

Module RetypeError.
Inductive t := BadSlot | NotUntyped | Exhausted | OutOfSlots | PrepFailed.
End RetypeError.

Record CNode := mkCNode { slots : list Cap.t; used : Z }.

(** The static [ROOT_CNODE] before bootstrap. *)
Definition empty_cnode : CNode := mkCNode (replicate (Z.to_nat CNODE_SLOTS) Cap.Empty) 0.

(** ** Operations *)

(** [CNode::slots]: the filled prefix. *)
Definition filled (cn : CNode) : list Cap.t := take (Z.to_nat (used cn)) (slots cn).

(** [CNode::cap]. *)
Definition cap (cn : CNode) (slot : Z) : option Cap.t := get (filled cn) slot.

(** A write through the reference that [CNode::cap_mut] returns. *)
Definition set_slot (cn : CNode) (slot : Z) (c : Cap.t) : CNode :=
  mkCNode (set (slots cn) slot c) (used cn).

(** [CNode::cap_mut]: the slot's content, when the slot is in use. *)
Definition cap_mut (cn : CNode) (slot : Z) : option Cap.t :=
  if used cn <=? slot then None else get (slots cn) slot.

Definition push (c : Cap.t) : M CNode CapError.t unit := fun cn =>
  if used cn =? CNODE_SLOTS then (Err CapError.OutOfSlots, cn)
  else (Ok tt, mkCNode (set (slots cn) (used cn) c) (used cn + 1)).

(** The capability that [retype] records for a new object. *)
Definition new_cap (kind : ObjKind.t) (carve : Z) : Cap.t :=
  match kind with
  | ObjKind.Frame => Cap.Frame carve false
  | ObjKind.PageTable => Cap.PageTable carve false
  | ObjKind.Tcb => Cap.Tcb carve
  | ObjKind.Endpoint => Cap.Endpoint carve
  end.

(** The carve position: the watermark rounded up to the granule, and the end of
    the granule there. *)
Definition carve_range (base size used granule : Z) : res RetypeError.t (Z * Z) :=
  let? mark := ok_or (checked_add base used) RetypeError.Exhausted in
  let? up := ok_or (checked_add mark (granule - 1)) RetypeError.Exhausted in
  let carve := Z.land up (not64 (granule - 1)) in
  let? carve_end := ok_or (checked_add carve granule) RetypeError.Exhausted in
  let? limit := add_p base size in
  if limit <? carve_end then Err RetypeError.Exhausted else Ok (carve, carve_end).

(** [CNode::retype].  [prep] is the caller's memory preparation over the world
    state [W]. *)
Definition retype {W} (slot : Z) (kind : ObjKind.t) (granule : Z)
    (prep : Z -> W -> res Empty_set bool * W) : M (CNode * W) RetypeError.t Z :=
  fun '(cn, w) =>
    if used cn <=? slot then (Err RetypeError.BadSlot, (cn, w)) else
    match get (slots cn) slot with
    | None => (Panic, (cn, w))
    | Some (Cap.Untyped base size ut_used) =>
      if used cn =? CNODE_SLOTS then (Err RetypeError.OutOfSlots, (cn, w)) else
      match carve_range base size ut_used granule with
      | Ok (carve, carve_end) =>
        match prep carve w with
        | (Ok true, w') =>
          let cn' := set_slot cn slot (Cap.Untyped base size (carve_end - base)) in
          let new_slot := used cn' in
          match push (new_cap kind carve) cn' with
          | (Ok _, cn'') => (Ok new_slot, (cn'', w'))
          | (r, cn'') => (let? _ := map_err (fun _ => RetypeError.OutOfSlots) r in Ok 0, (cn'', w'))
          end
        | (Ok false, w') => (Err RetypeError.PrepFailed, (cn, w'))
        | (Err e, w') => match e with end
        | (Panic, w') => (Panic, (cn, w'))
        | (OutOfFuel, w') => (OutOfFuel, (cn, w'))
        end
      | Err e => (Err e, (cn, w))
      | Panic => (Panic, (cn, w))
      | OutOfFuel => (OutOfFuel, (cn, w))
      end
    | Some _ => (Err RetypeError.NotUntyped, (cn, w))
    end.

(** The scan of one iteration of [push_untypeds]: the lowest reserved region
    that ends after the cursor and starts before the end of [m]. *)
Fixpoint find_next (m : PhysRegion) (cursor : Z) (rs : list PhysRegion)
    (next : option PhysRegion) : res CapError.t (option PhysRegion) :=
  match rs with
  | [] => Ok next
  | r :: rs' =>
    if (r_size r =? 0) || bool_decide (checked_add (r_base r) (r_size r) = None)
    then Err CapError.BadRegion else
    let? re := r_end r in
    let? hit := if cursor <? re then let? me := r_end m in Ok (r_base r <? me)
                else Ok false in
    let next' :=
      if (hit : bool) then
        match next with
        | Some n => if r_base n <=? r_base r then next else Some r
        | None => Some r
        end
      else next in
    find_next m cursor rs' next'
  end.

(** The loop of [push_untypeds], one unit of fuel per iteration. *)
Fixpoint push_untypeds_loop (fuel : nat) (m : PhysRegion) (reserved : list PhysRegion)
    (cursor : Z) : M CNode CapError.t unit :=
  match fuel with
  | O => lift OutOfFuel
  | S fuel' =>
    do! next := lift (find_next m cursor reserved None) in
    do! me := lift (r_end m) in
    match next with
    | Some r =>
      do! re := lift (r_end r) in
      do! _ := if cursor <? r_base r then
                 do! sz := lift (sub_p (Z.min (r_base r) me) cursor) in
                 push (Cap.Untyped cursor sz 0)
               else ret tt in
      if me <=? re then ret tt
      else push_untypeds_loop fuel' m reserved (Z.max re cursor)
    | None =>
      if cursor <? me then
        do! sz := lift (sub_p me cursor) in
        push (Cap.Untyped cursor sz 0)
      else ret tt
    end
  end.

(** [push_untypeds]: the fuel exceeds the number of reserved regions, and every
    iteration that continues puts one of them behind the cursor. *)
Definition push_untypeds (m : PhysRegion) (reserved : list PhysRegion) : M CNode CapError.t unit :=
  push_untypeds_loop (S (length reserved)) m reserved (r_base m).

(** [memory[..i].iter().any(|o| o.base < m.end() && m.base < o.end())]. *)
Fixpoint any_overlap (prev : list PhysRegion) (m : PhysRegion) : res CapError.t bool :=
  match prev with
  | [] => Ok false
  | o :: prev' =>
    let? me := r_end m in
    let? hit := if r_base o <? me then let? oe := r_end o in Ok (r_base m <? oe)
                else Ok false in
    if (hit : bool) then Ok true else any_overlap prev' m
  end.

(** The validation loop of [populate]: [prev] is [memory[..i]]. *)
Fixpoint check_regions (prev memory : list PhysRegion) : res CapError.t unit :=
  match memory with
  | [] => Ok tt
  | m :: ms =>
    if (r_size m =? 0) || bool_decide (checked_add (r_base m) (r_size m) = None)
    then Err CapError.BadRegion else
    let? hit := any_overlap prev m in
    if (hit : bool) then Err CapError.BadRegion else check_regions (prev ++ [m]) ms
  end.

Fixpoint push_all_untypeds (memory reserved : list PhysRegion) : M CNode CapError.t unit :=
  match memory with
  | [] => ret tt
  | m :: ms => do! _ := push_untypeds m reserved in push_all_untypeds ms reserved
  end.

Definition populate (memory reserved : list PhysRegion) (addr_space_root : Z) :
    M CNode CapError.t unit :=
  do! _ := lift (check_regions [] memory) in
  do! _ := push Cap.Empty in
  do! _ := push Cap.RootTcb in
  do! _ := push (Cap.AddrSpace addr_space_root) in
  do! _ := push Cap.Console in
  push_all_untypeds memory reserved.

(** [bootstrap]: [populate] on the static root CNode. *)
Definition bootstrap (memory reserved : list PhysRegion) (addr_space_root : Z) :
    res CapError.t CNode :=
  match populate memory reserved addr_space_root empty_cnode with
  | (Ok _, cn) => Ok cn
  | (Err e, _) => Err e
  | (Panic, _) => Panic
  | (OutOfFuel, _) => OutOfFuel
  end.

(** ** Specification vocabulary *)

Definition in_region (p : Z) (r : PhysRegion) : Prop := r_base r <= p < r_base r + r_size r.

Definition valid_region (r : PhysRegion) : Prop :=
  0 <= r_base r /\ 0 < r_size r /\ r_base r + r_size r < U64.

Definition u64_region (r : PhysRegion) : Prop := is_u64 (r_base r) /\ is_u64 (r_size r).

Definition disjoint_regions (a b : PhysRegion) : Prop :=
  r_base a + r_size a <= r_base b \/ r_base b + r_size b <= r_base a.

#[export] Instance in_region_dec p r : Decision (in_region p r).
Proof. unfold in_region. apply _. Defined.

(** The untyped capabilities that cover the physical address [p]. *)
Definition covers (p : Z) (c : Cap.t) : Prop :=
  match c with Cap.Untyped b s _ => b <= p < b + s | _ => False end.

#[export] Instance covers_dec p c : Decision (covers p c).
Proof. destruct c; simpl; apply _. Defined.

Definition coverage (p : Z) (l : list Cap.t) : nat := length (filter (covers p) l).

(** A fresh untyped capability: non-empty, watermark at zero. *)
Definition fresh_untyped (c : Cap.t) : Prop :=
  match c with Cap.Untyped b s u => 0 <= b /\ 0 < s /\ b + s < U64 /\ u = 0 | _ => False end.

Definition cnode_wf (cn : CNode) : Prop :=
  length (slots cn) = Z.to_nat CNODE_SLOTS /\ 0 <= used cn <= CNODE_SLOTS.

(** ** Bootstrap *)

Lemma coverage_app p l1 l2 : coverage p (l1 ++ l2) = (coverage p l1 + coverage p l2)%nat.
Proof. unfold coverage. by rewrite list.filter_app, length_app. Qed.

Lemma coverage_one p c : coverage p [c] = if decide (covers p c) then 1%nat else 0%nat.
Proof. unfold coverage. rewrite filter_cons. by case_decide. Qed.

Lemma empty_cnode_wf : cnode_wf empty_cnode.
Proof. split; [done|]. unfold empty_cnode, CNODE_SLOTS; simpl; lia. Qed.

Lemma length_filled cn : cnode_wf cn -> length (filled cn) = Z.to_nat (used cn).
Proof.
  intros [Hlen Hu]. unfold filled. rewrite length_take, Hlen. unfold CNODE_SLOTS in *. lia.
Qed.

Lemma push_ok cn c :
  cnode_wf cn -> used cn < CNODE_SLOTS ->
  exists cn', push c cn = (Ok tt, cn') /\ cnode_wf cn' /\ used cn' = used cn + 1 /\
    filled cn' = filled cn ++ [c].
Proof.
  intros [Hlen Hu] Hlt. unfold push. case_match eqn:E; bool_to_prop; [lia|].
  eexists. split; [done|]. unfold cnode_wf, filled, set; simpl.
  rewrite length_insert. split_and!; try (unfold CNODE_SLOTS in *; lia).
  replace (Z.to_nat (used cn + 1)) with (S (Z.to_nat (used cn))) by lia.
  erewrite take_S_r.
  - f_equal. apply take_insert_ge. lia.
  - apply list_lookup_insert_eq. unfold CNODE_SLOTS in *. lia.
Qed.

Lemma push_full cn c : used cn = CNODE_SLOTS -> push c cn = (Err CapError.OutOfSlots, cn).
Proof. intros Hu. unfold push. by rewrite Hu. Qed.

Lemma push_inv cn c r cn' :
  cnode_wf cn -> push c cn = (r, cn') ->
  (r = Ok tt /\ cnode_wf cn' /\ filled cn' = filled cn ++ [c]) \/
  (r = Err CapError.OutOfSlots /\ cn' = cn).
Proof.
  intros Hwf H. destruct (Z.eq_dec (used cn) CNODE_SLOTS) as [E|E].
  - rewrite push_full in H by done. right. by simplify_eq.
  - destruct (push_ok cn c Hwf) as (cn1 & H1 & ? & ? & ?); [destruct Hwf; lia|].
    rewrite H1 in H. left. by simplify_eq.
Qed.

Lemma r_end_ok {E} r : r_base r + r_size r < U64 -> @r_end E r = Ok (r_base r + r_size r).
Proof. apply add_p_ok. Qed.

Lemma bad_region_test r :
  u64_region r ->
  ((r_size r =? 0) || bool_decide (checked_add (r_base r) (r_size r) = None)) = false <->
  valid_region r.
Proof.
  intros [[Hb _] [Hs _]]. rewrite orb_false_iff, Z.eqb_neq, bool_decide_eq_false, checked_add_None.
  unfold valid_region. lia.
Qed.

(** A reserved region that the scan of [find_next] considers. *)
Definition qualifies (m : PhysRegion) (cursor : Z) (r : PhysRegion) : Prop :=
  cursor < r_base r + r_size r /\ r_base r < r_base m + r_size m.

Lemma find_next_bad m cursor rs next :
  valid_region m -> Forall u64_region rs -> ~ Forall valid_region rs ->
  find_next m cursor rs next = Err CapError.BadRegion.
Proof.
  intros Hm Hu. revert next. induction Hu as [|r rs Hr Hu IH]; intros next Hbad; [by destruct Hbad|].
  simpl. destruct (_ || _) eqn:E; [done|].
  apply bad_region_test in E; [|done].
  rewrite r_end_ok by (destruct E; lia). simpl. rewrite r_end_ok by (destruct Hm; lia).
  assert (~ Forall valid_region rs) by (intros ?; apply Hbad; by constructor).
  case_match; simpl; by apply IH.
Qed.

Lemma find_next_spec m cursor rs next :
  valid_region m -> Forall valid_region rs ->
  exists next', find_next m cursor rs next = Ok next' /\
    match next' with
    | Some r =>
      (next = Some r \/ (r ∈ rs /\ qualifies m cursor r)) /\
      (forall r', r' ∈ rs -> qualifies m cursor r' -> r_base r <= r_base r') /\
      (forall n, next = Some n -> r_base r <= r_base n)
    | None => next = None /\ forall r', r' ∈ rs -> ~ qualifies m cursor r'
    end.
Proof.
  intros Hm Hv. revert next. induction Hv as [|r rs Hr Hv IH]; intros next.
  { exists next. split; [done|]. destruct next; set_solver by lia. }
  simpl. rewrite (proj2 (bad_region_test r ltac:(destruct Hr as (?&?&?); split; split; lia)) Hr).
  rewrite r_end_ok by (destruct Hr; lia). simpl. rewrite r_end_ok by (destruct Hm; lia).
  destruct (cursor <? _) eqn:E1; simpl;
    [destruct (r_base r <? _) eqn:E2|]; bool_to_prop.
  - set (nx := match next with Some _ => _ | None => _ end).
    destruct (IH nx) as (next' & -> & H). exists next'. split; [done|].
    assert (Hq : qualifies m cursor r) by (split; lia).
    destruct next' as [n|].
    + destruct H as (Hin & Hmin & Hnx). subst nx. setoid_rewrite elem_of_cons.
      destruct next as [n0|]; [case_match; bool_to_prop|]; split_and!; try naive_solver lia.
      * intros r' [->|Hr'] Hq'; [specialize (Hnx _ eq_refl); lia|eauto].
      * intros n1 [= <-]. specialize (Hnx _ eq_refl). lia.
    + destruct H as [H _]. subst nx. by destruct next; [case_match|].
  - destruct (IH next) as (next' & -> & H). exists next'. split; [done|].
    assert (~ qualifies m cursor r) by (unfold qualifies; lia).
    destruct next'; setoid_rewrite elem_of_cons; naive_solver.
  - destruct (IH next) as (next' & -> & H). exists next'. split; [done|].
    assert (~ qualifies m cursor r) by (unfold qualifies; lia).
    destruct next'; setoid_rewrite elem_of_cons; naive_solver.
Qed.

(** [p] lies in a reserved region. *)
Definition reserved_at (reserved : list PhysRegion) (p : Z) : Prop := Exists (in_region p) reserved.

#[export] Instance reserved_at_dec reserved p : Decision (reserved_at reserved p).
Proof. unfold reserved_at. apply _. Defined.

#[export] Instance qualifies_dec m cursor r : Decision (qualifies m cursor r).
Proof. unfold qualifies. apply _. Defined.

(** What one call of [push_untypeds] appends for the part of the region from
    [cursor] on: fresh untyped capabilities covering exactly the unreserved
    addresses, once each. *)
Definition gaps_exact (reserved : list PhysRegion) (lo hi : Z) (gaps : list Cap.t) : Prop :=
  Forall fresh_untyped gaps /\
  forall p, coverage p gaps = if decide (lo <= p < hi /\ ~ reserved_at reserved p) then 1%nat else 0%nat.

Lemma gaps_nil reserved lo hi :
  (forall p, lo <= p < hi -> reserved_at reserved p) -> gaps_exact reserved lo hi [].
Proof. intros H. split; [done|]. intros p. rewrite decide_False by naive_solver. done. Qed.

Lemma gaps_cons reserved lo mid mid' hi gaps :
  0 <= lo < mid -> mid < U64 -> mid <= mid' -> mid <= hi ->
  (forall p, lo <= p < mid -> ~ reserved_at reserved p) ->
  (forall p, mid <= p < mid' -> p < hi -> reserved_at reserved p) ->
  gaps_exact reserved mid' hi gaps ->
  gaps_exact reserved lo hi (Cap.Untyped lo (mid - lo) 0 :: gaps).
Proof.
  intros Hlo Hmid Hmid' Hhi Hfree Hres [Hf Hc]. split; [constructor; [simpl; lia|done]|].
  intros p. change (?c :: gaps) with ([c] ++ gaps). rewrite coverage_app, coverage_one, Hc. simpl.
  specialize (Hfree p). specialize (Hres p).
  destruct (decide (reserved_at reserved p)) as [HR|HR].
  - rewrite !(decide_and_false _ (~ reserved_at reserved p)) by tauto. rewrite decide_False; [done|].
    intros ?. apply Hfree; [lia|done].
  - rewrite !(decide_and_true _ (~ reserved_at reserved p)) by done.
    destruct (decide (mid <= p < mid' /\ p < hi)) as [[? ?]|?]; [by destruct HR; auto|].
    repeat case_decide; lia.
Qed.

Lemma gaps_skip reserved lo mid hi gaps :
  lo <= mid -> (forall p, lo <= p < mid -> p < hi -> reserved_at reserved p) ->
  gaps_exact reserved mid hi gaps -> gaps_exact reserved lo hi gaps.
Proof.
  intros Hle Hres [Hf Hc]. split; [done|]. intros p. rewrite Hc. specialize (Hres p).
  destruct (decide (reserved_at reserved p)) as [HR|HR].
  - by rewrite !(decide_and_false _ (~ reserved_at reserved p)) by tauto.
  - rewrite !(decide_and_true _ (~ reserved_at reserved p)) by done.
    destruct (decide (lo <= p < mid /\ p < hi)) as [[? ?]|?]; [by destruct HR; auto|].
    repeat case_decide; lia.
Qed.

Section push_untypeds.
Context (m : PhysRegion) (reserved : list PhysRegion).
Context (Hm : valid_region m) (Hres : Forall valid_region reserved).

Let hi := r_base m + r_size m.

(** No reserved address below the region that the scan selected. *)
Lemma free_below cursor lim :
  (forall r', r' ∈ reserved -> qualifies m cursor r' -> lim <= r_base r') ->
  forall p, cursor <= p < lim -> p < hi -> ~ reserved_at reserved p.
Proof.
  intros Hmin p Hp Hhi [r [Hr Hin]]%list.Exists_exists. unfold in_region in Hin.
  assert (qualifies m cursor r) as Hq by (unfold qualifies, hi in *; lia).
  specialize (Hmin r Hr Hq). lia.
Qed.

(** [run] appends the free parts of the region from [lo] on, or lacks slots. *)
Definition pushes (lo : Z) (run : M CNode CapError.t unit) (cn : CNode) : Prop :=
  exists r cn', run cn = (r, cn') /\ cnode_wf cn' /\
    (r = Err CapError.OutOfSlots \/
     r = Ok tt /\ exists gaps, filled cn' = filled cn ++ gaps /\ gaps_exact reserved lo hi gaps).

Lemma pushes_none lo cn : cnode_wf cn -> hi <= lo -> pushes lo (ret tt) cn.
Proof.
  intros Hwf Hlo. exists (Ok tt), cn. split; [done|]. split; [done|]. right. split; [done|].
  exists []. rewrite app_nil_r. split; [done|]. apply gaps_nil. intros; lia.
Qed.

(** A free part up to [mid], then [rest] from behind the reserved part. *)
Lemma pushes_gap lo mid mid' rest cn :
  cnode_wf cn -> 0 <= lo < mid -> mid < U64 -> mid <= mid' -> mid <= hi ->
  (forall p, lo <= p < mid -> ~ reserved_at reserved p) ->
  (forall p, mid <= p < mid' -> p < hi -> reserved_at reserved p) ->
  (forall cn0, cnode_wf cn0 -> pushes mid' rest cn0) ->
  pushes lo (do! _ := (do! sz := lift (sub_p mid lo) in push (Cap.Untyped lo sz 0)) in rest) cn.
Proof.
  intros Hwf Hlo Hmid Hle Hhi Hfree Hin Hrest. unfold pushes, bind, lift. rewrite sub_p_ok by lia.
  destruct (push _ cn) as [r1 cn1] eqn:Hp. apply push_inv in Hp; [|done].
  destruct Hp as [(-> & Hwf1 & Hf1)|(-> & ->)]; [|by exists (Err CapError.OutOfSlots), cn; eauto].
  destruct (Hrest cn1 Hwf1) as (r' & cn' & HE & Hwf' & Hr'). exists r', cn'.
  split; [exact HE|]. split; [done|]. destruct Hr' as [->|[-> (gaps & Hg & Hex)]]; [by left|].
  right. split; [done|]. exists (Cap.Untyped lo (mid - lo) 0 :: gaps).
  rewrite Hg, Hf1, <- app_assoc. split; [done|]. by eapply (gaps_cons _ _ _ mid').
Qed.

Lemma pushes_skip lo mid run cn :
  lo <= mid -> (forall p, lo <= p < mid -> p < hi -> reserved_at reserved p) -> pushes mid run cn -> pushes lo run cn.
Proof.
  intros Hle Hin (r' & cn' & HE & Hwf' & Hr'). exists r', cn'. split; [done|]. split; [done|].
  destruct Hr' as [->|[-> (gaps & Hg & Hex)]]; [by left|]. right. split; [done|]. exists gaps. split; [done|]. by eapply gaps_skip.
Qed.

Lemma pushes_last lo cn :
  cnode_wf cn -> 0 <= lo < hi -> hi < U64 -> (forall p, lo <= p < hi -> ~ reserved_at reserved p) ->
  pushes lo (do! sz := lift (sub_p hi lo) in push (Cap.Untyped lo sz 0)) cn.
Proof.
  intros Hwf Hlo Hhi Hfree. pose proof (pushes_gap lo hi hi (ret tt) cn Hwf Hlo Hhi) as Hg.
  destruct Hg as (r & cn' & HE & Hx); [lia|lia|done|intros; lia|intros; by apply pushes_none|].
  exists r, cn'. split; [|done]. rewrite <- HE.
  assert (Hb : forall n : M CNode CapError.t unit, n cn = bind n (fun _ => ret tt) cn); [|apply Hb].
  intros n. unfold bind, ret. by destruct (n cn) as [[[]| | |] cn1].
Qed.

Lemma push_untypeds_loop_spec fuel cursor cn :
  cnode_wf cn -> r_base m <= cursor ->
  (length (filter (qualifies m cursor) reserved) < fuel)%nat ->
  pushes cursor (push_untypeds_loop fuel m reserved cursor) cn.
Proof.
  revert cursor cn. induction fuel as [|fuel IH]; intros cursor cn Hwf Hcur Hfuel; [lia|].
  pose proof Hm as (Hm0 & Hms & Hmu). unfold pushes. cbn [push_untypeds_loop]. unfold bind at 1, lift at 1.
  destruct (find_next_spec m cursor reserved None Hm Hres) as (next & -> & Hnext).
  unfold bind at 1, lift at 1. rewrite r_end_ok by done. fold hi. destruct next as [r|].
  - destruct Hnext as ([|[Hr Hq]] & Hmin & _); [done|].
    destruct (proj1 (list.Forall_forall _ _) Hres r Hr) as (Hr0 & Hrs & Hru). pose proof Hq as [Hq1 Hq2]. fold hi in Hq2.
    unfold bind at 1, lift at 1. rewrite r_end_ok by done. set (re := r_base r + r_size r) in *.
    assert (Hin : forall p, r_base r <= p < re -> reserved_at reserved p).
    { intros p Hp. apply list.Exists_exists. exists r. split; [done|]. unfold in_region; lia. }
    pose proof (free_below cursor (r_base r) Hmin) as Hfree.
    assert (Hrest : forall cn0, cnode_wf cn0 ->
        pushes re (if hi <=? re then ret tt else push_untypeds_loop fuel m reserved (Z.max re cursor)) cn0).
    { intros cn0 Hwf0. case_match eqn:Ehi; bool_to_prop; [by apply pushes_none|]. rewrite Z.max_l by lia.
      apply IH; [done|lia|]. eapply Nat.lt_le_trans; [|apply Nat.lt_succ_r, Hfuel].
      apply (length_filter_lt _ _ _ r); unfold qualifies; [lia|done|done|]. fold re. lia. }
    destruct (cursor <? r_base r) eqn:Ec; bool_to_prop.
    + rewrite Z.min_l by lia. apply (pushes_gap cursor (r_base r) re); try lia; [done| | |done]; intros p Hp.
      * apply Hfree; lia.
      * intros _. by apply Hin.
    + apply (pushes_skip cursor re); [lia|intros; apply Hin; lia|by apply Hrest].
  - destruct Hnext as [_ Hnone]. case_match eqn:Ec; bool_to_prop; [|by apply pushes_none].
    apply pushes_last; [done|lia|lia|]. intros p Hp. apply (free_below cursor hi); [naive_solver|lia|lia].
Qed.

Lemma push_untypeds_spec cn :
  cnode_wf cn ->
  exists r cn', push_untypeds m reserved cn = (r, cn') /\ cnode_wf cn' /\
    (r = Err CapError.OutOfSlots \/
     r = Ok tt /\ exists gaps, filled cn' = filled cn ++ gaps /\
       gaps_exact reserved (r_base m) hi gaps).
Proof.
  intros Hwf. apply (push_untypeds_loop_spec (S (length reserved))); [done|lia|].
  apply Nat.lt_succ_r, length_filter.
Qed.
End push_untypeds.

Lemma any_overlap_spec prev m :
  valid_region m -> Forall valid_region prev ->
  exists b, any_overlap prev m = Ok b /\
    if b then exists o, o ∈ prev /\ ~ disjoint_regions o m
    else Forall (fun o => disjoint_regions o m) prev.
Proof.
  intros Hm Hp. induction Hp as [|o prev Ho Hp IH]; [by exists false|].
  simpl. rewrite r_end_ok by (destruct Hm; lia). simpl.
  rewrite r_end_ok by (destruct Ho; lia).
  destruct (r_base o <? _) eqn:E1; simpl; [destruct (r_base m <? _) eqn:E2|]; bool_to_prop.
  - exists true. split; [done|]. exists o. split; [apply elem_of_cons; by left|].
    unfold disjoint_regions. lia.
  - destruct IH as (b & -> & Hb). exists b. split; [done|]. destruct b.
    + destruct Hb as (o' & Ho' & ?). exists o'. by rewrite elem_of_cons; auto.
    + constructor; [unfold disjoint_regions; lia|done].
  - destruct IH as (b & -> & Hb). exists b. split; [done|]. destruct b.
    + destruct Hb as (o' & Ho' & ?). exists o'. by rewrite elem_of_cons; auto.
    + constructor; [unfold disjoint_regions; lia|done].
Qed.

(** A memory map [populate] accepts: every region non-empty and without
    overflow, and no two regions overlapping. *)
Definition regions_ok (memory : list PhysRegion) : Prop :=
  Forall valid_region memory /\ ForallOrdPairs disjoint_regions memory.

Lemma ForallOrdPairs_app {A} (R : A -> A -> Prop) l1 l2 :
  ForallOrdPairs R (l1 ++ l2) <->
  ForallOrdPairs R l1 /\ ForallOrdPairs R l2 /\ Forall (fun x => Forall (R x) l2) l1.
Proof.
  induction l1 as [|x l1 IH]; simpl; [intuition constructor|].
  split.
  - intros H. inversion H as [|? ? Hx Hl]; subst. apply IH in Hl as (? & ? & ?).
    apply Forall_app in Hx as [? ?]. split_and!; [by constructor|done|by constructor].
  - intros (H & H2 & Hf). inversion H; subst. inversion Hf; subst.
    constructor; [by apply Forall_app|by apply IH].
Qed.

Lemma check_regions_spec prev ms :
  Forall u64_region ms -> regions_ok prev ->
  check_regions prev ms = Ok tt /\ regions_ok (prev ++ ms) \/
  check_regions prev ms = Err CapError.BadRegion /\ ~ regions_ok (prev ++ ms).
Proof.
  intros Hu. revert prev. induction Hu as [|m ms Hm Hu IH]; intros prev Hprev.
  { left. by rewrite app_nil_r. }
  simpl. destruct (_ || _) eqn:E.
  { right. split; [done|]. intros [Hv _]. apply Forall_app in Hv as [_ Hv].
    apply list.Forall_cons in Hv as [Hv _]. apply (bad_region_test m Hm) in Hv. by rewrite E in Hv. }
  apply bad_region_test in E; [|done].
  destruct (any_overlap_spec prev m E (proj1 Hprev)) as (b & -> & Hb). simpl. destruct b.
  - right. split; [done|]. intros [_ Hp]. destruct Hb as (o & Ho & Hno). destruct Hno.
    apply ForallOrdPairs_app in Hp as (_ & _ & Hp). rewrite list.Forall_forall in Hp.
    specialize (Hp o Ho). apply list.Forall_cons in Hp. tauto.
  - change (m :: ms) with ([m] ++ ms). rewrite app_assoc. apply IH.
    destruct Hprev as [Hv Hd]. split; [by apply Forall_app; auto|].
    apply ForallOrdPairs_app. split_and!; [done|by repeat constructor|].
    eapply list.Forall_impl; [exact Hb|]. intros; by constructor.
Qed.

(** [p] lies in a memory region. *)
Definition memory_at (memory : list PhysRegion) (p : Z) : Prop := Exists (in_region p) memory.

#[export] Instance memory_at_dec memory p : Decision (memory_at memory p).
Proof. unfold memory_at. apply _. Defined.

Lemma push_all_untypeds_bad m ms reserved cn :
  valid_region m -> Forall u64_region reserved -> ~ Forall valid_region reserved ->
  push_all_untypeds (m :: ms) reserved cn = (Err CapError.BadRegion, cn).
Proof.
  intros Hm Hu Hbad. cbn [push_all_untypeds]. unfold push_untypeds, bind at 1.
  cbn [push_untypeds_loop]. unfold bind at 1, lift at 1. by rewrite find_next_bad.
Qed.

(** The coverage that a list of disjoint memory regions must get. *)
Lemma coverage_memory_cons reserved m ms p :
  Forall (disjoint_regions m) ms ->
  Nat.add
    (if decide (r_base m <= p < r_base m + r_size m /\ ~ reserved_at reserved p) then 1%nat else 0%nat)
    (if decide (memory_at ms p /\ ~ reserved_at reserved p) then 1%nat else 0%nat) =
  if decide (memory_at (m :: ms) p /\ ~ reserved_at reserved p) then 1%nat else 0%nat.
Proof.
  intros Hd. destruct (decide (reserved_at reserved p)) as [HR|HR].
  { by rewrite !(decide_and_false _ (~ reserved_at reserved p)) by tauto. }
  rewrite !(decide_and_true _ (~ reserved_at reserved p)) by done.
  assert (Hc : memory_at (m :: ms) p <-> in_region p m \/ memory_at ms p) by apply Exists_cons.
  assert (Hx : in_region p m -> ~ memory_at ms p).
  { intros Hin [o [Ho Hino]]%list.Exists_exists. rewrite list.Forall_forall in Hd.
    specialize (Hd o Ho). unfold disjoint_regions, in_region in *. lia. }
  change (r_base m <= p < r_base m + r_size m) with (in_region p m).
  repeat case_decide; tauto.
Qed.

Lemma push_all_untypeds_spec ms reserved cn :
  regions_ok ms -> Forall valid_region reserved -> cnode_wf cn ->
  exists r cn', push_all_untypeds ms reserved cn = (r, cn') /\ cnode_wf cn' /\
    (r = Err CapError.OutOfSlots \/
     r = Ok tt /\ exists uts, filled cn' = filled cn ++ uts /\ Forall fresh_untyped uts /\
       forall p, coverage p uts =
         if decide (memory_at ms p /\ ~ reserved_at reserved p) then 1%nat else 0%nat).
Proof.
  intros [Hv Hd] Hr. revert cn. induction Hd as [|m ms Hm Hd IH]; intros cn Hwf.
  { exists (Ok tt), cn. split; [done|]. split; [done|]. right. split; [done|].
    exists []. rewrite app_nil_r. split_and!; [done|done|]. intros p.
    rewrite decide_False; [done|]. intros [H%Exists_nil _]. done. }
  apply list.Forall_cons in Hv as [Hvm Hv]. cbn [push_all_untypeds]. unfold bind.
  destruct (push_untypeds_spec m reserved Hvm Hr cn Hwf) as (r & cn1 & -> & Hwf1 & Hr1).
  destruct Hr1 as [->|(-> & gaps & Hf1 & Hg & Hc)]; [by eauto 10|].
  destruct (IH Hv cn1 Hwf1) as (r' & cn2 & -> & Hwf2 & Hr2). exists r', cn2.
  split; [done|]. split; [done|]. destruct Hr2 as [->|(-> & uts & Hf2 & Hu & Hc2)]; [by left|].
  right. split; [done|]. exists (gaps ++ uts). rewrite Hf2, Hf1, <- app_assoc.
  split_and!; [done|by apply Forall_app|]. intros p.
  rewrite coverage_app, Hc, Hc2. by apply coverage_memory_cons.
Qed.

(** The four fixed slots of the root CNode. *)
Definition fixed_slots (root : Z) : list Cap.t :=
  [Cap.Empty; Cap.RootTcb; Cap.AddrSpace root; Cap.Console].

Lemma populate_unfold memory reserved root :
  exists cn0, cnode_wf cn0 /\ filled cn0 = fixed_slots root /\
    populate memory reserved root empty_cnode =
      match check_regions [] memory with
      | Ok _ => push_all_untypeds memory reserved cn0
      | Err e => (Err e, empty_cnode)
      | Panic => (Panic, empty_cnode)
      | OutOfFuel => (OutOfFuel, empty_cnode)
      end.
Proof.
  eexists. split; [|split; [|]]; cycle 2.
  - unfold populate, bind at 1, lift at 1. destruct (check_regions [] memory); try reflexivity.
  - split; [reflexivity|]. simpl. unfold CNODE_SLOTS. lia.
  - reflexivity.
Qed.

(** What a successful [populate] leaves in the CNode. *)
Lemma populate_ok memory reserved root cn :
  Forall u64_region memory -> Forall u64_region reserved ->
  populate memory reserved root empty_cnode = (Ok tt, cn) ->
  cnode_wf cn /\
  exists uts, filled cn = fixed_slots root ++ uts /\ Forall fresh_untyped uts /\
    forall p, coverage p uts =
      if decide (memory_at memory p /\ ~ reserved_at reserved p) then 1%nat else 0%nat.
Proof.
  intros Hm Hr H. destruct (populate_unfold memory reserved root) as (cn0 & Hwf & Hf & Hp).
  rewrite Hp in H.
  destruct (check_regions_spec [] memory Hm) as [[E Hok]|[E _]]; [by split; constructor| |];
    rewrite E in H; [|done].
  destruct (decide (Forall valid_region reserved)) as [Hv|Hv].
  - destruct (push_all_untypeds_spec memory reserved cn0 Hok Hv Hwf) as (r & cn' & Hpa & Hwf' & Hc).
    rewrite Hpa in H. simplify_eq. destruct Hc as [|(_ & uts & ? & ? & ?)]; [done|].
    split; [done|]. exists uts. rewrite <- Hf. done.
  - destruct memory as [|m ms].
    + simpl in H. unfold ret in H. simplify_eq. split; [done|].
      exists []. rewrite app_nil_r. split_and!; [done|done|].
      intros p. rewrite decide_False; [done|]. intros [H%Exists_nil _]. done.
    + destruct Hok as [Hvm _]. apply list.Forall_cons in Hvm as [Hvm _].
      by rewrite push_all_untypeds_bad in H.
Qed.

Lemma populate_total memory reserved root :
  Forall u64_region memory -> Forall u64_region reserved ->
  exists r cn, populate memory reserved root empty_cnode = (r, cn) /\ returns r /\
    (r = Err CapError.BadRegion <->
     ~ (regions_ok memory /\ (memory = [] \/ Forall valid_region reserved))).
Proof.
  intros Hm Hr. destruct (populate_unfold memory reserved root) as (cn0 & Hwf & Hf & ->).
  destruct (check_regions_spec [] memory Hm) as [[-> Hok]|[-> Hbad]]; [by split; constructor| |].
  2:{ simpl in Hbad. eexists _, _. split; [done|]. split; [done|]. tauto. }
  simpl in Hok. destruct (decide (Forall valid_region reserved)) as [Hv|Hv].
  - destruct (push_all_untypeds_spec memory reserved cn0 Hok Hv Hwf) as (r & cn' & -> & _ & Hc).
    exists r, cn'. split; [done|]. destruct Hc as [->|(-> & _)]; (split; [done|]); naive_solver.
  - destruct memory as [|m ms].
    + exists (Ok tt), cn0. split; [done|]. split; [done|]. naive_solver.
    + pose proof Hok as [Hvm _]. apply list.Forall_cons in Hvm as [Hvm _].
      rewrite push_all_untypeds_bad by done. eexists _, _. split; [done|]. split; [done|]. naive_solver.
Qed.

(** ** Bootstrap: theorems *)

(** A successful bootstrap fills the four fixed slots and then gives out
    exactly "memory minus reserved": every physical address that lies in a
    memory region and in no reserved region is covered by exactly one untyped
    capability, every other address by none, and every untyped starts with an
    empty watermark.  In particular no untyped overlaps a reserved region or
    another untyped. *)
Lemma populate_exact memory reserved root cn :
  Forall u64_region memory -> Forall u64_region reserved ->
  populate memory reserved root empty_cnode = (Ok tt, cn) ->
  exists uts, filled cn = fixed_slots root ++ uts /\ Forall fresh_untyped uts /\
    forall p, coverage p uts =
      if decide (memory_at memory p /\ ~ reserved_at reserved p) then 1%nat else 0%nat.
Proof. intros Hm Hr H. by apply (populate_ok memory reserved root cn Hm Hr H). Qed.

(** bootstrap is total and its errors are exact: on any memory map the loops
    terminate without a panic; the result is [BadRegion] exactly when a memory
    region is empty, overflows or overlaps another one, or a reserved region is
    empty or overflows; the only other failure is a full CNode. *)
Lemma populate_errors memory reserved root :
  Forall u64_region memory -> Forall u64_region reserved ->
  exists r cn, populate memory reserved root empty_cnode = (r, cn) /\ returns r /\
    (r = Err CapError.BadRegion <->
     ~ (regions_ok memory /\ (memory = [] \/ Forall valid_region reserved))).
Proof. apply populate_total. Qed.

(** ** Retype *)

(** The physical range a capability owns exclusively: the part of an untyped
    above its watermark, the granule of an object. *)
Definition extent (g : Z) (c : Cap.t) : option (Z * Z) :=
  match c with
  | Cap.Untyped b s u => Some (b + u, b + s)
  | Cap.Frame b _ | Cap.PageTable b _ | Cap.Tcb b | Cap.Endpoint b => Some (b, b + g)
  | _ => None
  end.

Definition cap_wf (g : Z) (c : Cap.t) : Prop :=
  match c with
  | Cap.Untyped b s u => 0 <= b /\ 0 < s /\ b + s < U64 /\ 0 <= u <= s
  | Cap.Frame b _ | Cap.PageTable b _ | Cap.Tcb b | Cap.Endpoint b =>
      0 <= b /\ b + g < U64 /\ b mod g = 0
  | _ => True
  end.

(** Two capabilities own disjoint ranges. *)
Definition disjoint_caps (g : Z) (c1 c2 : Cap.t) : Prop :=
  match extent g c1, extent g c2 with
  | Some (l1, h1), Some (l2, h2) => h1 <= l2 \/ h2 <= l1
  | _, _ => True
  end.

(** The CNode invariant: well-formed capabilities, owning pairwise disjoint
    ranges, all inside the [allowed] physical addresses. *)
Record caps_inv (g : Z) (allowed : Z -> Prop) (cn : CNode) : Prop := {
  ci_wf : cnode_wf cn;
  ci_caps : Forall (cap_wf g) (filled cn);
  ci_disjoint : forall i j c1 c2, i <> j ->
    filled cn !! i = Some c1 -> filled cn !! j = Some c2 -> disjoint_caps g c1 c2;
  ci_allowed : forall i c lo hi p,
    filled cn !! i = Some c -> extent g c = Some (lo, hi) -> lo <= p < hi -> allowed p
}.

Section carve.
Context (k : Z) (Hk : 0 <= k <= 32).
Let g := 2 ^ k.

Lemma carve_range_spec b s u :
  cap_wf g (Cap.Untyped b s u) ->
  (exists c, carve_range b s u g = Ok (c, c + g) /\ c = round_up g (b + u) /\ c + g <= b + s) \/
  (carve_range b s u g = Err RetypeError.Exhausted /\ b + s < round_up g (b + u) + g).
Proof.
  intros (Hb & Hs & Hbs & Hu).
  assert (Hg : 0 < g <= 2 ^ 32) by (subst g; split; [apply Z.pow_pos_nonneg|apply Z.pow_le_mono_r]; lia).
  pose proof (round_up_spec g (b + u) ltac:(lia)) as [_ Hr].
  unfold carve_range. rewrite (proj2 (checked_add_Some b u (b + u))) by lia. simpl.
  destruct (checked_add (b + u) (g - 1)) as [up|] eqn:E1; simpl.
  2:{ apply checked_add_None in E1. right. split; [done|]. lia. }
  apply checked_add_Some in E1 as [-> E1].
  assert (Hland : Z.land (b + u + (g - 1)) (not64 (g - 1)) = round_up g (b + u)).
  { unfold g. rewrite land_not64_pow2; [done|lia|]. fold g. split; lia. }
  rewrite Hland. destruct (checked_add (round_up g (b + u)) g) as [ce|] eqn:E2; simpl.
  2:{ apply checked_add_None in E2. right. split; [done|]. lia. }
  apply checked_add_Some in E2 as [-> E2]. rewrite add_p_ok by lia. simpl.
  destruct (_ <? _) eqn:E3; bool_to_prop; [by right|left]. eexists. split; [done|]. split; [done|lia].
Qed.
End carve.

Lemma filled_lookup cn i c :
  cnode_wf cn -> filled cn !! i = Some c <-> (Z.of_nat i < used cn) /\ slots cn !! i = Some c.
Proof.
  intros [Hlen Hu]. unfold filled. rewrite lookup_take_Some. split; intros [? ?]; split; (done || lia).
Qed.

Lemma get_slots_filled cn slot :
  cnode_wf cn -> 0 <= slot < used cn -> get (slots cn) slot = filled cn !! Z.to_nat slot.
Proof.
  intros [Hlen Hu] Hs. unfold get, filled. rewrite lookup_take_lt by lia.
  rewrite Hlen. unfold CNODE_SLOTS in *. case_match eqn:E; bool_to_prop; [done|lia].
Qed.

Lemma cap_spec cn slot :
  cnode_wf cn -> is_u64 slot -> cap cn slot = filled cn !! Z.to_nat slot.
Proof.
  intros Hwf [Hs _]. unfold cap, get. destruct (_ && _) eqn:E; [done|].
  symmetry. apply lookup_ge_None. bool_to_prop. lia.
Qed.

Lemma filled_set_slot cn slot c :
  filled (set_slot cn slot c) = <[Z.to_nat slot := c]> (filled cn).
Proof.
  unfold filled, set_slot, set; simpl. rewrite take_insert. case_decide; [done|].
  symmetry. apply list_insert_ge. rewrite length_take. lia.
Qed.

Lemma set_slot_wf cn slot c : cnode_wf cn -> cnode_wf (set_slot cn slot c).
Proof. intros [Hl Hu]. split; [|done]. unfold set_slot, set; simpl. by rewrite length_insert. Qed.

(** The state after a successful retype. *)
Definition retyped (k : Z) (cn cn' : CNode) (slot : Z) (kind : ObjKind.t) (b s u c : Z) : Prop :=
  let g := 2 ^ k in
  c = round_up g (b + u) /\ c + g <= b + s /\ cnode_wf cn' /\ used cn' = used cn + 1 /\
  filled cn' = <[Z.to_nat slot := Cap.Untyped b s (c + g - b)]> (filled cn) ++ [new_cap kind c].

Section retype.
Context (k : Z) (Hk : 0 <= k <= 32) {W : Type} (prep : Z -> W -> res Empty_set bool * W).
#[local] Abbreviation g := (2 ^ k) (only parsing).

(** What [retype] does, branch by branch, on a well-formed CNode. *)
Lemma retype_cases cn w slot kind :
  cnode_wf cn -> Forall (cap_wf g) (filled cn) -> is_u64 slot ->
  match cap cn slot with
  | None => retype slot kind g prep (cn, w) = (Err RetypeError.BadSlot, (cn, w))
  | Some (Cap.Untyped b s u) =>
    if used cn =? CNODE_SLOTS
    then retype slot kind g prep (cn, w) = (Err RetypeError.OutOfSlots, (cn, w))
    else
      let c := round_up g (b + u) in
      if b + s <? c + g
      then retype slot kind g prep (cn, w) = (Err RetypeError.Exhausted, (cn, w))
      else match prep c w with
        | (Ok true, w') => exists cn', retyped k cn cn' slot kind b s u c /\
            retype slot kind g prep (cn, w) = (Ok (used cn), (cn', w'))
        | (Ok false, w') => retype slot kind g prep (cn, w) = (Err RetypeError.PrepFailed, (cn, w'))
        | (Err e, _) => match e with end
        | (Panic, w') => retype slot kind g prep (cn, w) = (Panic, (cn, w'))
        | (OutOfFuel, w') => retype slot kind g prep (cn, w) = (OutOfFuel, (cn, w'))
        end
  | Some _ => retype slot kind g prep (cn, w) = (Err RetypeError.NotUntyped, (cn, w))
  end.
Proof.
  intros Hwf Hcaps Hs. rewrite cap_spec by done. unfold retype.
  destruct (used cn <=? slot) eqn:Eu; bool_to_prop.
  { rewrite (proj2 (lookup_ge_None (filled cn) _)); [done|]. rewrite length_filled by done. lia. }
  rewrite get_slots_filled by (done || (destruct Hs; lia)).
  destruct (filled cn !! Z.to_nat slot) as [c0|] eqn:Ec.
  2:{ apply lookup_ge_None in Ec. rewrite length_filled in Ec by done. destruct Hs. lia. }
  destruct c0 as [| | | | |b s u| | |]; try done.
  destruct (used cn =? CNODE_SLOTS) eqn:Ef; bool_to_prop; [done|].
  assert (Hc : cap_wf g (Cap.Untyped b s u)) by (rewrite Forall_lookup in Hcaps; by apply (Hcaps _ _ Ec)).
  destruct (carve_range_spec k Hk b s u Hc) as [(c & HE & Hc1 & Hfit)|[HE Hno]]; rewrite HE.
  2:{ cbv zeta. by rewrite (proj2 (Z.ltb_lt _ _)). }
  subst c. cbv zeta. rewrite (proj2 (Z.ltb_ge _ _)) by lia.
  destruct (prep _ w) as [[[]|[]| |] w'] eqn:Ep; try done.
  set (cn1 := set_slot _ _ _).
  destruct (push_ok cn1 (new_cap kind (round_up g (b + u)))) as (cn' & -> & Hwf' & Hu' & Hf').
  { by apply set_slot_wf. }
  { simpl. destruct Hwf. lia. }
  exists cn'. split; [|done]. repeat (split; [done|]). rewrite Hf'. subst cn1.
  by rewrite filled_set_slot.
Qed.
End retype.

Lemma disjoint_caps_sym g c1 c2 : disjoint_caps g c1 c2 -> disjoint_caps g c2 c1.
Proof. unfold disjoint_caps. repeat case_match; tauto. Qed.

(** A capability whose range shrank stays disjoint from the others. *)
Lemma disjoint_caps_shrink g c c' c2 :
  (forall lo' hi', extent g c' = Some (lo', hi') ->
     exists lo hi, extent g c = Some (lo, hi) /\ lo <= lo' /\ hi' <= hi) ->
  disjoint_caps g c c2 -> disjoint_caps g c' c2.
Proof.
  unfold disjoint_caps. intros Hs. destruct (extent g c') as [[lo' hi']|]; [|done].
  destruct (Hs lo' hi' eq_refl) as (lo & hi & -> & ? & ?). repeat case_match; lia || done.
Qed.

Lemma extent_new_cap g kind c : extent g (new_cap kind c) = Some (c, c + g).
Proof. by destruct kind. Qed.

Section retype_inv.
Context (k : Z) (Hk : 0 <= k <= 32) (allowed : Z -> Prop).
#[local] Abbreviation g := (2 ^ k) (only parsing).

Lemma retyped_inv cn cn' slot kind b s u c :
  caps_inv g allowed cn -> filled cn !! Z.to_nat slot = Some (Cap.Untyped b s u) ->
  retyped k cn cn' slot kind b s u c -> caps_inv g allowed cn'.
Proof.
  intros [Hwf Hcaps Hdis Hall] Hslot (Hc & Hfit & Hwf' & Hu' & Hf').
  assert (Hg : 0 < g) by (apply Z.pow_pos_nonneg; lia).
  pose proof (round_up_spec g (b + u) Hg) as [Hal Hr]. rewrite <- Hc in *.
  assert (Hcw : cap_wf g (Cap.Untyped b s u)) by (rewrite Forall_lookup in Hcaps; eauto).
  destruct Hcw as (Hb & Hs & Hbs & Hub).
  set (un := Cap.Untyped b s (c + g - b)) in *.
  assert (Hlook : forall i c1, filled cn' !! i = Some c1 ->
    (c1 = new_cap kind c /\ i = length (filled cn)) \/ (c1 = un /\ i = Z.to_nat slot) \/
    (i <> Z.to_nat slot /\ i <> length (filled cn) /\ filled cn !! i = Some c1)).
  { intros i c1. rewrite Hf', lookup_snoc_Some, length_insert, list_lookup_insert_Some.
    pose proof (lookup_lt_Some _ _ _ Hslot). naive_solver lia. }
  assert (Hsh_un : forall c2, disjoint_caps g (Cap.Untyped b s u) c2 -> disjoint_caps g un c2).
  { intros c2. apply disjoint_caps_shrink. simpl. intros ? ? [= <- <-]. eexists _, _. split; [done|lia]. }
  assert (Hsh_new : forall c2, disjoint_caps g (Cap.Untyped b s u) c2 ->
                          disjoint_caps g (new_cap kind c) c2).
  { intros c2. apply disjoint_caps_shrink. rewrite extent_new_cap.
    intros ? ? [= <- <-]. eexists _, _. split; [done|simpl; lia]. }
  assert (Hun_new : disjoint_caps g un (new_cap kind c)).
  { unfold disjoint_caps. rewrite extent_new_cap. simpl. lia. }
  split.
  - done.
  - rewrite Hf'. apply Forall_app. split; [apply Forall_insert; [done|simpl; lia]|].
    constructor; [|done]. destruct kind; simpl; lia.
  - intros i j c1 c2 Hij [[-> Hi]|[[-> Hi]|(Hi & Hi' & H1)]]%Hlook
      [[-> Hj]|[[-> Hj]|(Hj & Hj' & H2)]]%Hlook; try (subst; congruence);
      try (apply disjoint_caps_sym; by eauto); eauto.
  - intros i c1 lo hi p [[-> Hi]|[[-> Hi]|(Hi & Hi' & H1)]]%Hlook He Hp; [| |by eauto].
    + rewrite extent_new_cap in He. simplify_eq. eapply (Hall _ _ _ _ p Hslot eq_refl). lia.
    + simpl in He. simplify_eq. eapply (Hall _ _ _ _ p Hslot eq_refl). lia.
Qed.
End retype_inv.

Section retype_theorems.
Context (k : Z) (Hk : 0 <= k <= 32) {W : Type} (prep : Z -> W -> res Empty_set bool * W).
Context (allowed : Z -> Prop).
#[local] Abbreviation g := (2 ^ k) (only parsing).

Lemma retype_result cn w slot kind r cn' w' :
  caps_inv g allowed cn -> is_u64 slot -> retype slot kind g prep (cn, w) = (r, (cn', w')) ->
  (exists b s u c, filled cn !! Z.to_nat slot = Some (Cap.Untyped b s u) /\
     retyped k cn cn' slot kind b s u c /\ r = Ok (used cn) /\ prep c w = (Ok true, w')) \/
  (cn' = cn /\ match r with
     | Ok _ => False
     | Err RetypeError.BadSlot => w' = w /\ cap cn slot = None
     | Err RetypeError.NotUntyped => w' = w /\ exists c, cap cn slot = Some c /\
         forall b s u, c <> Cap.Untyped b s u
     | Err RetypeError.OutOfSlots => w' = w /\ used cn = CNODE_SLOTS
     | Err RetypeError.Exhausted => w' = w /\ exists b s u,
         cap cn slot = Some (Cap.Untyped b s u) /\
         forall c, c mod g = 0 -> b + u <= c -> b + s < c + g
     | Err RetypeError.PrepFailed => exists b s u, filled cn !! Z.to_nat slot = Some (Cap.Untyped b s u) /\
         round_up g (b + u) + g <= b + s /\ prep (round_up g (b + u)) w = (Ok false, w')
     | Panic => exists b s u, filled cn !! Z.to_nat slot = Some (Cap.Untyped b s u) /\
         round_up g (b + u) + g <= b + s /\ prep (round_up g (b + u)) w = (Panic, w')
     | OutOfFuel => exists b s u, filled cn !! Z.to_nat slot = Some (Cap.Untyped b s u) /\
         round_up g (b + u) + g <= b + s /\ prep (round_up g (b + u)) w = (OutOfFuel, w')
     end).
Proof.
  intros Hinv Hs H. pose proof (ci_wf _ _ _ Hinv) as Hwf.
  pose proof (retype_cases k Hk prep cn w slot kind Hwf (ci_caps _ _ _ Hinv) Hs) as Hc.
  destruct (cap cn slot) as [c0|] eqn:Ec; [|rewrite Hc in H; simplify_eq; by right].
  pose proof Ec as Ef. rewrite cap_spec in Ef by done.
  destruct c0 as [| | | | |b s u| | |];
    try (rewrite Hc in H; simplify_eq; right; split; [done|]; split; [done|]; by eauto).
  destruct (used cn =? CNODE_SLOTS) eqn:Efull; bool_to_prop; [rewrite Hc in H; simplify_eq; by right|].
  cbv zeta in Hc. destruct (_ <? _) eqn:Efit; bool_to_prop.
  - rewrite Hc in H. simplify_eq. right. split; [done|]. split; [done|]. eexists _, _, _. split; [done|].
    assert (Hg : 0 < g) by (apply Z.pow_pos_nonneg; lia).
    pose proof (round_up_spec g (b + u) Hg) as [Hal Hr].
    intros c Hmod Hle. enough (round_up g (b + u) <= c) by lia.
    apply (multiple_lt g); auto; lia.
  - destruct (prep _ w) as [[[]|[]| |] w1] eqn:Ep.
    + destruct Hc as (cn1 & Hret & Hc). rewrite Hc in H. simplify_eq. left. eauto 10.
    + rewrite Hc in H. simplify_eq. eauto 10.
    + rewrite Hc in H. simplify_eq. eauto 10.
    + rewrite Hc in H. simplify_eq. eauto 10.
Qed.
End retype_theorems.

(** ** The invariant holds after bootstrap *)

Lemma coverage_two p l i j a b :
  (i < j)%nat -> l !! i = Some a -> l !! j = Some b -> covers p a -> covers p b ->
  (2 <= coverage p l)%nat.
Proof.
  intros Hij Ha Hb Hca Hcb. rewrite <- (take_drop_middle l j b Hb), coverage_app.
  assert (Hin : a ∈ take j l).
  { apply list_elem_of_lookup. exists i. by rewrite lookup_take_lt. }
  assert (length (filter (covers p) (take j l)) <> 0%nat).
  { intros E%nil_length_inv. eapply (filter_nil_not_elem_of (covers p)) in E; eauto. }
  change (b :: ?t) with ([b] ++ t). rewrite coverage_app, coverage_one, decide_True by done.
  unfold coverage in *. lia.
Qed.

(** Fresh untypeds that cover every address at most once are disjoint. *)
Lemma coverage_disjoint g l :
  Forall fresh_untyped l -> (forall p, (coverage p l <= 1)%nat) ->
  forall i j a b, (i < j)%nat -> l !! i = Some a -> l !! j = Some b -> disjoint_caps g a b.
Proof.
  intros Hf Hc i j a b Hij Ha Hb.
  pose proof (proj1 (Forall_lookup _ _) Hf i a Ha) as Fa.
  pose proof (proj1 (Forall_lookup _ _) Hf j b Hb) as Fb.
  destruct a as [| | | | |ba sa ua| | |]; try done. destruct b as [| | | | |bb sb ub| | |]; try done.
  unfold disjoint_caps; simpl in *. destruct Fa as (?&?&?&->), Fb as (?&?&?&->).
  destruct (decide (ba + sa <= bb + 0)); [by left|]. destruct (decide (bb + sb <= ba + 0)); [by right|].
  specialize (Hc (Z.max ba bb)).
  pose proof (coverage_two (Z.max ba bb) l i j _ _ Hij Ha Hb). simpl in *. lia.
Qed.

Lemma fresh_cap_wf g c : fresh_untyped c -> cap_wf g c.
Proof. destruct c; simpl; try done. lia. Qed.

Lemma fixed_slots_extent g root c : c ∈ fixed_slots root -> extent g c = None.
Proof.
  unfold fixed_slots. rewrite !elem_of_cons. by intros [->|[->|[->|[->|H%not_elem_of_nil]]]].
Qed.

Lemma populate_inv g memory reserved root cn :
  Forall u64_region memory -> Forall u64_region reserved ->
  populate memory reserved root empty_cnode = (Ok tt, cn) ->
  caps_inv g (fun p => memory_at memory p /\ ~ reserved_at reserved p) cn.
Proof.
  intros Hm Hr H. destruct (populate_ok memory reserved root cn Hm Hr H) as (Hwf & uts & Hf & Hu & Hc).
  assert (Hcl : forall i c, filled cn !! i = Some c ->
    extent g c = None \/ exists i', i = (4 + i')%nat /\ uts !! i' = Some c).
  { intros i c. rewrite Hf, lookup_app_Some. intros [E|[Hle E]].
    - left. eapply fixed_slots_extent, list_elem_of_lookup_2, E.
    - right. exists (i - 4)%nat. split; [simpl in Hle; lia|done]. }
  split; [done| | |].
  - rewrite Hf. apply Forall_app. split; [by repeat constructor|].
    eapply list.Forall_impl; [done|]. intros c. apply fresh_cap_wf.
  - intros i j c1 c2 Hij H1 H2.
    destruct (Hcl _ _ H1) as [E|(i' & -> & E1)]; [unfold disjoint_caps; by rewrite E|].
    destruct (Hcl _ _ H2) as [E|(j' & -> & E2)];
      [unfold disjoint_caps; rewrite E; by repeat case_match|].
    assert (Hcov : forall p, (coverage p uts <= 1)%nat) by (intros p; rewrite Hc; case_decide; lia).
    destruct (decide (i' < j')%nat); [by eapply coverage_disjoint|].
    apply disjoint_caps_sym. eapply coverage_disjoint; [done|done| |done|done]. lia.
  - intros i c lo hi p Hi He Hp. destruct (Hcl _ _ Hi) as [E|(i' & -> & E1)]; [congruence|].
    apply list_elem_of_lookup_2 in E1. pose proof (proj1 (list.Forall_forall _ _) Hu _ E1) as Fc.
    specialize (Hc p). case_decide; [done|]. apply nil_length_inv in Hc.
    destruct (filter_nil_not_elem_of (covers p) uts c Hc); [|done].
    destruct c; simpl in *; try done. simplify_eq. lia.
Qed.

(** The slots after a retype. *)
Lemma retyped_caps q cn cn' slot kd b s u c :
  cnode_wf cn -> is_u64 slot -> filled cn !! Z.to_nat slot = Some (Cap.Untyped b s u) ->
  retyped q cn cn' slot kd b s u c ->
  cap cn' (used cn) = Some (new_cap kd c) /\ cap cn' slot = Some (Cap.Untyped b s (c + 2 ^ q - b)) /\
  forall i, is_u64 i -> i <> used cn -> i <> slot -> cap cn' i = cap cn i.
Proof.
  intros Hwf Hs Hslot (_ & _ & Hwf' & _ & Hf'). pose proof (length_filled cn Hwf) as Hlen.
  pose proof (lookup_lt_Some _ _ _ Hslot) as Hlt. assert (Hu0 : 0 <= used cn <= 32) by apply Hwf.
  assert (is_u64 (used cn)) by (split; lia). split_and!.
  1,2: rewrite cap_spec, Hf' by done.
  - rewrite lookup_app_r by (rewrite length_insert; lia). by rewrite length_insert, Hlen, Nat.sub_diag.
  - rewrite lookup_app_l by (rewrite length_insert; lia). apply list_lookup_insert_eq. lia.
  - intros i Hi Hn Hns. rewrite !cap_spec, Hf' by done. destruct Hi, Hs.
    destruct (decide (i < used cn)).
    + rewrite lookup_app_l by (rewrite length_insert; lia). apply list_lookup_insert_ne. lia.
    + rewrite !(proj2 (lookup_ge_None _ _)); [done|lia|].
      rewrite length_app, length_insert, Hlen. simpl. lia.
Qed.

(** the CNode that bootstrap builds satisfies the invariant of [retype], with
    the allowed memory being exactly "memory minus reserved". *)
Lemma populate_establishes_inv g memory reserved root cn :
  Forall u64_region memory -> Forall u64_region reserved ->
  populate memory reserved root empty_cnode = (Ok tt, cn) ->
  caps_inv g (fun p => memory_at memory p /\ ~ reserved_at reserved p) cn.
Proof. apply populate_inv. Qed.

(** C12: retype preserves the CNode invariant on every path: capabilities stay
    well-formed and granule-aligned, own pairwise disjoint physical ranges, and
    own nothing outside the allowed memory.  So no two objects ever overlap and
    retyped memory is never handed out again. *)
Theorem retype_preserves_inv k W (prep : Z -> W -> res Empty_set bool * W) allowed cn w slot kind r cn' w' :
  0 <= k <= 32 -> caps_inv (2 ^ k) allowed cn -> is_u64 slot ->
  retype slot kind (2 ^ k) prep (cn, w) = (r, (cn', w')) -> caps_inv (2 ^ k) allowed cn'.
Proof.
  intros Hk Hinv Hs H.
  destruct (retype_result k Hk prep allowed cn w slot kind r cn' w' Hinv Hs H)
    as [(b & s & u & c & Hslot & Hret & _)|[-> _]]; [|done].
  by eapply retyped_inv.
Qed.

(** A successful retype returns the first free slot and records there a new
    object at an aligned granule inside the free part of the source, which the
    caller prepared; the source's watermark grows past the object, and no other
    slot changes. *)
Lemma retype_success k W (prep : Z -> W -> res Empty_set bool * W) allowed cn w slot kind n cn' w' :
  0 <= k <= 32 -> caps_inv (2 ^ k) allowed cn -> is_u64 slot ->
  retype slot kind (2 ^ k) prep (cn, w) = (Ok n, (cn', w')) ->
  exists b s u c,
    cap cn slot = Some (Cap.Untyped b s u) /\ prep c w = (Ok true, w') /\
    c mod 2 ^ k = 0 /\ b + u <= c /\ c + 2 ^ k <= b + s /\
    n = used cn /\ used cn' = n + 1 /\
    cap cn' n = Some (new_cap kind c) /\
    cap cn' slot = Some (Cap.Untyped b s (c + 2 ^ k - b)) /\
    forall i, is_u64 i -> i <> n -> i <> slot -> cap cn' i = cap cn i.
Proof.
  intros Hk Hinv Hs H. pose proof (ci_wf _ _ _ Hinv) as Hwf.
  destruct (retype_result k Hk prep allowed cn w slot kind _ cn' w' Hinv Hs H)
    as [(b & s & u & c & Hslot & Hret & [= ->] & Hp)|[_ []]].
  destruct (retyped_caps k cn cn' slot kind b s u c Hwf Hs Hslot Hret) as (Hn & Hsl & Ho).
  destruct Hret as (Hc & Hfit & _ & Hu' & _). assert (Hg : 0 < 2 ^ k) by (apply Z.pow_pos_nonneg; lia).
  pose proof (round_up_spec (2 ^ k) (b + u) Hg) as [Hal Hr]. rewrite <- Hc in *.
  exists b, s, u, c. rewrite (cap_spec cn slot) by done. split_and!; try done; lia.
Qed.

(** A failed retype changes nothing: the CNode is untouched, the memory
    preparation ran only for [PrepFailed], and each error has exactly its
    documented cause; [Exhausted] means that no aligned granule is left in the
    free part of the untyped.  The bookkeeping itself never panics. *)
Lemma retype_failure k W (prep : Z -> W -> res Empty_set bool * W) allowed cn w slot kind e cn' w' :
  0 <= k <= 32 -> caps_inv (2 ^ k) allowed cn -> is_u64 slot ->
  (forall c, exists b w1, prep c w = (Ok b, w1)) ->
  retype slot kind (2 ^ k) prep (cn, w) = (e, (cn', w')) ->
  returns e /\ forall x, e = Err x -> cn' = cn /\
    match x with
    | RetypeError.BadSlot => w' = w /\ cap cn slot = None
    | RetypeError.NotUntyped => w' = w /\ exists c, cap cn slot = Some c /\
        forall b s u, c <> Cap.Untyped b s u
    | RetypeError.OutOfSlots => w' = w /\ used cn = CNODE_SLOTS
    | RetypeError.Exhausted => w' = w /\ exists b s u,
        cap cn slot = Some (Cap.Untyped b s u) /\
        forall c, c mod 2 ^ k = 0 -> b + u <= c -> b + s < c + 2 ^ k
    | RetypeError.PrepFailed => exists b s u, cap cn slot = Some (Cap.Untyped b s u) /\
        prep (round_up (2 ^ k) (b + u)) w = (Ok false, w')
    end.
Proof.
  intros Hk Hinv Hs Hprep H.
  destruct (retype_result k Hk prep allowed cn w slot kind e cn' w' Hinv Hs H)
    as [(b & s & u & c & _ & _ & -> & _)|[-> Hc]]; [done|].
  destruct e as [|x| |]; [done| |destruct Hc as (b & s & u & _ & _ & Hc);
    destruct (Hprep (round_up (2 ^ k) (b + u))) as (?&?&?); congruence..].
  split; [done|]. intros ? [= <-]. split; [done|]. destruct x; try done.
  destruct Hc as (b & s & u & Hf & _ & Hp). exists b, s, u. by rewrite cap_spec by (done || apply Hinv).
Qed.

(** ** Instances

    A board with one memory region and two reserved regions: the image inside
    it and a range that reaches past its end. *)

Definition ex_memory : list PhysRegion := [mkRegion 0x40000000 0x8000000].
Definition ex_reserved : list PhysRegion := [mkRegion 0x40080000 0x200000; mkRegion 0x47f00000 0x200000].
Definition ex_cnode : CNode :=
  Eval vm_compute in snd (populate ex_memory ex_reserved 0x40100000 empty_cnode).

Definition ex_allowed (p : Z) : Prop := memory_at ex_memory p /\ ~ reserved_at ex_reserved p.

(** A preparation that always succeeds and logs the granules it zeroed. *)
Definition ex_prep (c : Z) (w : list Z) : res Empty_set bool * list Z := (Ok true, w ++ [c]).

Lemma ex_memory_u64 : Forall u64_region ex_memory.
Proof. repeat constructor; unfold is_u64; simpl; lia. Qed.

Lemma ex_reserved_u64 : Forall u64_region ex_reserved.
Proof. repeat constructor; unfold is_u64; simpl; lia. Qed.

Lemma ex_populate : populate ex_memory ex_reserved 0x40100000 empty_cnode = (Ok tt, ex_cnode).
Proof. vm_compute. reflexivity. Qed.

Lemma ex_caps_inv : caps_inv (2 ^ 12) ex_allowed ex_cnode.
Proof. apply (populate_inv _ _ _ 0x40100000). apply ex_memory_u64. apply ex_reserved_u64. apply ex_populate. Qed.

Lemma populate_exact_witness :
  exists uts, filled ex_cnode = fixed_slots 0x40100000 ++ uts /\ Forall fresh_untyped uts /\
    forall p, coverage p uts =
      if decide (memory_at ex_memory p /\ ~ reserved_at ex_reserved p) then 1%nat else 0%nat.
Proof. exact (populate_exact _ _ _ _ ex_memory_u64 ex_reserved_u64 ex_populate). Defined.

Lemma populate_errors_witness :
  exists r cn, populate ex_memory ex_reserved 0x40100000 empty_cnode = (r, cn) /\ returns r /\
    (r = Err CapError.BadRegion <->
     ~ (regions_ok ex_memory /\ (ex_memory = [] \/ Forall valid_region ex_reserved))).
Proof. exact (populate_errors _ _ 0x40100000 ex_memory_u64 ex_reserved_u64). Defined.

Lemma populate_establishes_inv_witness :
  caps_inv 4096 ex_allowed ex_cnode.
Proof. exact (populate_establishes_inv 4096 _ _ _ _ ex_memory_u64 ex_reserved_u64 ex_populate). Defined.

Lemma retype_preserves_inv_witness :
  caps_inv (2 ^ 12) ex_allowed
    (fst (snd (retype 4 ObjKind.Tcb (2 ^ 12) ex_prep (ex_cnode, [])))).
Proof.
  eapply (retype_preserves_inv 12 _ ex_prep _ ex_cnode [] 4 ObjKind.Tcb);
    [lia|exact ex_caps_inv|unfold is_u64; lia|vm_compute; reflexivity].
Defined.

Lemma retype_success_witness : exists cn' b s u c,
  retype 4 ObjKind.Tcb (2 ^ 12) ex_prep (ex_cnode, []) = (Ok 6, (cn', [c])) /\
  cap ex_cnode 4 = Some (Cap.Untyped b s u) /\ b + u <= c /\ c + 4096 <= b + s.
Proof.
  eexists. edestruct (retype_success 12 _ ex_prep ex_allowed ex_cnode [] 4 ObjKind.Tcb) as
    (b & s & u & c & H1 & H2 & _ & H3 & H4 & _);
    [lia|exact ex_caps_inv|unfold is_u64; lia|vm_compute; reflexivity|].
  exists b, s, u, c. unfold ex_prep in H2. simpl in H2. simplify_eq.
  split_and!; [vm_compute; reflexivity|done..].
Defined.

Lemma retype_failure_witness :
  exists c, cap ex_cnode 3 = Some c /\ forall b s u, c <> Cap.Untyped b s u.
Proof.
  edestruct (retype_failure 12 _ ex_prep ex_allowed ex_cnode [] 3 ObjKind.Tcb) as [_ H];
    [lia|exact ex_caps_inv|unfold is_u64; lia|by intros; eexists _, _|vm_compute; reflexivity|].
  by destruct (H RetypeError.NotUntyped eq_refl) as (_ & _ & ?).
Defined.
