(* ===== verification/Task.v ===== *)
(** * Task control blocks, endpoints and their intrusive queues

    crates/k0-task/src/lib.rs ([TaskState], [Tcb], [Endpoint]) and the register
    context of crates/k0-arch/src/usermode.rs.  Objects live in a typed heap:
    [tcbs] and [eps] map a kernel address to the object there.  A retyped frame
    is zeroed, and the all-zero object is a valid Inactive TCB or empty
    endpoint, so an address without an entry reads as the zero object.

    The ready queue and the endpoint queues are linked through the [next] field
    of the TCBs.  [queue] relates such a chain to the list of its members, and
    the lemmas on [queue] carry the pointer reasoning of both kinds of queue. *)

From S2P Require Import Prelude.

(** ** Data *)

Record Context := mkContext {
  x : list Z;
  sp : Z;
  elr : Z;
  spsr : Z;
  tpidr : Z;
  tpidrro : Z
}.

Definition zeroed : Context := mkContext (replicate 31 0) 0 0 0 0 0.

(** [ctx.x[i]] and [ctx.x[i] = v] for the constant indices of the code. *)
Definition reg (c : Context) (i : nat) : Z := default 0 (x c !! i).
Definition set_reg (i : nat) (v : Z) (c : Context) : Context :=
  mkContext (<[i := v]> (x c)) (sp c) (elr c) (spsr c) (tpidr c) (tpidrro c).

Inductive TaskState :=
| Inactive | Stopped | Ready | Running | Dead
| BlockedSend | BlockedRecv | BlockedReply | BlockedCall.

#[export] Instance TaskState_eq_dec : EqDecision TaskState.
Proof. solve_decision. Defined.

(** The [repr(u8)] discriminants. *)
Definition TaskState_u8 (s : TaskState) : Z :=
  match s with
  | Inactive => 0 | Stopped => 1 | Ready => 2 | Running => 3 | Dead => 4
  | BlockedSend => 5 | BlockedRecv => 6 | BlockedReply => 7 | BlockedCall => 8
  end.

Record Tcb := mkTcb {
  ctx : Context;
  ttbr0_pa : Z;
  state : TaskState;
  next : Z;
  reply_to : Z
}.

Definition zero_tcb : Tcb := mkTcb zeroed 0 Inactive 0 0.

Record Endpoint := mkEndpoint { head : Z; tail : Z }.

Definition zero_ep : Endpoint := mkEndpoint 0 0.

(** k0-sched's [Sched]: kernel addresses of TCBs, 0 for none. *)
Record Sched := mkSched { current : Z; s_head : Z; s_tail : Z }.

(** What the task code shares: the object heap, the scheduler's static, the
    vectors' [__current_context] (named by the TCB that holds the context) and
    the user translation root in TTBR0. *)
Record tstate := mkTstate {
  tcbs : gmap Z Tcb;
  eps : gmap Z Endpoint;
  sched : Sched;
  current_context : Z;
  ttbr0 : Z
}.

(** ** Memory accesses *)

Definition tcb (st : tstate) (p : Z) : Tcb := default zero_tcb (tcbs st !! p).
Definition ep (st : tstate) (p : Z) : Endpoint := default zero_ep (eps st !! p).

Definition upd_tcb (p : Z) (f : Tcb -> Tcb) (st : tstate) : tstate :=
  mkTstate (<[p := f (tcb st p)]> (tcbs st)) (eps st) (sched st) (current_context st) (ttbr0 st).
Definition upd_ep (p : Z) (f : Endpoint -> Endpoint) (st : tstate) : tstate :=
  mkTstate (tcbs st) (<[p := f (ep st p)]> (eps st)) (sched st) (current_context st) (ttbr0 st).
Definition upd_sched (f : Sched -> Sched) (st : tstate) : tstate :=
  mkTstate (tcbs st) (eps st) (f (sched st)) (current_context st) (ttbr0 st).

(** Field assignments through a [*mut Tcb]. *)
Definition set_ctx (p : Z) (f : Context -> Context) : tstate -> tstate :=
  upd_tcb p (fun t => mkTcb (f (ctx t)) (ttbr0_pa t) (state t) (next t) (reply_to t)).
Definition set_state (p : Z) (s : TaskState) : tstate -> tstate :=
  upd_tcb p (fun t => mkTcb (ctx t) (ttbr0_pa t) s (next t) (reply_to t)).
Definition set_next (p : Z) (n : Z) : tstate -> tstate :=
  upd_tcb p (fun t => mkTcb (ctx t) (ttbr0_pa t) (state t) n (reply_to t)).
Definition set_reply_to (p : Z) (r : Z) : tstate -> tstate :=
  upd_tcb p (fun t => mkTcb (ctx t) (ttbr0_pa t) (state t) (next t) r).

(** [Endpoint::push] and [Endpoint::pop] on the endpoint at [e]. *)
Module Endpoint.
Definition push (e : Z) (t : Z) (st : tstate) : tstate :=
  let st := set_next t 0 st in
  let st := if tail (ep st e) =? 0
            then upd_ep e (fun q => mkEndpoint t (tail q)) st
            else set_next (tail (ep st e)) t st in
  upd_ep e (fun q => mkEndpoint (head q) t) st.

Definition pop (e : Z) (st : tstate) : Z * tstate :=
  let h := head (ep st e) in
  if h =? 0 then (0, st) else
  let st := upd_ep e (fun q => mkEndpoint (next (tcb st h)) (tail q)) st in
  let st := set_next h 0 st in
  let st := if head (ep st e) =? 0 then upd_ep e (fun q => mkEndpoint (head q) 0) st else st in
  (h, st).
End Endpoint.

(** ** Queues *)

(** The chain of [next] links from [h] runs through exactly the members of [l]. *)
Fixpoint chain (nx : Z -> Z) (h : Z) (l : list Z) : Prop :=
  match l with
  | [] => h = 0
  | p :: l' => h = p /\ p <> 0 /\ chain nx (nx p) l'
  end.

Definition queue (nx : Z -> Z) (h t : Z) (l : list Z) : Prop :=
  chain nx h l /\ t = default 0 (list.last l) /\ NoDup l.

Lemma chain_frame nx nx' h l :
  (forall p, p ∈ l -> nx' p = nx p) -> chain nx h l -> chain nx' h l.
Proof.
  revert h. induction l as [|p l IH]; intros h Hf; [done|]. simpl. intros (-> & Hp & Hc).
  split_and!; [done|done|]. rewrite Hf by set_solver. apply IH; [|done]. set_solver.
Qed.

Lemma queue_frame nx nx' h t l :
  (forall p, p ∈ l -> nx' p = nx p) -> queue nx h t l -> queue nx' h t l.
Proof. intros Hf (Hc & Ht & Hnd). split_and!; [|done..]. by eapply chain_frame. Qed.

Lemma chain_nonzero nx h l p : chain nx h l -> p ∈ l -> p <> 0.
Proof.
  revert h. induction l as [|q l IH]; intros h Hc Hin; [by apply not_elem_of_nil in Hin|].
  destruct Hc as (-> & Hq & Hc). apply elem_of_cons in Hin as [->|Hin]; [done|by eapply IH].
Qed.

Lemma queue_nil nx h t : queue nx h t [] <-> h = 0 /\ t = 0.
Proof. unfold queue. simpl. split; [naive_solver|]. intros [-> ->]. split_and!; [done..|constructor]. Qed.

Lemma queue_head nx h t p l : queue nx h t (p :: l) -> h = p /\ p <> 0.
Proof. intros ((-> & ? & _) & _). done. Qed.

Lemma queue_tail_zero nx h t l : queue nx h t l -> t = 0 <-> l = [].
Proof.
  intros (Hc & -> & _). split; [|by intros ->].
  destruct (list.last l) as [p|] eqn:E; [|by apply list.last_None in E]. simpl. intros ->.
  apply list.last_Some in E as [l' ->]. exfalso. eapply (chain_nonzero _ _ _ 0 Hc); [|done]. set_solver.
Qed.

(** Appending at the tail: the new member ends the chain and the old tail, if
    any, links to it. *)
Lemma chain_snoc nx nx' h l p :
  chain nx h l -> p <> 0 -> NoDup l -> p ∉ l -> nx' p = 0 ->
  (forall q, q ∈ l -> nx' q = if decide (list.last l = Some q) then p else nx q) ->
  chain nx' (if decide (l = []) then p else h) (l ++ [p]).
Proof.
  revert h. induction l as [|q l IH]; intros h Hc Hp Hnd Hnin H0 Hf; [done|].
  destruct Hc as (-> & Hq & Hc). apply list.NoDup_cons in Hnd as [Hql Hnd]. simpl. split_and!; [done..|].
  assert (Hf' : forall r, r ∈ l -> nx' r = if decide (list.last l = Some r) then p else nx r).
  { intros r Hr. rewrite Hf by set_solver. destruct l; [set_solver|done]. }
  specialize (IH (nx q) Hc Hp Hnd ltac:(set_solver) H0 Hf').
  rewrite Hf by set_solver. destruct l as [|r l].
  - rewrite decide_True by done. done.
  - rewrite decide_False in IH by done. rewrite decide_False; [done|].
    intros E. apply Hql. change (list.last (r :: l) = Some q) in E.
    apply list.last_Some in E as [l' ->]. set_solver.
Qed.

Lemma queue_push nx nx' h t l p :
  queue nx h t l -> p <> 0 -> p ∉ l -> nx' p = 0 ->
  (forall q, q ∈ l -> nx' q = if decide (q = t) then p else nx q) ->
  queue nx' (if t =? 0 then p else h) p (l ++ [p]).
Proof.
  intros Hq Hp Hnin H0 Hf. pose proof (queue_tail_zero _ _ _ _ Hq) as Ht.
  destruct Hq as (Hc & -> & Hnd). split_and!.
  - replace (if _ =? 0 then p else h) with (if decide (l = []) then p else h).
    + eapply chain_snoc; [done..|]. intros q Hq. rewrite Hf by done.
      destruct (list.last l) as [z|] eqn:E; [|apply list.last_None in E as ->; set_solver].
      simpl. repeat case_decide; naive_solver.
    + destruct (Z.eqb_spec (default 0 (list.last l)) 0); case_decide; naive_solver.
  - by rewrite list.last_snoc.
  - apply list.NoDup_app. split_and!; [done| |apply NoDup_singleton]. set_solver.
Qed.

Lemma queue_pop nx nx' h t p l :
  queue nx h t (p :: l) -> (forall q, q ∈ l -> nx' q = nx q) ->
  queue nx' (nx p) (if nx p =? 0 then 0 else t) l.
Proof.
  intros (Hc & -> & Hnd) Hf. destruct Hc as (-> & Hp & Hc). apply list.NoDup_cons in Hnd as [_ Hnd].
  split_and!; [by eapply chain_frame| |done]. destruct l as [|r l].
  - simpl in Hc. by rewrite Hc.
  - simpl in Hc. destruct Hc as (-> & Hr & _). by rewrite (proj2 (Z.eqb_neq r 0) Hr).
Qed.

(** ** Heap lemmas *)

Lemma tcb_upd_eq p f st : tcb (upd_tcb p f st) p = f (tcb st p).
Proof. unfold tcb, upd_tcb; simpl. by rewrite lookup_insert_eq. Qed.

Lemma tcb_upd_ne p q f st : p <> q -> tcb (upd_tcb p f st) q = tcb st q.
Proof. intros. unfold tcb, upd_tcb; simpl. by rewrite lookup_insert_ne. Qed.

Lemma tcb_upd p q f st : tcb (upd_tcb p f st) q = if decide (p = q) then f (tcb st q) else tcb st q.
Proof. case_decide; [subst; apply tcb_upd_eq|by apply tcb_upd_ne]. Qed.

Lemma ep_upd p q f st : ep (upd_ep p f st) q = if decide (p = q) then f (ep st q) else ep st q.
Proof.
  unfold ep, upd_ep; simpl. case_decide; [subst; by rewrite lookup_insert_eq|by rewrite lookup_insert_ne].
Qed.

Lemma tcb_upd_ep p f st q : tcb (upd_ep p f st) q = tcb st q.
Proof. done. Qed.

Lemma tcb_upd_sched f st q : tcb (upd_sched f st) q = tcb st q.
Proof. done. Qed.

Lemma ep_set_next p n st q : ep (set_next p n st) q = ep st q.
Proof. done. Qed.

Lemma reg_set_reg_eq i v c : (i < length (x c))%nat -> reg (set_reg i v c) i = v.
Proof. intros. unfold reg, set_reg; simpl. by rewrite list_lookup_insert_eq. Qed.

Lemma reg_set_reg_ne i j v c : i <> j -> reg (set_reg i v c) j = reg c j.
Proof. intros. unfold reg, set_reg; simpl. by rewrite list_lookup_insert_ne. Qed.

Lemma length_set_reg i v c : length (x (set_reg i v c)) = length (x c).
Proof. apply length_insert. Qed.
