(* ===== verification/Sched.v ===== *)
(** * The round-robin scheduler

    crates/k0-sched/src/lib.rs, operation by operation on the shared task
    state, and its contract.  The contract is a state machine on lists
    ([astate]): a ready list, a waiting list per endpoint, and per task its
    state, registers, reply capability and address space.  [rep] says that the
    pointer structures of the kernel represent such a state; each operation
    refines its counterpart on lists. *)

From S2P Require Import Prelude Task.

(** ** Operations *)

(** [push]: to the tail of the ready queue. *)
Definition push (t : Z) (st : tstate) : tstate :=
  let st := set_state t Ready st in
  let st := set_next t 0 st in
  let st := if s_tail (sched st) =? 0
            then upd_sched (fun s => mkSched (current s) t (s_tail s)) st
            else set_next (s_tail (sched st)) t st in
  upd_sched (fun s => mkSched (current s) (s_head s) t) st.

(** [pop]: the head of the ready queue, 0 when it is empty. *)
Definition pop (st : tstate) : Z * tstate :=
  let h := s_head (sched st) in
  if h =? 0 then (0, st) else
  let st := upd_sched (fun s => mkSched (current s) (next (tcb st h)) (s_tail s)) st in
  let st := set_next h 0 st in
  let st := if s_head (sched st) =? 0
            then upd_sched (fun s => mkSched (current s) (s_head s) 0) st else st in
  (h, st).

(** usermode.rs [set_current]. *)
Definition set_current (t : Z) (st : tstate) : tstate :=
  mkTstate (tcbs st) (eps st) (sched st) t (ttbr0 st).

(** k0-mm [install_user_ttbr0] and [current_user_root], the BADDR field of TTBR0. *)
Definition install_user_ttbr0 (root : Z) (st : tstate) : tstate :=
  mkTstate (tcbs st) (eps st) (sched st) (current_context st) root.
Definition BADDR_MASK : Z := 0x0000FFFFFFFFFFFE.
Definition current_user_root (st : tstate) : Z := Z.land (ttbr0 st) BADDR_MASK.

Definition switch_to (n : Z) (st : tstate) : tstate :=
  let st := set_state n Running st in
  let st := upd_sched (fun s => mkSched n (s_head s) (s_tail s)) st in
  let st := set_current n st in
  if ttbr0_pa (tcb st n) =? current_user_root st then st
  else install_user_ttbr0 (ttbr0_pa (tcb st n)) st.

Definition handoff (t : Z) (st : tstate) : tstate :=
  let st := set_state t Running st in
  let st := upd_sched (fun s => mkSched t (s_head s) (s_tail s)) st in
  set_current t st.

Definition enqueue (t : Z) (st : tstate) : tstate := push t st.

Definition rotate (st : tstate) : tstate :=
  let '(n, st) := pop st in
  if n =? 0 then st else
  let cur := current (sched st) in
  switch_to n (push cur st).

Definition cur (st : tstate) : Z := current (sched st).

Definition block_and_switch (st : tstate) : bool * tstate :=
  let '(n, st) := pop st in
  if n =? 0 then (false, st) else (true, switch_to n st).

Definition exit_current (st : tstate) : bool * tstate :=
  let st := set_state (current (sched st)) Dead st in
  let '(n, st) := pop st in
  if n =? 0 then (false, st) else (true, switch_to n st).

(** ** The contract: tasks on lists *)

Definition upd {A} (f : Z -> A) (p : Z) (v : A) : Z -> A :=
  fun q => if decide (p = q) then v else f q.

Lemma upd_eq {A} (f : Z -> A) p v : upd f p v p = v.
Proof. unfold upd. by rewrite decide_True. Qed.

Lemma upd_ne {A} (f : Z -> A) p q v : p <> q -> upd f p v q = f q.
Proof. intros. unfold upd. by rewrite decide_False. Qed.

Record astate := mkA {
  a_cur : Z;
  a_ready : list Z;
  a_wait : Z -> list Z;
  a_state : Z -> TaskState;
  a_reply : Z -> Z;
  a_ctx : Z -> Context;
  a_root : Z -> Z;
  a_mmu : Z
}.

Definition spec_set_state (p : Z) (s : TaskState) (a : astate) : astate :=
  mkA (a_cur a) (a_ready a) (a_wait a) (upd (a_state a) p s) (a_reply a) (a_ctx a) (a_root a) (a_mmu a).
Definition spec_set_ctx (p : Z) (f : Context -> Context) (a : astate) : astate :=
  mkA (a_cur a) (a_ready a) (a_wait a) (a_state a) (a_reply a) (upd (a_ctx a) p (f (a_ctx a p)))
    (a_root a) (a_mmu a).
Definition spec_set_reply (p r : Z) (a : astate) : astate :=
  mkA (a_cur a) (a_ready a) (a_wait a) (a_state a) (upd (a_reply a) p r) (a_ctx a) (a_root a) (a_mmu a).
Definition spec_set_ready (l : list Z) (a : astate) : astate :=
  mkA (a_cur a) l (a_wait a) (a_state a) (a_reply a) (a_ctx a) (a_root a) (a_mmu a).
Definition spec_set_wait (e : Z) (l : list Z) (a : astate) : astate :=
  mkA (a_cur a) (a_ready a) (upd (a_wait a) e l) (a_state a) (a_reply a) (a_ctx a) (a_root a) (a_mmu a).

(** A task becomes ready: last in line. *)
Definition spec_enqueue (p : Z) (a : astate) : astate :=
  spec_set_ready (a_ready a ++ [p]) (spec_set_state p Ready a).

(** A task gets the processor, in its own address space. *)
Definition spec_run (p : Z) (a : astate) : astate :=
  mkA p (a_ready a) (a_wait a) (upd (a_state a) p Running) (a_reply a) (a_ctx a) (a_root a) (a_root a p).

(** The first ready task runs next; [false] when there is none. *)
Definition spec_block (a : astate) : bool * astate :=
  match a_ready a with
  | [] => (false, a)
  | p :: l => (true, spec_run p (spec_set_ready l a))
  end.

Definition spec_rotate (a : astate) : astate :=
  match a_ready a with
  | [] => a
  | p :: l => spec_run p (spec_enqueue (a_cur a) (spec_set_ready l a))
  end.

Definition spec_exit (a : astate) : bool * astate := spec_block (spec_set_state (a_cur a) Dead a).

(** ** Representation *)

Definition nx (st : tstate) (p : Z) : Z := next (tcb st p).

Record rep (st : tstate) (a : astate) : Prop := {
  rep_ready : queue (nx st) (s_head (sched st)) (s_tail (sched st)) (a_ready a);
  rep_wait : forall e, queue (nx st) (head (ep st e)) (tail (ep st e)) (a_wait a e);
  rep_state : forall p, state (tcb st p) = a_state a p;
  rep_reply : forall p, reply_to (tcb st p) = a_reply a p;
  rep_ctx : forall p, ctx (tcb st p) = a_ctx a p;
  rep_root : forall p, ttbr0_pa (tcb st p) = a_root a p;
  rep_cur : current (sched st) = a_cur a;
  rep_context : current_context st = a_cur a;
  rep_mmu : ttbr0 st = a_mmu a;
  rep_sep : forall e p, p ∈ a_ready a -> p ∉ a_wait a e;
  rep_sep_wait : forall e1 e2 p, p ∈ a_wait a e1 -> p ∈ a_wait a e2 -> e1 = e2;
  rep_root_ok : forall p, Z.land (a_root a p) BADDR_MASK = a_root a p;
  rep_mmu_ok : Z.land (a_mmu a) BADDR_MASK = a_mmu a
}.

(** A task in no queue. *)
Definition unqueued (a : astate) (p : Z) : Prop :=
  p <> 0 /\ (p ∉ a_ready a) /\ (forall e, p ∉ a_wait a e).

(** ** Refinement of the primitives *)

(** Solves the fields of [rep] about TCB contents after heap updates. *)
Ltac heap_fields :=
  intros; unfold set_ctx, set_state, set_next, set_reply_to, upd;
  repeat first
    [ rewrite tcb_upd_ep | rewrite tcb_upd_sched | rewrite tcb_upd ];
  repeat case_decide; subst; simpl; auto with k0.

#[export] Hint Resolve rep_ready rep_wait rep_state rep_reply rep_ctx rep_root rep_cur rep_context
  rep_mmu rep_sep rep_sep_wait rep_root_ok rep_mmu_ok : k0.

(** Updates that leave the links alone keep every queue. *)
Lemma nx_upd_tcb p f st q :
  next (f (tcb st p)) = next (tcb st p) -> nx (upd_tcb p f st) q = nx st q.
Proof. intros. unfold nx. rewrite tcb_upd. case_decide; by subst. Qed.

Lemma nx_set_next p n st q : nx (set_next p n st) q = if decide (p = q) then n else nx st q.
Proof. unfold nx, set_next. rewrite tcb_upd. by case_decide. Qed.

(** Solves the queue fields of [rep] after such an update. *)
Ltac same_links H :=
  first [ eapply queue_frame; [|exact (rep_ready _ _ H)]
        | intros ?e; eapply queue_frame; [|exact (rep_wait _ _ H e)] ];
  intros; by apply nx_upd_tcb.

Lemma rep_set_ctx st a p f : rep st a -> rep (set_ctx p f st) (spec_set_ctx p f a).
Proof.
  intros H. split; simpl; try solve [eauto with k0]; try solve [heap_fields].
  1,2: same_links H.
  intros q. unfold set_ctx, upd. rewrite tcb_upd.
  case_decide; subst; simpl; [|eauto with k0]. by rewrite (rep_ctx _ _ H).
Qed.

Lemma rep_set_state st a p s : rep st a -> rep (set_state p s st) (spec_set_state p s a).
Proof.
  intros H. split; simpl; try solve [eauto with k0]; try solve [heap_fields].
  1,2: same_links H.
Qed.

Lemma rep_set_reply st a p r : rep st a -> rep (set_reply_to p r st) (spec_set_reply p r a).
Proof.
  intros H. split; simpl; try solve [eauto with k0]; try solve [heap_fields].
  1,2: same_links H.
Qed.

(** The last member of a queue, read as its tail pointer. *)
Lemma queue_tail_elem f h t l : queue f h t l -> t <> 0 -> t ∈ l.
Proof.
  intros (Hc & -> & _) Ht. destruct (list.last l) as [p|] eqn:E; [|done].
  apply list.last_Some in E as [l' ->]. set_solver.
Qed.

(** Two TCBs that differ at most in their link. *)
Definition same_but_next (t t' : Tcb) : Prop :=
  ctx t = ctx t' /\ ttbr0_pa t = ttbr0_pa t' /\ state t = state t' /\ reply_to t = reply_to t'.

Lemma same_set_next p n st q : same_but_next (tcb (set_next p n st) q) (tcb st q).
Proof. unfold set_next. rewrite tcb_upd. by case_decide. Qed.

Lemma same_trans t1 t2 t3 : same_but_next t1 t2 -> same_but_next t2 t3 -> same_but_next t1 t3.
Proof. unfold same_but_next. intuition congruence. Qed.

(** The representation of everything but the queues survives link updates. *)
Lemma rep_relink st a st' a' :
  rep st a ->
  (forall q, same_but_next (tcb st' q) (tcb st q)) ->
  current (sched st') = current (sched st) -> current_context st' = current_context st ->
  ttbr0 st' = ttbr0 st ->
  a_cur a' = a_cur a -> a_state a' = a_state a -> a_reply a' = a_reply a -> a_ctx a' = a_ctx a ->
  a_root a' = a_root a -> a_mmu a' = a_mmu a ->
  queue (nx st') (s_head (sched st')) (s_tail (sched st')) (a_ready a') ->
  (forall e, queue (nx st') (head (ep st' e)) (tail (ep st' e)) (a_wait a' e)) ->
  (forall e p, p ∈ a_ready a' -> p ∉ a_wait a' e) ->
  (forall e1 e2 p, p ∈ a_wait a' e1 -> p ∈ a_wait a' e2 -> e1 = e2) ->
  rep st' a'.
Proof.
  intros H Hs Hc Hcc Ht E1 E2 E3 E4 E5 E6 Hr Hw Hd Hd'.
  split; rewrite ?Hc, ?Hcc, ?Ht, ?E1, ?E2, ?E3, ?E4, ?E5, ?E6; try done; eauto with k0;
    intros p; destruct (Hs p) as (Hs1 & Hs2 & Hs3 & Hs4);
    rewrite ?Hs1, ?Hs2, ?Hs3, ?Hs4; eauto with k0.
Qed.

(** The link part of the ready queue's [push] and [pop]. *)
Definition link (t : Z) (st : tstate) : tstate :=
  let st := set_next t 0 st in
  let st := if s_tail (sched st) =? 0
            then upd_sched (fun s => mkSched (current s) t (s_tail s)) st
            else set_next (s_tail (sched st)) t st in
  upd_sched (fun s => mkSched (current s) (s_head s) t) st.

Lemma rep_link st a t :
  rep st a -> unqueued a t -> rep (link t st) (spec_set_ready (a_ready a ++ [t]) a).
Proof.
  intros H (Ht & Hr & Hw). pose proof (rep_ready _ _ H) as Hq.
  pose proof (queue_tail_elem _ _ _ _ Hq) as Htl.
  assert (Hnx : forall q, nx (link t st) q =
    if decide (s_tail (sched st) <> 0 /\ q = s_tail (sched st)) then t
    else if decide (t = q) then 0 else nx st q).
  { intros q. unfold link. simpl. destruct (Z.eqb_spec (s_tail (sched st)) 0) as [E|E].
    - rewrite decide_False by naive_solver. apply nx_set_next.
    - etrans; [apply (nx_set_next (s_tail (sched st)))|]. rewrite nx_set_next.
      repeat case_decide; naive_solver. }
  eapply (rep_relink st a); try done; unfold link; simpl; fold (link t st).
  - intros q. case_match; simpl; [apply same_set_next|].
    eapply same_trans; apply same_set_next.
  - by case_match.
  - by case_match.
  - by case_match.
  - assert (Hq' : queue (nx (link t st)) (if s_tail (sched st) =? 0 then t else s_head (sched st)) t
      (a_ready a ++ [t])).
    { eapply queue_push; [done..| |].
      - rewrite Hnx, decide_False, decide_True by naive_solver. done.
      - intros q Hqin. rewrite Hnx. assert (q <> t) by naive_solver.
        assert (q <> 0) by (eapply chain_nonzero; [apply Hq|done]).
        repeat case_decide; naive_solver. }
    unfold link in Hq'. simpl in Hq'. by destruct (s_tail (sched st) =? 0).
  - intros e. replace (ep _ e) with (ep st e) by by case_match.
    eapply queue_frame; [|apply (rep_wait _ _ H)]. intros q Hqin.
    change (nx (link t st) q = nx st q). rewrite Hnx, !decide_False; [done|naive_solver|].
    intros [Hz ->]. eapply (rep_sep _ _ H); [|done]. auto.
  - intros e p. rewrite elem_of_app, list_elem_of_singleton. intros [Hp| ->]; [|done].
    by apply (rep_sep _ _ H).
  - apply (rep_sep_wait _ _ H).
Qed.

Lemma rep_push st a t : rep st a -> unqueued a t -> rep (push t st) (spec_enqueue t a).
Proof.
  intros H Hu. change (push t st) with (link t (set_state t Ready st)).
  apply (rep_link _ _ _ (rep_set_state _ _ t Ready H)). exact Hu.
Qed.

Lemma rep_pop st a :
  rep st a ->
  match a_ready a with
  | [] => pop st = (0, st)
  | t :: l => t <> 0 /\ exists st', pop st = (t, st') /\ rep st' (spec_set_ready l a)
  end.
Proof.
  intros H. pose proof (rep_ready _ _ H) as Hq. destruct (a_ready a) as [|t l] eqn:El.
  - apply queue_nil in Hq as [E _]. unfold pop. by rewrite E.
  - pose proof (queue_head _ _ _ _ _ Hq) as [Eh Ht]. split; [done|]. unfold pop. rewrite Eh.
    rewrite (proj2 (Z.eqb_neq t 0) Ht). eexists. split; [done|]. simpl.
    assert (Hnt : t ∉ l) by (destruct Hq as (_ & _ & Hnd); by apply list.NoDup_cons in Hnd as [? _]).
    assert (Hnx' : forall q, q <> t -> nx (set_next t 0 st) q = nx st q)
      by (intros; by rewrite nx_set_next, decide_False).
    eapply (rep_relink st a); try done; simpl.
    + intros q. case_match; exact (same_set_next t 0 st q).
    + by case_match.
    + by case_match.
    + by case_match.
    + eapply (queue_pop _ (nx (set_next t 0 st))) in Hq; [|intros; apply Hnx'; naive_solver].
      fold (nx st t). by destruct (nx st t =? 0).
    + intros e. replace (ep _ e) with (ep st e) by by case_match.
      eapply queue_frame; [|apply (rep_wait _ _ H)]. intros q Hqin.
      transitivity (nx (set_next t 0 st) q); [by case_match|apply Hnx'].
      intros ->. eapply (rep_sep _ _ H); [|done]. rewrite El. set_solver.
    + intros e p Hp. apply (rep_sep _ _ H). rewrite El. set_solver.
    + apply (rep_sep_wait _ _ H).
Qed.

(** The endpoint queues: the same links, the ends in the endpoint object. *)
Lemma rep_ep_push st a e t :
  rep st a -> unqueued a t -> rep (Endpoint.push e t st) (spec_set_wait e (a_wait a e ++ [t]) a).
Proof.
  intros H (Ht & Hr & Hw). pose proof (rep_wait _ _ H e) as Hq.
  pose proof (queue_tail_elem _ _ _ _ Hq) as Htl. set (tl := tail (ep st e)) in *.
  assert (Hnx : forall q, nx (Endpoint.push e t st) q =
    if decide (tl <> 0 /\ q = tl) then t else if decide (t = q) then 0 else nx st q).
  { intros q. unfold Endpoint.push. simpl. rewrite ep_set_next. fold tl.
    destruct (Z.eqb_spec tl 0) as [E|E].
    - rewrite decide_False by naive_solver. apply nx_set_next.
    - etrans; [apply (nx_set_next tl)|]. rewrite nx_set_next. repeat case_decide; naive_solver. }
  assert (Hep : forall e', ep (Endpoint.push e t st) e' =
    if decide (e = e') then mkEndpoint (if tl =? 0 then t else head (ep st e)) t else ep st e').
  { intros e'. unfold Endpoint.push. simpl. rewrite ep_set_next. fold tl.
    destruct (tl =? 0); repeat rewrite ?ep_upd, ?ep_set_next; repeat case_decide; subst; done. }
  eapply (rep_relink st a); try done.
  - intros q. unfold Endpoint.push. simpl. destruct (_ =? 0).
    + exact (same_set_next t 0 st q).
    + eapply (same_trans _ (tcb (set_next t 0 st) q)); [apply (same_set_next _ t)|apply same_set_next].
  - unfold Endpoint.push; simpl. by destruct (_ =? 0).
  - unfold Endpoint.push; simpl. by destruct (_ =? 0).
  - unfold Endpoint.push; simpl. by destruct (_ =? 0).
  - replace (sched (Endpoint.push e t st)) with (sched st)
      by (unfold Endpoint.push; simpl; by destruct (_ =? 0)).
    eapply queue_frame; [|apply (rep_ready _ _ H)]. intros q Hqin. rewrite Hnx, !decide_False; [done|naive_solver|].
    intros [Hz ->]. eapply (rep_sep _ _ H); eauto.
  - intros e'. rewrite Hep. unfold spec_set_wait, upd; simpl. destruct (decide (e = e')) as [<-|Hne]; simpl.
    + eapply queue_push; [done..| |].
      * rewrite Hnx, decide_False, decide_True by naive_solver. done.
      * intros q Hqin. rewrite Hnx. assert (q <> t) by naive_solver.
        assert (q <> 0) by (eapply chain_nonzero; [apply Hq|done]).
        repeat case_decide; naive_solver.
    + eapply queue_frame; [|apply (rep_wait _ _ H)]. intros q Hqin.
      rewrite Hnx, !decide_False; [done|naive_solver|].
      intros [Hz ->]. apply Hne. eapply (rep_sep_wait _ _ H); eauto.
  - clear Hep Hnx. simpl. intros e' p Hp. unfold upd. case_decide; [|by apply (rep_sep _ _ H)].
    rewrite elem_of_app, list_elem_of_singleton. intros [Hp'| ->]; [|done].
    by eapply (rep_sep _ _ H).
  - clear Hep Hnx. simpl. unfold upd. intros e1 e2 p. repeat case_decide; subst; try done;
      rewrite ?elem_of_app, ?list_elem_of_singleton; pose proof (rep_sep_wait _ _ H); naive_solver.
Qed.

Lemma rep_ep_pop st a e t l :
  rep st a -> a_wait a e = t :: l ->
  t <> 0 /\ exists st', Endpoint.pop e st = (t, st') /\ rep st' (spec_set_wait e l a).
Proof.
  intros H El. pose proof (rep_wait _ _ H e) as Hq. rewrite El in Hq.
  pose proof (queue_head _ _ _ _ _ Hq) as [Eh Ht]. split; [done|]. unfold Endpoint.pop. rewrite Eh.
  rewrite (proj2 (Z.eqb_neq t 0) Ht). eexists. split; [done|].
  match goal with |- rep ?s _ => set (st' := s) end.
  assert (Hnt : t ∉ l) by (destruct Hq as (_ & _ & Hnd); by apply list.NoDup_cons in Hnd as [? _]).
  assert (Hnx : forall q, q <> t -> nx st' q = nx st q).
  { intros q Hqt. transitivity (nx (set_next t 0 st) q); [unfold st'; by destruct (_ =? 0)|].
    by rewrite nx_set_next, decide_False. }
  assert (Hep : forall e', ep st' e' =
    if decide (e = e') then mkEndpoint (nx st t) (if nx st t =? 0 then 0 else tail (ep st e)) else ep st e').
  { intros e'. unfold st'. rewrite ep_set_next, ep_upd, decide_True by done. simpl. fold (nx st t).
    destruct (nx st t =? 0); rewrite ?ep_upd, ?ep_set_next, ?ep_upd;
      case_decide; subst; simpl; rewrite ?decide_True by done; done. }
  eapply (rep_relink st a); try done.
  - intros q. unfold st'. destruct (_ =? 0); exact (same_set_next t 0 st q).
  - unfold st'. by destruct (_ =? 0).
  - unfold st'. by destruct (_ =? 0).
  - unfold st'. by destruct (_ =? 0).
  - simpl. replace (sched st') with (sched st) by (unfold st'; by destruct (_ =? 0)).
    eapply queue_frame; [|apply (rep_ready _ _ H)]. intros q Hqin. apply Hnx. intros ->.
    eapply (rep_sep _ _ H); [done|]. rewrite El. set_solver.
  - intros e'. rewrite Hep. unfold spec_set_wait, upd; simpl. destruct (decide (e = e')) as [<-|Hne]; simpl.
    + eapply queue_pop; [done|]. intros. apply Hnx. naive_solver.
    + eapply queue_frame; [|apply (rep_wait _ _ H)]. intros q Hqin. apply Hnx. intros ->.
      assert (e = e') by (eapply (rep_sep_wait _ _ H); [rewrite El; apply list_elem_of_here|done]). done.
  - clear Hep Hnx. simpl. intros e' p Hp. unfold upd. case_decide; [subst|by apply (rep_sep _ _ H)].
    intros Hin. eapply (rep_sep _ _ H); [done|]. rewrite El. set_solver.
  - clear Hep Hnx. simpl. unfold upd. intros e1 e2 p. pose proof (rep_sep_wait _ _ H) as Hs.
    repeat case_decide; subst; try done; intros ? ?; eapply (Hs _ _ p); rewrite ?El; try done;
      by apply list_elem_of_further.
Qed.

Lemma rep_switch_to st a n : rep st a -> rep (switch_to n st) (spec_run n a).
Proof.
  intros H. apply (rep_set_state _ _ n Running) in H. unfold switch_to.
  set (st1 := set_state n Running st) in *. change (tcb (set_current _ _) n) with (tcb st1 n).
  rewrite (rep_root _ _ H). change (current_user_root (set_current _ _)) with (current_user_root st1).
  unfold current_user_root. rewrite (rep_mmu _ _ H), (rep_mmu_ok _ _ H). simpl.
  destruct (Z.eqb_spec (a_root a n) (a_mmu a)) as [E|E]; destruct H; split; simpl in *; try done; auto; congruence.
Qed.

(** ** Refinement of the scheduler's operations *)

Lemma rep_block st a :
  rep st a ->
  exists st', block_and_switch st = (fst (spec_block a), st') /\ rep st' (snd (spec_block a)).
Proof.
  intros H. pose proof (rep_pop _ _ H) as Hp. unfold block_and_switch, spec_block.
  destruct (a_ready a) as [|t l].
  - rewrite Hp. eauto.
  - destruct Hp as (Ht & st' & -> & H'). rewrite (proj2 (Z.eqb_neq t 0) Ht).
    eexists. split; [done|]. by apply rep_switch_to.
Qed.

Lemma rep_exit st a :
  rep st a ->
  exists st', exit_current st = (fst (spec_exit a), st') /\ rep st' (snd (spec_exit a)).
Proof.
  intros H. pose proof (rep_cur _ _ H) as Hc. apply (rep_set_state _ _ (a_cur a) Dead) in H.
  rewrite <- Hc in H at 1. apply rep_block in H. exact H.
Qed.

Lemma rep_rotate st a :
  rep st a -> unqueued a (a_cur a) -> rep (rotate st) (spec_rotate a).
Proof.
  intros H (Hu0 & Hur & Huw). pose proof (rep_pop _ _ H) as Hp. unfold rotate, spec_rotate.
  destruct (a_ready a) as [|t l] eqn:El.
  - by rewrite Hp.
  - destruct Hp as (Ht & st' & -> & H'). rewrite (proj2 (Z.eqb_neq t 0) Ht).
    rewrite (rep_cur _ _ H'). apply rep_switch_to, rep_push; [done|].
    split_and!; [done| |done]. simpl. set_solver.
Qed.

(** ** Invariant of the task state machine

    [acore run a]: the invariant while [run] is the running task, with [None]
    between a task's leaving the processor and the next one's arrival.  [live]
    is the set of TCB addresses, [isep] that of endpoint addresses. *)

(** In an endpoint queue. *)
Definition waiting (s : TaskState) : bool :=
  match s with BlockedSend | BlockedRecv | BlockedCall => true | _ => false end.

(** Started and not dead. *)
Definition active (s : TaskState) : bool :=
  match s with Inactive | Stopped | Dead => false | _ => true end.

(** Case split on whether a task is the one that [upd] changed. *)
Ltac upd_cases t p :=
  destruct (decide (t = p)) as [<-|?]; [rewrite ?upd_eq in *|rewrite ?upd_ne in * by done].

(** Closes equations between compositions of [upd]. *)
Ltac pointwise := intros; unfold upd; simpl; unfold upd; repeat case_decide; by subst.

Section invariant.
Context (live isep : Z -> Prop).

Record acore (run : option Z) (a : astate) : Prop := {
  (* exactly one task runs, and the ready list holds exactly the ready tasks *)
  ac_running : forall p, a_state a p = Running <-> run = Some p;
  ac_ready : forall p, p ∈ a_ready a <-> a_state a p = Ready;
  ac_ready_nodup : NoDup (a_ready a);
  (* a task waits on exactly one endpoint exactly if it is blocked there *)
  ac_wait : forall p, waiting (a_state a p) = true <-> exists e, p ∈ a_wait a e;
  ac_wait_unique : forall e1 e2 p, p ∈ a_wait a e1 -> p ∈ a_wait a e2 -> e1 = e2;
  ac_wait_nodup : forall e, NoDup (a_wait a e);
  (* an endpoint queue holds senders or receivers, never both *)
  ac_oneway : forall e p q, p ∈ a_wait a e -> q ∈ a_wait a e ->
    a_state a p = BlockedRecv -> a_state a q = BlockedRecv;
  (* a reply capability names a caller that waits for the reply; every such
     caller has exactly one *)
  ac_reply : forall h, a_reply a h <> 0 -> a_state a (a_reply a h) = BlockedReply;
  ac_reply_inj : forall h1 h2, a_reply a h1 = a_reply a h2 -> a_reply a h1 <> 0 -> h1 = h2;
  ac_reply_held : forall p, a_state a p = BlockedReply -> exists h, a_reply a h = p;
  (* only objects take part *)
  ac_live : forall p, a_state a p <> Inactive -> live p;
  ac_live0 : ~ live 0;
  ac_isep : forall e, a_wait a e <> [] -> isep e
}.

(** Reply capabilities are held by active tasks. *)
Definition replies_active (a : astate) : Prop :=
  forall h, a_reply a h <> 0 -> active (a_state a h) = true.

Definition ainv (a : astate) : Prop :=
  acore (Some (a_cur a)) a /\ replies_active a /\ a_mmu a = a_root a (a_cur a).

(** The invariant depends on registers and address spaces not at all and on the
    order of the ready list not. *)
Lemma acore_ext run a a' :
  acore run a -> a_ready a ≡ₚ a_ready a' ->
  (forall e, a_wait a' e = a_wait a e) -> (forall p, a_state a' p = a_state a p) ->
  (forall p, a_reply a' p = a_reply a p) -> acore run a'.
Proof.
  intros [] Hr Hw Hs Hp. split; intros *; rewrite ?Hs, ?Hp, ?Hw, <- ?Hr; eauto.
  - setoid_rewrite Hw. eauto.
  - setoid_rewrite Hp. eauto.
Qed.

Lemma acore_nonzero run a p : acore run a -> a_state a p <> Inactive -> p <> 0.
Proof. intros H Hs ->. eapply ac_live0; [done|]. by eapply ac_live. Qed.

(** A task that is neither ready nor waiting is in no queue. *)
Lemma acore_unqueued run a p :
  acore run a -> a_state a p <> Inactive -> a_state a p <> Ready -> waiting (a_state a p) = false ->
  unqueued a p.
Proof.
  intros H H1 H2 H3. split_and!; [by eapply acore_nonzero|by rewrite (ac_ready _ _ H)|].
  intros e He. assert (waiting (a_state a p) = true) by (apply (ac_wait _ _ H); eauto). congruence.
Qed.

Lemma wait_state run a e p : acore run a -> p ∈ a_wait a e -> waiting (a_state a p) = true.
Proof. intros H Hp. apply (ac_wait _ _ H). eauto. Qed.

(** *** Transitions

    Every operation takes tasks out of one role and puts them into another.  A
    [neutral] task has no role: the [leave_] lemmas make a task neutral, the
    [enter_] lemmas give a neutral task a role. *)

Definition neutral (s : TaskState) : bool :=
  match s with Inactive | Stopped | Dead => true | _ => false end.

Lemma dead_neutral a t : neutral (a_state (spec_set_state t Dead a) t) = true.
Proof. simpl. by rewrite upd_eq. Qed.

Lemma neutral_unqueued run a p : acore run a -> live p -> neutral (a_state a p) = true -> unqueued a p.
Proof.
  intros H Hl Hn. split_and!.
  - intros ->. by eapply ac_live0.
  - rewrite (ac_ready _ _ H). by destruct (a_state a p).
  - intros e He. pose proof (wait_state _ _ _ _ H He). by destruct (a_state a p).
Qed.

(** A neutral task may change to another neutral state, if it is an object. *)
Lemma enter_neutral run a t s :
  acore run a -> neutral (a_state a t) = true -> neutral s = true -> (s <> Inactive -> live t) ->
  acore run (spec_set_state t s a).
Proof.
  intros H Hn Hs Hl. split; simpl; try solve [apply H].
  - intros p. upd_cases t p; [|apply H]. rewrite <- (ac_running _ _ H t). by destruct s, (a_state a t).
  - intros p. rewrite (ac_ready _ _ H). upd_cases t p; [|done]. by destruct s, (a_state a t).
  - intros p. rewrite <- (ac_wait _ _ H p). upd_cases t p; [|done]. by destruct s, (a_state a t).
  - intros e p q Hp Hq. pose proof (wait_state _ _ _ _ H Hp). pose proof (wait_state _ _ _ _ H Hq).
    upd_cases t p; [by destruct (a_state a t)|]. upd_cases t q; [by destruct (a_state a t)|].
    eauto using ac_oneway.
  - intros h Hh. pose proof (ac_reply _ _ H h Hh) as Hr. rewrite upd_ne; [done|].
    intros ->. by rewrite Hr in Hn.
  - intros p. upd_cases t p; [by destruct s|apply H].
  - intros p. upd_cases t p; [done|apply H].
Qed.

Lemma leave_run c a : acore (Some c) a -> acore None (spec_set_state c Dead a).
Proof.
  intros H. assert (Hc : a_state a c = Running) by by apply (ac_running _ _ H).
  split; simpl; try solve [apply H].
  - intros p. upd_cases c p; [done|]. rewrite (ac_running _ _ H). naive_solver.
  - intros p. rewrite (ac_ready _ _ H). upd_cases c p; [|done]. by rewrite Hc.
  - intros p. rewrite <- (ac_wait _ _ H p). upd_cases c p; [|done]. by rewrite Hc.
  - intros e p q Hp Hq. pose proof (wait_state _ _ _ _ H Hp). pose proof (wait_state _ _ _ _ H Hq).
    upd_cases c p; [done|]. upd_cases c q; [by rewrite Hc in *|]. eauto using ac_oneway.
  - intros h Hh. pose proof (ac_reply _ _ H h Hh) as Hr. rewrite upd_ne; [done|]. congruence.
  - intros p. upd_cases c p; [done|apply H].
  - intros p. upd_cases c p; [|apply H]. intros _. apply H. congruence.
Qed.

Lemma leave_ready run a t l :
  acore run a -> a_ready a = t :: l -> acore run (spec_set_state t Dead (spec_set_ready l a)).
Proof.
  intros H El. pose proof (ac_ready_nodup _ _ H) as Hnd. rewrite El in Hnd.
  apply list.NoDup_cons in Hnd as [Hnt Hnd].
  assert (Ht : a_state a t = Ready) by (apply (ac_ready _ _ H); rewrite El; apply list_elem_of_here).
  split; simpl; try solve [apply H | done].
  - intros p. rewrite <- (ac_running _ _ H p). upd_cases t p; [|done]. by rewrite Ht.
  - intros p. pose proof (ac_ready _ _ H p) as Hp. rewrite El, elem_of_cons in Hp.
    upd_cases t p; [naive_solver|]. rewrite <- Hp. naive_solver.
  - intros p. rewrite <- (ac_wait _ _ H p). upd_cases t p; [|done]. by rewrite Ht.
  - intros e p q Hp Hq. pose proof (wait_state _ _ _ _ H Hp). pose proof (wait_state _ _ _ _ H Hq).
    upd_cases t p; [done|]. upd_cases t q; [by rewrite Ht in *|]. eauto using ac_oneway.
  - intros h Hh. pose proof (ac_reply _ _ H h Hh) as Hr. rewrite upd_ne; [done|]. congruence.
  - intros p. upd_cases t p; [done|apply H].
  - intros p. upd_cases t p; [|apply H]. intros _. apply H. congruence.
Qed.

Lemma leave_wait run a e t l :
  acore run a -> a_wait a e = t :: l -> acore run (spec_set_state t Dead (spec_set_wait e l a)).
Proof.
  intros H El. assert (Ht : t ∈ a_wait a e) by (rewrite El; apply list_elem_of_here).
  pose proof (wait_state _ _ _ _ H Ht) as Hst.
  pose proof (ac_wait_nodup _ _ H e) as Hnd. rewrite El in Hnd. apply list.NoDup_cons in Hnd as [Hnt Hnd].
  assert (Hsub : forall e' p, p ∈ upd (a_wait a) e l e' <-> p <> t /\ p ∈ a_wait a e').
  { intros e' p. upd_cases e e'; [rewrite El, elem_of_cons; naive_solver|].
    split; [|tauto]. intros Hp. split; [|done]. intros ->. eauto using ac_wait_unique. }
  split; simpl; try solve [apply H].
  - intros p. rewrite <- (ac_running _ _ H p). upd_cases t p; [|done]. by destruct (a_state a t).
  - intros p. rewrite (ac_ready _ _ H). upd_cases t p; [|done]. by destruct (a_state a t).
  - intros p. setoid_rewrite Hsub. pose proof (ac_wait _ _ H p). upd_cases t p; naive_solver.
  - intros e1 e2 p. rewrite !Hsub. intros [] []. eauto using ac_wait_unique.
  - intros e'. upd_cases e e'; [done|apply H].
  - intros e' p q [? Hp]%Hsub [? Hq]%Hsub. rewrite !upd_ne by done. eauto using ac_oneway.
  - intros h Hh. pose proof (ac_reply _ _ H h Hh) as Hr. rewrite upd_ne; [done|].
    intros ->. by rewrite Hr in Hst.
  - intros p. upd_cases t p; [done|apply H].
  - intros p. upd_cases t p; [|apply H]. intros _. apply H. by destruct (a_state a t).
  - intros e'. upd_cases e e'; [|apply H]. intros _. apply H. by rewrite El.
Qed.

Lemma leave_caller run a h :
  acore run a -> a_reply a h <> 0 -> acore run (spec_set_state (a_reply a h) Dead (spec_set_reply h 0 a)).
Proof.
  intros H Hh. pose proof (ac_reply _ _ H h Hh) as Hc. set (c := a_reply a h) in *.
  split; simpl; try solve [apply H].
  - intros p. rewrite <- (ac_running _ _ H p). upd_cases c p; [|done]. by rewrite Hc.
  - intros p. rewrite (ac_ready _ _ H). upd_cases c p; [|done]. by rewrite Hc.
  - intros p. rewrite <- (ac_wait _ _ H p). upd_cases c p; [|done]. by rewrite Hc.
  - intros e p q Hp Hq. pose proof (wait_state _ _ _ _ H Hp). pose proof (wait_state _ _ _ _ H Hq).
    upd_cases c p; [done|]. upd_cases c q; [by rewrite Hc in *|]. eauto using ac_oneway.
  - intros k Hk. upd_cases h k; [done|]. rewrite (upd_ne (a_reply a)) by done.
    rewrite upd_ne; [by apply (ac_reply _ _ H)|].
    intros E. assert (k = h) by eauto using ac_reply_inj. done.
  - intros h1 h2 E Hn. upd_cases h h1; [done|]. upd_cases h h2; [done|]. eauto using ac_reply_inj.
  - intros p. upd_cases c p; [done|]. intros Hb. destruct (ac_reply_held _ _ H p Hb) as [k Hk].
    exists k. rewrite upd_ne; [done|]. by intros ->.
  - intros p. upd_cases c p; [|apply H]. intros _. apply H. congruence.
Qed.

Lemma enter_ready run a t :
  acore run a -> neutral (a_state a t) = true -> live t -> acore run (spec_enqueue t a).
Proof.
  intros H Hn Hl. destruct (neutral_unqueued _ _ _ H Hl Hn) as (_ & Hnr & Hnw).
  split; simpl; try solve [apply H].
  - intros p. rewrite <- (ac_running _ _ H p). upd_cases t p; [|done]. by destruct (a_state a t).
  - intros p. rewrite elem_of_app, list_elem_of_singleton, (ac_ready _ _ H).
    upd_cases t p; naive_solver.
  - apply list.NoDup_app. split_and!; [apply H| |apply NoDup_singleton].
    by intros p Hp ->%list_elem_of_singleton.
  - intros p. rewrite <- (ac_wait _ _ H p). upd_cases t p; [|done]. by destruct (a_state a t).
  - intros e p q Hp Hq. rewrite !upd_ne by naive_solver. eauto using ac_oneway.
  - intros h Hh. pose proof (ac_reply _ _ H h Hh) as Hr. rewrite upd_ne; [done|].
    intros ->. by rewrite Hr in Hn.
  - intros p. upd_cases t p; [done|apply H].
  - intros p. upd_cases t p; [done|apply H].
Qed.

Lemma enter_run a t :
  acore None a -> neutral (a_state a t) = true -> live t -> acore (Some t) (spec_run t a).
Proof.
  intros H Hn Hl. destruct (neutral_unqueued _ _ _ H Hl Hn) as (_ & Hnr & Hnw).
  split; simpl; try solve [apply H].
  - intros p. upd_cases t p; [done|]. rewrite (ac_running _ _ H). naive_solver.
  - intros p. rewrite (ac_ready _ _ H). upd_cases t p; [|done]. by destruct (a_state a t).
  - intros p. rewrite <- (ac_wait _ _ H p). upd_cases t p; [|done]. by destruct (a_state a t).
  - intros e p q Hp Hq. rewrite !upd_ne by naive_solver. eauto using ac_oneway.
  - intros h Hh. pose proof (ac_reply _ _ H h Hh) as Hr. rewrite upd_ne; [done|].
    intros ->. by rewrite Hr in Hn.
  - intros p. upd_cases t p; [done|apply H].
  - intros p. upd_cases t p; [done|apply H].
Qed.

(** Joining an endpoint queue of the same direction. *)
Lemma enter_wait run a e t s :
  acore run a -> neutral (a_state a t) = true -> live t -> isep e -> waiting s = true ->
  (forall q, q ∈ a_wait a e -> a_state a q = BlockedRecv <-> s = BlockedRecv) ->
  acore run (spec_set_wait e (a_wait a e ++ [t]) (spec_set_state t s a)).
Proof.
  intros H Hn Hl He Hs Hdir. destruct (neutral_unqueued _ _ _ H Hl Hn) as (_ & Hnr & Hnw).
  assert (Hsub : forall e' p, p ∈ upd (a_wait a) e (a_wait a e ++ [t]) e' <->
    p ∈ a_wait a e' \/ (p = t /\ e' = e)).
  { intros e' p. upd_cases e e'; [rewrite elem_of_app, list_elem_of_singleton|]; naive_solver. }
  split; simpl; try solve [apply H].
  - intros p. rewrite <- (ac_running _ _ H p). upd_cases t p; [|done]. by destruct s, (a_state a t).
  - intros p. rewrite (ac_ready _ _ H). upd_cases t p; [|done]. by destruct s, (a_state a t).
  - intros p. setoid_rewrite Hsub. pose proof (ac_wait _ _ H p). upd_cases t p; naive_solver.
  - intros e1 e2 p. rewrite !Hsub. intros [H1|[-> ->]] [H2|[E ->]]; subst; try done;
      [eauto using ac_wait_unique|by apply Hnw in H1|by apply Hnw in H2].
  - intros e'. upd_cases e e'; [|apply H]. apply list.NoDup_app.
    split_and!; [apply H| |apply NoDup_singleton]. by intros p Hp ->%list_elem_of_singleton; apply Hnw in Hp.
  - intros e' p q Hp Hq. apply Hsub in Hp, Hq.
    assert (Ht : forall q, q ∈ a_wait a e' -> t <> q) by (intros ? ? ->; by eapply Hnw).
    destruct Hp as [Hp|[-> ->]], Hq as [Hq|[-> E]]; subst; rewrite ?upd_eq, ?upd_ne by auto;
      [eauto using ac_oneway|apply Hdir; auto|apply Hdir; auto|done].
  - intros h Hh. pose proof (ac_reply _ _ H h Hh) as Hr. rewrite upd_ne; [done|].
    intros ->. by rewrite Hr in Hn.
  - intros p. upd_cases t p; [by destruct s|apply H].
  - intros p. upd_cases t p; [done|apply H].
  - intros e'. upd_cases e e'; [done|apply H].
Qed.

(** Waiting for a reply, with the capability in the free hand of [h]. *)
Lemma enter_reply run a h t :
  acore run a -> neutral (a_state a t) = true -> live t -> a_reply a h = 0 ->
  acore run (spec_set_reply h t (spec_set_state t BlockedReply a)).
Proof.
  intros H Hn Hl Hh. destruct (neutral_unqueued _ _ _ H Hl Hn) as (Ht0 & Hnr & Hnw).
  assert (Hnt : forall k, a_reply a k <> 0 -> a_reply a k <> t).
  { intros k Hk <-. by rewrite (ac_reply _ _ H k Hk) in Hn. }
  split; simpl; try solve [apply H].
  - intros p. rewrite <- (ac_running _ _ H p). upd_cases t p; [|done]. by destruct (a_state a t).
  - intros p. rewrite (ac_ready _ _ H). upd_cases t p; [|done]. by destruct (a_state a t).
  - intros p. rewrite <- (ac_wait _ _ H p). upd_cases t p; [|done]. by destruct (a_state a t).
  - intros e p q Hp Hq. rewrite !upd_ne by naive_solver. eauto using ac_oneway.
  - intros k Hk. upd_cases h k; [done|]. rewrite (upd_ne (a_reply a)) by done.
    rewrite upd_ne; [by apply (ac_reply _ _ H)|].
    intros E. by eapply Hnt.
  - intros h1 h2 E Hne. upd_cases h h1; upd_cases h h2; [done|exfalso; apply (Hnt h2); congruence|exfalso; apply (Hnt h1); congruence|].
    eauto using ac_reply_inj.
  - intros p. upd_cases t p; [exists h; apply upd_eq|]. intros Hb.
    destruct (ac_reply_held _ _ H p Hb) as [k <-]. exists k. rewrite upd_ne; [done|]. intros ->.
    rewrite Hh in Hb. apply (acore_nonzero _ _ 0 H); [congruence|done].
  - intros p. upd_cases t p; [done|apply H].
Qed.

(** *** The scheduler's operations preserve the invariant *)

Lemma acore_run_next a p l :
  acore None a -> a_ready a = p :: l -> acore (Some p) (spec_run p (spec_set_ready l a)).
Proof.
  intros H El. assert (Hp : live p).
  { apply (ac_live _ _ H). enough (a_state a p = Ready) by congruence.
    apply (ac_ready _ _ H). rewrite El. apply list_elem_of_here. }
  pose proof (leave_ready _ _ _ _ H El) as H1. apply (enter_run _ p) in H1; [|by simpl; rewrite upd_eq|done].
  eapply acore_ext; [exact H1|done|pointwise..].
Qed.

Lemma replies_active_upd a p s :
  replies_active a -> active s = true -> replies_active (spec_set_state p s a).
Proof. intros H Hs h Hh. simpl. upd_cases p h; [done|]. by apply H. Qed.

(** [spec_block] either runs the next task or finds no ready task at all. *)
Lemma spec_block_inv a b a' :
  acore None a -> replies_active a -> spec_block a = (b, a') ->
  if b then ainv a' else a' = a /\ forall p, a_state a p <> Ready /\ a_state a p <> Running.
Proof.
  intros H Hr Hb. unfold spec_block in Hb. destruct (a_ready a) as [|p l] eqn:El; simplify_eq.
  - split; [done|]. intros p. rewrite <- (ac_ready _ _ H), (ac_running _ _ H), El.
    split; [apply not_elem_of_nil|done].
  - split_and!; [by apply acore_run_next| |done].
    exact (replies_active_upd (spec_set_ready l a) p Running Hr eq_refl).
Qed.

Lemma ainv_cur a : ainv a -> a_state a (a_cur a) = Running.
Proof. intros [H _]. by apply (ac_running _ _ H). Qed.

Lemma ainv_cur_unqueued a : ainv a -> unqueued a (a_cur a).
Proof.
  intros Ha. pose proof (ainv_cur a Ha) as Hc. destruct Ha as [H _].
  eapply acore_unqueued; [done|rewrite Hc; done..].
Qed.

Lemma ainv_cur_live a : ainv a -> live (a_cur a).
Proof. intros Ha. pose proof (ainv_cur a Ha) as Hc. destruct Ha as [H _]. apply (ac_live _ _ H). congruence. Qed.

Lemma spec_rotate_inv a : ainv a -> ainv (spec_rotate a).
Proof.
  intros Ha. pose proof (ainv_cur_live a Ha) as Hl. destruct Ha as (H & Hr & Hm).
  unfold spec_rotate. destruct (a_ready a) as [|p l] eqn:El; [done|].
  apply leave_run in H. apply (enter_ready _ _ (a_cur a)) in H; [|by simpl; rewrite upd_eq|done].
  eapply (acore_run_next _ p (l ++ [a_cur a])) in H; [|simpl; by rewrite El].
  split_and!; [|apply (replies_active_upd (spec_enqueue (a_cur a) (spec_set_ready l a)) p Running); [|done];
    by apply (replies_active_upd (spec_set_ready l a) _ Ready)|done].
  eapply acore_ext; [exact H|done|pointwise..].
Qed.
End invariant.

(** ** Round robin *)

(** The processor's waiting line, the running task first. *)
Definition line (a : astate) : list Z := a_cur a :: a_ready a.

Lemma spec_rotate_line a : line (spec_rotate a) = a_ready a ++ [a_cur a].
Proof. unfold line, spec_rotate. destruct (a_ready a) eqn:E; simpl; by rewrite ?E. Qed.

(** After [i] turns the line has advanced by [i]. *)
Lemma spec_rotate_iter i a :
  (i <= length (line a))%nat ->
  line (Nat.iter i spec_rotate a) = drop i (line a) ++ take i (line a).
Proof.
  induction i as [|i IH]; intros Hi; [by rewrite app_nil_r|].
  specialize (IH ltac:(lia)).
  change (Nat.iter (S i) spec_rotate a) with (spec_rotate (Nat.iter i spec_rotate a)).
  rewrite spec_rotate_line.
  destruct (lookup_lt_is_Some_2 (line a) i) as [p Hp]; [lia|].
  rewrite (drop_S _ _ _ Hp) in IH. unfold line in IH at 1. injection IH as E1 E2.
  rewrite E1, E2, (take_S_r _ _ _ Hp). by rewrite <- app_assoc.
Qed.

Lemma spec_rotate_iter_inv live isep i a : ainv live isep a -> ainv live isep (Nat.iter i spec_rotate a).
Proof. intros Ha. induction i as [|i IH]; [done|]. by apply spec_rotate_inv. Qed.

Lemma rep_rotate_iter live isep i st a :
  rep st a -> ainv live isep a -> rep (Nat.iter i rotate st) (Nat.iter i spec_rotate a).
Proof.
  intros H Ha. induction i as [|i IH]; [done|].
  apply rep_rotate; [done|]. eapply ainv_cur_unqueued, spec_rotate_iter_inv, Ha.
Qed.

(** round robin is fair: the task at position [i] of the ready queue runs
    after exactly [i + 1] timer ticks or yields, in its own address space, and
    after one full round the first task runs again. *)
Lemma rotate_round_robin live isep st a i :
  rep st a -> ainv live isep a -> (i <= length (a_ready a))%nat ->
  let st' := Nat.iter i rotate st in
  cur st' = default 0 ((cur st :: a_ready a) !! i) /\
  current_context st' = cur st' /\ ttbr0 st' = ttbr0_pa (tcb st' (cur st')) /\
  cur (Nat.iter (S (length (a_ready a))) rotate st) = cur st.
Proof.
  intros H Ha Hi st'. pose proof (rep_rotate_iter live isep i st a H Ha) as Hr.
  pose proof (spec_rotate_iter_inv live isep i a Ha) as (_ & _ & Hm).
  pose proof (spec_rotate_iter i a) as Hl. fold st' in Hr. unfold cur.
  rewrite (rep_cur _ _ Hr), (rep_cur _ _ H), (rep_context _ _ Hr), (rep_mmu _ _ Hr), (rep_root _ _ Hr).
  split_and!; [|done|done|].
  - destruct (lookup_lt_is_Some_2 (line a) i) as [p Hp]; [simpl; lia|].
    change (a_cur a :: a_ready a) with (line a). rewrite Hp. simpl.
    rewrite (drop_S _ _ _ Hp) in Hl. unfold line in Hl at 2. specialize (Hl ltac:(simpl; lia)).
    by injection Hl.
  - pose proof (rep_rotate_iter live isep (S (length (a_ready a))) st a H Ha) as Hr'.
    rewrite (rep_cur _ _ Hr'). pose proof (spec_rotate_iter (S (length (a_ready a))) a) as Hl'.
    specialize (Hl' ltac:(simpl; lia)). rewrite drop_ge, take_ge in Hl' by (simpl; lia). by injection Hl'.
Qed.

(** ** An instance

    Five tasks: 0x1000 runs and owes a reply to 0x4000; 0x2000 waits for a
    message on the endpoint 0x9000; 0x5000 and 0x6000 are ready. *)

Definition ex_live (p : Z) : Prop := p ∈ [0x1000; 0x2000; 0x4000; 0x5000; 0x6000].
Definition ex_isep (e : Z) : Prop := e = 0xFFFF000040009000.

Definition ex_state (p : Z) : TaskState :=
  if decide (p = 0x1000) then Running else
  if decide (p = 0x2000) then BlockedRecv else
  if decide (p = 0x4000) then BlockedReply else
  if decide (p = 0x5000) then Ready else
  if decide (p = 0x6000) then Ready else Inactive.

Definition ex_regs (v : Z) : Context :=
  mkContext (4 :: 0 :: [v; v + 1; v + 2; v + 3] ++ replicate 25 0) 0x10000000 0x400000 0 0 0.

Definition ex_tcb (p : Z) : Tcb :=
  mkTcb (ex_regs p) 0x40100000 (ex_state p)
    (if decide (p = 0x5000) then 0x6000 else 0)
    (if decide (p = 0x1000) then 0x4000 else 0).

Definition ex_st : tstate :=
  mkTstate (list_to_map ((fun p => (p, ex_tcb p)) <$> [0x1000; 0x2000; 0x4000; 0x5000; 0x6000]))
    {[0xFFFF000040009000 := mkEndpoint 0x2000 0x2000]} (mkSched 0x1000 0x5000 0x6000) 0x1000 0x40100000.

Definition ex_a : astate :=
  mkA 0x1000 [0x5000; 0x6000] (fun e => if decide (e = 0xFFFF000040009000) then [0x2000] else [])
    ex_state (fun h => if decide (h = 0x1000) then 0x4000 else 0)
    (fun p => ctx (tcb ex_st p)) (fun p => ttbr0_pa (tcb ex_st p)) 0x40100000.

(** Every address is one of the five, or has no entry. *)
Lemma ex_tcb_cases p :
  (p ∈ [0x1000; 0x2000; 0x4000; 0x5000; 0x6000]) /\ tcb ex_st p = ex_tcb p \/
  (~ (p ∈ [0x1000; 0x2000; 0x4000; 0x5000; 0x6000]) /\ tcb ex_st p = zero_tcb).
Proof.
  destruct (decide (p ∈ [0x1000; 0x2000; 0x4000; 0x5000; 0x6000])) as [H|H].
  - left. split; [done|]. rewrite !elem_of_cons in H.
    destruct H as [->|[->|[->|[->|[->|H%not_elem_of_nil]]]]]; by vm_compute || done.
  - right. split; [done|]. unfold tcb, ex_st. cbn [tcbs]. rewrite not_elem_of_list_to_map_1; [done|].
    rewrite <- list_fmap_compose. intros (q & -> & Hin)%list_elem_of_fmap. by apply H.
Qed.

Lemma ex_rep : rep ex_st ex_a.
Proof.
  split; simpl.
  - split_and!; [vm_compute; done|done|]. apply NoDup_cons_2; [set_solver|]. apply NoDup_singleton.
  - intros e. unfold ep, ex_st. simpl. case_decide as E; subst.
    + rewrite lookup_singleton_eq. split_and!; [vm_compute; done|done|apply NoDup_singleton].
    + rewrite lookup_singleton_ne by done. by apply queue_nil.
  - intros p. destruct (ex_tcb_cases p) as [[Hin ->]|[Hin ->]]; [done|]. unfold ex_state.
    rewrite !decide_False by set_solver. done.
  - intros p. destruct (ex_tcb_cases p) as [[Hin ->]|[Hin ->]]; [done|]. simpl.
    by rewrite decide_False by set_solver.
  - done.
  - done.
  - done.
  - done.
  - done.
  - intros e p Hp. case_decide; set_solver.
  - intros e1 e2 p. repeat case_decide; set_solver.
  - intros p. destruct (ex_tcb_cases p) as [[_ ->]|[_ ->]]; done.
  - done.
Qed.

Lemma ex_ainv : ainv ex_live ex_isep ex_a.
Proof.
  assert (Hl : forall p, ex_state p <> Inactive -> p ∈ [0x1000; 0x2000; 0x4000; 0x5000; 0x6000]).
  { intros p. unfold ex_state. repeat case_decide; set_solver. }
  split_and!; [|intros h; simpl; unfold ex_state; by repeat case_decide; subst|done].
  split; simpl.
  - intros p. unfold ex_state. repeat case_decide; subst; naive_solver.
  - intros p. rewrite !elem_of_cons, elem_of_nil. unfold ex_state. repeat case_decide; subst; naive_solver lia.
  - apply NoDup_cons_2; [set_solver|]. apply NoDup_singleton.
  - intros p. unfold ex_state. split.
    + intros Hw. exists 0xFFFF000040009000. rewrite decide_True by done.
      repeat case_decide; subst; try done. set_solver.
    + intros [e He]. destruct (decide (e = _)); [|set_solver].
      apply list_elem_of_singleton in He as ->. done.
  - intros e1 e2 p. repeat case_decide; set_solver.
  - intros e. case_decide; [apply NoDup_singleton|constructor].
  - intros e p q. case_decide; [|set_solver]. intros ->%list_elem_of_singleton ->%list_elem_of_singleton. done.
  - intros h. case_decide; done.
  - intros h1 h2. repeat case_decide; subst; done.
  - intros p Hp. exists 0x1000. unfold ex_state in Hp. repeat case_decide; subst; done.
  - exact Hl.
  - unfold ex_live. set_solver.
  - intros e. by case_decide.
Qed.

Lemma rotate_round_robin_witness :
  cur (Nat.iter 2 rotate ex_st) = 0x6000 /\ cur (Nat.iter 3 rotate ex_st) = 0x1000.
Proof.
  destruct (rotate_round_robin ex_live ex_isep ex_st ex_a 2 ex_rep ex_ainv ltac:(simpl; lia)) as (H1 & _ & _ & H2).
  split; [exact H1|exact H2].
Defined.
