(* ===== verification/Ipc.v ===== *)
(** * Synchronous rendezvous IPC

    crates/k0-ipc/src/lib.rs: SEND, RECV, CALL and REPLY_RECV on the shared task
    state.  A handler gets the caller's saved context as the TCB that holds it,
    so that a context and the TCB fields around it alias as they do in the
    kernel.  It answers [false] when no task is left to run.

    The contract of each call is a function on the lists of [Sched.astate]; the
    handlers refine it and preserve the invariant of the task state machine. *)

From S2P Require Import Prelude Abi Cap Task Sched.

(** ** Operations *)

(** The kernel alias of the endpoint in a slot; the addition is checked. *)
Definition ep_of (cn : CNode) (slot : Z) : res Z Z :=
  match cap cn slot with
  | Some (Cap.Endpoint base) => add_p base KERNEL_VA_OFFSET
  | Some _ => Err err.BAD_CAP
  | None => Err err.BAD_SLOT
  end.

(** The message registers x2..x5 and nothing else; x0 and x1 are cleared. *)
Definition deliver (src dst : Context) : Context :=
  let dst := set_reg 2 (reg src 2) dst in
  let dst := set_reg 3 (reg src 3) dst in
  let dst := set_reg 4 (reg src 4) dst in
  let dst := set_reg 5 (reg src 5) dst in
  set_reg 1 0 (set_reg 0 0 dst).

Definition abort_reply (holder : Z) (st : tstate) : tstate :=
  let caller := reply_to (tcb st holder) in
  let st := set_reply_to holder 0 st in
  if caller =? 0 then st
  else enqueue caller (set_ctx caller (set_reg 0 (as_u64 err.NO_REPLY)) st).

(** The common start of the four handlers: the endpoint of x0 and the NONBLOCK
    flag of x1; a bad slot is reported in x0 and the task goes on. *)
Definition with_ep (cn : CNode) (c : Z) (body : Z -> bool -> tstate -> bool * tstate) (st : tstate) :
    res Empty_set bool * tstate :=
  match ep_of cn (reg (ctx (tcb st c)) 0) with
  | Ok e =>
    let nonblock := negb (Z.land (reg (ctx (tcb st c)) 1) ipc.NONBLOCK =? 0) in
    let '(b, st) := body e nonblock st in (Ok b, st)
  | Err e => (Ok true, set_ctx c (set_reg 0 (as_u64 e)) st)
  | Panic => (Panic, st)
  | OutOfFuel => (OutOfFuel, st)
  end.

(** The head of the endpoint's queue exists and its state satisfies [P]. *)
Definition head_is (P : TaskState -> bool) (e : Z) (st : tstate) : bool :=
  negb (head (ep st e) =? 0) && P (state (tcb st (head (ep st e)))).

Definition is_recv (s : TaskState) : bool := bool_decide (s = BlockedRecv).

(** Leave the current task in [s] on the endpoint and run the next one. *)
Definition block_on (e : Z) (s : TaskState) (st : tstate) : bool * tstate :=
  let cu := cur st in
  block_and_switch (Endpoint.push e cu (set_state cu s st)).

Definition send_body (c e : Z) (nonblock : bool) (st : tstate) : bool * tstate :=
  if head_is is_recv e st then
    let '(rcv, st) := Endpoint.pop e st in
    let st := set_ctx rcv (deliver (ctx (tcb st c))) st in
    let st := enqueue rcv st in
    (true, set_ctx c (set_reg 0 0) st)
  else if nonblock then (true, set_ctx c (set_reg 0 (as_u64 err.WOULD_BLOCK)) st)
  else block_on e BlockedSend st.

Definition sys_send (cn : CNode) (c : Z) : tstate -> res Empty_set bool * tstate :=
  with_ep cn c (send_body c).

Definition recv_inner (c e : Z) (nonblock : bool) (st : tstate) : bool * tstate :=
  if head_is (fun s => negb (is_recv s)) e st then
    let '(snd, st) := Endpoint.pop e st in
    let st := set_ctx c (deliver (ctx (tcb st snd))) st in
    if bool_decide (state (tcb st snd) = BlockedCall) then
      let cu := cur st in
      let st := abort_reply cu st in
      let st := set_state snd BlockedReply st in
      (true, set_reply_to cu snd st)
    else
      (true, enqueue snd (set_ctx snd (set_reg 0 0) st))
  else if nonblock then (true, set_ctx c (set_reg 0 (as_u64 err.WOULD_BLOCK)) st)
  else block_on e BlockedRecv st.

Definition sys_recv (cn : CNode) (c : Z) : tstate -> res Empty_set bool * tstate :=
  with_ep cn c (recv_inner c).

Definition call_body (c e : Z) (nonblock : bool) (st : tstate) : bool * tstate :=
  let cu := cur st in
  if head_is is_recv e st then
    let '(rcv, st) := Endpoint.pop e st in
    let st := set_ctx rcv (deliver (ctx (tcb st c))) st in
    let st := abort_reply rcv st in
    let st := set_reply_to rcv cu st in
    let st := set_state cu BlockedReply st in
    block_and_switch (enqueue rcv st)
  else if nonblock then (true, set_ctx c (set_reg 0 (as_u64 err.WOULD_BLOCK)) st)
  else block_and_switch (Endpoint.push e cu (set_state cu BlockedCall st)).

Definition sys_call (cn : CNode) (c : Z) : tstate -> res Empty_set bool * tstate :=
  with_ep cn c (call_body c).

Definition reply_recv_body (c e : Z) (nonblock : bool) (st : tstate) : bool * tstate :=
  let cu := cur st in
  let caller := reply_to (tcb st cu) in
  let st := if caller =? 0 then st else
    let st := set_reply_to cu 0 st in
    let st := set_ctx caller (deliver (ctx (tcb st c))) st in
    enqueue caller st in
  recv_inner c e nonblock st.

Definition sys_reply_recv (cn : CNode) (c : Z) : tstate -> res Empty_set bool * tstate :=
  with_ep cn c (reply_recv_body c).

(** main.rs [kill_current]: the task's pending caller is woken first. *)
Definition kill_current (st : tstate) : bool * tstate := exit_current (abort_reply (cur st) st).

(** ** The contract on lists *)

Definition spec_abort (h : Z) (a : astate) : astate :=
  let c := a_reply a h in
  let a := spec_set_reply h 0 a in
  if decide (c = 0) then a
  else spec_enqueue c (spec_set_ctx c (set_reg 0 (as_u64 err.NO_REPLY)) a).

Definition spec_block_on (e : Z) (s : TaskState) (a : astate) : bool * astate :=
  spec_block (spec_set_wait e (a_wait a e ++ [a_cur a]) (spec_set_state (a_cur a) s a)).

Definition spec_would_block (a : astate) : astate :=
  spec_set_ctx (a_cur a) (set_reg 0 (as_u64 err.WOULD_BLOCK)) a.

(** The first waiter on the endpoint if it satisfies [P], and those behind it. *)
Definition first_waiter (P : TaskState -> bool) (e : Z) (a : astate) : option (Z * list Z) :=
  match a_wait a e with
  | t :: l => if P (a_state a t) then Some (t, l) else None
  | [] => None
  end.

Definition spec_send (e : Z) (nonblock : bool) (a : astate) : bool * astate :=
  match first_waiter is_recv e a with
  | Some (rcv, l) =>
    (true, spec_set_ctx (a_cur a) (set_reg 0 0)
             (spec_enqueue rcv (spec_set_ctx rcv (deliver (a_ctx a (a_cur a))) (spec_set_wait e l a))))
  | None => if nonblock then (true, spec_would_block a) else spec_block_on e BlockedSend a
  end.

Definition spec_recv (e : Z) (nonblock : bool) (a : astate) : bool * astate :=
  match first_waiter (fun s => negb (is_recv s)) e a with
  | Some (snd, l) =>
    let a1 := spec_set_ctx (a_cur a) (deliver (a_ctx a snd)) (spec_set_wait e l a) in
    if decide (a_state a snd = BlockedCall)
    then (true, spec_set_reply (a_cur a) snd (spec_set_state snd BlockedReply (spec_abort (a_cur a) a1)))
    else (true, spec_enqueue snd (spec_set_ctx snd (set_reg 0 0) a1))
  | None => if nonblock then (true, spec_would_block a) else spec_block_on e BlockedRecv a
  end.

Definition spec_call (e : Z) (nonblock : bool) (a : astate) : bool * astate :=
  match first_waiter is_recv e a with
  | Some (rcv, l) =>
    let a1 := spec_abort rcv (spec_set_ctx rcv (deliver (a_ctx a (a_cur a))) (spec_set_wait e l a)) in
    spec_block (spec_enqueue rcv (spec_set_state (a_cur a) BlockedReply (spec_set_reply rcv (a_cur a) a1)))
  | None => if nonblock then (true, spec_would_block a) else spec_block_on e BlockedCall a
  end.

Definition spec_reply (a : astate) : astate :=
  let c := a_reply a (a_cur a) in
  if decide (c = 0) then a
  else spec_enqueue c (spec_set_ctx c (deliver (a_ctx a (a_cur a))) (spec_set_reply (a_cur a) 0 a)).

Definition spec_reply_recv (e : Z) (nonblock : bool) (a : astate) : bool * astate :=
  spec_recv e nonblock (spec_reply a).

Definition spec_kill (a : astate) : bool * astate := spec_exit (spec_abort (a_cur a) a).

(** ** The contract preserves the task invariant *)

Lemma first_waiter_Some P e a t l :
  first_waiter P e a = Some (t, l) -> a_wait a e = t :: l /\ P (a_state a t) = true.
Proof. unfold first_waiter. intros. repeat case_match; by simplify_eq. Qed.

Section contract.
Context (live isep : Z -> Prop).
#[local] Abbreviation acore := (acore live isep).
#[local] Abbreviation ainv := (ainv live isep).

Lemma ainv_set_ctx p f a : ainv a -> ainv (spec_set_ctx p f a).
Proof. intros (H & Hr & Hm). split_and!; [|done..]. by eapply acore_ext. Qed.

(** What a handler leaves behind: a running system, or nobody who could run. *)
Definition outcome (b : bool) (a : astate) : Prop :=
  if b then ainv a else forall p, a_state a p <> Ready /\ a_state a p <> Running.

(** Without a matching waiter the queue is empty or of the other direction. *)
Lemma no_receiver run e a q :
  acore run a -> first_waiter is_recv e a = None -> q ∈ a_wait a e -> a_state a q <> BlockedRecv.
Proof.
  intros H Hf Hq Hs. unfold first_waiter in Hf. destruct (a_wait a e) as [|t l] eqn:El.
  - by apply not_elem_of_nil in Hq.
  - assert (Ht : a_state a t = BlockedRecv).
    { eapply (ac_oneway _ _ _ _ H e q t); [by rewrite El|rewrite El; apply list_elem_of_here|done]. }
    by rewrite Ht in Hf.
Qed.

Lemma no_sender run e a q :
  acore run a -> first_waiter (fun s => negb (is_recv s)) e a = None -> q ∈ a_wait a e ->
  a_state a q = BlockedRecv.
Proof.
  intros H Hf Hq. unfold first_waiter in Hf. destruct (a_wait a e) as [|t l] eqn:El.
  - by apply not_elem_of_nil in Hq.
  - destruct (is_recv (a_state a t)) eqn:Er; [|done]. apply bool_decide_eq_true in Er.
    eapply (ac_oneway _ _ _ _ H e t q); [rewrite El; apply list_elem_of_here|by rewrite El|done].
Qed.

Lemma wait_live run e a t l : acore run a -> a_wait a e = t :: l -> live t.
Proof.
  intros H El. apply (ac_live _ _ _ _ H). intros Hs.
  assert (Hw : waiting (a_state a t) = true)
    by (apply (ac_wait _ _ _ _ H); exists e; rewrite El; apply list_elem_of_here).
  by rewrite Hs in Hw.
Qed.

Lemma spec_abort_core run a h : acore run a -> acore run (spec_abort h a).
Proof.
  intros H. unfold spec_abort. case_decide as E.
  - eapply acore_ext; [exact H|done..|]. intros p. simpl. unfold upd. case_decide; by subst.
  - pose proof (ac_reply _ _ _ _ H h E) as Hs.
    assert (Hl : live (a_reply a h)) by (apply (ac_live _ _ _ _ H); congruence).
    pose proof (leave_caller _ _ _ _ _ H E) as H1.
    apply (enter_ready live isep run _ (a_reply a h)) in H1; [|apply dead_neutral|done].
    eapply acore_ext; [exact H1|done|pointwise..].
Qed.

Lemma spec_abort_active a h : replies_active a -> replies_active (spec_abort h a).
Proof.
  intros H k. unfold spec_abort. case_decide; simpl; unfold upd; repeat case_decide; try done; apply H.
Qed.

Lemma spec_abort_reply a h : a_reply (spec_abort h a) h = 0.
Proof. unfold spec_abort. case_decide; simpl; apply upd_eq. Qed.

Lemma spec_abort_cur a h : a_cur (spec_abort h a) = a_cur a.
Proof. unfold spec_abort. by case_decide. Qed.

Lemma spec_abort_stays_active a h p :
  active (a_state a p) = true -> active (a_state (spec_abort h a) p) = true.
Proof. intros. unfold spec_abort. case_decide; simpl; [done|]. unfold upd. by case_decide. Qed.

(** A task other than the woken caller keeps its state. *)
Lemma spec_abort_state a h p : p <> a_reply a h -> a_state (spec_abort h a) p = a_state a p.
Proof. intros. unfold spec_abort. case_decide; simpl; [done|]. by rewrite upd_ne. Qed.

Lemma spec_block_on_inv e s a b a' :
  ainv a -> isep e -> waiting s = true ->
  (forall q, q ∈ a_wait a e -> a_state a q = BlockedRecv <-> s = BlockedRecv) ->
  spec_block_on e s a = (b, a') -> outcome b a'.
Proof.
  intros Ha He Hs Hd Hb. pose proof (ainv_cur_live _ _ _ Ha) as Hl.
  pose proof (ainv_cur _ _ _ Ha) as Hc. destruct Ha as (H & Hr & Hm).
  pose proof (leave_run _ _ _ _ H) as H1.
  apply (enter_wait live isep None _ e (a_cur a) s) in H1; [|apply dead_neutral|done..|].
  2:{ simpl. intros q Hq. rewrite upd_ne; [by apply Hd|]. intros <-.
      pose proof (wait_state _ _ _ _ _ _ H Hq) as Hw. by rewrite Hc in Hw. }
  unfold spec_block_on in Hb. eapply (spec_block_inv live isep) in Hb.
  - destruct b; [done|]. destruct Hb as [-> Hb]. exact Hb.
  - eapply acore_ext; [exact H1|done|pointwise..].
  - intros h Hh. simpl. unfold upd. case_decide; [by destruct s|by apply Hr].
Qed.

Lemma spec_send_inv e nb a b a' :
  ainv a -> isep e -> spec_send e nb a = (b, a') -> outcome b a'.
Proof.
  intros Ha He Hs. pose proof Ha as (H & Hr & Hm). unfold spec_send in Hs.
  destruct (first_waiter is_recv e a) as [[t l]|] eqn:Ef; [|destruct nb; simplify_eq; [by apply ainv_set_ctx|]].
  - apply first_waiter_Some in Ef as [El Es]. simplify_eq. split_and!; [| |done].
    + pose proof (leave_wait _ _ _ _ _ _ _ H El) as H1.
      apply (enter_ready live isep _ _ t) in H1; [|apply dead_neutral|exact (wait_live _ _ _ _ _ H El)].
      eapply acore_ext; [exact H1|done|pointwise..].
    + intros h Hh. simpl. unfold upd. case_decide; [done|by apply Hr].
  - eapply (spec_block_on_inv e BlockedSend a); [done..| |done]. intros q Hq.
    split; [|done]. intros Hq'. by eapply no_receiver in Hq.
Qed.

Lemma spec_recv_inv e nb a b a' :
  ainv a -> isep e -> spec_recv e nb a = (b, a') -> outcome b a'.
Proof.
  intros Ha He Hs. pose proof (ainv_cur _ _ _ Ha) as Hcur. pose proof Ha as (H & Hr & Hm).
  unfold spec_recv in Hs.
  destruct (first_waiter _ e a) as [[t l]|] eqn:Ef; [|destruct nb; simplify_eq; [by apply ainv_set_ctx|]].
  2:{ eapply (spec_block_on_inv e BlockedRecv a); [done..| |done]. intros q Hq. split; [done|]. intros _.
      by eapply no_sender. }
  apply first_waiter_Some in Ef as [El Es]. pose proof (wait_live _ _ _ _ _ H El) as Hl.
  pose proof (leave_wait _ _ _ _ _ _ _ H El) as H1. case_decide as Ec; simplify_eq.
  - set (a1 := spec_set_ctx _ _ _). eapply (spec_abort_core _ _ (a_cur a)) in H1.
    assert (Hne : t <> a_reply a (a_cur a)).
    { intros E. pose proof (ac_reply _ _ _ _ H (a_cur a)) as Hrep. rewrite <- E in Hrep.
      rewrite Ec in Hrep. eapply (acore_nonzero _ _ _ _ t) in H; [|congruence]. naive_solver. }
    apply (enter_reply live isep _ _ (a_cur a) t) in H1;
      [|rewrite spec_abort_state by done; apply dead_neutral|done|apply spec_abort_reply].
    split_and!.
    + simpl. rewrite spec_abort_cur. eapply acore_ext; [exact H1| |..]; unfold spec_abort; simpl;
        case_decide; try done; pointwise.
    + intros h Hh. simpl in *. upd_cases t h; [done|]. upd_cases (a_cur a) h.
      * apply spec_abort_stays_active. simpl. by rewrite Hcur.
      * apply spec_abort_active; [exact Hr|done].
    + simpl. rewrite spec_abort_cur. unfold spec_abort. by case_decide.
  - split_and!; [| |done].
    + apply (enter_ready live isep _ _ t) in H1; [|apply dead_neutral|done].
      eapply acore_ext; [exact H1|done|pointwise..].
    + intros h Hh. simpl. unfold upd. case_decide; [done|by apply Hr].
Qed.

Lemma spec_call_inv e nb a b a' :
  ainv a -> isep e -> spec_call e nb a = (b, a') -> outcome b a'.
Proof.
  intros Ha He Hs. pose proof (ainv_cur _ _ _ Ha) as Hcur. pose proof (ainv_cur_live _ _ _ Ha) as Hlc.
  pose proof Ha as (H & Hr & Hm). unfold spec_call in Hs.
  destruct (first_waiter _ e a) as [[t l]|] eqn:Ef; [|destruct nb; simplify_eq; [by apply ainv_set_ctx|]].
  2:{ eapply (spec_block_on_inv e BlockedCall a); [done..| |done]. intros q Hq.
      split; [|done]. intros Hq'. by eapply no_receiver in Hq. }
  apply first_waiter_Some in Ef as [El Es]. apply bool_decide_eq_true in Es.
  pose proof (wait_live _ _ _ _ _ H El) as Hl.
  assert (Htc : t <> a_cur a) by (intros ->; congruence).
  assert (Htr : t <> a_reply a t).
  { intros E. assert (a_state a (a_reply a t) = BlockedReply) by (apply (ac_reply _ _ _ _ H); rewrite <- E;
      apply (acore_nonzero _ _ _ _ t H); congruence). congruence. }
  pose proof (leave_wait _ _ _ _ _ _ _ H El) as H1. apply (spec_abort_core _ _ t) in H1.
  apply leave_run in H1. apply (enter_reply live isep _ _ t (a_cur a)) in H1;
    [|apply dead_neutral|done|apply spec_abort_reply].
  apply (enter_ready live isep _ _ t) in H1; [|simpl; rewrite !upd_ne by done;
    rewrite spec_abort_state by done; apply dead_neutral|done].
  eapply (spec_block_inv live isep) in Hs.
  - destruct b; [done|]. destruct Hs as [-> Hs]. exact Hs.
  - eapply acore_ext; [exact H1| |..]; unfold spec_abort; simpl; case_decide; try done; pointwise.
  - intros h Hh. simpl in *. upd_cases t h; [done|].
    upd_cases (a_cur a) h; [done|]. apply spec_abort_active; [exact Hr|done].
Qed.

Lemma spec_reply_inv a : ainv a -> ainv (spec_reply a).
Proof.
  intros Ha. pose proof Ha as (H & Hr & Hm). pose proof (spec_abort_core _ _ (a_cur a) H) as H1.
  pose proof (spec_abort_active _ (a_cur a) Hr) as H2. unfold spec_reply, spec_abort in *.
  case_decide; [done|]. split_and!; [|done..]. eapply acore_ext; [exact H1|done..].
Qed.

Lemma spec_reply_recv_inv e nb a b a' :
  ainv a -> isep e -> spec_reply_recv e nb a = (b, a') -> outcome b a'.
Proof. intros Ha. apply spec_recv_inv. by apply spec_reply_inv. Qed.

Lemma spec_kill_inv a b a' : ainv a -> spec_kill a = (b, a') -> outcome b a'.
Proof.
  intros (H & Hr & Hm) Hs. apply (spec_abort_core _ _ (a_cur a)) in H.
  unfold spec_kill, spec_exit in Hs. rewrite spec_abort_cur in Hs.
  eapply (spec_block_inv live isep) in Hs.
  - destruct b; [done|]. destruct Hs as [-> Hs]. exact Hs.
  - by apply leave_run.
  - intros h Hh. simpl in *. upd_cases (a_cur a) h; [by rewrite spec_abort_reply in Hh|].
    by apply spec_abort_active.
Qed.
End contract.

(** ** The handlers refine the contract *)

Lemma rep_head_is P st a e : rep st a -> head_is P e st = bool_decide (is_Some (first_waiter P e a)).
Proof.
  intros H. pose proof (rep_wait _ _ H e) as Hq. unfold head_is, first_waiter.
  destruct (a_wait a e) as [|t l].
  - apply queue_nil in Hq as [-> _]. done.
  - apply queue_head in Hq as [-> Ht]. rewrite (proj2 (Z.eqb_neq t 0) Ht), (rep_state _ _ H). simpl.
    by destruct (P _).
Qed.

Lemma popped_unqueued st a e t l :
  rep st a -> a_wait a e = t :: l -> unqueued (spec_set_wait e l a) t.
Proof.
  intros H El. pose proof (rep_wait _ _ H e) as Hq. rewrite El in Hq.
  pose proof (queue_head _ _ _ _ _ Hq) as [_ Ht]. destruct Hq as (_ & _ & Hnd).
  apply list.NoDup_cons in Hnd as [Hnt _].
  assert (Hin : t ∈ a_wait a e) by (rewrite El; apply list_elem_of_here).
  split_and!; [done| |].
  - simpl. intros Hr. by apply (rep_sep _ _ H e) in Hr.
  - intros e'. simpl. upd_cases e e'; [done|]. intros Hin'. by pose proof (rep_sep_wait _ _ H _ _ _ Hin Hin').
Qed.

Lemma rep_abort st a h :
  rep st a -> (a_reply a h <> 0 -> unqueued a (a_reply a h)) -> rep (abort_reply h st) (spec_abort h a).
Proof.
  intros H Hu. unfold abort_reply, spec_abort. rewrite (rep_reply _ _ H).
  pose proof (rep_set_reply _ _ h 0 H) as H1.
  destruct (Z.eqb_spec (a_reply a h) 0) as [E|E]; [by rewrite decide_True|].
  rewrite decide_False by done. apply rep_push; [by apply rep_set_ctx|]. by apply Hu.
Qed.

Lemma rep_block_on st a e s :
  rep st a -> unqueued a (a_cur a) ->
  exists st', block_on e s st = (fst (spec_block_on e s a), st') /\ rep st' (snd (spec_block_on e s a)).
Proof.
  intros H Hu. unfold block_on, spec_block_on, cur. rewrite (rep_cur _ _ H). apply rep_block.
  change (a_wait a e) with (a_wait (spec_set_state (a_cur a) s a) e).
  apply rep_ep_push; [by apply rep_set_state|done].
Qed.

Lemma unqueued_pop a e t l p :
  unqueued a p -> a_wait a e = t :: l -> unqueued (spec_set_wait e l a) p.
Proof.
  intros (H0 & Hr & Hw) El. split_and!; [done..|]. intros e'. simpl. upd_cases e e'; [|done].
  intros Hin. apply (Hw e). rewrite El. by apply list_elem_of_further.
Qed.

Section refinement.
Context (live isep : Z -> Prop).
#[local] Abbreviation ainv := (ainv live isep).

Lemma reply_unqueued run a h : acore live isep run a -> a_reply a h <> 0 -> unqueued a (a_reply a h).
Proof.
  intros H Hh. pose proof (ac_reply _ _ _ _ H h Hh) as Hs.
  eapply acore_unqueued; [done|rewrite Hs; done..].
Qed.

Lemma send_refines c e nb st a :
  rep st a -> ainv a -> c = a_cur a ->
  exists st', send_body c e nb st = (fst (spec_send e nb a), st') /\ rep st' (snd (spec_send e nb a)).
Proof.
  intros H Ha ->. unfold send_body, spec_send. rewrite (rep_head_is is_recv st a e H).
  destruct (first_waiter is_recv e a) as [[t l]|] eqn:Ef; simpl.
  - apply first_waiter_Some in Ef as [El _]. pose proof (popped_unqueued _ _ _ _ _ H El) as Hu.
    destruct (rep_ep_pop _ _ _ _ _ H El) as (_ & st1 & -> & H1). eexists. split; [done|].
    apply rep_set_ctx, rep_push; [|done]. rewrite (rep_ctx _ _ H1). by apply rep_set_ctx.
  - destruct nb; [eexists; split; [done|]; by apply rep_set_ctx|].
    apply rep_block_on; [done|]. by eapply ainv_cur_unqueued.
Qed.

Lemma recv_refines c e nb st a :
  rep st a -> ainv a -> c = a_cur a ->
  exists st', recv_inner c e nb st = (fst (spec_recv e nb a), st') /\ rep st' (snd (spec_recv e nb a)).
Proof.
  intros H Ha ->. unfold recv_inner, spec_recv. rewrite (rep_head_is _ st a e H).
  destruct (first_waiter _ e a) as [[t l]|] eqn:Ef; simpl.
  - apply first_waiter_Some in Ef as [El _]. pose proof (popped_unqueued _ _ _ _ _ H El) as Hu.
    destruct (rep_ep_pop _ _ _ _ _ H El) as (_ & st1 & -> & H1). rewrite (rep_ctx _ _ H1).
    apply (rep_set_ctx _ _ (a_cur a) (deliver (a_ctx a t))) in H1.
    rewrite (rep_state _ _ H1). simpl. destruct (decide (a_state a t = BlockedCall)) as [Ec|Ec].
    + rewrite bool_decide_true by done. eexists. split; [done|].
      unfold cur. rewrite (rep_cur _ _ H1). apply rep_set_reply, rep_set_state, rep_abort; [done|].
      intros Hn. destruct Ha as [Hc _]. exact (unqueued_pop a e t l _ (reply_unqueued _ _ _ Hc Hn) El).
    + rewrite bool_decide_false by done. eexists. split; [done|].
      apply rep_push; [|done]. by apply rep_set_ctx.
  - destruct nb; [eexists; split; [done|]; by apply rep_set_ctx|].
    apply rep_block_on; [done|]. by eapply ainv_cur_unqueued.
Qed.

Lemma call_refines c e nb st a :
  rep st a -> ainv a -> c = a_cur a ->
  exists st', call_body c e nb st = (fst (spec_call e nb a), st') /\ rep st' (snd (spec_call e nb a)).
Proof.
  intros H Ha ->. unfold call_body, spec_call. rewrite (rep_head_is is_recv st a e H).
  assert (Ecur : cur st = a_cur a) by apply H. rewrite Ecur.
  destruct (first_waiter is_recv e a) as [[t l]|] eqn:Ef; simpl.
  - apply first_waiter_Some in Ef as [El Es]. apply bool_decide_eq_true in Es.
    pose proof (popped_unqueued _ _ _ _ _ H El) as Hu.
    destruct (rep_ep_pop _ _ _ _ _ H El) as (_ & st1 & -> & H1). rewrite (rep_ctx _ _ H1).
    apply (rep_set_ctx _ _ t (deliver (a_ctx a (a_cur a)))) in H1. destruct Ha as [Hc _].
    apply (rep_abort _ _ t) in H1.
    2:{ intros Hn. exact (unqueued_pop a e t l _ (reply_unqueued _ _ _ Hc Hn) El). }
    apply (rep_set_reply _ _ t (a_cur a)), (rep_set_state _ _ (a_cur a) BlockedReply), (rep_push _ _ t),
      rep_block in H1; [done|].
    destruct Hu as (Hu0 & Hur & Huw). unfold spec_abort. case_decide as E; [done|].
    split_and!; [done| |done]. simpl. rewrite elem_of_app, list_elem_of_singleton.
    intros [Hin|Heq]; [done|]. pose proof (ac_reply _ _ _ _ Hc t E). simpl in *. congruence.
  - destruct nb; [eexists; split; [done|]; by apply rep_set_ctx|].
    pose proof (rep_block_on st a e BlockedCall H) as Hb. unfold block_on in Hb. rewrite Ecur in Hb.
    apply Hb. by eapply ainv_cur_unqueued.
Qed.

Lemma reply_recv_refines c e nb st a :
  rep st a -> ainv a -> c = a_cur a ->
  exists st', reply_recv_body c e nb st = (fst (spec_reply_recv e nb a), st') /\
    rep st' (snd (spec_reply_recv e nb a)).
Proof.
  intros H Ha ->. unfold reply_recv_body, spec_reply_recv.
  assert (Ecur : cur st = a_cur a) by apply H. rewrite Ecur, (rep_reply _ _ H).
  apply recv_refines; [|by apply spec_reply_inv|unfold spec_reply; by case_decide].
  unfold spec_reply. destruct (Z.eqb_spec (a_reply a (a_cur a)) 0) as [E|E]; [by rewrite decide_True|].
  rewrite decide_False by done. apply (rep_set_reply _ _ (a_cur a) 0) in H.
  rewrite (rep_ctx _ _ H). apply rep_push; [by apply rep_set_ctx|].
  destruct Ha as [Hc _]. exact (reply_unqueued _ _ _ Hc E).
Qed.

Lemma kill_refines st a :
  rep st a -> ainv a ->
  exists st', kill_current st = (fst (spec_kill a), st') /\ rep st' (snd (spec_kill a)).
Proof.
  intros H Ha. unfold kill_current, spec_kill. assert (Ecur : cur st = a_cur a) by apply H.
  rewrite Ecur. apply rep_exit, rep_abort; [done|]. destruct Ha as [Hc _].
  intros. by eapply reply_unqueued.
Qed.
End refinement.

(** ** Saved contexts *)

(** 31 registers of 64 bits, and a saved program state that returns to EL0 in
    AArch64 (M[4:0] = 0). *)
Definition ctx_ok (c : Context) : Prop :=
  length (x c) = 31%nat /\ Forall is_u64 (x c) /\ Z.land (spsr c) 0x1F = 0.

Definition ctxs_ok (a : astate) : Prop := forall p, ctx_ok (a_ctx a p).

Lemma zeroed_ok : ctx_ok zeroed.
Proof. split_and!; [done| |done]. by apply Forall_replicate. Qed.

Lemma reg_u64 c i : ctx_ok c -> is_u64 (reg c i).
Proof.
  intros (_ & H & _). unfold reg. destruct (x c !! i) eqn:E; simpl; [|done].
  by eapply Forall_lookup_1 in H.
Qed.

Lemma as_u64_is_u64 z : is_u64 (as_u64 z).
Proof. unfold as_u64, is_u64. apply Z.mod_pos_bound. lia. Qed.

Lemma set_reg_ok i v c : is_u64 v -> ctx_ok c -> ctx_ok (set_reg i v c).
Proof.
  intros Hv (Hl & Hf & Hs). split_and!; [by rewrite length_set_reg| |done].
  simpl. by apply Forall_insert.
Qed.

Lemma deliver_ok src dst : ctx_ok src -> ctx_ok dst -> ctx_ok (deliver src dst).
Proof. intros Hs Hd. unfold deliver. repeat apply set_reg_ok; auto using reg_u64; done. Qed.

Lemma ctxs_ok_upd a p f : ctxs_ok a -> (ctx_ok (a_ctx a p) -> ctx_ok (f (a_ctx a p))) ->
  ctxs_ok (spec_set_ctx p f a).
Proof. intros H Hf q. simpl. upd_cases p q; auto. Qed.

#[export] Hint Resolve set_reg_ok deliver_ok as_u64_is_u64 : k0.

Lemma spec_block_ctx a : a_ctx (snd (spec_block a)) = a_ctx a.
Proof. unfold spec_block. by case_match. Qed.

Lemma spec_abort_ctxs h a : ctxs_ok a -> ctxs_ok (spec_abort h a).
Proof.
  intros H. unfold spec_abort. case_decide; [done|].
  apply (ctxs_ok_upd (spec_set_reply h 0 a)); auto with k0.
Qed.

Lemma spec_would_block_ctxs a : ctxs_ok a -> ctxs_ok (spec_would_block a).
Proof. intros H. apply ctxs_ok_upd; auto with k0. Qed.

Lemma spec_send_ctxs e nb a : ctxs_ok a -> ctxs_ok (snd (spec_send e nb a)).
Proof.
  intros H. unfold spec_send. destruct (first_waiter _ e a) as [[t l]|]; simpl.
  - apply (ctxs_ok_upd (spec_enqueue t _)); [|apply set_reg_ok; done].
    apply (ctxs_ok_upd (spec_set_wait e l a)); auto with k0.
  - destruct nb; [by apply spec_would_block_ctxs|]. unfold ctxs_ok, spec_block_on.
    by rewrite spec_block_ctx.
Qed.

Lemma spec_recv_ctxs e nb a : ctxs_ok a -> ctxs_ok (snd (spec_recv e nb a)).
Proof.
  intros H. unfold spec_recv. destruct (first_waiter _ e a) as [[t l]|]; simpl.
  - assert (H1 : ctxs_ok (spec_set_ctx (a_cur a) (deliver (a_ctx a t)) (spec_set_wait e l a)))
      by (apply (ctxs_ok_upd (spec_set_wait e l a)); auto with k0).
    case_decide; simpl; [exact (spec_abort_ctxs (a_cur a) _ H1)|].
    apply (ctxs_ok_upd (spec_set_ctx (a_cur a) _ _)); [done|]. by apply set_reg_ok.
  - destruct nb; [by apply spec_would_block_ctxs|]. unfold ctxs_ok, spec_block_on.
    by rewrite spec_block_ctx.
Qed.

Lemma spec_call_ctxs e nb a : ctxs_ok a -> ctxs_ok (snd (spec_call e nb a)).
Proof.
  intros H. unfold spec_call. destruct (first_waiter _ e a) as [[t l]|]; simpl.
  - unfold ctxs_ok. rewrite spec_block_ctx. simpl. apply spec_abort_ctxs.
    apply (ctxs_ok_upd (spec_set_wait e l a)); auto with k0.
  - destruct nb; [by apply spec_would_block_ctxs|]. unfold ctxs_ok, spec_block_on.
    by rewrite spec_block_ctx.
Qed.

Lemma spec_reply_ctxs a : ctxs_ok a -> ctxs_ok (spec_reply a).
Proof.
  intros H. unfold spec_reply. case_decide; [done|].
  apply (ctxs_ok_upd (spec_set_reply _ 0 a)); auto with k0.
Qed.

Lemma spec_kill_ctxs a : ctxs_ok a -> ctxs_ok (snd (spec_kill a)).
Proof.
  intros H. unfold spec_kill, spec_exit, ctxs_ok. rewrite spec_block_ctx. by apply spec_abort_ctxs.
Qed.

(** What [deliver] writes: the four message registers, a clean x0 and x1. *)
Lemma deliver_spec src dst :
  ctx_ok dst ->
  (forall i, (2 <= i <= 5)%nat -> reg (deliver src dst) i = reg src i) /\
  reg (deliver src dst) 0 = 0 /\ reg (deliver src dst) 1 = 0 /\
  (forall i, (6 <= i)%nat -> reg (deliver src dst) i = reg dst i) /\
  sp (deliver src dst) = sp dst /\ elr (deliver src dst) = elr dst /\
  spsr (deliver src dst) = spsr dst.
Proof.
  intros (Hl & _). unfold deliver. split_and!; try done.
  - intros i Hi. assert (i = 2 \/ i = 3 \/ i = 4 \/ i = 5)%nat as [->|[->|[->| ->]]] by lia;
      repeat (rewrite reg_set_reg_ne by lia); by rewrite reg_set_reg_eq by (rewrite ?length_set_reg; lia).
  - rewrite reg_set_reg_ne by lia. by rewrite reg_set_reg_eq by (rewrite ?length_set_reg; lia).
  - by rewrite reg_set_reg_eq by (rewrite ?length_set_reg; lia).
  - intros i Hi. by rewrite !reg_set_reg_ne by lia.
Qed.

(** ** The four calls together *)

Inductive ipc_kind := Send | Recv | Call | ReplyRecv.

Definition handler (k : ipc_kind) : CNode -> Z -> tstate -> res Empty_set bool * tstate :=
  match k with
  | Send => sys_send | Recv => sys_recv | Call => sys_call | ReplyRecv => sys_reply_recv
  end.

Definition contract (k : ipc_kind) : Z -> bool -> astate -> bool * astate :=
  match k with
  | Send => spec_send | Recv => spec_recv | Call => spec_call | ReplyRecv => spec_reply_recv
  end.

Definition nonblock_flag (c : Context) : bool := negb (Z.land (reg c 1) ipc.NONBLOCK =? 0).

(** The contract of a call with its arguments taken from the caller's registers. *)
Definition spec_ipc (k : ipc_kind) (cn : CNode) (a : astate) : bool * astate :=
  let c := a_ctx a (a_cur a) in
  match ep_of cn (reg c 0) with
  | Ok e => contract k e (nonblock_flag c) a
  | Err e => (true, spec_set_ctx (a_cur a) (set_reg 0 (as_u64 e)) a)
  | _ => (true, a)
  end.

(** Every endpoint capability can be addressed and names an endpoint. *)
Definition endpoints_ok (isep : Z -> Prop) (cn : CNode) : Prop :=
  forall slot, match ep_of cn slot with Ok e => isep e | Err _ => True | _ => False end.

Lemma contract_inv live isep k e nb a b a' :
  ainv live isep a -> isep e -> contract k e nb a = (b, a') -> outcome live isep b a'.
Proof.
  destruct k; [apply spec_send_inv|apply spec_recv_inv|apply spec_call_inv|apply spec_reply_recv_inv].
Qed.

Lemma contract_ctxs k e nb a : ctxs_ok a -> ctxs_ok (snd (contract k e nb a)).
Proof.
  intros H. destruct k; [by apply spec_send_ctxs|by apply spec_recv_ctxs|by apply spec_call_ctxs|].
  by apply spec_recv_ctxs, spec_reply_ctxs.
Qed.

(** One IPC system call: the handler's answer and state are the contract's. *)
Lemma ipc_step live isep k cn st a :
  rep st a -> ainv live isep a -> endpoints_ok isep cn ->
  exists st', handler k cn (current_context st) st = (Ok (fst (spec_ipc k cn a)), st') /\
    rep st' (snd (spec_ipc k cn a)).
Proof.
  intros H Ha He. specialize (He (reg (a_ctx a (a_cur a)) 0)).
  assert (Hw : forall body,
    (forall e nb, exists st', body e nb st = (fst (contract k e nb a), st') /\
       rep st' (snd (contract k e nb a))) ->
    exists st', with_ep cn (current_context st) body st = (Ok (fst (spec_ipc k cn a)), st') /\
      rep st' (snd (spec_ipc k cn a))).
  { intros body Hb. unfold with_ep, spec_ipc. rewrite (rep_context _ _ H), (rep_ctx _ _ H).
    destruct (ep_of cn _) as [e|e| |]; [|eexists; split; [done|]; by apply rep_set_ctx|done..].
    destruct (Hb e (nonblock_flag (a_ctx a (a_cur a)))) as (st' & Hb' & Hr).
    exists st'. fold (nonblock_flag (a_ctx a (a_cur a))). by rewrite Hb'. }
  pose proof (rep_context _ _ H) as Hc. destruct k; apply Hw; intros e nb;
    [by eapply send_refines|by eapply recv_refines|by eapply call_refines|by eapply reply_recv_refines].
Qed.

Lemma spec_ipc_inv live isep k cn a b a' :
  ainv live isep a -> endpoints_ok isep cn -> spec_ipc k cn a = (b, a') -> outcome live isep b a'.
Proof.
  intros Ha He. unfold spec_ipc. specialize (He (reg (a_ctx a (a_cur a)) 0)).
  destruct (ep_of cn _); [by apply contract_inv|intros; simplify_eq; by apply ainv_set_ctx|done..].
Qed.

Lemma spec_ipc_ctxs k cn a : ctxs_ok a -> ctxs_ok (snd (spec_ipc k cn a)).
Proof.
  intros H. unfold spec_ipc. destruct (ep_of cn _); [by apply contract_ctxs| |done..].
  apply ctxs_ok_upd; auto with k0.
Qed.

(** ** Theorems *)

(** C11: the four IPC handlers, on linked TCBs and endpoint objects, refine their
    contract on lists: from a represented state each handler returns without a
    panic, with the contract's answer, in a state that represents the contract's
    result. *)
Theorem ipc_refines_contract live isep k cn st a :
  rep st a -> ainv live isep a -> endpoints_ok isep cn ->
  exists st', handler k cn (current_context st) st = (Ok (fst (spec_ipc k cn a)), st') /\
    rep st' (snd (spec_ipc k cn a)).
Proof. apply ipc_step. Qed.

(** C13: IPC keeps the task state machine consistent: after any call that lets
    the system go on there is exactly one running task, every ready task is in
    the ready queue once, every blocked sender or receiver is in exactly one
    endpoint queue, queues hold one direction, and every caller that waits for
    a reply has exactly one active holder of its reply capability.  When the
    call reports a deadlock, no task at all is ready or running. *)
Theorem ipc_preserves_invariant live isep k cn st a st' b :
  rep st a -> ainv live isep a -> endpoints_ok isep cn ->
  handler k cn (current_context st) st = (Ok b, st') ->
  exists a', rep st' a' /\
    if b then ainv live isep a'
    else forall p, state (tcb st' p) <> Ready /\ state (tcb st' p) <> Running.
Proof.
  intros H Ha He Hh. destruct (ipc_step live isep k cn st a H Ha He) as (st1 & Hh1 & Hr).
  rewrite Hh1 in Hh. simplify_eq. exists (snd (spec_ipc k cn a)). split; [done|].
  destruct (spec_ipc k cn a) as [b a'] eqn:E. pose proof (spec_ipc_inv live isep k cn a b a' Ha He E) as Ho.
  destruct b; [done|]. simpl in *. intros p. rewrite (rep_state _ _ Hr). apply Ho.
Qed.

(** SEND to a waiting receiver hands over exactly the message: the first
    receiver in line gets the sender's x2..x5, a zero in x0 and x1 and keeps all
    other registers; it becomes the last ready task, and the sender goes on with
    x0 = 0. *)
Lemma send_delivers live isep cn st a e r l :
  rep st a -> ainv live isep a -> ctxs_ok a ->
  ep_of cn (reg (ctx (tcb st (cur st))) 0) = Ok e ->
  a_wait a e = r :: l -> state (tcb st r) = BlockedRecv ->
  exists st' a', sys_send cn (current_context st) st = (Ok true, st') /\ rep st' a' /\
    (forall i, (2 <= i <= 5)%nat -> reg (ctx (tcb st' r)) i = reg (ctx (tcb st (cur st))) i) /\
    reg (ctx (tcb st' r)) 0 = 0 /\ reg (ctx (tcb st' r)) 1 = 0 /\
    (forall i, (6 <= i)%nat -> reg (ctx (tcb st' r)) i = reg (ctx (tcb st r)) i) /\
    elr (ctx (tcb st' r)) = elr (ctx (tcb st r)) /\
    a_ready a' = a_ready a ++ [r] /\ a_wait a' e = l /\
    cur st' = cur st /\ reg (ctx (tcb st' (cur st))) 0 = 0.
Proof.
  intros H Ha Hok He El Hs. unfold cur in *. rewrite (rep_cur _ _ H), (rep_ctx _ _ H) in *.
  rewrite (rep_state _ _ H) in Hs. rewrite !(rep_ctx _ _ H), (rep_context _ _ H).
  assert (Hf : first_waiter is_recv e a = Some (r, l)) by (unfold first_waiter; by rewrite El, Hs).
  destruct (send_refines live isep _ e (nonblock_flag (a_ctx a (a_cur a))) st a H Ha eq_refl) as (st' & Hb & Hr).
  assert (Hne : a_cur a <> r) by (intros E; rewrite <- E, (ainv_cur _ _ _ Ha) in Hs; done).
  unfold spec_send in Hb, Hr. rewrite Hf in Hb, Hr. simpl in Hb, Hr. eexists st', _. split.
  { unfold sys_send, with_ep. rewrite (rep_ctx _ _ H), He. fold (nonblock_flag (a_ctx a (a_cur a))).
    by rewrite Hb. }
  assert (Er : ctx (tcb st' r) = deliver (a_ctx a (a_cur a)) (a_ctx a r))
    by (rewrite (rep_ctx _ _ Hr); simpl; rewrite upd_ne by done; apply upd_eq).
  assert (Ec : ctx (tcb st' (a_cur a)) = set_reg 0 0 (a_ctx a (a_cur a)))
    by (rewrite (rep_ctx _ _ Hr); simpl; rewrite upd_eq; by rewrite upd_ne by congruence).
  split; [exact Hr|]. rewrite Er, Ec, (rep_cur _ _ Hr). simpl.
  destruct (deliver_spec (a_ctx a (a_cur a)) (a_ctx a r) (Hok r)) as (D1 & D2 & D3 & D4 & _ & D6 & _).
  split_and!; try done; [by rewrite upd_eq|].
  apply reg_set_reg_eq. destruct (Hok (a_cur a)) as [Hlen _]. rewrite Hlen. lia.
Qed.

Lemma contract_nonblock k e a :
  k <> Call -> fst (contract k e true a) = true /\ a_cur (snd (contract k e true a)) = a_cur a.
Proof.
  intros Hk.
  assert (Hrecv : forall a, fst (spec_recv e true a) = true /\ a_cur (snd (spec_recv e true a)) = a_cur a).
  { intros a'. unfold spec_recv. destruct (first_waiter _ e a') as [[t l]|]; [|done].
    case_decide; simpl; [|done]. by rewrite spec_abort_cur. }
  destruct k; [|apply Hrecv|done|].
  - simpl. unfold spec_send. by destruct (first_waiter _ e a) as [[t l]|].
  - simpl. unfold spec_reply_recv. destruct (Hrecv (spec_reply a)) as [-> ->].
    split; [done|]. unfold spec_reply. by case_decide.
Qed.

(** with the NONBLOCK flag SEND, RECV and REPLY_RECV never give up the
    processor: the call returns at once to the same, still running task. *)
Lemma nonblock_never_blocks live isep k cn st a :
  rep st a -> ainv live isep a -> endpoints_ok isep cn -> k <> Call ->
  nonblock_flag (ctx (tcb st (cur st))) = true ->
  exists st', handler k cn (current_context st) st = (Ok true, st') /\
    cur st' = cur st /\ state (tcb st' (cur st)) = Running.
Proof.
  intros H Ha He Hk Hn. destruct (ipc_step live isep k cn st a H Ha He) as (st' & Hh & Hr).
  unfold cur in *. rewrite (rep_cur _ _ H) in *. rewrite (rep_ctx _ _ H) in Hn.
  assert (Hs : fst (spec_ipc k cn a) = true /\ a_cur (snd (spec_ipc k cn a)) = a_cur a).
  { unfold spec_ipc. rewrite Hn. destruct (ep_of cn _); try done. by apply contract_nonblock. }
  destruct (spec_ipc k cn a) as [b a'] eqn:E. pose proof (spec_ipc_inv live isep k cn a b a' Ha He E) as Ho.
  simpl in *. destruct Hs as [-> Hc]. exists st'. rewrite (rep_cur _ _ Hr), (rep_state _ _ Hr), <- Hc.
  split_and!; [done..|]. by eapply ainv_cur.
Qed.

(** Only the caller itself, the first waiter and the holder's pending caller see
    their registers change in a receive. *)
Lemma spec_recv_ctx_other e nb a p :
  p <> a_cur a -> (forall l, a_wait a e <> p :: l) -> p <> a_reply a (a_cur a) ->
  a_ctx (snd (spec_recv e nb a)) p = a_ctx a p.
Proof.
  intros Hc Hw Hr. unfold spec_recv, spec_block_on.
  destruct (first_waiter _ e a) as [[t l]|] eqn:Ef.
  - apply first_waiter_Some in Ef as [El _]. assert (t <> p) by (intros ->; by eapply Hw).
    case_decide; simpl; [unfold spec_abort; case_decide; simpl|]; by rewrite !upd_ne by congruence.
  - destruct nb; simpl; [by rewrite upd_ne by congruence|]. by rewrite spec_block_ctx.
Qed.

Lemma spec_recv_reply e nb a p :
  a_reply a (a_cur a) = 0 -> p <> 0 -> (forall h, a_reply a h <> p) -> (forall l, a_wait a e <> p :: l) ->
  forall h, a_reply (snd (spec_recv e nb a)) h <> p.
Proof.
  intros H0 Hp Hh Hw h. unfold spec_recv, spec_block_on, spec_block.
  destruct (first_waiter _ e a) as [[t l]|] eqn:Ef.
  - apply first_waiter_Some in Ef as [El _]. assert (t <> p) by (intros ->; by eapply Hw).
    case_decide; simpl; [|apply Hh]. unfold spec_abort. simpl. rewrite decide_True by done. simpl.
    unfold upd. repeat case_decide; naive_solver.
  - destruct nb; simpl; [apply Hh|]. case_match; simpl; apply Hh.
Qed.

Lemma spec_recv_stays_ready e nb a p :
  a_reply a (a_cur a) = 0 -> p <> a_cur a -> (forall l, a_wait a e <> p :: l) -> a_state a p = Ready ->
  let s := a_state (snd (spec_recv e nb a)) p in s = Ready \/ s = Running.
Proof.
  intros H0 Hc Hw Hs. unfold spec_recv, spec_block_on, spec_block.
  destruct (first_waiter _ e a) as [[t l]|] eqn:Ef.
  - apply first_waiter_Some in Ef as [El _]. assert (t <> p) by (intros ->; by eapply Hw).
    unfold spec_abort. simpl. rewrite (decide_True (P := a_reply a (a_cur a) = 0)) by done.
    case_decide; simpl; rewrite upd_ne by done; auto.
  - destruct nb; simpl; [auto|]. destruct (a_ready a) as [|q l]; simpl.
    + rewrite upd_ne by congruence. auto.
    + upd_cases q p; [auto|]. rewrite ?upd_ne by congruence. auto.
Qed.

(** REPLY_RECV answers the pending caller once: the caller gets the replier's
    x2..x5 with x0 = 0 and is no longer waiting, and afterwards no task holds a
    reply capability for it, so the reply cannot be repeated or forged. *)
Lemma reply_is_single_use live isep cn st a e :
  rep st a -> ainv live isep a -> ctxs_ok a -> endpoints_ok isep cn ->
  ep_of cn (reg (ctx (tcb st (cur st))) 0) = Ok e ->
  let c := reply_to (tcb st (cur st)) in c <> 0 ->
  exists b st', sys_reply_recv cn (current_context st) st = (Ok b, st') /\
    (forall i, (2 <= i <= 5)%nat -> reg (ctx (tcb st' c)) i = reg (ctx (tcb st (cur st))) i) /\
    reg (ctx (tcb st' c)) 0 = 0 /\
    (state (tcb st' c) = Ready \/ state (tcb st' c) = Running) /\
    forall h, reply_to (tcb st' h) <> c.
Proof.
  intros H Ha Hok Hep He. unfold cur in *. rewrite (rep_cur _ _ H), (rep_ctx _ _ H) in He.
  rewrite (rep_context _ _ H), (rep_cur _ _ H), (rep_reply _ _ H), (rep_ctx _ _ H).
  cbv zeta. intros Hc. set (c := a_reply a (a_cur a)) in *. set (nb := nonblock_flag (a_ctx a (a_cur a))).
  destruct (reply_recv_refines live isep _ e nb st a H Ha eq_refl) as (st' & Hb & Hr).
  pose proof (spec_reply_inv live isep a Ha) as Ha1. pose proof Ha as (Hcore & _ & _).
  assert (Hcs : a_state a c = BlockedReply) by exact (ac_reply _ _ _ _ Hcore (a_cur a) Hc).
  assert (Hcc : c <> a_cur a) by (intros E; pose proof (ainv_cur _ _ _ Ha); congruence).
  assert (E1 : spec_reply a = spec_enqueue c (spec_set_ctx c (deliver (a_ctx a (a_cur a)))
    (spec_set_reply (a_cur a) 0 a))) by (unfold spec_reply; by rewrite decide_False).
  assert (Hw : forall l, a_wait (spec_reply a) e <> c :: l).
  { rewrite E1. simpl. intros l El. pose proof (wait_state _ _ _ _ e c Hcore) as Hw.
    rewrite El, Hcs in Hw. discriminate Hw. apply list_elem_of_here. }
  assert (Hcur1 : a_cur (spec_reply a) = a_cur a) by by rewrite E1.
  assert (Hr1 : a_reply (spec_reply a) (a_cur (spec_reply a)) = 0) by (rewrite Hcur1, E1; apply upd_eq).
  eexists _, st'. split.
  { unfold sys_reply_recv, with_ep. rewrite (rep_ctx _ _ H), He.
    fold (nonblock_flag (a_ctx a (a_cur a))). fold nb. by rewrite Hb. }
  unfold spec_reply_recv in Hr.
  assert (Ec : ctx (tcb st' c) = deliver (a_ctx a (a_cur a)) (a_ctx a c)).
  { rewrite (rep_ctx _ _ Hr), spec_recv_ctx_other; [|congruence|done|congruence].
    rewrite E1. simpl. apply upd_eq. }
  destruct (deliver_spec (a_ctx a (a_cur a)) (a_ctx a c) (Hok c)) as (D1 & D2 & _).
  rewrite Ec. split_and!; [done..| |].
  - rewrite (rep_state _ _ Hr). apply spec_recv_stays_ready; [done|congruence|done|].
    rewrite E1. apply upd_eq.
  - intros h. rewrite (rep_reply _ _ Hr). apply spec_recv_reply; [done..| |done].
    intros k. rewrite E1. simpl. upd_cases (a_cur a) k; [done|]. intros E.
    assert (k = a_cur a) by (apply (ac_reply_inj _ _ _ _ Hcore); [done|congruence]). congruence.
Qed.

Lemma spec_block_state a p :
  a_state (snd (spec_block a)) p = a_state a p \/
  (p ∈ a_ready a /\ a_state (snd (spec_block a)) p = Running).
Proof.
  unfold spec_block. destruct (a_ready a) as [|q l] eqn:E; simpl; [by left|].
  upd_cases q p; [right|by left]. split; [apply list_elem_of_here|done].
Qed.

Lemma spec_block_reply a : a_reply (snd (spec_block a)) = a_reply a.
Proof. unfold spec_block. by case_match. Qed.

Lemma spec_block_true a p : p ∈ a_ready a -> fst (spec_block a) = true.
Proof. unfold spec_block. case_match; [set_solver|done]. Qed.

Lemma spec_kill_spec live isep a :
  ainv live isep a -> ctxs_ok a ->
  let a' := snd (spec_kill a) in let c := a_reply a (a_cur a) in
  a_state a' (a_cur a) = Dead /\ a_reply a' (a_cur a) = 0 /\
  (forall p, p <> c -> a_ctx a' p = a_ctx a p) /\
  (c <> 0 -> fst (spec_kill a) = true /\ reg (a_ctx a' c) 0 = as_u64 err.NO_REPLY /\
     (a_state a' c = Ready \/ a_state a' c = Running)).
Proof.
  intros Ha Hok a' c. unfold a', spec_kill, spec_exit. rewrite spec_block_ctx, spec_block_reply.
  rewrite spec_abort_cur. set (a2 := spec_set_state (a_cur a) Dead (spec_abort (a_cur a) a)).
  pose proof Ha as (Hc & _ & _). pose proof (ainv_cur _ _ _ Ha) as Hcur.
  assert (Hne : c <> a_cur a).
  { intros E. destruct (decide (c = 0)) as [E0|Hn].
    - apply (acore_nonzero _ _ _ _ (a_cur a) Hc); congruence.
    - pose proof (ac_reply _ _ _ _ Hc (a_cur a) Hn) as Hs. fold c in Hs. congruence. }
  assert (Hnr : a_cur a ∉ a_ready a2).
  { apply (spec_abort_core live isep _ _ (a_cur a)) in Hc. simpl. rewrite (ac_ready _ _ _ _ Hc).
    rewrite spec_abort_state by (intros E; by apply Hne). by rewrite Hcur. }
  split_and!.
  - destruct (spec_block_state a2 (a_cur a)) as [->|[? _]]; [apply upd_eq|done].
  - apply spec_abort_reply.
  - intros p Hp. simpl. unfold spec_abort. case_decide; simpl; [done|]. by rewrite upd_ne.
  - intros Hn. assert (E2 : spec_abort (a_cur a) a = spec_enqueue c (spec_set_ctx c
      (set_reg 0 (as_u64 err.NO_REPLY)) (spec_set_reply (a_cur a) 0 a)))
      by (unfold spec_abort; by rewrite decide_False).
    split_and!.
    + apply (spec_block_true a2 c). unfold a2. rewrite E2. simpl. set_solver.
    + simpl. rewrite E2. simpl. rewrite upd_eq. apply reg_set_reg_eq. rewrite (proj1 (Hok c)). lia.
    + destruct (spec_block_state a2 c) as [->|[_ ->]]; [|auto]. left. unfold a2. rewrite E2. simpl.
      rewrite upd_ne by done. apply upd_eq.
Qed.

(** The other tasks stay in their states, but for the one that runs next. *)
Lemma spec_kill_others a p :
  p <> a_cur a -> p <> a_reply a (a_cur a) ->
  a_state (snd (spec_kill a)) p = a_state a p \/ p ∈ a_ready a /\ a_state (snd (spec_kill a)) p = Running.
Proof.
  intros Hp Hc. unfold spec_kill, spec_exit.
  set (a2 := spec_set_state _ Dead _). destruct (spec_block_state a2 p) as [->|[Hin ->]].
  - left. unfold a2. simpl. rewrite spec_abort_cur, upd_ne by done. by apply spec_abort_state.
  - right. split; [|done]. unfold a2 in Hin. simpl in Hin. unfold spec_abort in Hin.
    case_decide; [done|]. simpl in Hin. apply elem_of_app in Hin as [|Hin%list_elem_of_singleton]; [done|by subst].
Qed.

(** killing the current task (EXIT, an unknown system call or a fault) makes
    exactly that task dead and takes its reply capability away; a caller that
    was waiting for its reply is woken with NO_REPLY instead of blocking
    forever, every other task keeps its registers and state, except that a
    ready one runs next, the rest of the system stays consistent, and "nobody left" is
    reported only when no task is ready. *)
Lemma kill_isolates live isep st a :
  rep st a -> ainv live isep a -> ctxs_ok a ->
  exists b st' a', kill_current st = (b, st') /\ rep st' a' /\ outcome live isep b a' /\
    state (tcb st' (cur st)) = Dead /\ reply_to (tcb st' (cur st)) = 0 /\
    (forall p, p <> reply_to (tcb st (cur st)) -> ctx (tcb st' p) = ctx (tcb st p)) /\
    (forall p, p <> cur st -> p <> reply_to (tcb st (cur st)) -> state (tcb st' p) = state (tcb st p) \/
       state (tcb st p) = Ready /\ state (tcb st' p) = Running) /\
    let c := reply_to (tcb st (cur st)) in
    (c <> 0 -> b = true /\ reg (ctx (tcb st' c)) 0 = as_u64 err.NO_REPLY /\
       (state (tcb st' c) = Ready \/ state (tcb st' c) = Running)).
Proof.
  intros H Ha Hok. destruct (kill_refines live isep st a H Ha) as (st' & Hk & Hr).
  pose proof (spec_kill_spec live isep a Ha Hok) as Hs. unfold cur. rewrite (rep_cur _ _ H), (rep_reply _ _ H).
  exists (fst (spec_kill a)), st', (snd (spec_kill a)).
  rewrite !(rep_state _ _ Hr), (rep_reply _ _ Hr), (rep_ctx _ _ Hr).
  split_and!; [done..| | | | | |]; try apply Hs.
  - eapply spec_kill_inv; [done|]. by destruct (spec_kill a).
  - intros p. rewrite (rep_ctx _ _ Hr), (rep_ctx _ _ H). apply Hs.
  - intros p Hp Hc. rewrite (rep_state _ _ Hr), (rep_state _ _ H). destruct Ha as [Hac _].
    rewrite <- (ac_ready _ _ _ _ Hac). by apply spec_kill_others.
Qed.

(** ** Instances *)

(** The endpoint of [ex_st] is in slot 4. *)
Definition ex_cn : CNode :=
  mkCNode ([Cap.Empty; Cap.RootTcb; Cap.AddrSpace 0x40100000; Cap.Console; Cap.Endpoint 0x40009000]
           ++ replicate 27 Cap.Empty) 5.

Lemma ex_endpoints_ok : endpoints_ok ex_isep ex_cn.
Proof.
  intros slot. unfold ep_of, cap, get. destruct (_ && _) eqn:E; [|done]. bool_to_prop.
  change (Z.of_nat (length (filled ex_cn))) with 5 in *.
  assert (slot = 0 \/ slot = 1 \/ slot = 2 \/ slot = 3 \/ slot = 4) as [->|[->|[->|[->| ->]]]] by lia; done.
Qed.

Lemma ex_ctxs_ok : ctxs_ok ex_a.
Proof.
  intros p. simpl. destruct (ex_tcb_cases p) as [[Hp ->]|[_ ->]]; [|apply zeroed_ok]. simpl.
  rewrite !elem_of_cons in Hp. split_and!; [done| |done]. unfold is_u64.
  destruct Hp as [->|[->|[->|[->|[->|Hp%not_elem_of_nil]]]]]; repeat constructor; done.
Qed.

Lemma ipc_refines_contract_witness : exists st',
  sys_send ex_cn 0x1000 ex_st = (Ok true, st') /\ rep st' (snd (spec_ipc Send ex_cn ex_a)).
Proof.
  destruct (ipc_refines_contract ex_live ex_isep Send ex_cn ex_st ex_a ex_rep ex_ainv ex_endpoints_ok)
    as (st' & H1 & H2).
  exists st'. split; [exact H1|exact H2].
Defined.

Lemma ipc_preserves_invariant_witness : exists b st' a',
  handler Call ex_cn 0x1000 ex_st = (Ok b, st') /\ b = true /\ rep st' a' /\ ainv ex_live ex_isep a'.
Proof.
  destruct (ipc_preserves_invariant ex_live ex_isep Call ex_cn ex_st ex_a
    (snd (handler Call ex_cn 0x1000 ex_st)) true ex_rep ex_ainv ex_endpoints_ok) as (a' & H1 & H2);
    [vm_compute; reflexivity|].
  exists true, (snd (handler Call ex_cn 0x1000 ex_st)), a'.
  split; [vm_compute; reflexivity|]. done.
Defined.

Lemma send_delivers_witness : exists st',
  sys_send ex_cn 0x1000 ex_st = (Ok true, st') /\ reg (ctx (tcb st' 0x2000)) 3 = 0x1001.
Proof.
  destruct (send_delivers ex_live ex_isep ex_cn ex_st ex_a 0xFFFF000040009000 0x2000 []
    ex_rep ex_ainv ex_ctxs_ok) as (st' & a' & H1 & _ & H2 & _);
    [vm_compute; reflexivity|reflexivity|vm_compute; reflexivity|].
  exists st'. split; [exact H1|]. rewrite H2 by lia. vm_compute. reflexivity.
Defined.

Lemma nonblock_never_blocks_witness :
  let st := set_ctx 0x1000 (set_reg 1 1) ex_st in
  exists st', handler Recv ex_cn 0x1000 st = (Ok true, st') /\ cur st' = 0x1000.
Proof.
  simpl. pose proof (rep_set_ctx _ _ 0x1000 (set_reg 1 1) ex_rep) as Hr.
  destruct (nonblock_never_blocks ex_live ex_isep Recv ex_cn _ _ Hr
    (ainv_set_ctx _ _ _ _ _ ex_ainv) ex_endpoints_ok) as (st' & H1 & H2 & _);
    [discriminate|vm_compute; reflexivity|].
  exists st'. split; [exact H1|exact H2].
Defined.

Lemma reply_is_single_use_witness : exists b st',
  sys_reply_recv ex_cn 0x1000 ex_st = (Ok b, st') /\ reg (ctx (tcb st' 0x4000)) 2 = 0x1000 /\
  (forall h, reply_to (tcb st' h) <> 0x4000).
Proof.
  destruct (reply_is_single_use ex_live ex_isep ex_cn ex_st ex_a 0xFFFF000040009000
    ex_rep ex_ainv ex_ctxs_ok ex_endpoints_ok) as (b & st' & H1 & H2 & _ & _ & H3);
    [vm_compute; reflexivity|vm_compute; discriminate|].
  exists b, st'. split_and!; [exact H1|apply (H2 2%nat); lia|exact H3].
Defined.

Lemma kill_isolates_witness : exists st',
  kill_current ex_st = (true, st') /\ state (tcb st' 0x1000) = Dead /\
  reg (ctx (tcb st' 0x4000)) 0 = as_u64 err.NO_REPLY.
Proof.
  destruct (kill_isolates ex_live ex_isep ex_st ex_a ex_rep ex_ainv ex_ctxs_ok)
    as (b & st' & a' & H1 & _ & _ & H2 & _ & _ & _ & H3).
  destruct H3 as (-> & H3 & _); [vm_compute; discriminate|]. exists st'. split_and!; [exact H1|exact H2|exact H3].
Defined.
