(* ===== verification/Radix.v ===== *)
(** * Translation tables as a radix tree

    The structure that the kernel's static pool (paging.rs) and the user tables
    (user.rs) share: tables of descriptors, where a non-zero descriptor of an
    inner level links to the next table.  [leaf] is the walk of the MMU down to
    the last-level descriptor.  [tree] says that every table hangs at one place
    only, recorded by its tag (root and index path), so that an update changes
    the translation it means to change and no other. *)

From S2P Require Import Prelude.

Section radix.
Context {Node : Type} `{EqDecision Node}.

(** Contents of the tables: table, index, descriptor. *)
Abbreviation tmem := (Node -> Z -> Z).

Definition wr (m : tmem) (t : Node) (i v : Z) : tmem :=
  fun t' i' => if decide (t = t' /\ i = i') then v else m t' i'.

Lemma wr_eq m t i v : wr m t i v t i = v.
Proof. unfold wr. by rewrite decide_True. Qed.

Lemma wr_ne m t i v t' i' : t <> t' \/ i <> i' -> wr m t i v t' i' = m t' i'.
Proof. intros H. unfold wr. rewrite decide_False; [done|naive_solver]. Qed.

Context (child : Z -> option Node) (depth : nat).

Fixpoint walk (m : tmem) (t : Node) (l : list Z) : option Node :=
  match l with
  | [] => Some t
  | i :: l' =>
    if m t i =? 0 then None else
    match child (m t i) with Some c => walk m c l' | None => None end
  end.

(** The last-level descriptor for an index path, if the walk gets there. *)
Definition leaf (m : tmem) (root : Node) (l : list Z) (i : Z) : option Z :=
  match walk m root l with
  | Some t => if m t i =? 0 then None else Some (m t i)
  | None => None
  end.

Definition tagging : Type := Node -> Node * list Z.

(** [dom] are the tables in use. *)
Record tree (dom : Node -> Prop) (tag : tagging) (m : tmem) : Prop := {
  tr_link : forall t i, dom t -> m t i <> 0 -> (length (tag t).2 < depth)%nat ->
    exists c, child (m t i) = Some c /\ dom c /\ tag c = ((tag t).1, (tag t).2 ++ [i]);
  tr_depth : forall t, dom t -> (length (tag t).2 <= depth)%nat
}.

Definition tag_upd (tag : tagging) (c : Node) (v : Node * list Z) : tagging :=
  fun t => if decide (c = t) then v else tag t.

(** A walk ends at the table tagged with the path walked. *)
Lemma walk_tag dom tag m t l t' :
  tree dom tag m -> dom t -> walk m t l = Some t' -> (length (tag t).2 + length l <= depth)%nat ->
  dom t' /\ tag t' = ((tag t).1, (tag t).2 ++ l).
Proof.
  intros Ht. revert t. induction l as [|i l IH]; intros t Hd Hw Hl; simpl in *.
  - simplify_eq. rewrite app_nil_r. by destruct (tag t').
  - destruct (Z.eqb_spec (m t i) 0) as [|Hn]; [done|].
    destruct (tr_link _ _ _ Ht t i Hd Hn) as (c & Hc & Hdc & Htc); [lia|]. rewrite Hc in Hw.
    destruct (IH c Hdc Hw) as [H1 H2]; [rewrite Htc; simpl; rewrite length_app; simpl; lia|].
    split; [done|]. rewrite H2, Htc. simpl. by rewrite <- app_assoc.
Qed.

Lemma walk_app m t l1 l2 :
  walk m t (l1 ++ l2) = match walk m t l1 with Some t' => walk m t' l2 | None => None end.
Proof.
  revert t. induction l1 as [|i l1 IH]; intros t; [done|]. simpl. destruct (m t i =? 0); [done|].
  destruct (child (m t i)); [apply IH|done].
Qed.

(** Walks that stay above a table do not see updates in it. *)
Lemma walk_wr_above dom tag m t i v s l :
  tree dom tag m -> dom s -> (length (tag s).2 + length l <= length (tag t).2)%nat ->
  (length (tag t).2 <= depth)%nat -> walk (wr m t i v) s l = walk m s l.
Proof.
  intros Ht. revert s. induction l as [|j l IH]; intros s Hd Hl Hdep; [done|]. simpl in *.
  rewrite wr_ne by (left; intros ->; lia). destruct (Z.eqb_spec (m s j) 0) as [|Hn]; [done|].
  destruct (tr_link _ _ _ Ht s j Hd Hn) as (c & -> & Hdc & Htc); [lia|].
  apply IH; [done| |done]. rewrite Htc. simpl. rewrite length_app. simpl. lia.
Qed.

(** Writing a last-level descriptor changes exactly that translation. *)
Lemma leaf_wr dom tag m root l t i v root' l' i' :
  tree dom tag m -> dom root -> tag root = (root, []) -> dom root' -> tag root' = (root', []) ->
  length l = depth -> length l' = depth -> walk m root l = Some t -> v <> 0 ->
  leaf (wr m t i v) root' l' i' =
    if decide (root' = root /\ l' = l /\ i' = i) then Some v else leaf m root' l' i'.
Proof.
  intros Ht Hd Hr Hd' Hr' Hl Hl' Hw Hv.
  destruct (walk_tag _ _ _ _ _ _ Ht Hd Hw) as [Hdt Htt]; [rewrite Hr; simpl; lia|].
  rewrite Hr in Htt. simpl in Htt. unfold leaf.
  rewrite (walk_wr_above dom tag) by (rewrite ?Hr', ?Htt; simpl; auto; lia).
  destruct (walk m root' l') as [t'|] eqn:Hw'.
  - destruct (walk_tag _ _ _ _ _ _ Ht Hd' Hw') as [_ Htt']; [rewrite Hr'; simpl; lia|].
    rewrite Hr' in Htt'. simpl in Htt'. destruct (decide (_ /\ _ /\ _)) as [(-> & -> & ->)|Hne].
    + rewrite Hw in Hw'. simplify_eq. rewrite wr_eq. destruct (Z.eqb_spec v 0); done.
    + rewrite wr_ne; [done|]. destruct (decide (t = t')) as [->|]; [|by left]. right. intros ->.
      apply Hne. rewrite Htt in Htt'. naive_solver.
  - rewrite decide_False; [done|]. intros (-> & -> & ->). congruence.
Qed.

Lemma tree_wr_leaf dom tag m t i v :
  tree dom tag m -> dom t -> length (tag t).2 = depth -> tree dom tag (wr m t i v).
Proof.
  intros Ht Hd Hl. split.
  - intros t' i' Hd' Hn Hlt. rewrite wr_ne in Hn |- * by (left; intros ->; lia). by apply (tr_link _ _ _ Ht).
  - apply Ht.
Qed.

(** Walking into an empty table finds nothing. *)
Lemma leaf_empty m c l i : (forall j, m c j = 0) -> leaf m c l i = None.
Proof. intros Hz. unfold leaf. destruct l as [|j l]; simpl; by rewrite Hz. Qed.

Lemma leaf_cons m t j l i :
  leaf m t (j :: l) i =
    if m t j =? 0 then None else match child (m t j) with Some c => leaf m c l i | None => None end.
Proof. unfold leaf. simpl. destruct (m t j =? 0); [done|]. by destruct (child (m t j)). Qed.

(** Hanging an empty table into a free place of an inner table changes no
    translation, and keeps the tree. *)
Lemma leaf_link dom tag m t i v c s l j :
  tree dom tag m -> dom t -> (length (tag t).2 < depth)%nat -> m t i = 0 -> ~ dom c ->
  (forall k, m c k = 0) -> child v = Some c -> dom s -> (length (tag s).2 + length l = depth)%nat ->
  leaf (wr m t i v) s l j = leaf m s l j.
Proof.
  intros Ht Hd Hlt Hz Hnc Hzc Hv. revert s.
  assert (Hce : forall k, wr m t i v c k = 0).
  { intros k. by rewrite wr_ne by (left; intros ->; done). }
  induction l as [|k l IH]; intros s Hds Hl.
  - unfold leaf. simpl in *. rewrite wr_ne; [done|]. left. intros ->. lia.
  - rewrite !leaf_cons. destruct (decide (t = s /\ i = k)) as [[<- <-]|Hne].
    + rewrite wr_eq, Hz. simpl. destruct (Z.eqb_spec v 0); [done|]. rewrite Hv.
      by apply leaf_empty.
    + rewrite wr_ne by (destruct (decide (t = s)); [right; naive_solver|by left]).
      destruct (Z.eqb_spec (m s k) 0) as [|Hn]; [done|].
      destruct (tr_link _ _ _ Ht s k Hds Hn) as (d & -> & Hdd & Htd); [simpl in *; lia|].
      apply IH; [done|]. rewrite Htd. simpl in *. rewrite length_app. simpl. lia.
Qed.

Lemma tree_link dom tag m t i v c :
  tree dom tag m -> dom t -> (length (tag t).2 < depth)%nat -> m t i = 0 -> ~ dom c ->
  (forall k, m c k = 0) -> child v = Some c ->
  tree (fun s => dom s \/ s = c) (tag_upd tag c ((tag t).1, (tag t).2 ++ [i])) (wr m t i v).
Proof.
  intros Ht Hd Hlt Hz Hnc Hzc Hv.
  assert (Htag : forall s, dom s -> tag_upd tag c ((tag t).1, (tag t).2 ++ [i]) s = tag s).
  { intros s Hs. unfold tag_upd. rewrite decide_False; [done|]. by intros ->. }
  assert (Htc : tag_upd tag c ((tag t).1, (tag t).2 ++ [i]) c = ((tag t).1, (tag t).2 ++ [i]))
    by (unfold tag_upd; by rewrite decide_True).
  split.
  - intros s j [Hs| ->] Hn Hl.
    + rewrite (Htag s Hs) in *. destruct (decide (t = s /\ i = j)) as [[<- <-]|Hne].
      * rewrite wr_eq. exists c. split_and!; [done|by right|done].
      * assert (Hm : wr m t i v s j = m s j)
          by (apply wr_ne; destruct (decide (t = s)); [right; naive_solver|by left]).
        rewrite Hm in *. destruct (tr_link _ _ _ Ht s j Hs Hn Hl) as (d & Hcd & Hdd & Htd).
        exists d. rewrite (Htag d Hdd). auto.
    + rewrite wr_ne in Hn by (left; intros ->; done). by rewrite Hzc in Hn.
  - intros s [Hs| ->]; [rewrite Htag by done; by apply Ht|]. rewrite Htc. simpl.
    rewrite length_app. simpl. lia.
Qed.

(** *** Memory outside the tables does not matter *)

Section agree.
Context (dom : Node -> Prop) (tag : tagging) (m m' : tmem).
Context (Ht : tree dom tag m) (Heq : forall t i, dom t -> m' t i = m t i).

Lemma tree_agree : tree dom tag m'.
Proof.
  split; [|apply Ht]. intros t i Hd. rewrite Heq by done. by apply (tr_link _ _ _ Ht).
Qed.

Lemma walk_agree s l : dom s -> (length (tag s).2 + length l <= depth)%nat -> walk m' s l = walk m s l.
Proof.
  revert s. induction l as [|i l IH]; intros s Hd Hl; [done|]. simpl in *. rewrite Heq by done.
  destruct (Z.eqb_spec (m s i) 0) as [|Hn]; [done|].
  destruct (tr_link _ _ _ Ht s i Hd Hn) as (c & -> & Hdc & Htc); [lia|].
  apply IH; [done|]. rewrite Htc. simpl. rewrite length_app. simpl. lia.
Qed.

Lemma leaf_agree s l i : dom s -> (length (tag s).2 + length l <= depth)%nat -> leaf m' s l i = leaf m s l i.
Proof.
  intros Hd Hl. unfold leaf. rewrite walk_agree by done. destruct (walk m s l) as [t|] eqn:E; [|done].
  destruct (walk_tag dom tag m s l t Ht Hd E Hl) as [Hdt _]. by rewrite Heq.
Qed.
End agree.
End radix.

(** The notions only depend on the contents of the tables. *)
Section ext.
Context {Node : Type} `{EqDecision Node} (child : Z -> option Node) (depth : nat).
Context (m m' : Node -> Z -> Z) (Heq : forall t i, m' t i = m t i).

Lemma walk_ext t l : walk child m' t l = walk child m t l.
Proof.
  revert t. induction l as [|i l IH]; intros t; [done|]. simpl. rewrite Heq.
  destruct (m t i =? 0); [done|]. by destruct (child (m t i)).
Qed.

Lemma leaf_ext t l i : leaf child m' t l i = leaf child m t l i.
Proof. unfold leaf. rewrite walk_ext. destruct (walk child m t l); [|done]. by rewrite Heq. Qed.

Lemma tree_ext dom dom' tag :
  (forall t, dom t <-> dom' t) -> tree child depth dom tag m -> tree child depth dom' tag m'.
Proof.
  intros Hd [H1 H2]. split.
  - intros t i. rewrite <- Hd, Heq. intros Ht Hn Hl. destruct (H1 t i Ht Hn Hl) as (c & ? & ? & ?).
    exists c. by rewrite <- Hd.
  - intros t. rewrite <- Hd. apply H2.
Qed.
End ext.
