(* ===== verification/Paging.v ===== *)
(** * Kernel page tables

    crates/k0-mm/src/paging.rs: descriptor encodings, the static table pool with
    its transactional [map_page], [map_range], the construction of the kernel's
    address space ([enable_paging]) and the runtime window ([map_kernel_window]). *)

From S2P Require Import Prelude Abi Radix.

(** ** Constants and encodings *)

Section consts.
Context `{Platform}.

Definition BITS_PER_LEVEL : Z := PAGE_SHIFT - 3.
Definition ENTRIES : Z := GRANULE / 8.
Definition POOL_LEN : Z := 32.
Definition ADDR_MASK : Z := Z.land (Z.shiftl 1 48 - 1) (not64 (GRANULE - 1)).

Definition DESC_TABLE : Z := 3.
Definition DESC_PAGE : Z := 3.
Definition ATTR_AF : Z := Z.shiftl 1 10.
Definition SH_INNER : Z := Z.shiftl 3 8.
Definition SH_OUTER : Z := Z.shiftl 2 8.
Definition AP_RO : Z := Z.shiftl 2 6.
Definition AP_RW : Z := Z.shiftl 0 6.
Definition AP_RO_ALL : Z := Z.shiftl 3 6.
Definition AP_RW_ALL : Z := Z.shiftl 1 6.
Definition PXN : Z := Z.shiftl 1 53.
Definition UXN : Z := Z.shiftl 1 54.
Definition IDX_NORMAL : Z := Z.shiftl 0 2.
Definition IDX_DEVICE : Z := Z.shiftl 1 2.
Definition MAIR : Z := Z.lor 0xFF (Z.shiftl 0x04 8).
Definition SCTLR_M : Z := Z.shiftl 1 0.
Definition SCTLR_C : Z := Z.shiftl 1 2.
Definition SCTLR_I : Z := Z.shiftl 1 12.
Definition SCTLR_WXN : Z := Z.shiftl 1 19.
End consts.

Module Perm.
Inductive t := Text | Ro | Rw | Device.

Definition attrs (p : t) : Z :=
  match p with
  | Text => Z.lor (Z.lor (Z.lor (Z.lor (Z.lor DESC_PAGE ATTR_AF) SH_INNER) AP_RO) IDX_NORMAL) UXN
  | Ro => Z.lor (Z.lor (Z.lor (Z.lor (Z.lor (Z.lor DESC_PAGE ATTR_AF) SH_INNER) AP_RO) IDX_NORMAL) UXN) PXN
  | Rw => Z.lor (Z.lor (Z.lor (Z.lor (Z.lor (Z.lor DESC_PAGE ATTR_AF) SH_INNER) AP_RW) IDX_NORMAL) UXN) PXN
  | Device => Z.lor (Z.lor (Z.lor (Z.lor (Z.lor (Z.lor DESC_PAGE ATTR_AF) SH_OUTER) AP_RW) IDX_DEVICE) UXN) PXN
  end.
End Perm.

Module MmuError.
Inductive t :=
| AlreadyEnabled | NotEnabled | GranuleUnsupported | OutOfTables | OutOfFrames
| Misaligned | Overlap | NullPage | BadTable | MissingTable.
End MmuError.

#[export] Instance MmuError_eq_dec : EqDecision MmuError.t.
Proof. solve_decision. Defined.

(** A physical or virtual range [start..end]. *)
Record Range := mkRange { start : Z; end_ : Z }.

Record KernelLayout := mkLayout {
  text : Range;
  rodata : Range;
  rw0 : Range;
  rw1 : Range;
  dtb : Range;
  devices : list Range
}.

Record Pool := mkPool {
  tables : list (list Z);
  used : Z;
  enabled : bool;
  root1 : Z
}.

(** ** The pool *)

(** The linker's address of the static pool: physical before the jump to the
    higher half, its alias after it. *)
Class PoolVa := pool_va : Z.

Section pool.
Context `{Platform, PoolVa}.

(** The static [POOL]. *)
Definition initial_pool : Pool :=
  mkPool (replicate (Z.to_nat POOL_LEN) (replicate (Z.to_nat ENTRIES) 0)) 0 false 0.

Definition index (va level : Z) : Z :=
  let shift := PAGE_SHIFT + BITS_PER_LEVEL * (3 - level) in
  let bits := if level =? 0 then 48 - shift else BITS_PER_LEVEL in
  Z.land (Z.shiftr va shift) (Z.shiftl 1 bits - 1).

(** [self.tables[t].0[i]], read and written; out of range panics. *)
Definition read_entry (t i : Z) : M Pool MmuError.t Z := fun p =>
  match get (tables p) t with
  | Some tb => match get tb i with Some e => (Ok e, p) | None => (Panic, p) end
  | None => (Panic, p)
  end.

Definition write_entry (t i v : Z) : M Pool MmuError.t unit := fun p =>
  match get (tables p) t with
  | Some tb =>
    match get tb i with
    | Some _ => (Ok tt, mkPool (set (tables p) t (set tb i v)) (used p) (enabled p) (root1 p))
    | None => (Panic, p)
    end
  | None => (Panic, p)
  end.

Definition alloc : M Pool MmuError.t Z := fun p =>
  if used p =? POOL_LEN then (Err MmuError.OutOfTables, p)
  else (Ok (used p), mkPool (tables p) (used p + 1) (enabled p) (root1 p)).

(** [Pool::pa]: the address of [self.tables[i]] with the kernel offset removed. *)
Definition pa {E} (i : Z) : res E Z :=
  if (0 <=? i) && (i <? POOL_LEN)
  then Ok (Z.land (pool_va + i * GRANULE) (not64 KERNEL_VA_OFFSET)) else Panic.

Definition index_of (a : Z) : M Pool MmuError.t Z := fun p =>
  (let? base := pa 0 in
   if a <? base then Err MmuError.BadTable else
   let off := a - base in
   let i := off / GRANULE in
   if negb (off mod GRANULE =? 0) || (used p <=? i) then Err MmuError.BadTable else Ok i, p).

(** The closure of [map_page] runs on the pool and the array of links it wrote. *)
Definition on_pool {A} (m : M Pool MmuError.t A) : M (Pool * list (Z * Z)) MmuError.t A :=
  fun '(p, ls) => let '(r, p') := m p in (r, (p', ls)).
Definition push_link (l : Z * Z) : M (Pool * list (Z * Z)) MmuError.t unit :=
  fun '(p, ls) => (Ok tt, (p, ls ++ [l])).

(** The levels of [map_page]: [n] levels from [level] on, at table [t]. *)
Fixpoint map_walk (n : nat) (level t va : Z) : M (Pool * list (Z * Z)) MmuError.t Z :=
  match n with
  | O => ret t
  | S n' =>
    let idx := index va level in
    do! entry := on_pool (read_entry t idx) in
    do! t' :=
      if entry =? 0 then
        do! child := on_pool alloc in
        do! cpa := lift (pa child) in
        do! _ := on_pool (write_entry t idx (Z.lor cpa DESC_TABLE)) in
        do! _ := push_link (t, idx) in
        ret child
      else if Z.land entry 3 =? DESC_TABLE then on_pool (index_of (Z.land entry ADDR_MASK))
      else throw MmuError.BadTable in
    map_walk n' (level + 1) t' va
  end.

Definition map_leaf (t va a attrs : Z) : M Pool MmuError.t unit :=
  let idx := index va 3 in
  do! entry := read_entry t idx in
  if negb (entry =? 0) then throw MmuError.Overlap
  else write_entry t idx (Z.lor a attrs).

Fixpoint unlink (ls : list (Z * Z)) : M Pool MmuError.t unit :=
  match ls with
  | [] => ret tt
  | (parent, idx) :: ls' => do! _ := write_entry parent idx 0 in unlink ls'
  end.

Definition map_page (root va a attrs : Z) : M Pool MmuError.t unit := fun p =>
  let used_before := used p in
  match bind (map_walk 3 0 root va) (fun t => on_pool (map_leaf t va a attrs)) (p, []) with
  | (Err e, (p', ls)) =>
    match unlink ls p' with
    | (Ok _, p'') => (Err e, mkPool (tables p'') used_before (enabled p'') (root1 p''))
    | (r, p'') => (r, p'')
    end
  | (r, (p', _)) => (r, p')
  end.

(** The loop of [map_range]: one page per unit of fuel. *)
Fixpoint map_pages (fuel : nat) (root va a len attrs off : Z) : M Pool MmuError.t unit :=
  match fuel with
  | O => if off <? len then lift OutOfFuel else ret tt
  | S fuel' =>
    if off <? len then
      do! va' := lift (add_p va off) in
      do! a' := lift (add_p a off) in
      do! _ := map_page root va' a' attrs in
      do! off' := lift (add_p off GRANULE) in
      map_pages fuel' root va a len attrs off'
    else ret tt
  end.

Definition map_range (root va a len : Z) (perm : Perm.t) : M Pool MmuError.t unit :=
  if negb (va mod GRANULE =? 0) || negb (a mod GRANULE =? 0) || negb (len mod GRANULE =? 0)
  then throw MmuError.Misaligned
  else map_pages (Z.to_nat (len / GRANULE)) root va a len (Perm.attrs perm) 0.

Definition map_kernel_window (w : Range) : M Pool MmuError.t unit :=
  if (end_ w <=? start w) || negb (start w mod GRANULE =? 0) || negb (end_ w mod GRANULE =? 0)
  then throw MmuError.Misaligned else
  do! p := getS in
  if negb (enabled p) then throw MmuError.NotEnabled else
  do! va := lift (add_p (start w) KERNEL_VA_OFFSET) in
  map_range (root1 p) va (start w) (end_ w - start w) Perm.Rw.

Definition table_pool_usage (p : Pool) : Z * Z := (used p, POOL_LEN).

(** ** Building the kernel's address space *)

(** [check_features] on the value of ID_AA64MMFR0_EL1. *)
Definition check_features (mmfr0 : Z) : res MmuError.t Z :=
  let granule_ok :=
    match plat with
    | PlatVirt => let g := Z.land (Z.shiftr mmfr0 28) 0xF in (g =? 0) || (g =? 1)
    | PlatApple => let g := Z.land (Z.shiftr mmfr0 20) 0xF in (g =? 1) || (g =? 2)
    end in
  if negb granule_ok then Err MmuError.GranuleUnsupported else Ok (Z.min (Z.land mmfr0 0xF) 5).

Definition tcr (ips : Z) : Z :=
  let TG := match plat with PlatVirt => (0, 2) | PlatApple => (2, 1) end in
  Z.lor (Z.lor (Z.lor (Z.lor (Z.lor (Z.lor (Z.lor (Z.lor (Z.lor (Z.lor
    16 (Z.shiftl 1 8)) (Z.shiftl 1 10)) (Z.shiftl 3 12)) (Z.shiftl TG.1 14))
    (Z.shiftl 16 16)) (Z.shiftl 1 24)) (Z.shiftl 1 26)) (Z.shiftl 3 28)) (Z.shiftl TG.2 30))
    (Z.shiftl ips 32).

(** Identity and higher-half mapping of one segment. *)
Definition map_both (root0 root1 s len : Z) (perm : Perm.t) : M Pool MmuError.t unit :=
  do! _ := map_range root0 s s len perm in
  do! va := lift (add_p s KERNEL_VA_OFFSET) in
  map_range root1 va s len perm.

Fixpoint map_segments (root0 root1 : Z) (segs : list (Z * Z * Perm.t)) : M Pool MmuError.t unit :=
  match segs with
  | [] => ret tt
  | (s, e, perm) :: segs' =>
    if e <? s then throw MmuError.Misaligned else
    do! _ := if e - s =? 0 then ret tt else map_both root0 root1 s (e - s) perm in
    map_segments root0 root1 segs'
  end.

Fixpoint map_devices (root0 root1 : Z) (devs : list Range) : M Pool MmuError.t unit :=
  match devs with
  | [] => ret tt
  | d :: devs' =>
    do! _ := if end_ d <=? start d then ret tt
             else map_both root0 root1 (start d) (end_ d - start d) Perm.Device in
    map_devices root0 root1 devs'
  end.

(** [x.div_ceil(g)]. *)
Definition div_ceil (x g : Z) : Z := (x + (g - 1)) / g.

(** [enable_paging] up to the register writes of [switch_on]: the values it
    loads into TTBR0, TTBR1 and TCR. *)
Definition enable_paging (mmfr0 : Z) (l : KernelLayout) : M Pool MmuError.t (Z * Z * Z) :=
  do! ips := lift (check_features mmfr0) in
  do! p := getS in
  if enabled p then throw MmuError.AlreadyEnabled else
  do! root0 := alloc in
  do! r1 := alloc in
  let dtb_base := Z.land (start (dtb l)) (not64 (GRANULE - 1)) in
  do! dtb_end := lift (let e := div_ceil (end_ (dtb l)) GRANULE * GRANULE in
                       if e <? U64 then Ok e else Panic) in
  do! _ := map_segments root0 r1
    [(start (text l), end_ (text l), Perm.Text);
     (start (rodata l), end_ (rodata l), Perm.Ro);
     (start (rw0 l), end_ (rw0 l), Perm.Rw);
     (start (rw1 l), end_ (rw1 l), Perm.Rw);
     (dtb_base, dtb_end, Perm.Ro)] in
  do! _ := map_devices root0 r1 (devices l) in
  do! ttbr0 := lift (pa root0) in
  do! ttbr1 := lift (pa r1) in
  do! _ := modS (fun p => mkPool (tables p) (used p) true r1) in
  ret (ttbr0, ttbr1, tcr ips).

End pool.

(** ** Well-formed pools and their contents *)

Class PoolVaOk `{Platform, PoolVa} : Prop := {
  pool_va_pos : 0 <= pool_va;
  pool_va_aligned : pool_va mod GRANULE = 0;
  pool_va_fits : pool_va mod 2 ^ 48 + POOL_LEN * GRANULE <= 2 ^ 48
}.

Section theory.
Context `{Platform, PoolVa, !PoolVaOk}.

Definition pool_pa : Z := pool_va mod 2 ^ 48.

Definition pool_wf (p : Pool) : Prop :=
  length (tables p) = Z.to_nat POOL_LEN /\
  Forall (fun tb => length tb = Z.to_nat ENTRIES) (tables p) /\
  0 <= used p <= POOL_LEN.

Definition mem (p : Pool) (t i : Z) : Z :=
  match get (tables p) t with Some tb => default 0 (get tb i) | None => 0 end.

(** The table a descriptor links to. *)
Definition pool_child (e : Z) : option Z :=
  let off := Z.land e ADDR_MASK - pool_pa in
  if (Z.land e 3 =? DESC_TABLE) && (0 <=? off) && (off mod GRANULE =? 0) && (off / GRANULE <? POOL_LEN)
  then Some (off / GRANULE) else None.

Definition in_use (p : Pool) (t : Z) : Prop := 0 <= t < used p.

(** Links form trees, and the tables not in use are empty. *)
Definition ptree (tag : tagging) (p : Pool) : Prop :=
  tree pool_child 3 (in_use p) tag (mem p) /\ forall t i, ~ in_use p t -> mem p t i = 0.

(** The pool is a forest of three-level trees with the given roots. *)
Definition pool_inv (roots : list Z) (p : Pool) : Prop :=
  pool_wf p /\ exists tag, ptree tag p /\ forall r, r ∈ roots -> in_use p r /\ tag r = (r, []).

(** The index path of a virtual address, and the MMU's walk. *)
Definition path (va : Z) : list Z := [index va 0; index va 1; index va 2].
Definition translate (p : Pool) (root va : Z) : option Z :=
  leaf pool_child (mem p) root (path va) (index va 3).

(** The page of a 48-bit address. *)
Definition vpn (va : Z) : Z := (va mod 2 ^ 48) / GRANULE.

(** *** Indices *)

Lemma entries_pow2 : ENTRIES = 2 ^ BITS_PER_LEVEL.
Proof. unfold ENTRIES, BITS_PER_LEVEL, GRANULE, PAGE_SHIFT. by destruct plat. Qed.

Definition shift_of (level : Z) : Z := PAGE_SHIFT + BITS_PER_LEVEL * (3 - level).
Definition bits_of (level : Z) : Z := if level =? 0 then 48 - shift_of level else BITS_PER_LEVEL.

Lemma index_div va level :
  0 <= level <= 3 -> index va level = (va / 2 ^ shift_of level) mod 2 ^ bits_of level.
Proof.
  intros Hl. unfold index. fold (shift_of level). fold (bits_of level).
  change (Z.shiftl 1 (bits_of level) - 1) with (Z.ones (bits_of level)).
  assert (0 <= shift_of level /\ 0 <= bits_of level) as [Hs Hb].
  { unfold bits_of, shift_of, BITS_PER_LEVEL, PAGE_SHIFT. destruct plat, (level =? 0) eqn:E; bool_to_prop; lia. }
  by rewrite Z.land_ones, Z.shiftr_div_pow2.
Qed.

Lemma index_bounds va level : 0 <= level <= 3 -> 0 <= index va level < ENTRIES.
Proof.
  intros Hl. rewrite index_div by done.
  assert (Hb : 0 <= bits_of level <= BITS_PER_LEVEL).
  { unfold bits_of, shift_of, BITS_PER_LEVEL, PAGE_SHIFT. destruct plat, (level =? 0) eqn:E; bool_to_prop; lia. }
  pose proof (Z.mod_pos_bound (va / 2 ^ shift_of level) (2 ^ bits_of level)) as Hm.
  assert (2 ^ bits_of level <= ENTRIES) by (rewrite entries_pow2; apply Z.pow_le_mono_r; lia).
  assert (0 < 2 ^ bits_of level) by (apply Z.pow_pos_nonneg; lia). lia.
Qed.

(** The four indices determine the page, and the page determines them. *)
Lemma path_vpn va va' : path va' = path va /\ index va' 3 = index va 3 <-> vpn va' = vpn va.
Proof.
  assert (Hi : forall v, index v 0 = vpn v / 2 ^ (3 * BITS_PER_LEVEL) /\
    index v 1 = vpn v / 2 ^ (2 * BITS_PER_LEVEL) mod 2 ^ BITS_PER_LEVEL /\
    index v 2 = vpn v / 2 ^ BITS_PER_LEVEL mod 2 ^ BITS_PER_LEVEL /\
    index v 3 = vpn v mod 2 ^ BITS_PER_LEVEL).
  { intros v. rewrite !index_div by lia.
    unfold vpn, bits_of, shift_of, BITS_PER_LEVEL, PAGE_SHIFT, GRANULE.
    destruct plat; cbn [Z.eqb]; split_and!; div_lia. }
  destruct (Hi va) as (E0 & E1 & E2 & E3), (Hi va') as (F0 & F1 & F2 & F3). unfold path.
  split; [|intros E; rewrite F0, F1, F2, F3, E, <- E0, <- E1, <- E2, <- E3; done].
  intros [[= G0 G1 G2] G3]. rewrite E0, F0 in G0. rewrite E1, F1 in G1. rewrite E2, F2 in G2.
  rewrite E3, F3 in G3. clear -G0 G1 G2 G3. unfold BITS_PER_LEVEL, PAGE_SHIFT in *.
  destruct plat; div_lia.
Qed.

(** *** Descriptors *)

Lemma pa_ok {E} i : 0 <= i < POOL_LEN -> @pa _ _ E i = Ok (pool_pa + i * GRANULE).
Proof.
  intros Hi. unfold pa. rewrite (proj2 (Z.leb_le 0 i)), (proj2 (Z.ltb_lt i POOL_LEN)) by lia. simpl.
  f_equal. change (not64 KERNEL_VA_OFFSET) with (Z.ones 48). rewrite Z.land_ones by lia.
  unfold pool_pa. pose proof pool_va_fits as Hf. pose proof granule_bounds.
  rewrite <- Zplus_mod_idemp_l. apply Z.mod_small. pose proof (Z.mod_pos_bound pool_va (2 ^ 48)). nia.
Qed.

Lemma land_addr_mask a : 0 <= a < 2 ^ 48 -> a mod GRANULE = 0 -> Z.land a ADDR_MASK = a.
Proof.
  intros Ha Hm. unfold ADDR_MASK. change (Z.shiftl 1 48 - 1) with (Z.ones 48).
  rewrite Z.land_assoc, Z.land_ones, Z.mod_small, granule_pow2 by lia.
  pose proof page_shift_bounds. rewrite land_not64_pow2; [|lia|unfold is_u64; lia].
  rewrite <- granule_pow2, Hm. lia.
Qed.

(** A descriptor keeps its address and its attribute bits apart. *)
Lemma desc_addr a attrs :
  0 <= a < 2 ^ 48 -> a mod GRANULE = 0 -> Z.land attrs ADDR_MASK = 0 ->
  Z.land (Z.lor a attrs) ADDR_MASK = a.
Proof. intros Ha Hm Hat. by rewrite Z.land_lor_distr_l, land_addr_mask, Hat, Z.lor_0_r. Qed.

Lemma land_low_aligned a n : 0 <= n <= PAGE_SHIFT -> a mod GRANULE = 0 -> Z.land a (2 ^ n - 1) = 0.
Proof.
  intros Hn Ha. replace (2 ^ n - 1) with (Z.ones n) by (rewrite Z.ones_equiv; lia).
  rewrite Z.land_ones by lia. rewrite granule_pow2 in Ha. apply Z.mod_divide in Ha as [q ->]; [|lia].
  replace (2 ^ PAGE_SHIFT) with (2 ^ (PAGE_SHIFT - n) * 2 ^ n) by (rewrite <- Z.pow_add_r by lia; f_equal; lia).
  rewrite Z.mul_assoc. apply Z.mod_mul. lia.
Qed.

Lemma pool_child_link c :
  0 <= c < POOL_LEN -> pool_child (Z.lor (pool_pa + c * GRANULE) DESC_TABLE) = Some c.
Proof.
  intros Hc. pose proof pool_va_fits as Hf. pose proof pool_va_aligned as Hal. pose proof granule_bounds.
  pose proof (Z.mod_pos_bound pool_va (2 ^ 48)).
  assert (Hm : (pool_pa + c * GRANULE) mod GRANULE = 0).
  { rewrite Z_mod_plus_full. unfold pool_pa. rewrite granule_pow2 in Hal |- *. pose proof page_shift_bounds.
    rewrite Z.mod_mod_divide; [done|]. exists (2 ^ (48 - PAGE_SHIFT)).
    rewrite <- Z.pow_add_r by lia. f_equal. lia. }
  assert (Hr : 0 <= pool_pa + c * GRANULE < 2 ^ 48) by (unfold pool_pa in *; nia).
  unfold pool_child. rewrite desc_addr; [|done|done|].
  2:{ unfold ADDR_MASK, DESC_TABLE, GRANULE. by destruct plat. }
  replace (pool_pa + c * GRANULE - pool_pa) with (c * GRANULE) by lia.
  rewrite Z.land_lor_distr_l. change 3 with (2 ^ 2 - 1) at 1.
  pose proof page_shift_bounds. rewrite land_low_aligned by (try done; lia).
  rewrite Z.mod_mul, Z.div_mul by lia. simpl.
  rewrite (proj2 (Z.leb_le 0 _)), (proj2 (Z.ltb_lt c _)) by (try lia; nia). done.
Qed.

(** *** Entries *)

Lemma table_in_range p t :
  pool_wf p -> 0 <= t < POOL_LEN ->
  exists tb, get (tables p) t = Some tb /\ length tb = Z.to_nat ENTRIES.
Proof.
  intros (Hl & Hf & _) Ht. destruct (get_in_range (tables p) t) as [tb Htb]; [unfold POOL_LEN in *; lia|].
  exists tb. split; [done|]. apply get_Some in Htb as [_ Htb]. by eapply Forall_lookup_1 in Hf.
Qed.

Lemma read_ok p t i :
  pool_wf p -> 0 <= t < POOL_LEN -> 0 <= i < ENTRIES -> read_entry t i p = (Ok (mem p t i), p).
Proof.
  intros Hwf Ht Hi. destruct (table_in_range p t Hwf Ht) as (tb & Htb & Hl). unfold read_entry, mem.
  rewrite Htb. destruct (get_in_range tb i) as [e ->]; [lia|done].
Qed.

Lemma write_ok p t i v :
  pool_wf p -> 0 <= t < POOL_LEN -> 0 <= i < ENTRIES ->
  exists p', write_entry t i v p = (Ok tt, p') /\ pool_wf p' /\ used p' = used p /\
    enabled p' = enabled p /\ root1 p' = root1 p /\
    forall t' i', mem p' t' i' = wr (mem p) t i v t' i'.
Proof.
  intros Hwf Ht Hi. destruct (table_in_range p t Hwf Ht) as (tb & Htb & Hl). unfold write_entry.
  rewrite Htb. destruct (get_in_range tb i) as [e ->]; [lia|]. eexists. split; [done|].
  destruct Hwf as (Hlen & Hf & Hu). split_and!; try done; simpl.
  - split_and!; simpl; [by rewrite length_set| |lia..]. apply Forall_insert; [done|]. by rewrite length_set.
  - intros t' i'. unfold mem, wr. simpl. rewrite get_set by (unfold POOL_LEN in *; lia).
    destruct (decide (t = t')) as [<-|Hne].
    + rewrite get_set, Htb by lia. repeat case_decide; naive_solver.
    + rewrite decide_False by naive_solver. done.
Qed.

Lemma pool_ext p p' :
  pool_wf p -> pool_wf p' -> (forall t i, 0 <= t -> 0 <= i -> mem p t i = mem p' t i) -> tables p = tables p'.
Proof.
  intros (Hl & Hf & _) (Hl' & Hf' & _) Hm. apply list_eq_same_length with (n := Z.to_nat POOL_LEN); [done..|].
  intros t tb tb' Ht Htb Htb'.
  pose proof (Forall_lookup_1 _ _ _ _ Hf Htb) as Hb. pose proof (Forall_lookup_1 _ _ _ _ Hf' Htb') as Hb'.
  apply list_eq_same_length with (n := Z.to_nat ENTRIES); [done..|]. intros i e e' Hi He He'.
  specialize (Hm (Z.of_nat t) (Z.of_nat i) ltac:(lia) ltac:(lia)). unfold mem in Hm.
  rewrite (proj2 (get_Some (tables p) (Z.of_nat t) tb)) in Hm by (split; [lia|by rewrite Nat2Z.id]).
  rewrite (proj2 (get_Some (tables p') (Z.of_nat t) tb')) in Hm by (split; [lia|by rewrite Nat2Z.id]).
  rewrite (proj2 (get_Some tb (Z.of_nat i) e)) in Hm by (split; [lia|by rewrite Nat2Z.id]).
  rewrite (proj2 (get_Some tb' (Z.of_nat i) e')) in Hm by (split; [lia|by rewrite Nat2Z.id]).
  exact Hm.
Qed.

(** A link to a table in use is followed. *)
Lemma index_of_ok p e c :
  pool_child e = Some c -> c < used p ->
  (Z.land e 3 =? DESC_TABLE) = true /\ index_of (Z.land e ADDR_MASK) p = (Ok c, p).
Proof.
  unfold pool_child. destruct (_ && _) eqn:E; [|done]. intros [= <-] Hc.
  rewrite !andb_true_iff in E. destruct E as (((E1 & E2) & E3) & E4). split; [done|].
  unfold index_of. rewrite pa_ok by (unfold POOL_LEN; lia). simpl. rewrite Z.add_0_r.
  apply Z.leb_le in E2. rewrite (proj2 (Z.ltb_ge _ _)) by lia. rewrite E3. simpl.
  by rewrite (proj2 (Z.leb_gt _ _)) by lia.
Qed.

(** *** The walk of [map_page]

    What [n] levels of the walk establish, from the pool [p] to [p']: every
    entry outside the new links [ls] is unchanged, the links' places were
    empty, the forest is intact, and no translation has changed. *)
Record walked (tag : tagging) (p p' : Pool) (ls : list (Z * Z)) (tag' : tagging) : Prop := {
  wk_wf : pool_wf p';
  wk_used : used p <= used p';
  wk_flags : enabled p' = enabled p /\ root1 p' = root1 p;
  wk_tree : ptree tag' p';
  wk_tag : forall t, in_use p t -> tag' t = tag t;
  wk_links : forall t i, (t, i) ∈ ls -> 0 <= t < POOL_LEN /\ 0 <= i < ENTRIES /\ mem p t i = 0;
  wk_rest : forall t i, (t, i) ∉ ls -> mem p' t i = mem p t i;
  wk_leaf : forall s l j, in_use p s -> (length (tag s).2 + length l = 3)%nat ->
    leaf pool_child (mem p') s l j = leaf pool_child (mem p) s l j
}.

Lemma walked_refl tag p : pool_wf p -> ptree tag p -> walked tag p p [] tag.
Proof. intros. split; try done. intros t i Hin. by apply not_elem_of_nil in Hin. Qed.

Lemma walked_trans tag p tag1 p1 ls1 tag2 p2 ls2 :
  walked tag p p1 ls1 tag1 -> walked tag1 p1 p2 ls2 tag2 -> walked tag p p2 (ls1 ++ ls2) tag2.
Proof.
  intros W1 W2. pose proof (wk_used _ _ _ _ _ W1). pose proof (wk_used _ _ _ _ _ W2).
  assert (Hin : forall t, in_use p t -> in_use p1 t) by (unfold in_use; lia). split.
  - apply W2.
  - lia.
  - destruct (wk_flags _ _ _ _ _ W1), (wk_flags _ _ _ _ _ W2). split; congruence.
  - apply W2.
  - intros t Ht. rewrite (wk_tag _ _ _ _ _ W2), (wk_tag _ _ _ _ _ W1); auto.
  - intros t i [Hl|Hl]%elem_of_app; [by apply (wk_links _ _ _ _ _ W1)|].
    destruct (decide ((t, i) ∈ ls1)) as [Hl1|Hl1]; [by apply (wk_links _ _ _ _ _ W1)|].
    destruct (wk_links _ _ _ _ _ W2 t i Hl) as (? & ? & E). rewrite (wk_rest _ _ _ _ _ W1) in E; done.
  - intros t i [Hl1 Hl2]%not_elem_of_app. by rewrite (wk_rest _ _ _ _ _ W2), (wk_rest _ _ _ _ _ W1).
  - intros s l j Hs Hl. rewrite (wk_leaf _ _ _ _ _ W2), (wk_leaf _ _ _ _ _ W1); auto.
    by rewrite (wk_tag _ _ _ _ _ W1).
Qed.

(** One new link, from the free place [i] of [t] to a fresh table. *)
Lemma walked_link tag p t i :
  pool_wf p -> ptree tag p -> in_use p t -> (length (tag t).2 < 3)%nat -> 0 <= i < ENTRIES ->
  mem p t i = 0 -> used p < POOL_LEN ->
  let p0 := mkPool (tables p) (used p + 1) (enabled p) (root1 p) in
  let v := Z.lor (pool_pa + used p * GRANULE) DESC_TABLE in
  let tag' := tag_upd tag (used p) ((tag t).1, (tag t).2 ++ [i]) in
  exists p', write_entry t i v p0 = (Ok tt, p') /\ walked tag p p' [(t, i)] tag' /\
    mem p' t i = v /\ used p' = used p + 1.
Proof.
  intros Hwf Ht Hin Hlt Hi Hz Hu p0 v tag'. pose proof (proj2 (proj2 Hwf)) as Hub.
  assert (Hwf0 : pool_wf p0) by (destruct Hwf as (? & ? & ?); split_and!; simpl; try done; lia).
  assert (Hnew : ~ in_use p (used p)) by (unfold in_use; lia).
  assert (Hch : pool_child v = Some (used p)) by (apply pool_child_link; lia).
  assert (Htr : 0 <= t < POOL_LEN) by (unfold in_use in Hin; lia).
  destruct (write_ok p0 t i v Hwf0 Htr Hi) as (p' & Hw & Hwf' & Hu' & He & Hr & Hm).
  exists p'. split; [done|]. split; [|split; [by rewrite Hm, wr_eq|done]].
  split; try done.
  - simpl in Hu'. lia.
  - split; [eapply (tree_ext pool_child 3 _ _ Hm); [|eapply (tree_link pool_child 3); try done; [apply Ht|intros; by apply Ht]]|].
    + intros s. unfold in_use. rewrite Hu'. simpl. lia.
    + intros s j Hs. rewrite Hm. unfold in_use in Hs. rewrite Hu' in Hs. simpl in Hs. rewrite wr_ne.
      * apply (proj2 Ht). unfold in_use. lia.
      * left. intros ->. unfold in_use in Hin. lia.
  - intros s Hs. unfold tag', tag_upd. rewrite decide_False; [done|]. by intros <-.
  - intros s j [= -> ->]%list_elem_of_singleton. done.
  - intros s j Hnin. rewrite Hm. etrans; [apply wr_ne|done].
    destruct (decide (t = s)) as [E1|E1]; [|by left]. destruct (decide (i = j)) as [E2|E2]; [|by right].
    exfalso. apply Hnin. subst. by apply list_elem_of_singleton.
  - intros s l j Hs Hl. erewrite leaf_ext by exact Hm. eapply (leaf_link pool_child 3 (in_use p) tag); try done; [apply Ht|]. intros. by apply Ht.
Qed.

(** The indices of [n] levels from [level] on. *)
Fixpoint ixs (n : nat) (level va : Z) : list Z :=
  match n with O => [] | S n' => index va level :: ixs n' (level + 1) va end.

Lemma length_ixs n level va : length (ixs n level va) = n.
Proof. revert level. induction n; intros; simpl; auto. Qed.

(** A walk that was possible stays possible. *)
Lemma walked_walk tag p p' ls tag' t l t' :
  walked tag p p' ls tag' -> walk pool_child (mem p) t l = Some t' -> walk pool_child (mem p') t l = Some t'.
Proof.
  intros W. revert t. induction l as [|i l IH]; intros t; [done|]. simpl.
  destruct (Z.eqb_spec (mem p t i) 0) as [|Hn]; [done|].
  rewrite (wk_rest _ _ _ _ _ W) by (intros Hin; by destruct (wk_links _ _ _ _ _ W _ _ Hin) as (_ & _ & ?)).
  rewrite (proj2 (Z.eqb_neq _ _) Hn). destruct (pool_child (mem p t i)); [apply IH|done].
Qed.

Lemma map_walk_spec n level t va tag p ls0 :
  pool_wf p -> ptree tag p -> in_use p t -> 0 <= level -> level + Z.of_nat n = 3 ->
  length (tag t).2 = Z.to_nat level ->
  exists r p' ls tag', map_walk n level t va (p, ls0) = (r, (p', ls0 ++ ls)) /\
    walked tag p p' ls tag' /\
    match r with
    | Ok t' => walk pool_child (mem p') t (ixs n level va) = Some t'
    | Err e => e = MmuError.OutOfTables /\ used p' = POOL_LEN /\
        walk pool_child (mem p) t (ixs n level va) = None
    | _ => False
    end.
Proof.
  revert level t tag p ls0. induction n as [|n IH]; intros level t tag p ls0 Hwf Htr Hin Hlv Hn Htg.
  { exists (Ok t), p, [], tag. rewrite app_nil_r. split_and!; [done|by apply walked_refl|done]. }
  assert (Hi : 0 <= index va level < ENTRIES) by (apply index_bounds; lia).
  assert (Ht : 0 <= t < POOL_LEN) by (destruct Hwf as (_ & _ & ?); unfold in_use in Hin; lia).
  cbn [map_walk]. unfold bind at 1, on_pool at 1. rewrite read_ok by done.
  destruct (Z.eqb_spec (mem p t (index va level)) 0) as [Hz|Hnz].
  - unfold bind at 1 2, on_pool at 1, alloc. destruct (Z.eqb_spec (used p) POOL_LEN) as [Hfull|Hfull].
    { eexists _, p, [], tag. rewrite app_nil_r. split_and!; [done|by apply walked_refl|].
      split_and!; [done..|]. simpl. by rewrite Hz. }
    assert (Hu : 0 <= used p < POOL_LEN) by (destruct Hwf as (_ & _ & ?); lia).
    destruct (walked_link tag p t (index va level) Hwf Htr Hin) as (p1 & Hw & Wk & Hm & Hu1); [lia..|done|lia|].
    unfold bind at 1, lift at 1. rewrite pa_ok by done. unfold bind at 1, on_pool at 1. rewrite Hw.
    simpl. set (tag1 := tag_upd _ _ _) in Wk.
    destruct (IH (level + 1) (used p) tag1 p1 (ls0 ++ [(t, index va level)])) as (r & p2 & ls & tag2 & Hmw & Wk2 & Hr).
    + apply Wk.
    + apply Wk.
    + unfold in_use. lia.
    + lia.
    + lia.
    + unfold tag1, tag_upd. rewrite decide_True by done. simpl. rewrite length_app, Htg. simpl. lia.
    + exists r, p2, ((t, index va level) :: ls), tag2. split_and!.
      * rewrite Hmw. by rewrite <- app_assoc.
      * exact (walked_trans _ _ _ _ [_] _ _ _ Wk Wk2).
      * destruct r as [t'| | |]; try done; [simpl|split_and!; [apply Hr..|]; simpl; by rewrite Hz].
        assert (Hm2 : mem p2 t (index va level) = mem p1 t (index va level)).
        { apply (wk_rest _ _ _ _ _ Wk2). intros Hin2. destruct (wk_links _ _ _ _ _ Wk2 _ _ Hin2) as (_ & _ & E).
          rewrite Hm in E. apply Z.lor_eq_0_iff in E as [_ E]. done. }
        rewrite Hm2, Hm, pool_child_link by done.
        destruct (Z.eqb_spec (Z.lor (pool_pa + used p * GRANULE) DESC_TABLE) 0) as [E|]; [|done].
        apply Z.lor_eq_0_iff in E as [_ E]. done.
  - destruct (tr_link _ _ _ _ _ (proj1 Htr) t (index va level) Hin Hnz) as (c & Hc & Hcin & Hct); [lia|].
    destruct (index_of_ok p _ c Hc ltac:(unfold in_use in Hcin; lia)) as [Hd Hix].
    rewrite Hd. unfold bind at 1, on_pool at 1. rewrite Hix.
    destruct (IH (level + 1) c tag p ls0 Hwf Htr Hcin) as (r & p' & ls & tag' & Hmw & Wk & Hr);
      [lia|lia|rewrite Hct; simpl; rewrite length_app, Htg; simpl; lia|].
    exists r, p', ls, tag'. split_and!; [done|done|].
    destruct r as [t'| | |]; try done; simpl; [|by rewrite (proj2 (Z.eqb_neq _ _) Hnz), Hc].
    rewrite (wk_rest _ _ _ _ _ Wk) by (intros Hin2; by destruct (wk_links _ _ _ _ _ Wk _ _ Hin2) as (_ & _ & ?)).
    by rewrite (proj2 (Z.eqb_neq _ _) Hnz), Hc.
Qed.

Lemma unlink_spec ls p :
  pool_wf p -> (forall t i, (t, i) ∈ ls -> 0 <= t < POOL_LEN /\ 0 <= i < ENTRIES) ->
  exists p', unlink ls p = (Ok tt, p') /\ pool_wf p' /\ used p' = used p /\
    enabled p' = enabled p /\ root1 p' = root1 p /\
    forall t i, mem p' t i = if decide ((t, i) ∈ ls) then 0 else mem p t i.
Proof.
  revert p. induction ls as [|[t i] ls IH]; intros p Hwf Hr.
  { by exists p. }
  destruct (Hr t i) as [Ht Hi]; [apply list_elem_of_here|].
  destruct (write_ok p t i 0 Hwf Ht Hi) as (p1 & Hw & Hwf1 & Hu1 & He1 & Hr1 & Hm1).
  destruct (IH p1 Hwf1) as (p2 & Hul & Hwf2 & Hu2 & He2 & Hr2 & Hm2).
  { intros t' i' Hin. apply Hr. by apply list_elem_of_further. }
  exists p2. simpl. unfold bind. rewrite Hw. split_and!; try done; try congruence.
  intros t' i'. rewrite Hm2, Hm1. destruct (decide ((t', i') ∈ ls)) as [Hin|Hin].
  - rewrite decide_True; [done|]. by apply list_elem_of_further.
  - destruct (decide ((t', i') = (t, i))) as [[= -> ->]|Hne].
    + rewrite wr_eq, decide_True; [done|]. apply list_elem_of_here.
    + rewrite wr_ne by (destruct (decide (t = t')); [right; naive_solver|by left]).
      rewrite decide_False; [done|]. rewrite elem_of_cons. naive_solver.
Qed.

(** Removing the links that the walk wrote gives back the old pool. *)
Lemma rollback_spec tag p p' ls tag' :
  pool_wf p -> walked tag p p' ls tag' ->
  exists p'', unlink ls p' = (Ok tt, p'') /\ mkPool (tables p'') (used p) (enabled p'') (root1 p'') = p.
Proof.
  intros Hwf Wk. destruct (wk_flags _ _ _ _ _ Wk) as [Hen Hr1].
  destruct (unlink_spec ls p' (wk_wf _ _ _ _ _ Wk)) as (p3 & Hul & Hwf3 & _ & He3 & Hr3 & Hm3).
  { intros t i Hin. destruct (wk_links _ _ _ _ _ Wk t i Hin) as (? & ? & _). done. }
  exists p3. split; [done|]. rewrite (pool_ext p3 p Hwf3 Hwf).
  - destruct p. simpl in *. congruence.
  - intros t i _ _. rewrite Hm3. case_decide as Hin.
    + by destruct (wk_links _ _ _ _ _ Wk t i Hin) as (_ & _ & ?).
    + by apply (wk_rest _ _ _ _ _ Wk).
Qed.

(** The last level. *)
Lemma map_leaf_spec tag p t root va a attrs :
  pool_wf p -> ptree tag p -> in_use p root -> tag root = (root, []) -> attrs <> 0 ->
  walk pool_child (mem p) root (path va) = Some t ->
  exists r p', map_leaf t va a attrs p = (r, p') /\
    match r with
    | Ok _ => pool_wf p' /\ ptree tag p' /\ used p' = used p /\ enabled p' = enabled p /\
        root1 p' = root1 p /\ translate p root va = None /\
        forall root' va', in_use p root' -> tag root' = (root', []) ->
          translate p' root' va' =
            if decide (root' = root /\ vpn va' = vpn va) then Some (Z.lor a attrs) else translate p root' va'
    | Err e => p' = p /\ e = MmuError.Overlap /\ translate p root va <> None
    | _ => False
    end.
Proof.
  intros Hwf Htr Hin Htag Hat Hw.
  destruct (walk_tag _ _ _ _ _ _ _ _ (proj1 Htr) Hin Hw) as [Htin Httag]; [by rewrite Htag|].
  rewrite Htag in Httag. simpl in Httag.
  assert (Hi : 0 <= index va 3 < ENTRIES) by (apply index_bounds; lia).
  assert (Ht : 0 <= t < POOL_LEN) by (destruct Hwf as (_ & _ & ?); unfold in_use in Htin; lia).
  unfold map_leaf, bind. rewrite read_ok by done.
  destruct (Z.eqb_spec (mem p t (index va 3)) 0) as [Hz|Hnz]; simpl.
  - destruct (write_ok p t (index va 3) (Z.lor a attrs) Hwf Ht Hi) as (p' & Hwr & Hwf' & Hu & He & Hr & Hm).
    exists (Ok tt), p'. split; [done|]. split_and!; try done.
    + split; [eapply (tree_ext pool_child 3 _ _ Hm);
        [|eapply (tree_wr_leaf pool_child 3); [apply Htr|done|by rewrite Httag]]|].
      * intros s. unfold in_use. by rewrite Hu.
      * intros s i Hs. unfold in_use in *. rewrite Hu in Hs. rewrite Hm, wr_ne by (left; intros ->; lia).
        by apply Htr.
    + unfold translate, leaf. by rewrite Hw, Hz.
    + intros root' va' Hin' Htag'. unfold translate. erewrite leaf_ext by exact Hm.
      rewrite (leaf_wr pool_child 3 (in_use p) tag (mem p) root (path va)) by
        (try done; try apply Htr; intros E; by apply Z.lor_eq_0_iff in E as [_ E]).
      pose proof (path_vpn va va') as Hpv. apply decide_ext. tauto.
  - exists (Err MmuError.Overlap), p. split; [done|]. split_and!; [done..|].
    unfold translate, leaf. by rewrite Hw, (proj2 (Z.eqb_neq _ _) Hnz).
Qed.

(** What a page mapping does. *)
Definition mapped_page (roots : list Z) (p : Pool) (root va d : Z) (p' : Pool) : Prop :=
  pool_inv roots p' /\ used p <= used p' /\ enabled p' = enabled p /\ root1 p' = root1 p /\
  translate p root va = None /\
  forall root' va', root' ∈ roots ->
    translate p' root' va' =
      if decide (root' = root /\ vpn va' = vpn va) then Some d else translate p root' va'.

(** [map_page]: success maps exactly the page; failure has its exact cause and
    leaves the pool as it was. *)
Lemma map_page_spec roots p root va a attrs :
  pool_inv roots p -> root ∈ roots -> attrs <> 0 ->
  exists r p', map_page root va a attrs p = (r, p') /\
    match r with
    | Ok _ => mapped_page roots p root va (Z.lor a attrs) p'
    | Err e => p' = p /\ ((e = MmuError.Overlap /\ translate p root va <> None) \/
                         (e = MmuError.OutOfTables /\ translate p root va = None))
    | _ => False
    end.
Proof.
  intros (Hwf & tag & Htr & Hroots) Hroot Hattrs. destruct (Hroots root Hroot) as [Hrin Hrtag].
  destruct (map_walk_spec 3 0 root va tag p [] Hwf Htr Hrin) as (r & p1 & ls & tag1 & Hmw & Wk & Hr);
    [lia|lia|by rewrite Hrtag|]. rewrite app_nil_l in Hmw. change (ixs 3 0 va) with (path va) in Hr.
  destruct (rollback_spec tag p p1 ls tag1 Hwf Wk) as (p3 & Hul & Hp3).
  unfold map_page, bind. rewrite Hmw. destruct r as [t|e| |]; try done.
  2:{ destruct Hr as (-> & _ & Hnone). rewrite Hul. eexists _, _. split; [done|]. split; [done|].
      right. split; [done|]. unfold translate, leaf. by rewrite Hnone. }
  assert (Hin1 : forall s, in_use p s -> in_use p1 s)
    by (pose proof (wk_used _ _ _ _ _ Wk); unfold in_use in *; lia).
  assert (Htl : forall root' va', root' ∈ roots -> translate p1 root' va' = translate p root' va').
  { intros root' va' Hr'. destruct (Hroots root' Hr') as [? E]. apply (wk_leaf _ _ _ _ _ Wk); [done|]. by rewrite E. }
  destruct (map_leaf_spec tag1 p1 t root va a attrs (wk_wf _ _ _ _ _ Wk) (wk_tree _ _ _ _ _ Wk))
    as (r2 & p2 & Hml & Hr2); [auto|by rewrite (wk_tag _ _ _ _ _ Wk)|done|done|].
  unfold on_pool. rewrite Hml. destruct r2 as [[]|e| |]; try done.
  - exists (Ok tt), p2. split; [done|]. destruct Hr2 as (Hwf2 & Htr2 & Hu2 & He2 & Hr12 & Hn & Hall).
    destruct (wk_flags _ _ _ _ _ Wk) as [Hen Hr1]. pose proof (wk_used _ _ _ _ _ Wk).
    split_and!; [|lia|congruence|congruence|by rewrite <- Htl|].
    + split; [done|]. exists tag1. split; [done|]. intros r Hri. destruct (Hroots r Hri) as [Hri1 Hri2].
      split; [unfold in_use in *; lia|]. by rewrite (wk_tag _ _ _ _ _ Wk).
    + intros root' va' Hr'. destruct (Hroots root' Hr') as [Hri1 Hri2].
      rewrite Hall, Htl; [done|done|auto|]. by rewrite (wk_tag _ _ _ _ _ Wk).
  - destruct Hr2 as (-> & -> & Hsome). rewrite Hul. eexists _, _. split; [done|]. split; [done|].
    left. split; [done|]. by rewrite <- Htl.
Qed.

(** *** Ranges *)

(** The pages [v0 .. v0 + n - 1] below [root] now translate to [d], nothing else
    changed. *)
Definition mapped_range (roots : list Z) (p : Pool) (root v0 n : Z) (d : Z -> Z) (p' : Pool) : Prop :=
  pool_inv roots p' /\ enabled p' = enabled p /\ root1 p' = root1 p /\
  (forall va', v0 <= vpn va' < v0 + n -> translate p root va' = None) /\
  forall root' va', root' ∈ roots ->
    translate p' root' va' =
      if decide (root' = root /\ v0 <= vpn va' < v0 + n) then Some (d (vpn va'))
      else translate p root' va'.

Lemma vpn_add va off :
  va mod GRANULE = 0 -> 0 <= off -> va mod 2 ^ 48 + off < 2 ^ 48 -> off mod GRANULE = 0 ->
  vpn (va + off) = vpn va + off / GRANULE.
Proof.
  intros Hva Ho Hb Hm. unfold vpn, GRANULE in *. destruct plat; div_lia.
Qed.

Lemma mapped_range_nil roots p root v0 d : pool_inv roots p -> mapped_range roots p root v0 0 d p.
Proof.
  intros Hi. split_and!; try done; [intros; lia|]. intros. rewrite decide_False; [done|]. lia.
Qed.

Lemma mapped_range_cons roots p root v0 n d p1 p2 va :
  mapped_page roots p root va (d v0) p1 -> vpn va = v0 -> root ∈ roots -> 0 <= n ->
  mapped_range roots p1 root (v0 + 1) n d p2 -> mapped_range roots p root v0 (n + 1) d p2.
Proof.
  intros (Hi1 & _ & He1 & Hr1 & Hn1 & Ht1) Hv Hroot Hn (Hi2 & He2 & Hr2 & Hn2 & Ht2).
  assert (Hsame : forall va', vpn va' = v0 -> translate p root va' = None).
  { intros va' E. unfold translate. destruct (proj2 (path_vpn va va')) as [-> ->]; [congruence|done]. }
  split_and!; [done|congruence|congruence| |].
  - intros va' Hva'. destruct (decide (vpn va' = v0)) as [E|E]; [by apply Hsame|].
    rewrite <- (Hn2 va') by lia. rewrite Ht1 by done. rewrite decide_False; [done|]. lia.
  - intros root' va' Hr'. rewrite Ht2, Ht1 by done.
    destruct (decide (root' = root)) as [->|Hne]; [|by rewrite !decide_False by tauto].
    destruct (decide (vpn va' = v0)) as [E|E].
    + rewrite decide_False by lia. rewrite decide_True by (split; [done|congruence]).
      rewrite decide_True by (split; [done|lia]). by rewrite E.
    + destruct (decide (v0 + 1 <= vpn va' < v0 + 1 + n)).
      * by rewrite !decide_True by (split; [done|lia]).
      * by rewrite !decide_False by (intros [_ ?]; lia).
Qed.

Lemma map_pages_spec roots root va a len attrs fuel :
  root ∈ roots -> attrs <> 0 -> 0 <= va -> 0 <= a -> va mod GRANULE = 0 ->
  va + len <= U64 -> a + len <= U64 -> va mod 2 ^ 48 + len <= 2 ^ 48 ->
  forall p off, pool_inv roots p -> 0 <= off -> off mod GRANULE = 0 -> len = off + Z.of_nat fuel * GRANULE ->
  len < U64 ->
  exists r p', map_pages fuel root va a len attrs off p = (r, p') /\
    match r with
    | Ok _ => mapped_range roots p root (vpn va + off / GRANULE) (Z.of_nat fuel)
                (fun q => Z.lor (a + (q - vpn va) * GRANULE) attrs) p'
    | Err e => pool_inv roots p' /\ (e = MmuError.Overlap \/ e = MmuError.OutOfTables) /\
        (fuel = 1%nat -> p' = p)
    | _ => False
    end.
Proof.
  intros Hroot Hat Hva Ha Hvm Hvl Hal Hvs. pose proof granule_bounds as Hg.
  induction fuel as [|fuel IH]; intros p off Hi Ho Hom Hlen Hl64.
  { exists (Ok tt), p. simpl. rewrite (proj2 (Z.ltb_ge off len)) by lia. split; [done|].
    replace (Z.of_nat 0) with 0 by done. by apply mapped_range_nil. }
  cbn [map_pages]. rewrite (proj2 (Z.ltb_lt off len)) by nia. unfold bind at 1 2 3 4, lift.
  rewrite !add_p_ok by nia.
  destruct (map_page_spec roots p root (va + off) (a + off) attrs Hi Hroot Hat) as (r1 & p1 & Hmp & Hr1).
  rewrite Hmp. destruct r1 as [[]|e| |]; try done.
  - assert (Hv : vpn (va + off) = vpn va + off / GRANULE) by (apply vpn_add; [done|done|nia|done]).
    assert (Hom' : (off + GRANULE) mod GRANULE = 0 /\ (off + GRANULE) / GRANULE = off / GRANULE + 1).
    { replace (off + GRANULE) with (off + 1 * GRANULE) by lia.
      rewrite Z_mod_plus_full, Z_div_plus_full by lia. done. }
    destruct (IH p1 (off + GRANULE)) as (r2 & p2 & Hmps & Hr2); [apply Hr1|lia|apply Hom'|lia|done|].
    exists r2, p2. split; [done|]. destruct r2 as [[]|e| |]; try done.
    + rewrite Nat2Z.inj_succ, <- Z.add_1_r. eapply (mapped_range_cons _ _ _ _ _ _ p1); [|exact Hv|done|lia|].
      * replace (Z.lor (a + (vpn va + off / GRANULE - vpn va) * GRANULE) attrs) with (Z.lor (a + off) attrs); [done|].
        do 2 f_equal. replace (vpn va + off / GRANULE - vpn va) with (off / GRANULE) by lia.
        pose proof (Z.div_mod off GRANULE). lia.
      * replace (vpn va + off / GRANULE + 1) with (vpn va + (off + GRANULE) / GRANULE) by lia. done.
    + destruct Hr2 as (? & ? & _). split_and!; [done..|]. intros [= ->]. simpl in Hmps.
      rewrite (proj2 (Z.ltb_ge _ _)) in Hmps by lia. done.
  - exists (Err e), p1. split; [done|]. destruct Hr1 as [-> Hc]. split_and!; [done|naive_solver|done].
Qed.

Lemma attrs_nonzero perm : Perm.attrs perm <> 0.
Proof. by destruct perm. Qed.

Lemma map_range_spec roots root va a len perm p :
  pool_inv roots p -> root ∈ roots -> 0 <= va -> 0 <= a -> 0 <= len < U64 ->
  va + len <= U64 -> a + len <= U64 -> va mod 2 ^ 48 + len <= 2 ^ 48 ->
  exists r p', map_range root va a len perm p = (r, p') /\
    match r with
    | Ok _ => va mod GRANULE = 0 /\ a mod GRANULE = 0 /\ len mod GRANULE = 0 /\
        mapped_range roots p root (vpn va) (len / GRANULE)
          (fun q => Z.lor (a + (q - vpn va) * GRANULE) (Perm.attrs perm)) p'
    | Err MmuError.Misaligned => p' = p /\
        ~ (va mod GRANULE = 0 /\ a mod GRANULE = 0 /\ len mod GRANULE = 0)
    | Err e => pool_inv roots p' /\ (e = MmuError.Overlap \/ e = MmuError.OutOfTables) /\
        (len = GRANULE -> p' = p)
    | _ => False
    end.
Proof.
  intros Hi Hroot Hva Ha Hlen Hvl Hal Hvs. pose proof granule_bounds as Hg. unfold map_range.
  destruct (_ || _) eqn:E.
  { exists (Err MmuError.Misaligned), p. split; [done|]. split; [done|].
    rewrite !orb_true_iff, !negb_true_iff, !Z.eqb_neq in E. tauto. }
  rewrite !orb_false_iff, !negb_false_iff, !Z.eqb_eq in E. destruct E as ((E1 & E2) & E3).
  assert (Hdm : len = GRANULE * (len / GRANULE) + len mod GRANULE) by (apply Z.div_mod; lia).
  assert (0 <= len / GRANULE) by (apply Z.div_pos; lia).
  destruct (map_pages_spec roots root va a len (Perm.attrs perm) (Z.to_nat (len / GRANULE)) Hroot
    (attrs_nonzero perm) Hva Ha E1 Hvl Hal Hvs p 0 Hi) as (r & p' & Hmp & Hr); [lia|by apply Z.mod_0_l; lia|lia|lia|].
  exists r, p'. split; [done|]. destruct r as [[]|e| |]; try done.
  - rewrite (Z.div_0_l GRANULE), Z.add_0_r, (Z2Nat.id (len / GRANULE)) in Hr by lia. done.
  - destruct Hr as (? & He & Hone).
    assert (Hres : pool_inv roots p' /\ (e = MmuError.Overlap \/ e = MmuError.OutOfTables) /\
      (len = GRANULE -> p' = p)).
    { split_and!; [done..|]. intros ->. apply Hone. by rewrite Z.div_same by lia. }
    destruct e; try done. naive_solver.
Qed.

Lemma vpn_high a : 0 <= a < 2 ^ 48 -> vpn (a + KERNEL_VA_OFFSET) = a / GRANULE.
Proof. intros Ha. unfold vpn, KERNEL_VA_OFFSET. f_equal. div_lia. Qed.

Lemma vpn_low a : 0 <= a < 2 ^ 48 -> vpn a = a / GRANULE.
Proof. intros Ha. unfold vpn. by rewrite Z.mod_small. Qed.

Lemma offset_mod a : 0 <= a -> (a + KERNEL_VA_OFFSET) mod GRANULE = a mod GRANULE.
Proof. intros Ha. unfold KERNEL_VA_OFFSET, GRANULE. destruct plat; div_lia. Qed.

(** A granule-aligned address from its page number. *)
Lemma page_addr a q : a mod GRANULE = 0 -> a + (q - a / GRANULE) * GRANULE = q * GRANULE.
Proof. intros Ha. pose proof granule_bounds. pose proof (Z.div_mod a GRANULE). lia. Qed.

(** The physical page [q] mapped linearly with [perm]. *)
Definition linear (perm : Perm.t) (q : Z) : Z := Z.lor (q * GRANULE) (Perm.attrs perm).

Lemma mapped_range_ext roots p root v0 n d d' p' :
  (forall q, v0 <= q < v0 + n -> d q = d' q) ->
  mapped_range roots p root v0 n d p' -> mapped_range roots p root v0 n d' p'.
Proof.
  intros Hd (? & ? & ? & ? & Ht). split_and!; try done. intros root' va' Hr. rewrite Ht by done.
  case_decide as E; [|done]. by rewrite Hd by tauto.
Qed.

Lemma map_kernel_window_spec roots p w :
  pool_inv roots p -> root1 p ∈ roots -> 0 <= start w -> end_ w <= 2 ^ 48 ->
  exists r p', map_kernel_window w p = (r, p') /\
    match r with
    | Ok _ => start w < end_ w /\ enabled p = true /\
        mapped_range roots p (root1 p) (start w / GRANULE) ((end_ w - start w) / GRANULE) (linear Perm.Rw) p'
    | Err e => pool_inv roots p' /\ (end_ w - start w = GRANULE -> p' = p)
    | _ => False
    end.
Proof.
  intros Hi Hroot Hs He. unfold map_kernel_window. destruct (_ || _) eqn:E; [by exists (Err MmuError.Misaligned), p|].
  rewrite !orb_false_iff, !negb_false_iff, !Z.eqb_eq, Z.leb_gt in E. destruct E as ((E1 & E2) & E3).
  unfold bind, getS, lift. destruct (enabled p) eqn:Een; simpl; [|by exists (Err MmuError.NotEnabled), p].
  assert (Hb : KERNEL_VA_OFFSET + 2 ^ 48 = U64) by reflexivity.
  rewrite add_p_ok by lia.
  destruct (map_range_spec roots (root1 p) (start w + KERNEL_VA_OFFSET) (start w) (end_ w - start w) Perm.Rw p)
    as (r & p' & Hmr & Hr); [done|done|unfold KERNEL_VA_OFFSET; lia..| |].
  { unfold KERNEL_VA_OFFSET. div_lia. }
  exists r, p'. split; [done|]. destruct r as [[]|e| |]; try done.
  - destruct Hr as (_ & _ & _ & Hr). split_and!; [done..|]. rewrite vpn_high in Hr by lia.
    eapply mapped_range_ext; [|exact Hr]. intros q Hq. unfold linear. simpl. by rewrite page_addr.
  - destruct e; first [by destruct Hr as (? & _ & ?) | by destruct Hr as [-> _]].
Qed.

(** *** The kernel's address space *)

(** A segment list read as a function on physical pages. *)
Fixpoint seg_at (segs : list (Z * Z * Perm.t)) (q : Z) : option Perm.t :=
  match segs with
  | [] => None
  | (s, e, perm) :: segs' => if decide (s / GRANULE <= q < e / GRANULE) then Some perm else seg_at segs' q
  end.

(** Both halves translate exactly the segments, linearly. *)
Definition maps_exactly (segs : list (Z * Z * Perm.t)) (p : Pool) : Prop :=
  forall root va, root ∈ [0; 1] -> translate p root va = (fun perm => linear perm (vpn va)) <$> seg_at segs (vpn va).

Lemma seg_at_app segs1 segs2 q :
  seg_at (segs1 ++ segs2) q = match seg_at segs1 q with Some perm => Some perm | None => seg_at segs2 q end.
Proof. induction segs1 as [|[[s e] perm] segs1 IH]; [done|]. simpl. by case_decide. Qed.

(** A range that was mapped did not run over the end of the address space. *)
Lemma map_pages_no_overflow fuel root va a len attrs : forall off p p',
  0 <= off -> off mod GRANULE = 0 -> len mod GRANULE = 0 -> off < len ->
  map_pages fuel root va a len attrs off p = (Ok tt, p') -> va + len - GRANULE < U64.
Proof.
  pose proof granule_bounds as Hg. induction fuel as [|fuel IH]; intros off p p' Ho Hom Hlm Hlt; simpl;
    rewrite (proj2 (Z.ltb_lt off len)) by lia; [done|].
  unfold bind, lift, add_p. destruct (Z.ltb_spec (va + off) U64); [|done]. destruct (a + off <? U64); [|done].
  destruct (map_page root (va + off) (a + off) attrs p) as [[[]| | |] p1]; try done.
  destruct (off + GRANULE <? U64); [|done].
  destruct (decide (off + GRANULE < len)) as [Hlt'|Hge].
  - apply IH; [lia| |done..]. replace (off + GRANULE) with (off + 1 * GRANULE) by lia. by rewrite Z_mod_plus_full.
  - intros _. assert (len <= off + GRANULE) by lia. lia.
Qed.

Lemma map_range_no_overflow root va a len perm p p' :
  0 < len -> map_range root va a len perm p = (Ok tt, p') -> va + len - GRANULE < U64 /\
    va mod GRANULE = 0 /\ len mod GRANULE = 0.
Proof.
  intros Hl. unfold map_range. destruct (_ || _) eqn:E; [done|].
  rewrite !orb_false_iff, !negb_false_iff, !Z.eqb_eq in E. intros Hm. split_and!; [|tauto..].
  eapply (map_pages_no_overflow _ _ _ _ _ _ 0); [lia|apply Z.mod_0_l; pose proof granule_bounds; lia|tauto|done|exact Hm].
Qed.

Lemma map_both_ok segs s len perm p p' :
  pool_inv [0; 1] p -> maps_exactly segs p -> 0 <= s -> 0 < len -> s + len < U64 ->
  map_both 0 1 s len perm p = (Ok tt, p') ->
  pool_inv [0; 1] p' /\ maps_exactly (segs ++ [(s, s + len, perm)]) p' /\ enabled p' = enabled p /\
  s mod GRANULE = 0 /\ len mod GRANULE = 0 /\ s + len <= 2 ^ 48.
Proof.
  intros Hi Hex Hs Hl Hsl. unfold map_both, bind, lift. pose proof granule_bounds as Hg.
  destruct (map_range 0 s s len perm p) as [[[]| | |] p1] eqn:M0; try done.
  unfold add_p. destruct (Z.ltb_spec (s + KERNEL_VA_OFFSET) U64) as [Ho|]; [|done]. intros M1.
  destruct (map_range_no_overflow _ _ _ _ _ _ _ Hl M0) as (_ & Hsm & Hlm).
  destruct (map_range_no_overflow _ _ _ _ _ _ _ Hl M1) as (Hno & _).
  assert (Hb : KERNEL_VA_OFFSET + 2 ^ 48 = U64) by reflexivity.
  assert (Hend : s + len <= 2 ^ 48).
  { assert (Hq : (s + len) mod GRANULE = 0) by (rewrite Z.add_mod, Hsm, Hlm by lia; by apply Z.mod_0_l; lia).
    assert (Hd : (2 ^ 48) mod GRANULE = 0) by (unfold GRANULE; by destruct plat).
    apply (multiple_lt GRANULE); [lia|done|done|lia]. }
  assert (Hin : forall r, r ∈ [0; 1] <-> r = 0 \/ r = 1) by (intros; set_solver).
  destruct (map_range_spec [0; 1] 0 s s len perm p Hi) as (r & p1' & E & Hr0);
    [set_solver|lia..|rewrite Z.mod_small by lia; lia|]. rewrite M0 in E. simplify_eq.
  destruct Hr0 as (_ & _ & _ & Hi1 & He1 & _ & Hn0 & Ht0).
  destruct (map_range_spec [0; 1] 1 (s + KERNEL_VA_OFFSET) s len perm p1' Hi1) as (r & p2' & E & Hr1);
    [set_solver|unfold KERNEL_VA_OFFSET in *; lia..|unfold KERNEL_VA_OFFSET; div_lia|]. rewrite M1 in E. simplify_eq.
  destruct Hr1 as (_ & _ & _ & Hi2 & He2 & _ & Hn1 & Ht1).
  rewrite vpn_high in Hn1, Ht1 by lia. rewrite vpn_low in Hn0, Ht0 by lia.
  assert (Hdiv : (s + len) / GRANULE = s / GRANULE + len / GRANULE).
  { pose proof (Z.div_mod len GRANULE). replace (s + len) with (s + len / GRANULE * GRANULE) by lia.
    rewrite Z_div_plus_full by lia. lia. }
  split_and!; [done| |congruence|done..]. intros root va Hroot. rewrite seg_at_app. cbn [seg_at]. rewrite Hdiv.
  rewrite Ht1, Ht0 by done. pose proof (Hex root va Hroot) as Hold.
  destruct (decide (s / GRANULE <= vpn va < s / GRANULE + len / GRANULE)) as [Hv|Hv].
  - assert (Hnone : seg_at segs (vpn va) = None).
    { specialize (Hn0 va Hv). rewrite (Hex 0 va) in Hn0 by set_solver. by destruct (seg_at segs (vpn va)). }
    rewrite Hnone. simpl. unfold linear. rewrite page_addr by done.
    apply Hin in Hroot as [->| ->]; [rewrite decide_False by lia|]; by rewrite decide_True by done.
  - rewrite !decide_False by tauto. rewrite Hold. by destruct (seg_at segs (vpn va)).
Qed.

(** An empty or reversed segment covers no page. *)
Lemma maps_exactly_empty segs s e perm p :
  e <= s -> maps_exactly segs p -> maps_exactly (segs ++ [(s, e, perm)]) p.
Proof.
  intros He Hex root va Hr. rewrite Hex, seg_at_app by done. cbn [seg_at]. pose proof granule_bounds.
  rewrite decide_False; [by destruct (seg_at segs (vpn va))|].
  assert (e / GRANULE <= s / GRANULE) by (apply Z.div_le_mono; lia). lia.
Qed.

Definition seg_u64 (sg : Z * Z * Perm.t) : Prop := 0 <= sg.1.1 /\ sg.1.2 < U64.

Lemma map_segments_ok segs segs0 p p' :
  pool_inv [0; 1] p -> maps_exactly segs0 p -> Forall seg_u64 segs ->
  map_segments 0 1 segs p = (Ok tt, p') ->
  pool_inv [0; 1] p' /\ maps_exactly (segs0 ++ segs) p' /\ enabled p' = enabled p.
Proof.
  revert segs0 p. induction segs as [|[[s e] perm] segs IH]; intros segs0 p Hi Hex Hu Hm.
  { simpl in Hm. unfold ret in Hm. simplify_eq. by rewrite app_nil_r. }
  apply list.Forall_cons in Hu as [[Hs He] Hu]. simpl in *. destruct (Z.ltb_spec e s) as [|Hle]; [done|].
  unfold bind in Hm. rewrite cons_middle, app_assoc.
  destruct (Z.eqb_spec (e - s) 0) as [Hz|Hnz].
  - unfold ret in Hm. apply (IH _ p); [done| |done|done]. apply maps_exactly_empty; [lia|done].
  - destruct (map_both 0 1 s (e - s) perm p) as [[[]| | |] p1] eqn:Hb; try done.
    apply (map_both_ok segs0) in Hb as (Hi1 & Hex1 & He1 & _); [|done|done|lia..].
    replace (s + (e - s)) with e in Hex1 by lia.
    destruct (IH _ p1 Hi1 Hex1 Hu Hm) as (? & ? & ?). split_and!; [done..|congruence].
Qed.

Definition dev_segs (devs : list Range) : list (Z * Z * Perm.t) :=
  (fun d => (start d, end_ d, Perm.Device)) <$> devs.

Lemma map_devices_ok devs segs0 p p' :
  pool_inv [0; 1] p -> maps_exactly segs0 p -> Forall seg_u64 (dev_segs devs) ->
  map_devices 0 1 devs p = (Ok tt, p') ->
  pool_inv [0; 1] p' /\ maps_exactly (segs0 ++ dev_segs devs) p' /\ enabled p' = enabled p.
Proof.
  revert segs0 p. induction devs as [|d devs IH]; intros segs0 p Hi Hex Hu Hm.
  { simpl in Hm. unfold ret in Hm. simplify_eq. by rewrite app_nil_r. }
  apply list.Forall_cons in Hu as [[Hs He] Hu]. simpl in *. fold (dev_segs devs) in *.
  unfold bind in Hm. rewrite cons_middle, app_assoc.
  destruct (Z.leb_spec (end_ d) (start d)) as [Hz|Hnz].
  - unfold ret in Hm. apply (IH _ p); [done| |done|done]. by apply maps_exactly_empty.
  - destruct (map_both 0 1 (start d) _ Perm.Device p) as [[[]| | |] p1] eqn:Hb; try done.
    apply (map_both_ok segs0) in Hb as (Hi1 & Hex1 & He1 & _); [|done|done|lia..].
    replace (start d + (end_ d - start d)) with (end_ d) in Hex1 by lia.
    destruct (IH _ p1 Hi1 Hex1 Hu Hm) as (? & ? & ?). split_and!; [done..|congruence].
Qed.

(** The segments of a layout, the device tree rounded out to pages. *)
Definition kernel_segs (l : KernelLayout) : list (Z * Z * Perm.t) :=
  [(start (text l), end_ (text l), Perm.Text);
   (start (rodata l), end_ (rodata l), Perm.Ro);
   (start (rw0 l), end_ (rw0 l), Perm.Rw);
   (start (rw1 l), end_ (rw1 l), Perm.Rw);
   (Z.land (start (dtb l)) (not64 (GRANULE - 1)), div_ceil (end_ (dtb l)) GRANULE * GRANULE, Perm.Ro)]
  ++ dev_segs (devices l).

Definition range_u64 (r : Range) : Prop := 0 <= start r /\ 0 <= end_ r < U64.
Definition layout_u64 (l : KernelLayout) : Prop :=
  Forall range_u64 ([text l; rodata l; rw0 l; rw1 l; dtb l] ++ devices l).

(** The pool with its two roots and nothing else. *)
Lemma fresh_pool_inv :
  let p := mkPool (tables initial_pool) 2 false 0 in pool_inv [0; 1] p /\ maps_exactly [] p.
Proof.
  intros p. assert (Hz : forall t i, mem p t i = 0).
  { intros t i. unfold mem. destruct (get (tables p) t) as [tb|] eqn:E; [|done].
    apply get_Some in E as [_ E]. apply lookup_replicate in E as [-> _].
    destruct (get _ i) as [e|] eqn:E; [|done]. apply get_Some in E as [_ E]. by apply lookup_replicate in E as [-> _]. }
  split.
  - split.
    + split_and!; [done|apply Forall_replicate, length_replicate|done..].
    + exists (fun t => (t, [])). split.
      * split; [split; [intros t i _ Hn; by rewrite Hz in Hn|simpl; lia]|intros; apply Hz].
      * intros r Hr. split; [|done]. unfold in_use. simpl. set_solver by lia.
  - intros root va _. unfold translate. by apply leaf_empty.
Qed.

Lemma enable_paging_ok mmfr0 l t0 t1 tc p :
  layout_u64 l -> enable_paging mmfr0 l initial_pool = (Ok (t0, t1, tc), p) ->
  pool_inv [0; 1] p /\ maps_exactly (kernel_segs l) p /\ enabled p = true /\ root1 p = 1 /\
  t0 = pool_pa /\ t1 = pool_pa + GRANULE.
Proof.
  intros Hl Hep. unfold enable_paging in Hep.
  apply bind_Ok in Hep as (ips & q & E & Hep). apply lift_Ok in E as [_ ->].
  apply bind_Ok in Hep as (q & q' & E & Hep). injection E as <- <-.
  change (enabled initial_pool) with false in Hep. cbv iota in Hep.
  apply bind_Ok in Hep as (r0 & q & E & Hep). injection E as <- <-.
  apply bind_Ok in Hep as (r1 & q & E & Hep). injection E as <- <-.
  apply bind_Ok in Hep as (de & q & E & Hep). apply lift_Ok in E as [Ede ->].
  destruct (Z.ltb_spec (div_ceil (end_ (dtb l)) GRANULE * GRANULE) U64) as [Hde|]; [|done]. injection Ede as <-.
  apply bind_Ok in Hep as ([] & p1 & E1 & Hep). apply bind_Ok in Hep as ([] & p2 & E2 & Hep).
  apply bind_Ok in Hep as (a0 & q & E & Hep). apply lift_Ok in E as [Ea0 ->].
  apply bind_Ok in Hep as (a1 & q & E & Hep). apply lift_Ok in E as [Ea1 ->].
  apply bind_Ok in Hep as ([] & q & E & Hep). injection E as <-. injection Hep as <- <- _ <-.
  rewrite pa_ok in Ea0, Ea1 by (unfold POOL_LEN; simpl; lia). injection Ea0 as <-. injection Ea1 as <-.
  destruct fresh_pool_inv as [Hf1 Hf2]. apply Forall_app in Hl as [Hl Hld].
  rewrite !list.Forall_cons in Hl. destruct Hl as (L1 & L2 & L3 & L4 & L5 & _).
  apply (map_segments_ok _ []) in E1 as (I1 & X1 & _); [|done|done|].
  2:{ destruct L1, L2, L3, L4, L5. repeat constructor; simpl; try lia. apply Z.land_nonneg. lia. }
  apply (map_devices_ok _ _ _ _ I1 X1) in E2 as (I2 & X2 & _).
  2:{ apply Forall_fmap. eapply list.Forall_impl; [done|]. intros d [? ?]. split; simpl; lia. }
  split_and!; [|exact X2|done..|simpl; lia|simpl; lia].
  destruct I2 as [(? & ? & ?) I2]. split; [done|]. exact I2.
Qed.

(** Within the 48-bit physical space nothing overflows. *)
Definition succeeds_or_fails {A} (out : res MmuError.t A * Pool) : Prop :=
  match out.1 with Ok _ => pool_inv [0; 1] out.2 | Err _ => True | _ => False end.

Lemma map_both_total s len perm p :
  pool_inv [0; 1] p -> 0 <= s -> 0 < len -> s + len <= 2 ^ 48 -> succeeds_or_fails (map_both 0 1 s len perm p).
Proof.
  intros Hi Hs Hl Hsl. assert (Hb : KERNEL_VA_OFFSET + 2 ^ 48 = U64) by reflexivity.
  unfold map_both, bind, lift, succeeds_or_fails.
  destruct (map_range_spec [0; 1] 0 s s len perm p Hi) as (r & p1 & -> & Hr);
    [set_solver|lia..|rewrite Z.mod_small by lia; lia|].
  destruct r as [[]|e| |]; try done. destruct Hr as (_ & _ & _ & Hi1 & _). rewrite add_p_ok by lia.
  destruct (map_range_spec [0; 1] 1 (s + KERNEL_VA_OFFSET) s len perm p1 Hi1) as (r & p2 & -> & Hr);
    [set_solver|unfold KERNEL_VA_OFFSET in *; lia..|unfold KERNEL_VA_OFFSET; div_lia|].
  destruct r as [[]|e| |]; try done. by destruct Hr as (_ & _ & _ & Hi2 & _).
Qed.

Definition seg_pa (sg : Z * Z * Perm.t) : Prop := 0 <= sg.1.1 /\ sg.1.2 <= 2 ^ 48.

Lemma map_segments_total segs p :
  pool_inv [0; 1] p -> Forall seg_pa segs -> succeeds_or_fails (map_segments 0 1 segs p).
Proof.
  revert p. induction segs as [|[[s e] perm] segs IH]; intros p Hi Hu; [done|].
  apply list.Forall_cons in Hu as [[Hs He] Hu]. cbn [map_segments fst snd] in *. destruct (Z.ltb_spec e s); [done|].
  unfold bind. destruct (Z.eqb_spec (e - s) 0); [by apply IH|].
  pose proof (map_both_total s (e - s) perm p Hi Hs ltac:(lia) ltac:(lia)) as Hm.
  destruct (map_both 0 1 s (e - s) perm p) as [[[]|e'| |] p1]; try done. by apply IH.
Qed.

Lemma map_devices_total devs p :
  pool_inv [0; 1] p -> Forall (fun d => 0 <= start d /\ end_ d <= 2 ^ 48) devs ->
  succeeds_or_fails (map_devices 0 1 devs p).
Proof.
  revert p. induction devs as [|d devs IH]; intros p Hi Hu; [done|].
  apply list.Forall_cons in Hu as [[Hs He] Hu]. cbn [map_devices]. unfold bind.
  destruct (Z.leb_spec (end_ d) (start d)); [by apply IH|].
  pose proof (map_both_total (start d) (end_ d - start d) Perm.Device p Hi Hs ltac:(lia) ltac:(lia)) as Hm.
  destruct (map_both 0 1 (start d) _ Perm.Device p) as [[[]|e'| |] p1]; try done. by apply IH.
Qed.

Definition layout_pa (l : KernelLayout) : Prop :=
  Forall (fun r => 0 <= start r /\ 0 <= end_ r <= 2 ^ 48) ([text l; rodata l; rw0 l; rw1 l; dtb l] ++ devices l).

Lemma dtb_end_bound e : 0 <= e <= 2 ^ 48 -> 0 <= div_ceil e GRANULE * GRANULE <= 2 ^ 48.
Proof. intros He. unfold div_ceil, GRANULE. destruct plat; div_lia. Qed.

Lemma enable_paging_total mmfr0 l :
  layout_pa l -> returns (enable_paging mmfr0 l initial_pool).1.
Proof.
  intros Hl. apply Forall_app in Hl as [Hl Hld]. rewrite !list.Forall_cons in Hl. destruct Hl as (L1 & L2 & L3 & L4 & L5 & _).
  destruct (dtb_end_bound (end_ (dtb l))) as [D1 D2]; [lia|]. unfold enable_paging. unfold bind at 1, lift at 1.
  assert (Hcf : returns (check_features mmfr0)) by (unfold check_features; by repeat case_match).
  destruct (check_features mmfr0) as [ips|e| |]; [|done|by destruct Hcf..].
  unfold bind at 1, getS. change (enabled initial_pool) with false. cbv iota.
  unfold bind at 1. change (alloc initial_pool) with (@Ok MmuError.t Z 0, mkPool (tables initial_pool) 1 false 0).
  cbv iota beta. unfold bind at 1.
  change (alloc (mkPool (tables initial_pool) 1 false 0)) with (@Ok MmuError.t Z 1, mkPool (tables initial_pool) 2 false 0).
  cbv iota beta zeta. unfold bind at 1, lift at 1. rewrite (proj2 (Z.ltb_lt (div_ceil (end_ (dtb l)) GRANULE * GRANULE) U64)) by lia.
  destruct fresh_pool_inv as [Hf _]. set (segs := [_; _; _; _; _]).
  assert (Hsegs : Forall seg_pa segs).
  { repeat constructor; simpl; try lia. apply Z.land_nonneg. lia. }
  unfold bind at 1. pose proof (map_segments_total segs _ Hf Hsegs) as Hm.
  destruct (map_segments 0 1 segs _) as [[[]|e| |] p1]; try done. unfold bind at 1.
  assert (Hd : Forall (fun d => 0 <= start d /\ end_ d <= 2 ^ 48) (devices l)).
  { eapply list.Forall_impl; [exact Hld|]. intros d [? ?]. lia. }
  pose proof (map_devices_total (devices l) p1 Hm Hd) as Hm'.
  destruct (map_devices 0 1 (devices l) p1) as [[[]|e| |] p2]; try done.
Qed.

(** *** Descriptor attributes *)

Definition el1_writable (d : Z) : bool := negb (Z.testbit d 7).
Definition el1_executable (d : Z) : bool := negb (Z.testbit d 53).
Definition el0_accessible (d : Z) : bool := Z.testbit d 6.
Definition el0_executable (d : Z) : bool := negb (Z.testbit d 54).

(** W^X for the kernel, and nothing for EL0. *)
Definition kernel_safe (d : Z) : Prop :=
  el1_writable d && el1_executable d = false /\ el0_accessible d = false /\ el0_executable d = false.

Lemma testbit_addr a n :
  0 <= a < 2 ^ 48 -> a mod GRANULE = 0 -> 0 <= n < PAGE_SHIFT \/ 48 <= n -> Z.testbit a n = false.
Proof.
  intros Ha Hm [Hn|Hn].
  - rewrite granule_pow2 in Hm. apply Z.mod_divide in Hm as [q ->]; [|pose proof page_shift_bounds; lia].
    apply Z.mul_pow2_bits_low. lia.
  - destruct (decide (a = 0)) as [->|]; [apply Z.bits_0|]. apply Z.bits_above_log2; [lia|].
    enough (Z.log2 a < 48) by lia. apply Z.log2_lt_pow2; lia.
Qed.

(** The attribute bits of a descriptor for an aligned 48-bit address. *)
Lemma desc_bits a attrs n :
  0 <= a < 2 ^ 48 -> a mod GRANULE = 0 -> 0 <= n < PAGE_SHIFT \/ 48 <= n ->
  Z.testbit (Z.lor a attrs) n = Z.testbit attrs n.
Proof. intros. by rewrite Z.lor_spec, testbit_addr. Qed.

Lemma kernel_desc_safe a perm :
  0 <= a < 2 ^ 48 -> a mod GRANULE = 0 -> kernel_safe (Z.lor a (Perm.attrs perm)).
Proof.
  intros Ha Hm. pose proof page_shift_bounds.
  unfold kernel_safe, el1_writable, el1_executable, el0_accessible, el0_executable.
  rewrite !desc_bits by (try done; lia). by destruct perm.
Qed.

Lemma vpn_addr va : 0 <= vpn va * GRANULE < 2 ^ 48 /\ (vpn va * GRANULE) mod GRANULE = 0.
Proof.
  pose proof granule_bounds. split; [|apply Z.mod_mul; lia]. unfold vpn, GRANULE. destruct plat; div_lia.
Qed.

Lemma linear_safe perm va : kernel_safe (linear perm (vpn va)).
Proof. destruct (vpn_addr va). by apply kernel_desc_safe. Qed.

(** ** Theorems *)

(** C22: mapping a page is transactional.  On success exactly the page of [va]
    under [root] gets the new descriptor, where nothing was mapped before, and
    every other translation of every address space in the pool is unchanged.  On
    failure the pool is exactly what it was before the call, so a failed mapping
    consumes no kernel resource, and the error is [Overlap] exactly if the page
    was mapped, [OutOfTables] otherwise.  The walk never panics. *)
Theorem map_page_exact roots p root va a attrs :
  pool_inv roots p -> root ∈ roots -> attrs <> 0 ->
  exists r p', map_page root va a attrs p = (r, p') /\
    match r with
    | Ok _ => pool_inv roots p' /\ translate p root va = None /\
        forall root' va', root' ∈ roots ->
          translate p' root' va' =
            if decide (root' = root /\ vpn va' = vpn va) then Some (Z.lor a attrs)
            else translate p root' va'
    | Err e => p' = p /\ (e = MmuError.Overlap <-> translate p root va <> None) /\
        (e = MmuError.OutOfTables <-> translate p root va = None)
    | _ => False
    end.
Proof.
  intros Hi Hr Ha. destruct (map_page_spec roots p root va a attrs Hi Hr Ha) as (r & p' & Hm & Hs).
  exists r, p'. split; [done|]. destruct r as [[]|e| |]; try done.
  - destruct Hs as (? & _ & _ & _ & ? & ?). done.
  - destruct Hs as [-> [[-> Hn]|[-> Hn]]]; split; [done| |done|]; split; split; naive_solver.
Qed.

(** C36: the address space that [enable_paging] builds is exactly the layout: in
    the identity half and in the higher half each page of a segment translates
    to itself with the segment's permission and every other page, the stack
    guard included, is unmapped; every mapping is write-xor-execute for the
    kernel and closed to EL0; the returned roots are those of the two halves. *)
Theorem enable_paging_exact mmfr0 l t0 t1 tc p :
  layout_u64 l -> enable_paging mmfr0 l initial_pool = (Ok (t0, t1, tc), p) ->
  pool_inv [0; 1] p /\ enabled p = true /\ root1 p = 1 /\ t0 = pool_pa /\ t1 = pool_pa + GRANULE /\
  forall root va, root ∈ [0; 1] ->
    translate p root va = (fun perm => Z.lor (vpn va * GRANULE) (Perm.attrs perm)) <$> seg_at (kernel_segs l) (vpn va) /\
    forall d, translate p root va = Some d -> kernel_safe d.
Proof.
  intros Hl He. destruct (enable_paging_ok mmfr0 l t0 t1 tc p Hl He) as (Hi & Hex & ? & ? & ? & ?).
  split_and!; try done. intros root va Hr. split; [by apply Hex|]. intros d. rewrite Hex by done.
  destruct (seg_at _ _); simpl; [|done]. intros [= <-]. apply linear_safe.
Qed.

(** opening the kernel window on one granule, the step that prepares a
    retyped object, either maps exactly that granule read-write at its alias or
    changes nothing at all. *)
Lemma kernel_window_atomic roots p a :
  pool_inv roots p -> root1 p ∈ roots -> enabled p = true ->
  0 <= a -> a mod GRANULE = 0 -> a + GRANULE <= 2 ^ 48 ->
  exists r p', map_kernel_window (mkRange a (a + GRANULE)) p = (r, p') /\
    match r with
    | Ok _ => pool_inv roots p' /\
        forall root va, root ∈ roots ->
          translate p' root va =
            if decide (root = root1 p /\ vpn va = vpn (a + KERNEL_VA_OFFSET))
            then Some (Z.lor a (Perm.attrs Perm.Rw)) else translate p root va
    | Err _ => p' = p
    | _ => False
    end.
Proof.
  intros Hi Hr He Ha Hm Hb. pose proof granule_bounds.
  destruct (map_kernel_window_spec roots p (mkRange a (a + GRANULE)) Hi Hr) as (r & p' & Hw & Hs); [done|done|].
  exists r, p'. split; [done|]. simpl in Hs. replace (a + GRANULE - a) with GRANULE in Hs by lia.
  destruct r as [[]|e| |]; try done; [|by apply Hs]. destruct Hs as (_ & _ & Hi' & _ & _ & _ & Ht).
  split; [done|]. intros root va Hroot. rewrite Ht by done. rewrite Z.div_same by lia.
  rewrite vpn_high by lia. destruct (decide (root = root1 p /\ vpn va = a / GRANULE)) as [[-> E]|Hne].
  - rewrite decide_True by (split; [done|lia]). unfold linear. rewrite E.
    do 2 f_equal. pose proof (Z.div_mod a GRANULE). lia.
  - rewrite decide_False; [done|]. intros [-> Hv]. apply Hne. split; [done|lia].
Qed.

(** the four table indices of an address name its page and nothing else: they
    are in range, and two addresses have the same indices exactly if they lie
    in the same page of the 48-bit space. *)
Lemma index_names_page va va' :
  (forall level, 0 <= level <= 3 -> 0 <= index va level < ENTRIES) /\
  ((forall level, 0 <= level <= 3 -> index va' level = index va level) <->
   (va' mod 2 ^ 48) / GRANULE = (va mod 2 ^ 48) / GRANULE).
Proof.
  split; [intros; by apply index_bounds|]. fold (vpn va) (vpn va'). rewrite <- (path_vpn va va'). unfold path. split.
  - intros Hi. rewrite !Hi by lia. done.
  - intros [[= E0 E1 E2] E3] level Hl.
    assert (level = 0 \/ level = 1 \/ level = 2 \/ level = 3) as [->|[->|[->| ->]]] by lia; done.
Qed.
End theory.

(** ** Instances: a 4 KiB board with a small layout *)

Module PagingEx.
#[export] Instance ex_plat : Platform := PlatVirt.
#[export] Instance ex_pool_va : PoolVa := 0x40200000.
#[export] Instance ex_pool_va_ok : PoolVaOk.
Proof. by split; vm_compute. Qed.

Lemma root1_in : 1 ∈ [0; 1].
Proof. set_solver. Qed.

Definition layout : KernelLayout :=
  mkLayout (mkRange 0x40080000 0x40082000) (mkRange 0x40082000 0x40083000)
    (mkRange 0x40083000 0x40084000) (mkRange 0x40085000 0x40086000)
    (mkRange 0x48000010 0x48000800) [mkRange 0x9000000 0x9001000; mkRange 0 0].

Lemma layout_ok : layout_u64 layout.
Proof. repeat constructor; simpl; lia. Qed.

Definition pool : Pool := (enable_paging 0 layout initial_pool).2.

Lemma run_eq : enable_paging 0 layout initial_pool = (Ok (0x40200000, 0x40201000, tcr 0), pool).
Proof. vm_compute. reflexivity. Qed.

Lemma pool_ok : pool_inv [0; 1] pool /\ enabled pool = true /\ root1 pool = 1.
Proof.
  destruct (enable_paging_ok 0 layout _ _ _ _ layout_ok run_eq) as (H1 & _ & H2 & H3 & _).
  exact (conj H1 (conj H2 H3)).
Qed.

Lemma map_page_exact_witness :
  exists r p', map_page 1 0xFFFF000040090000 0x40090000 (Perm.attrs Perm.Rw) pool = (r, p') /\
    r = Ok tt /\ translate p' 1 0xFFFF000040090008 = Some (Z.lor 0x40090000 (Perm.attrs Perm.Rw)).
Proof.
  destruct (map_page_exact [0; 1] pool 1 0xFFFF000040090000 0x40090000 (Perm.attrs Perm.Rw) (proj1 pool_ok))
    as (r & p' & Hm & Hs); [exact root1_in|vm_compute; discriminate|].
  exists r, p'. split; [exact Hm|].
  assert (Hr : r = Ok tt) by (change r with (r, p').1; rewrite <- Hm; vm_compute; reflexivity).
  subst r. split; [reflexivity|]. destruct Hs as (_ & _ & Ht). rewrite (Ht 1 _ root1_in). vm_compute. reflexivity.
Defined.

Lemma enable_paging_exact_witness :
  translate pool 1 0xFFFF000040081123 = Some (Z.lor 0x40081000 (Perm.attrs Perm.Text)) /\
  translate pool 1 0xFFFF000040084000 = None.
Proof.
  destruct (enable_paging_exact 0 layout _ _ _ _ layout_ok run_eq) as (_ & _ & _ & _ & _ & Ht).
  split; [rewrite (proj1 (Ht 1 0xFFFF000040081123 root1_in))|rewrite (proj1 (Ht 1 0xFFFF000040084000 root1_in))];
    vm_compute; reflexivity.
Defined.

Lemma kernel_window_atomic_witness :
  exists r p', map_kernel_window (mkRange 0x50000000 0x50001000) pool = (r, p') /\ r = Ok tt /\
    translate p' 1 0xFFFF000050000000 = Some (Z.lor 0x50000000 (Perm.attrs Perm.Rw)).
Proof.
  destruct pool_ok as (Hi & He & Hr1).
  destruct (kernel_window_atomic [0; 1] pool 0x50000000 Hi) as (r & p' & Hm & Hs);
    [rewrite Hr1; exact root1_in|exact He|lia|vm_compute; reflexivity|vm_compute; discriminate|].
  exists r, p'. split; [exact Hm|].
  assert (Hr : r = Ok tt) by (change r with (r, p').1; rewrite <- Hm; vm_compute; reflexivity).
  subst r. split; [reflexivity|]. destruct Hs as (_ & Ht). rewrite (Ht 1 _ root1_in). vm_compute. reflexivity.
Defined.
End PagingEx.
