(* ===== verification/User.v ===== *)
(** * User address spaces

    crates/k0-mm/src/user.rs: the boot frame allocator, the builder of the root
    task's TTBR0 tables, and the runtime walkers of the MAP system call.  User
    tables live in physical frames that the kernel reads and writes through its
    alias; physical memory is a map from word addresses to 64-bit words, zero
    where it has no entry. *)

From S2P Require Import Prelude Abi Radix Paging.

(** ** Permissions *)

Module UserPerm.
Inductive t := TextUser | RoUser | RwUser.

Definition attrs (p : t) : Z :=
  match p with
  | TextUser => Z.lor (Z.lor (Z.lor (Z.lor (Z.lor DESC_PAGE ATTR_AF) SH_INNER) AP_RO_ALL) IDX_NORMAL) PXN
  | RoUser => Z.lor (Z.lor (Z.lor (Z.lor (Z.lor (Z.lor DESC_PAGE ATTR_AF) SH_INNER) AP_RO_ALL) IDX_NORMAL) UXN) PXN
  | RwUser => Z.lor (Z.lor (Z.lor (Z.lor (Z.lor (Z.lor DESC_PAGE ATTR_AF) SH_INNER) AP_RW_ALL) IDX_NORMAL) UXN) PXN
  end.
End UserPerm.

(** ** Physical words *)

Abbreviation words := (gmap Z Z).

Definition rd_word (w : words) (a : Z) : Z := default 0 (w !! a).

(** [write_bytes(base + KERNEL_VA_OFFSET, 0, len)]. *)
Definition zero_range (base len : Z) (w : words) : words :=
  filter (fun kv => ~ (base <= kv.1 < base + len)) w.

Section ops.
Context `{Platform}.

(** ** The boot frame allocator *)

Record FrameAlloc := mkFA { fa_start : Z; fa_next : Z; fa_end : Z }.

Definition fa_new (w : Range) : res MmuError.t FrameAlloc :=
  if negb (start w mod GRANULE =? 0) || negb (end_ w mod GRANULE =? 0) || (end_ w <=? start w)
  then Err MmuError.Misaligned else Ok (mkFA (start w) (start w) (end_ w)).

Definition alloc_contig (n : Z) : M (FrameAlloc * words) MmuError.t Z :=
  do! len := lift (ok_or (checked_mul n GRANULE) MmuError.OutOfFrames) in
  if len =? 0 then throw MmuError.OutOfFrames else
  do! s := getS in
  let base := fa_next s.1 in
  do! e := lift (ok_or (checked_add base len) MmuError.OutOfFrames) in
  if fa_end s.1 <? e then throw MmuError.OutOfFrames else
  do! _ := putS (mkFA (fa_start s.1) e (fa_end s.1), s.2) in
  do! _ := lift (add_p base KERNEL_VA_OFFSET) in
  do! _ := modS (fun s => (s.1, zero_range base len s.2)) in
  ret base.

Definition fa_alloc : M (FrameAlloc * words) MmuError.t Z := alloc_contig 1.

Definition fa_used (fa : FrameAlloc) : Range := mkRange (fa_start fa) (fa_next fa).

(** ** Table entries *)

Definition entry_ptr {E} (table_pa idx : Z) : res E Z :=
  let? a := add_p table_pa KERNEL_VA_OFFSET in add_p a (idx * 8).

(** Volatile access through the alias of a physical word. *)
Definition read_ptr (p : Z) : M words MmuError.t Z := fun w => (Ok (rd_word w (p - KERNEL_VA_OFFSET)), w).
Definition write_ptr (p v : Z) : M words MmuError.t unit := fun w => (Ok tt, <[p - KERNEL_VA_OFFSET := v]> w).

(** ** The runtime walkers *)

Fixpoint user_walk (n : nat) (level t va : Z) : M words MmuError.t Z :=
  match n with
  | O => ret t
  | S n' =>
    do! p := lift (entry_ptr t (index va level)) in
    do! entry := read_ptr p in
    do! t' := if entry =? 0 then throw MmuError.MissingTable
              else if Z.land entry 3 =? DESC_TABLE then ret (Z.land entry ADDR_MASK)
              else throw MmuError.BadTable in
    user_walk n' (level + 1) t' va
  end.

Definition user_map_frame (root_pa va a : Z) (perm : UserPerm.t) : M words MmuError.t unit :=
  if negb (va mod GRANULE =? 0) || negb (a mod GRANULE =? 0) then throw MmuError.Misaligned else
  if va <? GRANULE then throw MmuError.NullPage else
  do! e := lift (ok_or (checked_add va GRANULE) MmuError.Misaligned) in
  if Z.shiftl 1 48 <? e then throw MmuError.Misaligned else
  do! t := user_walk 3 0 root_pa va in
  do! p := lift (entry_ptr t (index va 3)) in
  do! entry := read_ptr p in
  if negb (entry =? 0) then throw MmuError.Overlap
  else write_ptr p (Z.lor a (UserPerm.attrs perm)).

(** The levels of [user_install_table]: [n] levels from [level] on. *)
Fixpoint install_walk (n : nat) (level t va table_pa : Z) : M words MmuError.t Z :=
  match n with
  | O => throw MmuError.Overlap
  | S n' =>
    do! p := lift (entry_ptr t (index va level)) in
    do! entry := read_ptr p in
    if entry =? 0 then
      do! _ := write_ptr p (Z.lor table_pa DESC_TABLE) in
      ret level
    else if Z.land entry 3 =? DESC_TABLE then
      install_walk n' (level + 1) (Z.land entry ADDR_MASK) va table_pa
    else throw MmuError.BadTable
  end.

Definition user_install_table (root_pa va table_pa : Z) : M words MmuError.t Z :=
  if negb (table_pa mod GRANULE =? 0) || (Z.shiftl 1 48 <=? va) then throw MmuError.Misaligned
  else install_walk 3 0 root_pa va table_pa.

(** ** The boot-time builder *)

(** A step on the words of the pair (allocator, words). *)
Definition on_words {A} (m : M words MmuError.t A) : M (FrameAlloc * words) MmuError.t A :=
  fun '(fa, w) => let '(r, w') := m w in (r, (fa, w')).

(** [UserSpace::new]: the PA of the root table. *)
Definition us_new : M (FrameAlloc * words) MmuError.t Z := fa_alloc.

Fixpoint build_walk (n : nat) (level t va : Z) : M (FrameAlloc * words) MmuError.t Z :=
  match n with
  | O => ret t
  | S n' =>
    do! p := lift (entry_ptr t (index va level)) in
    do! entry := on_words (read_ptr p) in
    do! t' := if entry =? 0 then
                do! child := fa_alloc in
                do! _ := on_words (write_ptr p (Z.lor child DESC_TABLE)) in
                ret child
              else if Z.land entry 3 =? DESC_TABLE then ret (Z.land entry ADDR_MASK)
              else throw MmuError.BadTable in
    build_walk n' (level + 1) t' va
  end.

Definition us_map_page (root va a attrs : Z) : M (FrameAlloc * words) MmuError.t unit :=
  do! t := build_walk 3 0 root va in
  do! p := lift (entry_ptr t (index va 3)) in
  do! entry := on_words (read_ptr p) in
  if negb (entry =? 0) then throw MmuError.Overlap
  else on_words (write_ptr p (Z.lor a attrs)).

Fixpoint us_map_pages (fuel : nat) (root va a len attrs off : Z) : M (FrameAlloc * words) MmuError.t unit :=
  match fuel with
  | O => if off <? len then lift OutOfFuel else ret tt
  | S fuel' =>
    if off <? len then
      do! va' := lift (add_p va off) in
      do! a' := lift (add_p a off) in
      do! _ := us_map_page root va' a' attrs in
      do! off' := lift (add_p off GRANULE) in
      us_map_pages fuel' root va a len attrs off'
    else ret tt
  end.

Definition us_map_range (root va a len : Z) (perm : UserPerm.t) : M (FrameAlloc * words) MmuError.t unit :=
  if negb (va mod GRANULE =? 0) || negb (a mod GRANULE =? 0) || negb (len mod GRANULE =? 0) || (len =? 0)
  then throw MmuError.Misaligned else
  if va <? GRANULE then throw MmuError.NullPage else
  do! e := lift (ok_or (checked_add va len) MmuError.Misaligned) in
  if Z.shiftl 1 48 <? e then throw MmuError.Misaligned else
  us_map_pages (Z.to_nat (len / GRANULE)) root va a len (UserPerm.attrs perm) 0.
End ops.

(** ** Theory *)

Section theory.
Context `{Platform}.

Definition user_child (e : Z) : option Z :=
  if Z.land e 3 =? DESC_TABLE then Some (Z.land e ADDR_MASK) else None.

(** The contents of physical frames read as tables. *)
Definition umem (w : words) (t i : Z) : Z :=
  if (t mod GRANULE =? 0) && (0 <=? i) && (i <? ENTRIES) then rd_word w (t + i * 8) else 0.

Definition frame_ok (t : Z) : Prop := 0 <= t < 2 ^ 48 /\ t mod GRANULE = 0.

(** The tables [dom] of one or more address spaces. *)
Definition user_space (dom : Z -> Prop) (tag : tagging) (w : words) : Prop :=
  tree user_child 3 dom tag (umem w) /\ forall t, dom t -> frame_ok t.

Definition is_root (dom : Z -> Prop) (tag : tagging) (root : Z) : Prop := dom root /\ tag root = (root, []).

(** The MMU's walk through TTBR0. *)
Definition utranslate (w : words) (root va : Z) : option Z :=
  leaf user_child (umem w) root (path va) (index va 3).

Lemma entries_granule : ENTRIES * 8 = GRANULE.
Proof. unfold ENTRIES, GRANULE. by destruct plat. Qed.

Lemma frame_end t : frame_ok t -> t + GRANULE <= 2 ^ 48.
Proof.
  intros [Ht Hm]. pose proof granule_bounds. enough (t <= 2 ^ 48 - GRANULE) by lia.
  apply (multiple_lt GRANULE); [lia|done| |lia]. unfold GRANULE. by destruct plat.
Qed.

Lemma entry_ptr_ok {E} t i :
  frame_ok t -> 0 <= i < ENTRIES -> @entry_ptr E t i = Ok (t + KERNEL_VA_OFFSET + i * 8).
Proof.
  intros Ht Hi. pose proof (frame_end t Ht). pose proof entries_granule.
  assert (Hb : KERNEL_VA_OFFSET + 2 ^ 48 = U64) by reflexivity. destruct Ht as [Ht _].
  unfold entry_ptr. rewrite add_p_ok by lia. simpl. by rewrite add_p_ok by lia.
Qed.

Lemma read_ptr_ok w t i :
  frame_ok t -> 0 <= i < ENTRIES -> read_ptr (t + KERNEL_VA_OFFSET + i * 8) w = (Ok (umem w t i), w).
Proof.
  intros [Ht Hm] Hi. unfold read_ptr, umem.
  rewrite (proj2 (Z.eqb_eq _ _) Hm), (proj2 (Z.leb_le 0 i)), (proj2 (Z.ltb_lt i _)) by lia.
  simpl. do 3 f_equal. lia.
Qed.

(** Table words of different entries have different addresses. *)
Lemma entry_addr_inj t i t' i' :
  t mod GRANULE = 0 -> t' mod GRANULE = 0 -> 0 <= i < ENTRIES -> 0 <= i' < ENTRIES ->
  t + i * 8 = t' + i' * 8 -> t = t' /\ i = i'.
Proof.
  intros Ht Ht' Hi Hi' E. pose proof granule_bounds. pose proof entries_granule as Hg.
  apply Z.mod_divide in Ht as [q ->]; [|lia]. apply Z.mod_divide in Ht' as [q' ->]; [|lia].
  assert (q = q') as -> by nia. lia.
Qed.

Lemma write_ptr_ok w t i v t' i' :
  frame_ok t -> 0 <= i < ENTRIES ->
  umem (<[t + KERNEL_VA_OFFSET + i * 8 - KERNEL_VA_OFFSET := v]> w) t' i' = wr (umem w) t i v t' i'.
Proof.
  intros [Ht Hm] Hi. replace (t + KERNEL_VA_OFFSET + i * 8 - KERNEL_VA_OFFSET) with (t + i * 8) by lia.
  unfold umem, wr. destruct ((t' mod GRANULE =? 0) && _ && _) eqn:E.
  - rewrite !andb_true_iff, Z.eqb_eq, Z.leb_le, Z.ltb_lt in E. unfold rd_word.
    destruct (decide (t = t' /\ i = i')) as [[-> ->]|Hne]; [by rewrite lookup_insert_eq|].
    rewrite lookup_insert_ne; [done|]. intros Eq. apply Hne. apply entry_addr_inj in Eq; tauto.
  - rewrite decide_False; [done|]. intros [<- <-].
    rewrite (proj2 (Z.eqb_eq _ _) Hm), (proj2 (Z.leb_le 0 i)), (proj2 (Z.ltb_lt i _)) in E by lia. done.
Qed.

Lemma user_child_link c : frame_ok c -> user_child (Z.lor c DESC_TABLE) = Some c.
Proof.
  intros [Hc Hm]. unfold user_child. pose proof page_shift_bounds. rewrite desc_addr; [|done|done|].
  - rewrite Z.land_lor_distr_l. change 3 with (2 ^ 2 - 1) at 1. by rewrite land_low_aligned by (try done; lia).
  - unfold ADDR_MASK, DESC_TABLE, GRANULE. by destruct plat.
Qed.

(** An inner entry in use is a link, and its table is in use. *)
Lemma inner_entry dom tag w t i :
  user_space dom tag w -> dom t -> (length (tag t).2 < 3)%nat -> umem w t i <> 0 ->
  (Z.land (umem w t i) 3 =? DESC_TABLE) = true /\ dom (Z.land (umem w t i) ADDR_MASK) /\
  tag (Z.land (umem w t i) ADDR_MASK) = ((tag t).1, (tag t).2 ++ [i]).
Proof.
  intros [Ht _] Hd Hl Hn. destruct (tr_link _ _ _ _ _ Ht t i Hd Hn Hl) as (c & Hc & Hdc & Htc).
  unfold user_child in Hc. destruct (_ =? _) eqn:E; [|done]. by simplify_eq.
Qed.

(** *** The runtime walk *)

Lemma user_walk_spec dom tag w va n level t :
  user_space dom tag w -> dom t -> 0 <= level -> level + Z.of_nat n = 3 -> length (tag t).2 = Z.to_nat level ->
  user_walk n level t va w =
    (match walk user_child (umem w) t (ixs n level va) with
     | Some t' => Ok t' | None => Err MmuError.MissingTable end, w).
Proof.
  intros Hu. revert level t. induction n as [|n IH]; intros level t Hd Hl Hn Htg; [done|].
  assert (Hi : 0 <= index va level < ENTRIES) by (apply index_bounds; lia).
  pose proof (proj2 Hu t Hd) as Hf. cbn [user_walk ixs walk]. unfold bind at 1 2 3, lift.
  rewrite entry_ptr_ok, read_ptr_ok by done.
  destruct (Z.eqb_spec (umem w t (index va level)) 0) as [|Hnz]; [done|].
  destruct (inner_entry dom tag w t (index va level) Hu Hd) as (Hdesc & Hdc & Htc); [lia|done|].
  unfold user_child at 1. rewrite Hdesc. unfold ret. apply IH; [done|lia|lia|].
  rewrite Htc. simpl. rewrite length_app, Htg. simpl. lia.
Qed.

Lemma user_attrs_nonzero perm : UserPerm.attrs perm <> 0.
Proof. by destruct perm. Qed.

(** The frame checks of [user_map_frame]. *)
Definition va_ok (va : Z) : Prop := va mod GRANULE = 0 /\ GRANULE <= va /\ va + GRANULE <= 2 ^ 48.

Lemma user_map_frame_unfold dom tag w root va a perm :
  user_space dom tag w -> is_root dom tag root -> 0 <= va -> a mod GRANULE = 0 -> va_ok va ->
  user_map_frame root va a perm w =
    match walk user_child (umem w) root (path va) with
    | None => (Err MmuError.MissingTable, w)
    | Some t => if umem w t (index va 3) =? 0
                then write_ptr (t + KERNEL_VA_OFFSET + index va 3 * 8) (Z.lor a (UserPerm.attrs perm)) w
                else (Err MmuError.Overlap, w)
    end.
Proof.
  intros Hu [Hr Htg] Hva Ha (V1 & V2 & V3). unfold user_map_frame.
  rewrite (proj2 (Z.eqb_eq _ _) V1), (proj2 (Z.eqb_eq _ _) Ha), (proj2 (Z.ltb_ge _ _) V2). cbn [negb orb].
  unfold bind at 1, lift. unfold checked_add. rewrite (proj2 (Z.ltb_lt _ _)) by lia. cbn [ok_or].
  change (Z.shiftl 1 48) with (2 ^ 48). rewrite (proj2 (Z.ltb_ge _ _) V3).
  unfold bind at 1. rewrite (user_walk_spec dom tag) by (rewrite ?Htg; done).
  change (ixs 3 0 va) with (path va). destruct (walk user_child (umem w) root (path va)) as [t|] eqn:Ew; [|done].
  destruct (walk_tag _ _ _ _ _ _ _ _ (proj1 Hu) Hr Ew) as [Hdt _]; [by rewrite Htg|].
  assert (Hi : 0 <= index va 3 < ENTRIES) by (apply index_bounds; lia).
  pose proof (proj2 Hu t Hdt) as Hf. unfold bind, lift. rewrite entry_ptr_ok, read_ptr_ok by done.
  by destruct (umem w t (index va 3) =? 0).
Qed.

(** Only table words change. *)
Definition same_outside (dom : Z -> Prop) (w w' : words) : Prop :=
  forall k, w' !! k <> w !! k -> exists t, dom t /\ t <= k < t + GRANULE.

Lemma same_outside_write (dom : Z -> Prop) w t i v :
  dom t -> 0 <= i < ENTRIES -> same_outside dom w (<[t + KERNEL_VA_OFFSET + i * 8 - KERNEL_VA_OFFSET := v]> w).
Proof.
  intros Hd Hi k Hk. exists t. split; [done|]. pose proof entries_granule.
  destruct (decide (t + KERNEL_VA_OFFSET + i * 8 - KERNEL_VA_OFFSET = k)) as [E|E]; [lia|].
  by rewrite lookup_insert_ne in Hk.
Qed.

(** What a frame mapping does. *)
Definition user_mapped (dom : Z -> Prop) (tag : tagging) (w : words) (root va d : Z) (w' : words) : Prop :=
  utranslate w root va = None /\ user_space dom tag w' /\ same_outside dom w w' /\
  forall root' va', is_root dom tag root' ->
    utranslate w' root' va' =
      if decide (root' = root /\ vpn va' = vpn va) then Some d else utranslate w root' va'.

(** Writing the last-level entry that a walk arrives at. *)
Lemma user_write_leaf dom tag w root va t d :
  user_space dom tag w -> is_root dom tag root -> d <> 0 ->
  walk user_child (umem w) root (path va) = Some t -> umem w t (index va 3) = 0 ->
  user_mapped dom tag w root va d (<[t + KERNEL_VA_OFFSET + index va 3 * 8 - KERNEL_VA_OFFSET := d]> w).
Proof.
  intros [Htr Hfr] [Hr Htg] Hd Hw Hz.
  destruct (walk_tag _ _ _ _ _ _ _ _ Htr Hr Hw) as [Hdt Htt]; [by rewrite Htg|]. rewrite Htg in Htt.
  assert (Hi : 0 <= index va 3 < ENTRIES) by (apply index_bounds; lia).
  assert (Hm := fun t' i' => write_ptr_ok w t (index va 3) d t' i' (Hfr t Hdt) Hi).
  split_and!.
  - unfold utranslate, leaf. by rewrite Hw, Hz.
  - split; [|done]. eapply (tree_ext user_child 3 _ _ Hm); [done|].
    apply (tree_wr_leaf user_child 3); [done|done|]. by rewrite Htt.
  - by apply same_outside_write.
  - intros root' va' [Hr' Htg']. unfold utranslate. erewrite leaf_ext by exact Hm.
    rewrite (leaf_wr user_child 3 dom tag (umem w) root (path va)) by done.
    pose proof (path_vpn va va') as Hpv. apply decide_ext. tauto.
Qed.

Lemma user_map_frame_spec dom tag w root va a perm :
  user_space dom tag w -> is_root dom tag root -> 0 <= va ->
  exists r w', user_map_frame root va a perm w = (r, w') /\
    match r with
    | Ok _ => va_ok va /\ a mod GRANULE = 0 /\
        user_mapped dom tag w root va (Z.lor a (UserPerm.attrs perm)) w'
    | Err e => w' = w /\
        match e with
        | MmuError.Misaligned | MmuError.NullPage => ~ (va_ok va /\ a mod GRANULE = 0)
        | MmuError.Overlap => va_ok va /\ a mod GRANULE = 0 /\ utranslate w root va <> None
        | MmuError.MissingTable => va_ok va /\ a mod GRANULE = 0 /\
            walk user_child (umem w) root (path va) = None
        | _ => False
        end
    | _ => False
    end.
Proof.
  intros Hu Hr Hva. destruct (decide (va_ok va /\ a mod GRANULE = 0)) as [[Hv Ha]|Hbad].
  - rewrite (user_map_frame_unfold dom tag) by done.
    destruct (walk user_child (umem w) root (path va)) as [t|] eqn:Ew;
      [|by exists (Err MmuError.MissingTable), w].
    destruct (Z.eqb_spec (umem w t (index va 3)) 0) as [Hz|Hnz].
    + eexists (Ok tt), _. split; [done|]. split_and!; [done..|]. apply user_write_leaf; [done|done| |done|done].
      intros E. apply Z.lor_eq_0_iff in E as [_ E]. by apply user_attrs_nonzero in E.
    + exists (Err MmuError.Overlap), w. split_and!; [done..|]. unfold utranslate, leaf.
      by rewrite Ew, (proj2 (Z.eqb_neq _ _) Hnz).
  - unfold user_map_frame. destruct (negb _ || negb _) eqn:E1; [by exists (Err MmuError.Misaligned), w|].
    rewrite orb_false_iff, !negb_false_iff, !Z.eqb_eq in E1.
    destruct (Z.ltb_spec va GRANULE) as [|Hge]; [by exists (Err MmuError.NullPage), w|].
    unfold bind at 1, lift. unfold checked_add. pose proof granule_bounds.
    destruct (Z.ltb_spec (va + GRANULE) U64); cbn [ok_or]; [|by exists (Err MmuError.Misaligned), w].
    change (Z.shiftl 1 48) with (2 ^ 48).
    destruct (Z.ltb_spec (2 ^ 48) (va + GRANULE)); [by exists (Err MmuError.Misaligned), w|].
    exfalso. apply Hbad. unfold va_ok. tauto.
Qed.

(** *** Installing a table *)

Lemma install_walk_spec dom tag w va c n level t :
  user_space dom tag w -> dom t -> 0 <= level -> level + Z.of_nat n = 3 -> length (tag t).2 = Z.to_nat level ->
  exists r w', install_walk n level t va c w = (r, w') /\
    match r with
    | Ok l => level <= l < 3 /\ exists t', dom t' /\ length (tag t').2 = Z.to_nat l /\
        walk user_child (umem w) t (ixs (Z.to_nat (l - level)) level va) = Some t' /\
        umem w t' (index va l) = 0 /\
        w' = <[t' + KERNEL_VA_OFFSET + index va l * 8 - KERNEL_VA_OFFSET := Z.lor c DESC_TABLE]> w
    | Err e => w' = w /\ e = MmuError.Overlap /\ walk user_child (umem w) t (ixs n level va) <> None
    | _ => False
    end.
Proof.
  intros Hu. revert level t. induction n as [|n IH]; intros level t Hd Hl Hn Htg.
  { by exists (Err MmuError.Overlap), w. }
  assert (Hi : 0 <= index va level < ENTRIES) by (apply index_bounds; lia).
  pose proof (proj2 Hu t Hd) as Hf. cbn [install_walk ixs walk]. unfold bind at 1 2, lift.
  rewrite entry_ptr_ok, read_ptr_ok by done.
  destruct (Z.eqb_spec (umem w t (index va level)) 0) as [Hz|Hnz].
  { eexists (Ok level), _. split; [done|]. split; [lia|]. exists t. split_and!; try done.
    by rewrite Z.sub_diag. }
  destruct (inner_entry dom tag w t (index va level) Hu Hd) as (Hdesc & Hdc & Htc); [lia|done|].
  rewrite Hdesc. destruct (IH (level + 1) _ Hdc) as (r & w' & Hiw & Hr);
    [lia|lia|rewrite Htc; simpl; rewrite length_app, Htg; simpl; lia|].
  exists r, w'. split; [done|]. assert (Hch : user_child (umem w t (index va level)) =
    Some (Z.land (umem w t (index va level)) ADDR_MASK)) by (unfold user_child; by rewrite Hdesc).
  destruct r as [l|e| |]; [|by rewrite Hch|done..]. destruct Hr as (Hlb & t' & ? & ? & Hw & ? & ?).
  split; [lia|]. exists t'. split_and!; try done.
  replace (Z.to_nat (l - level)) with (S (Z.to_nat (l - (level + 1)))) by lia. cbn [ixs walk].
  by rewrite (proj2 (Z.eqb_neq _ _) Hnz), Hch.
Qed.

(** What installing the table [c] at level [l] of the path of [va] does. *)
Definition installed (dom : Z -> Prop) (w : words) (root va c l : Z) (w' : words) : Prop :=
  0 <= l < 3 /\ same_outside dom w w' /\
  walk user_child (umem w) root (ixs (Z.to_nat (l + 1)) 0 va) = None /\
  walk user_child (umem w') root (ixs (Z.to_nat (l + 1)) 0 va) = Some c.

Lemma ixs_snoc n level va : ixs (S n) level va = ixs n level va ++ [index va (level + Z.of_nat n)].
Proof.
  revert level. induction n as [|n IH]; intros level; [simpl; by rewrite Z.add_0_r|].
  change (ixs (S (S n)) level va) with (index va level :: ixs (S n) (level + 1) va).
  rewrite IH. cbn [ixs app].
  by replace (level + 1 + Z.of_nat n) with (level + Z.of_nat (S n)) by lia.
Qed.

Lemma user_install_table_spec dom tag w root va c :
  user_space dom tag w -> is_root dom tag root -> frame_ok c -> ~ dom c -> (forall j, umem w c j = 0) ->
  exists r w', user_install_table root va c w = (r, w') /\
    match r with
    | Ok l => va < 2 ^ 48 /\ installed dom w root va c l w' /\
        exists tag', user_space (fun s => dom s \/ s = c) tag' w' /\ (forall t, dom t -> tag' t = tag t) /\
          forall root' va', is_root dom tag root' -> utranslate w' root' va' = utranslate w root' va'
    | Err MmuError.Misaligned => w' = w /\ 2 ^ 48 <= va
    | Err MmuError.Overlap => w' = w /\ va < 2 ^ 48 /\ walk user_child (umem w) root (path va) <> None
    | _ => False
    end.
Proof.
  intros Hu [Hr Htg] Hc Hnc Hcz. unfold user_install_table.
  rewrite (proj2 (Z.eqb_eq _ _) (proj2 Hc)). cbn [negb orb]. change (Z.shiftl 1 48) with (2 ^ 48).
  destruct (Z.leb_spec (2 ^ 48) va) as [|Hva]; [by exists (Err MmuError.Misaligned), w|].
  destruct (install_walk_spec dom tag w va c 3 0 root Hu Hr) as (r & w' & Hiw & Hres);
    [lia|lia|by rewrite Htg|]. exists r, w'. split; [done|].
  destruct r as [l|e| |]; try done; [|by destruct Hres as (-> & -> & ?)].
  destruct Hres as (Hl & t & Hdt & Hlen & Hw & Hz & ->). rewrite Z.sub_0_r in Hw. split; [done|].
  assert (Hi : 0 <= index va l < ENTRIES) by (apply index_bounds; lia).
  assert (Hm := fun t' i' => write_ptr_ok w t (index va l) (Z.lor c DESC_TABLE) t' i' (proj2 Hu t Hdt) Hi).
  pose proof (user_child_link c Hc) as Hch. assert (Hlt : (length (tag t).2 < 3)%nat) by lia.
  assert (Hix : ixs (Z.to_nat (l + 1)) 0 va = ixs (Z.to_nat l) 0 va ++ [index va l]).
  { replace (Z.to_nat (l + 1)) with (S (Z.to_nat l)) by lia. rewrite ixs_snoc. do 3 f_equal. lia. }
  assert (Hnz : Z.lor c DESC_TABLE <> 0) by (intros E; by apply Z.lor_eq_0_iff in E as [_ E]).
  split; [split_and!; [lia|lia|by apply same_outside_write| |]|].
  - rewrite Hix, walk_app, Hw. simpl. by rewrite Hz.
  - rewrite Hix, walk_app. erewrite !walk_ext by exact Hm.
    rewrite (walk_wr_above user_child 3 dom tag) by (rewrite ?Htg, ?Hlen, ?length_ixs; try apply Hu; simpl; lia || done).
    rewrite Hw. simpl. rewrite Hm, wr_eq, Hch. by rewrite (proj2 (Z.eqb_neq _ _) Hnz).
  - exists (tag_upd tag c ((tag t).1, (tag t).2 ++ [index va l])). split_and!.
    + split; [apply (tree_ext user_child 3 _ _ Hm (fun s => dom s \/ s = c)); [done|];
        apply (tree_link user_child 3); try done; apply Hu|].
      intros s [Hs| ->]; [by apply Hu|done].
    + intros s Hs. unfold tag_upd. rewrite decide_False; [done|]. by intros <-.
    + intros root' va' [Hr' Htg']. unfold utranslate. erewrite leaf_ext by exact Hm.
      eapply (leaf_link user_child 3 dom tag); try done; [apply Hu|]. by rewrite Htg'.
Qed.

(** *** Permissions *)

Definition el0_writable (d : Z) : bool := Z.testbit d 6 && negb (Z.testbit d 7).

(** W^X for the task, and nothing in a user mapping is executable by the kernel. *)
Definition user_safe (d : Z) : Prop :=
  el0_writable d && el0_executable d = false /\ el1_executable d = false.

Lemma user_desc_safe a perm : frame_ok a -> user_safe (Z.lor a (UserPerm.attrs perm)).
Proof.
  intros [Ha Hm]. pose proof page_shift_bounds.
  unfold user_safe, el0_writable, el0_executable, el1_executable.
  rewrite !desc_bits by (try done; lia). by destruct perm.
Qed.

(** Only [TextUser] is executable. *)
Lemma user_desc_exec a perm :
  frame_ok a -> el0_executable (Z.lor a (UserPerm.attrs perm)) = true -> perm = UserPerm.TextUser.
Proof.
  intros [Ha Hm]. unfold el0_executable. rewrite desc_bits by (try done; pose proof page_shift_bounds; lia).
  by destruct perm.
Qed.

Lemma user_desc_addr a perm : frame_ok a -> Z.land (Z.lor a (UserPerm.attrs perm)) ADDR_MASK = a.
Proof.
  intros [Ha Hm]. apply desc_addr; [done..|]. unfold ADDR_MASK, GRANULE. by destruct plat, perm.
Qed.

(** *** The frame allocator *)

Definition fa_wf (fa : FrameAlloc) : Prop :=
  0 <= fa_start fa /\ fa_start fa <= fa_next fa <= fa_end fa /\ fa_end fa <= 2 ^ 48 /\
  fa_start fa mod GRANULE = 0 /\ fa_next fa mod GRANULE = 0.

Lemma rd_zero_range base len w a :
  rd_word (zero_range base len w) a = if decide (base <= a < base + len) then 0 else rd_word w a.
Proof.
  unfold rd_word, zero_range. rewrite map_lookup_filter. case_decide as E.
  - destruct (w !! a) as [v|]; [|done]. simpl. rewrite option_guard_False by (simpl; tauto). done.
  - destruct (w !! a) as [v|]; [|done]. simpl. by rewrite option_guard_True by (simpl; tauto).
Qed.

Lemma alloc_contig_spec n fa w :
  fa_wf fa -> 0 <= n ->
  alloc_contig n (fa, w) =
    if decide (n <> 0 /\ fa_next fa + n * GRANULE <= fa_end fa)
    then (Ok (fa_next fa), (mkFA (fa_start fa) (fa_next fa + n * GRANULE) (fa_end fa),
            zero_range (fa_next fa) (n * GRANULE) w))
    else (Err MmuError.OutOfFrames, (fa, w)).
Proof.
  intros (F0 & F1 & F2 & F3 & F4) Hn. pose proof granule_bounds as Hg. unfold alloc_contig, bind at 1, lift at 1.
  unfold checked_mul. destruct (Z.ltb_spec (n * GRANULE) U64) as [Hm|Hm]; cbn [ok_or].
  2:{ rewrite decide_False by lia. done. }
  destruct (Z.eqb_spec (n * GRANULE) 0) as [Hz|Hz]; [rewrite decide_False by nia; done|].
  unfold bind at 1, getS at 1. unfold bind at 1, lift at 1. cbn [fst snd]. unfold checked_add.
  destruct (Z.ltb_spec (fa_next fa + n * GRANULE) U64) as [Ha|Ha]; cbn [ok_or].
  2:{ rewrite decide_False by lia. done. }
  destruct (Z.ltb_spec (fa_end fa) (fa_next fa + n * GRANULE)) as [Hb|Hb]; [rewrite decide_False by lia; done|].
  rewrite decide_True by lia. unfold bind, putS, lift, modS, ret.
  assert (Hk : KERNEL_VA_OFFSET + 2 ^ 48 = U64) by reflexivity. rewrite add_p_ok by nia. done.
Qed.

Lemma fa_alloc_wf fa n :
  fa_wf fa -> 0 <= n -> fa_next fa + n * GRANULE <= fa_end fa ->
  fa_wf (mkFA (fa_start fa) (fa_next fa + n * GRANULE) (fa_end fa)).
Proof.
  intros (F0 & F1 & F2 & F3 & F4) Hn He. pose proof granule_bounds. split_and!; simpl; try done; try nia.
  by rewrite Z_mod_plus_full.
Qed.

(** ** Theorems *)

(** C23: mapping a frame into a user address space changes exactly one page.  It
    succeeds only for an aligned, non-null page below 2^48 whose tables exist
    and which is free; the new descriptor names the frame, is never writable and
    executable at EL0 and never executable at EL1; no other translation of any
    address space and no word outside the tables changes.  Every error leaves
    memory as it was and has its documented cause; no table is ever created. *)
Theorem user_map_frame_exact dom tag w root va a perm :
  user_space dom tag w -> is_root dom tag root -> 0 <= va -> 0 <= a < 2 ^ 48 ->
  exists r w', user_map_frame root va a perm w = (r, w') /\
    match r with
    | Ok _ => va_ok va /\ utranslate w root va = None /\ user_space dom tag w' /\ same_outside dom w w' /\
        exists d, d = Z.lor a (UserPerm.attrs perm) /\ Z.land d ADDR_MASK = a /\ user_safe d /\
        (el0_executable d = true -> perm = UserPerm.TextUser) /\
        forall root' va', is_root dom tag root' ->
          utranslate w' root' va' =
            if decide (root' = root /\ vpn va' = vpn va) then Some d else utranslate w root' va'
    | Err e => w' = w /\
        match e with
        | MmuError.Misaligned | MmuError.NullPage => ~ (va_ok va /\ a mod GRANULE = 0)
        | MmuError.Overlap => utranslate w root va <> None
        | MmuError.MissingTable => walk user_child (umem w) root (path va) = None
        | _ => False
        end
    | _ => False
    end.
Proof.
  intros Hu Hr Hva Ha. destruct (user_map_frame_spec dom tag w root va a perm Hu Hr Hva) as (r & w' & Hm & Hs).
  exists r, w'. split; [done|]. destruct r as [[]|e| |]; try done.
  - destruct Hs as (V & Hal & Hn & Hu' & Ho & Ht). assert (Hf : frame_ok a) by done. split_and!; try done.
    eexists. split; [done|]. split_and!; [by apply user_desc_addr|by apply user_desc_safe..| |done].
    by apply user_desc_exec.
  - destruct Hs as [-> Hs]. split; [done|]. destruct e; tauto.
Qed.

(** installing a page table only extends the tree.  A zeroed frame that is
    not yet a table is hung into the first missing level of the path of [va];
    no translation changes, and the path is one level longer.  [Overlap] means
    that the path already reaches the last level. *)
Lemma user_install_table_exact dom tag w root va c :
  user_space dom tag w -> is_root dom tag root -> frame_ok c -> ~ dom c -> (forall j, umem w c j = 0) ->
  exists r w', user_install_table root va c w = (r, w') /\
    match r with
    | Ok l => va < 2 ^ 48 /\ 0 <= l < 3 /\ same_outside dom w w' /\
        walk user_child (umem w) root (ixs (Z.to_nat (l + 1)) 0 va) = None /\
        walk user_child (umem w') root (ixs (Z.to_nat (l + 1)) 0 va) = Some c /\
        exists tag', user_space (fun s => dom s \/ s = c) tag' w' /\ (forall t, dom t -> tag' t = tag t) /\
          forall root' va', is_root dom tag root' -> utranslate w' root' va' = utranslate w root' va'
    | Err e => w' = w /\ (e = MmuError.Misaligned /\ 2 ^ 48 <= va \/
                         e = MmuError.Overlap /\ walk user_child (umem w) root (path va) <> None)
    | _ => False
    end.
Proof.
  intros Hu Hr Hc Hnc Hz.
  destruct (user_install_table_spec dom tag w root va c Hu Hr Hc Hnc Hz) as (r & w' & Hm & Hs).
  exists r, w'. split; [done|]. destruct r as [l|e| |]; try done.
  - destruct Hs as (Hva & (Hl & Ho & Hw1 & Hw2) & tag' & Hu' & Ht' & Hall).
    split_and!; [done|lia|lia|done..|]. by exists tag'.
  - destruct e; try done; [destruct Hs as [-> ?]|destruct Hs as (-> & _ & ?)]; auto.
Qed.
End theory.

(** ** Instances: three levels of tables below 0x1000, room for one more *)

Module UserEx.
#[export] Instance ex_plat : Platform := PlatVirt.

Definition w : words := {[0x1000 := 0x2003; 0x2000 := 0x3003; 0x3010 := 0x4003]}.
Definition dom (t : Z) : Prop := t = 0x1000 \/ t = 0x2000 \/ t = 0x3000 \/ t = 0x4000.
Definition tag (t : Z) : Z * list Z :=
  (0x1000, if decide (t = 0x2000) then [0] else if decide (t = 0x3000) then [0; 0]
           else if decide (t = 0x4000) then [0; 0; 2] else []).

Lemma lookup_w k v : w !! k = Some v ->
  (k = 0x1000 /\ v = 0x2003) \/ (k = 0x2000 /\ v = 0x3003) \/ (k = 0x3010 /\ v = 0x4003).
Proof. unfold w. rewrite !lookup_insert_Some, lookup_singleton_Some. naive_solver. Qed.

Lemma space : user_space dom tag w.
Proof.
  split; [split|].
  - intros t i Ht Hn Hl. unfold umem in *. destruct (_ && _) eqn:E; [|done].
    rewrite !andb_true_iff, Z.eqb_eq, Z.leb_le, Z.ltb_lt in E. unfold rd_word in *. change ENTRIES with 512 in *.
    destruct (w !! (t + i * 8)) as [v|] eqn:Ew; [|done]. apply lookup_w in Ew.
    destruct Ht as [->|[->|[->| ->]]]; [..|vm_compute in Hl; lia];
      destruct Ew as [[Ek ->]|[[Ek ->]|[Ek ->]]]; try lia.
    + assert (i = 0) as -> by lia. exists 0x2000. unfold dom. split_and!; [done|tauto|done].
    + assert (i = 0) as -> by lia. exists 0x3000. unfold dom. split_and!; [done|tauto|done].
    + assert (i = 2) as -> by lia. exists 0x4000. unfold dom. split_and!; [done|tauto|done].
  - intros t [->|[->|[->| ->]]]; vm_compute; lia.
  - intros t [->|[->|[->| ->]]]; by split.
Qed.

Lemma root : is_root dom tag 0x1000.
Proof. split; [by left|done]. Qed.

Lemma user_map_frame_exact_witness : exists r w',
  user_map_frame 0x1000 0x400000 0x50000000 UserPerm.RwUser w = (r, w') /\ r = Ok tt /\
  utranslate w' 0x1000 0x400008 = Some (Z.lor 0x50000000 (UserPerm.attrs UserPerm.RwUser)).
Proof.
  destruct (user_map_frame_exact dom tag w 0x1000 0x400000 0x50000000 UserPerm.RwUser space root)
    as (r & w' & Hm & Hs); [lia|lia|].
  exists r, w'. split; [exact Hm|].
  assert (Hr : r = Ok tt) by (change r with (r, w').1; rewrite <- Hm; vm_compute; reflexivity).
  subst r. split; [reflexivity|]. destruct Hs as (_ & _ & _ & _ & d & -> & _ & _ & _ & Ht).
  rewrite (Ht 0x1000 0x400008 root). vm_compute. reflexivity.
Defined.

Lemma user_install_table_exact_witness : exists r w',
  user_install_table 0x1000 0x40000000 0x5000 w = (r, w') /\ r = Ok 1 /\
  walk user_child (umem w') 0x1000 (ixs 2 0 0x40000000) = Some 0x5000.
Proof.
  destruct (user_install_table_exact dom tag w 0x1000 0x40000000 0x5000 space root)
    as (r & w' & Hm & Hs).
  - by split.
  - unfold dom. lia.
  - intros j. unfold umem. destruct (_ && _) eqn:E; [|reflexivity].
    rewrite !andb_true_iff, Z.eqb_eq, Z.leb_le, Z.ltb_lt in E. unfold rd_word.
    destruct (w !! (0x5000 + j * 8)) as [v|] eqn:Ew; [|reflexivity]. apply lookup_w in Ew. lia.
  - exists r, w'. split; [exact Hm|].
    assert (Hr : r = Ok 1) by (change r with (r, w').1; rewrite <- Hm; vm_compute; reflexivity).
    subst r. split; [reflexivity|]. by destruct Hs as (_ & _ & _ & _ & Hw & _).
Defined.
End UserEx.
