(* ===== verification/Build.v ===== *)
(** * Building the root task's address space

    The theory of user.rs's boot-time builder ([UserSpace] over [FrameAlloc]):
    [us_map_range] maps exactly the requested pages, takes every table from the
    boot window, and leaves the frames handed out for other purposes alone. *)

From S2P Require Import Prelude Abi Radix Paging User.

Section build.
Context `{Platform}.

(** The tables lie in the used part of the window. *)
Definition in_window (dom : Z -> Prop) (fa : FrameAlloc) : Prop :=
  forall t, dom t -> fa_start fa <= t < fa_next fa.

Definition building (dom : Z -> Prop) (tag : tagging) (s : FrameAlloc * words) : Prop :=
  fa_wf s.1 /\ user_space dom tag s.2 /\ in_window dom s.1.

(** What the builder's walk does from [s] to [s']: it adds tables from the free
    part of the window; entries in use stay, translations do not change. *)
Record grown (dom : Z -> Prop) (tag : tagging) (s : FrameAlloc * words)
    (dom' : Z -> Prop) (tag' : tagging) (s' : FrameAlloc * words) : Prop := {
  gr_building : building dom' tag' s';
  gr_window : fa_start s'.1 = fa_start s.1 /\ fa_end s'.1 = fa_end s.1 /\ fa_next s.1 <= fa_next s'.1;
  gr_dom : forall t, dom t -> dom' t /\ tag' t = tag t;
  gr_new : forall t, dom' t -> dom t \/ fa_next s.1 <= t;
  gr_mem : forall t i, dom t -> umem s.2 t i <> 0 -> umem s'.2 t i = umem s.2 t i;
  gr_words : forall j, s'.2 !! j <> s.2 !! j -> exists t, dom' t /\ t <= j < t + GRANULE;
  gr_trans : forall r l i, dom r -> (length (tag r).2 + length l = 3)%nat ->
    leaf user_child (umem s'.2) r l i = leaf user_child (umem s.2) r l i
}.

Lemma grown_refl dom tag s : building dom tag s -> grown dom tag s dom tag s.
Proof. intros Hb. split; try done. auto. Qed.

Lemma grown_trans dom tag s dom1 tag1 s1 dom2 tag2 s2 :
  grown dom tag s dom1 tag1 s1 -> grown dom1 tag1 s1 dom2 tag2 s2 -> grown dom tag s dom2 tag2 s2.
Proof.
  intros G1 G2. destruct (gr_window _ _ _ _ _ _ G1) as (? & ? & ?), (gr_window _ _ _ _ _ _ G2) as (? & ? & ?).
  split.
  - apply G2.
  - split_and!; [congruence|congruence|lia].
  - intros t Ht. destruct (gr_dom _ _ _ _ _ _ G1 t Ht) as [Ht1 E1], (gr_dom _ _ _ _ _ _ G2 t Ht1) as [Ht2 E2].
    split; [done|congruence].
  - intros t Ht. destruct (gr_new _ _ _ _ _ _ G2 t Ht) as [Ht1|]; [|right; lia].
    by apply (gr_new _ _ _ _ _ _ G1).
  - intros t i Ht Hn. destruct (gr_dom _ _ _ _ _ _ G1 t Ht) as [Ht1 _].
    pose proof (gr_mem _ _ _ _ _ _ G1 t i Ht Hn) as E. rewrite <- E. apply (gr_mem _ _ _ _ _ _ G2); [done|]. by rewrite E.
  - intros j Hj. destruct (decide (s1.2 !! j = s.2 !! j)) as [E|E].
    + rewrite <- E in Hj. by apply (gr_words _ _ _ _ _ _ G2).
    + destruct (gr_words _ _ _ _ _ _ G1 j E) as (t & Ht & Hr). exists t.
      split; [by apply (gr_dom _ _ _ _ _ _ G2)|done].
  - intros r l i Hr Hl. destruct (gr_dom _ _ _ _ _ _ G1 r Hr) as [Hr1 E1].
    rewrite (gr_trans _ _ _ _ _ _ G2), (gr_trans _ _ _ _ _ _ G1); [done|done|done|done|by rewrite E1].
Qed.

Lemma aligned_apart f t :
  f mod GRANULE = 0 -> t mod GRANULE = 0 -> f <> t -> t + GRANULE <= f \/ f + GRANULE <= t.
Proof.
  intros Hf Ht Hne. pose proof granule_bounds.
  destruct (Z.lt_total f t) as [Hl|[|Hl]]; [right|done|left].
  - destruct (Z.lt_ge_cases t (f + GRANULE)); [|lia]. pose proof (multiple_lt GRANULE t f). lia.
  - destruct (Z.lt_ge_cases f (t + GRANULE)); [|lia]. pose proof (multiple_lt GRANULE f t). lia.
Qed.

Lemma umem_zero_out c w t i :
  t + GRANULE <= c \/ c + GRANULE <= t -> umem (zero_range c GRANULE w) t i = umem w t i.
Proof.
  intros Hd. unfold umem. destruct (_ && _) eqn:E; [|done]. bool_to_prop.
  rewrite rd_zero_range, decide_False; [done|]. pose proof entries_granule. lia.
Qed.

Lemma umem_zero_in c w i : umem (zero_range c GRANULE w) c i = 0.
Proof.
  unfold umem. destruct (_ && _) eqn:E; [|done]. bool_to_prop.
  rewrite rd_zero_range, decide_True; [done|]. pose proof entries_granule. lia.
Qed.

Lemma umem_agree w w' t i :
  (forall j, t <= j < t + GRANULE -> w' !! j = w !! j) -> umem w' t i = umem w t i.
Proof.
  intros Hw. unfold umem. destruct (_ && _) eqn:E; [|done]. bool_to_prop.
  unfold rd_word. rewrite Hw; [done|]. pose proof entries_granule. lia.
Qed.

Lemma zero_range_lookup base len w j : zero_range base len w !! j <> w !! j -> base <= j < base + len.
Proof.
  unfold zero_range. rewrite map_lookup_filter. destruct (w !! j) as [v|]; simpl; [|done].
  intros Hne. destruct (decide (base <= j < base + len)) as [|E]; [done|].
  exfalso. apply Hne. by rewrite option_guard_True.
Qed.

(** A frame from the free part of the window is no table. *)
Lemma fresh_not_dom dom tag s : building dom tag s -> ~ dom (fa_next s.1).
Proof. intros (_ & _ & Hw) Hd. apply Hw in Hd. lia. Qed.

(** One new table, linked at the free place [i] of [t]. *)
Lemma grown_link dom tag fa w t i :
  building dom tag (fa, w) -> dom t -> (length (tag t).2 < 3)%nat -> 0 <= i < ENTRIES -> umem w t i = 0 ->
  fa_next fa + GRANULE <= fa_end fa ->
  let c := fa_next fa in
  let fa' := mkFA (fa_start fa) (fa_next fa + 1 * GRANULE) (fa_end fa) in
  let w' := <[t + KERNEL_VA_OFFSET + i * 8 - KERNEL_VA_OFFSET := Z.lor c DESC_TABLE]> (zero_range c (1 * GRANULE) w) in
  grown dom tag (fa, w) (fun s => dom s \/ s = c) (tag_upd tag c ((tag t).1, (tag t).2 ++ [i])) (fa', w') /\
  umem w' t i = Z.lor c DESC_TABLE.
Proof.
  intros Hb Hd Hlt Hi Hz He c fa' w'. pose proof (fresh_not_dom _ _ _ Hb : ~ dom c) as Hnc.
  destruct Hb as (Hf & (Htr & Hfr) & Hwin). simpl in *. pose proof granule_bounds as Hg.
  pose proof Hf as (F0 & F1 & F2 & F3 & F4).
  assert (Hc : frame_ok c) by (split; [unfold c; lia|done]).
  assert (Hap : forall s, dom s -> s + GRANULE <= c \/ c + GRANULE <= s).
  { intros s Hs. destruct (Hfr s Hs) as [_ Ha]. apply aligned_apart; [done|done|]. by intros ->. }
  set (w1 := zero_range c (1 * GRANULE) w) in *.
  assert (Hw1 : w1 = zero_range c GRANULE w) by (unfold w1; f_equal; lia). clearbody w1. subst w1.
  set (w1 := zero_range c GRANULE w) in *.
  assert (Hag : forall s k, dom s -> umem w1 s k = umem w s k) by (intros; by apply umem_zero_out, Hap).
  assert (Ht1 : tree user_child 3 dom tag (umem w1)) by (by apply (tree_agree _ _ _ _ _ _ Htr)).
  assert (Hm := fun t' i' => write_ptr_ok w1 t i (Z.lor c DESC_TABLE) t' i' (Hfr t Hd) Hi).
  assert (Hz1 : umem w1 t i = 0) by by rewrite Hag.
  assert (Hc0 : forall k, umem w1 c k = 0) by (intros; apply umem_zero_in).
  pose proof (user_child_link c Hc) as Hch.
  split; [|unfold w'; by rewrite Hm, wr_eq]. split.
  - split_and!; simpl.
    + apply fa_alloc_wf; [done|lia|lia].
    + split; [apply (tree_ext user_child 3 _ _ Hm (fun s => dom s \/ s = c)); [done|];
        by apply (tree_link user_child 3)|]. intros s [Hs| ->]; [by apply Hfr|done].
    + intros s [Hs| ->]; simpl; [apply Hwin in Hs; lia|unfold c; lia].
  - simpl. split_and!; [done|done|lia].
  - intros s Hs. split; [by left|]. unfold tag_upd. rewrite decide_False; [done|]. by intros <-.
  - intros s [Hs| ->]; [by left|right; simpl; unfold c; lia].
  - intros s k Hs Hn. simpl. unfold w'. rewrite Hm, wr_ne; [by apply Hag|].
    destruct (decide (t = s)) as [<-|]; [|by left]. right. intros <-. simpl in Hn. by rewrite Hz in Hn.
  - intros j Hj. simpl in Hj. unfold w' in Hj. pose proof entries_granule.
    destruct (decide (t + KERNEL_VA_OFFSET + i * 8 - KERNEL_VA_OFFSET = j)) as [E|E].
    + exists t. split; [by left|lia].
    + rewrite lookup_insert_ne in Hj by done. exists c. split; [by right|]. by apply zero_range_lookup in Hj.
  - intros r l k Hr Hl. simpl. unfold w'. erewrite leaf_ext by exact Hm.
    rewrite (leaf_link user_child 3 dom tag _ _ _ _ c) by done.
    apply (leaf_agree user_child 3 dom tag (umem w)); [done|done|done|lia].
Qed.

Lemma fa_alloc_ok fa w :
  fa_wf fa ->
  fa_alloc (fa, w) =
    if decide (fa_next fa + GRANULE <= fa_end fa)
    then (Ok (fa_next fa), (mkFA (fa_start fa) (fa_next fa + 1 * GRANULE) (fa_end fa),
            zero_range (fa_next fa) (1 * GRANULE) w))
    else (Err MmuError.OutOfFrames, (fa, w)).
Proof.
  intros Hf. unfold fa_alloc. rewrite alloc_contig_spec by (done || lia). apply decide_ext. lia.
Qed.

Lemma build_walk_spec n level t va dom tag s :
  building dom tag s -> dom t -> 0 <= level -> level + Z.of_nat n = 3 -> length (tag t).2 = Z.to_nat level ->
  exists r s' dom' tag', build_walk n level t va s = (r, s') /\ grown dom tag s dom' tag' s' /\
    match r with
    | Ok t' => walk user_child (umem s'.2) t (ixs n level va) = Some t'
    | Err e => e = MmuError.OutOfFrames
    | _ => False
    end.
Proof.
  revert level t dom tag s. induction n as [|n IH]; intros level t dom tag [fa w] Hb Hd Hlv Hn Htg.
  { exists (Ok t), (fa, w), dom, tag. split_and!; [done|by apply grown_refl|done]. }
  assert (Hi : 0 <= index va level < ENTRIES) by (apply index_bounds; lia).
  pose proof Hb as (Hf & Hu & Hw). simpl in Hf, Hu, Hw. pose proof (proj2 Hu t Hd) as Hfr.
  cbn [build_walk]. unfold bind at 1, lift at 1. rewrite entry_ptr_ok by done.
  unfold bind at 1, on_words at 1. rewrite read_ptr_ok by done.
  destruct (Z.eqb_spec (umem w t (index va level)) 0) as [Hz|Hnz].
  - unfold bind at 1 2. rewrite fa_alloc_ok by done. case_decide as Hfit.
    2:{ exists (Err MmuError.OutOfFrames), (fa, w), dom, tag. split_and!; [done|by apply grown_refl|done]. }
    destruct (grown_link dom tag fa w t (index va level) Hb Hd) as [G Hm]; [lia|done|done|done|].
    unfold bind at 1, on_words at 1, write_ptr, ret at 1.
    set (s1 := (mkFA _ _ _, <[_ := _]> _)) in *. set (tag1 := tag_upd _ _ _) in G.
    destruct (IH (level + 1) (fa_next fa) _ tag1 s1 (gr_building _ _ _ _ _ _ G)) as (r & s2 & dom2 & tag2 & E & G2 & Hr).
    + by right.
    + lia.
    + lia.
    + unfold tag1, tag_upd. rewrite decide_True by done. simpl. rewrite length_app, Htg. simpl. lia.
    + exists r, s2, dom2, tag2. split_and!; [exact E|by eapply grown_trans|].
      destruct r as [t'| | |]; try done. simpl.
      assert (Hnz : Z.lor (fa_next fa) DESC_TABLE <> 0) by (intros E0; by apply Z.lor_eq_0_iff in E0 as [_ E0]).
      rewrite (gr_mem _ _ _ _ _ _ G2) by (try (by left); simpl; by rewrite Hm). simpl. rewrite Hm.
      rewrite (proj2 (Z.eqb_neq _ _) Hnz), user_child_link; [done|].
      destruct Hf as (? & ? & ? & ? & ?). pose proof granule_bounds. split; [lia|done].
  - destruct (inner_entry dom tag w t (index va level) Hu Hd) as (Hdesc & Hdc & Htc); [lia|done|].
    rewrite Hdesc. unfold bind at 1, ret at 1.
    destruct (IH (level + 1) _ dom tag (fa, w) Hb Hdc) as (r & s' & dom' & tag' & E & G & Hr);
      [lia|lia|rewrite Htc; simpl; rewrite length_app, Htg; simpl; lia|].
    exists r, s', dom', tag'. split_and!; [exact E|done|].
    destruct r as [t'| | |]; try done. simpl. rewrite (gr_mem _ _ _ _ _ _ G) by done. simpl.
    rewrite (proj2 (Z.eqb_neq _ _) Hnz). unfold user_child at 1. by rewrite Hdesc.
Qed.

(** ** Mapping pages *)

(** [n] pages of [root] from page [v0] on are mapped with descriptors [d]. *)
Record built (dom : Z -> Prop) (tag : tagging) (s : FrameAlloc * words) (root v0 n : Z) (d : Z -> Z)
    (dom' : Z -> Prop) (tag' : tagging) (s' : FrameAlloc * words) : Prop := {
  bt_building : building dom' tag' s';
  bt_window : fa_start s'.1 = fa_start s.1 /\ fa_end s'.1 = fa_end s.1 /\ fa_next s.1 <= fa_next s'.1;
  bt_dom : forall t, dom t -> dom' t /\ tag' t = tag t;
  bt_new : forall t, dom' t -> dom t \/ fa_next s.1 <= t;
  bt_words : forall j, s'.2 !! j <> s.2 !! j -> exists t, dom' t /\ t <= j < t + GRANULE;
  bt_free : forall va, v0 <= vpn va < v0 + n -> utranslate s.2 root va = None;
  bt_trans : forall r va, is_root dom tag r ->
    utranslate s'.2 r va = if decide (r = root /\ v0 <= vpn va < v0 + n) then Some (d (vpn va))
                           else utranslate s.2 r va
}.

Lemma built_nil dom tag s root v0 d : building dom tag s -> built dom tag s root v0 0 d dom tag s.
Proof.
  intros Hb. split; try done; [auto|intros; lia|]. intros. by rewrite decide_False by lia.
Qed.

Lemma built_cons dom tag s root v0 n d dom1 tag1 s1 dom2 tag2 s2 :
  is_root dom tag root -> 0 <= n ->
  built dom tag s root v0 1 d dom1 tag1 s1 -> built dom1 tag1 s1 root (v0 + 1) n d dom2 tag2 s2 ->
  built dom tag s root v0 (n + 1) d dom2 tag2 s2.
Proof.
  intros Hroot Hn [B1 (W1 & W2 & W3) D1 N1 J1 F1 T1] [B2 (W4 & W5 & W6) D2 N2 J2 F2 T2]. split.
  - done.
  - split_and!; [congruence|congruence|lia].
  - intros t Ht. destruct (D1 t Ht) as [Ht1 E1], (D2 t Ht1) as [Ht2 E2]. split; [done|congruence].
  - intros t Ht. destruct (N2 t Ht) as [Ht1|]; [auto|right; lia].
  - intros j Hj. destruct (decide (s1.2 !! j = s.2 !! j)) as [E|E].
    + rewrite <- E in Hj. auto.
    + destruct (J1 j E) as (t & Ht & Hr). exists t. split; [by apply D2|done].
  - intros va Hva. destruct (decide (vpn va = v0)); [apply F1; lia|].
    rewrite <- (F2 va) by lia. rewrite T1, decide_False; [done|lia|done].
  - intros r va [Hr Hg]. destruct (D1 r Hr) as [Hr1 E1].
    rewrite T2 by (split; [done|congruence]). rewrite T1 by done.
    destruct (decide (r = root)) as [->|Hne]; [|by rewrite !decide_False by tauto].
    destruct (decide (vpn va = v0)).
    + rewrite decide_False by lia. by rewrite !decide_True by lia.
    + destruct (decide (v0 + 1 <= vpn va < v0 + 1 + n)).
      * by rewrite !decide_True by lia.
      * by rewrite !decide_False by lia.
Qed.

Lemma same_page va va' w root : vpn va' = vpn va -> utranslate w root va' = utranslate w root va.
Proof. intros E. unfold utranslate. by destruct (proj2 (path_vpn va va') E) as [-> ->]. Qed.

Lemma us_map_page_spec dom tag s root va a attrs :
  building dom tag s -> is_root dom tag root -> attrs <> 0 ->
  exists r s', us_map_page root va a attrs s = (r, s') /\
    match r with
    | Ok _ => exists dom' tag', built dom tag s root (vpn va) 1 (fun _ => Z.lor a attrs) dom' tag' s'
    | Err e => e = MmuError.OutOfFrames \/ e = MmuError.Overlap
    | _ => False
    end.
Proof.
  intros Hb [Hd Hg] Ha. unfold us_map_page, bind at 1.
  destruct (build_walk_spec 3 0 root va dom tag s Hb Hd) as (r & [fa w] & dom' & tag' & -> & G & Hr); [lia|lia|by rewrite Hg|].
  destruct r as [t|e| |]; try done; [|eexists _, _; split; [done|by left]].
  pose proof (gr_building _ _ _ _ _ _ G) as (Hf & Hu & Hw). simpl in Hf, Hu, Hw.
  destruct (gr_dom _ _ _ _ _ _ G root Hd) as [Hd' Hg']. rewrite Hg in Hg'. cbn [snd] in Hr.
  change (ixs 3 0 va) with (path va) in Hr.
  destruct (walk_tag _ _ _ _ _ _ _ _ (proj1 Hu) Hd' Hr) as [Hdt Htt]; [by rewrite Hg'|].
  assert (Hi : 0 <= index va 3 < ENTRIES) by (apply index_bounds; lia).
  pose proof (proj2 Hu t Hdt) as Hfr. unfold bind at 1, lift at 1. rewrite entry_ptr_ok by done.
  unfold bind at 1, on_words at 1. rewrite read_ptr_ok by done.
  destruct (Z.eqb_spec (umem w t (index va 3)) 0) as [Hz|Hnz]; simpl; [|eexists _, _; split; [done|by right]].
  assert (Hroot' : is_root dom' tag' root) by done.
  assert (Hnzd : Z.lor a attrs <> 0) by (intros E; by apply Z.lor_eq_0_iff in E as [_ E]).
  destruct (user_write_leaf dom' tag' w root va t (Z.lor a attrs) Hu Hroot' Hnzd Hr Hz) as (Hn & Hu' & Ho & Ht).
  assert (Hsame : forall va', vpn va' = vpn va -> utranslate w root va' = None).
  { intros va' E. by rewrite (same_page va). }
  assert (Hkeep : forall r' va', is_root dom tag r' -> utranslate w r' va' = utranslate s.2 r' va').
  { intros r' va' [Hdr Hgr]. apply (gr_trans _ _ _ _ _ _ G); [done|by rewrite Hgr]. }
  eexists _, _. split; [done|]. exists dom', tag'. split.
  - by split_and!.
  - apply (gr_window _ _ _ _ _ _ G).
  - apply (gr_dom _ _ _ _ _ _ G).
  - apply (gr_new _ _ _ _ _ _ G).
  - intros j Hj. destruct (decide (w !! j = s.2 !! j)) as [E|E].
    + apply Ho. simpl in Hj. by rewrite E.
    + by apply (gr_words _ _ _ _ _ _ G).
  - intros va' Hva. rewrite <- Hkeep by done. apply Hsame. lia.
  - intros r' va' Hr'. simpl. rewrite Ht.
    + rewrite Hkeep by done. apply decide_ext. lia.
    + destruct Hr' as [Hdr Hgr]. destruct (gr_dom _ _ _ _ _ _ G r' Hdr) as [? E]. split; [done|congruence].
Qed.

Lemma us_map_pages_spec root va a len attrs fuel :
  attrs <> 0 -> 0 <= va -> 0 <= a -> va mod GRANULE = 0 -> va + len <= 2 ^ 48 -> a + len <= 2 ^ 48 ->
  forall dom tag s off, building dom tag s -> is_root dom tag root ->
  0 <= off -> off mod GRANULE = 0 -> len = off + Z.of_nat fuel * GRANULE ->
  exists r s', us_map_pages fuel root va a len attrs off s = (r, s') /\
    match r with
    | Ok _ => exists dom' tag', built dom tag s root (vpn va + off / GRANULE) (Z.of_nat fuel)
                (fun q => Z.lor (a + (q - vpn va) * GRANULE) attrs) dom' tag' s'
    | Err e => e = MmuError.OutOfFrames \/ e = MmuError.Overlap
    | _ => False
    end.
Proof.
  intros Hat Hva Ha Hvm Hvl Hal. pose proof granule_bounds as Hg.
  induction fuel as [|fuel IH]; intros dom tag s off Hb Hroot Ho Hom Hlen.
  { exists (Ok tt), s. simpl. rewrite (proj2 (Z.ltb_ge off len)) by lia. split; [done|].
    exists dom, tag. by apply built_nil. }
  cbn [us_map_pages]. rewrite (proj2 (Z.ltb_lt off len)) by nia. unfold bind at 1 2 3 4, lift.
  rewrite !add_p_ok by nia.
  destruct (us_map_page_spec dom tag s root (va + off) (a + off) attrs Hb Hroot Hat) as (r1 & s1 & -> & Hr1).
  destruct r1 as [[]|e| |]; try done; [|by eexists _, _].
  destruct Hr1 as (dom1 & tag1 & B1).
  assert (Hv : vpn (va + off) = vpn va + off / GRANULE).
  { apply vpn_add; [done|done| |done]. rewrite Z.mod_small; nia. }
  assert (Hom' : (off + GRANULE) mod GRANULE = 0 /\ (off + GRANULE) / GRANULE = off / GRANULE + 1).
  { replace (off + GRANULE) with (off + 1 * GRANULE) by lia.
    rewrite Z_mod_plus_full, Z_div_plus_full by lia. done. }
  assert (Hroot1 : is_root dom1 tag1 root).
  { destruct Hroot as [Hd Hgr], (bt_dom _ _ _ _ _ _ _ _ _ _ B1 root Hd) as [? E]. split; [done|congruence]. }
  destruct (IH dom1 tag1 s1 (off + GRANULE) (bt_building _ _ _ _ _ _ _ _ _ _ B1) Hroot1) as (r2 & s2 & E & Hr2);
    [lia|apply Hom'|lia|].
  exists r2, s2. split; [exact E|]. destruct r2 as [[]|e| |]; try done. destruct Hr2 as (dom2 & tag2 & B2).
  exists dom2, tag2. rewrite Nat2Z.inj_succ, <- Z.add_1_r. eapply built_cons; [done|lia| |].
  - rewrite Hv in B1. destruct B1 as [? ? ? ? ? ? T1]. split; try done. intros r va' Hr. rewrite T1 by done.
    case_decide as Ed; [|done]. do 2 f_equal. replace (vpn va') with (vpn va + off / GRANULE) by lia.
    pose proof (Z.div_mod off GRANULE). lia.
  - replace (vpn va + off / GRANULE + 1) with (vpn va + (off + GRANULE) / GRANULE) by lia. exact B2.
Qed.

(** [map_range]: the pages of the range, linearly, with the permission. *)
Lemma us_map_range_spec dom tag s root va a len perm :
  building dom tag s -> is_root dom tag root -> 0 <= va -> 0 <= a -> 0 <= len -> a + len <= 2 ^ 48 ->
  exists r s', us_map_range root va a len perm s = (r, s') /\
    match r with
    | Ok _ => va mod GRANULE = 0 /\ a mod GRANULE = 0 /\ len mod GRANULE = 0 /\ 0 < len /\
        GRANULE <= va /\ va + len <= 2 ^ 48 /\
        exists dom' tag', built dom tag s root (vpn va) (len / GRANULE)
          (fun q => Z.lor (a + (q - vpn va) * GRANULE) (UserPerm.attrs perm)) dom' tag' s'
    | Err e => e = MmuError.OutOfFrames \/ e = MmuError.Overlap \/ e = MmuError.Misaligned \/ e = MmuError.NullPage
    | _ => False
    end.
Proof.
  intros Hb Hroot Hva Ha Hlen Hal. pose proof granule_bounds as Hg. unfold us_map_range.
  destruct (_ || _) eqn:E; [eexists _, _; split; [done|tauto]|].
  rewrite !orb_false_iff, !negb_false_iff, !Z.eqb_eq, Z.eqb_neq in E. destruct E as (((E1 & E2) & E3) & E4).
  destruct (Z.ltb_spec va GRANULE); [eexists _, _; split; [done|tauto]|].
  unfold bind at 1, lift at 1, checked_add.
  destruct (Z.ltb_spec (va + len) U64); cbn [ok_or]; [|eexists _, _; split; [done|tauto]].
  change (Z.shiftl 1 48) with (2 ^ 48). destruct (Z.ltb_spec (2 ^ 48) (va + len)); [eexists _, _; split; [done|tauto]|].
  assert (Hdm : len = GRANULE * (len / GRANULE) + len mod GRANULE) by (apply Z.div_mod; lia).
  assert (0 <= len / GRANULE) by (apply Z.div_pos; lia).
  destruct (us_map_pages_spec root va a len (UserPerm.attrs perm) (Z.to_nat (len / GRANULE))
    (user_attrs_nonzero perm) Hva Ha E1) with (dom := dom) (tag := tag) (s := s) (off := 0) as (r & s' & Em & Hr);
    [lia|lia|done|done|lia|by apply Z.mod_0_l; lia|lia|].
  exists r, s'. split; [done|]. destruct r as [[]|e| |]; try done; [|tauto].
  destruct Hr as (dom' & tag' & B). split_and!; [done..|lia|lia|lia|]. exists dom', tag'.
  rewrite (Z.div_0_l GRANULE), Z.add_0_r, (Z2Nat.id (len / GRANULE)) in B by lia. done.
Qed.
End build.
