(* ===== verification/Kernel.v ===== *)
(** * The kernel: system calls, faults and preemption

    kernel/src/main.rs after the handoff ([k0_syscall] and its handlers,
    [k0_fault], [k0_preempt]) and the EL0 dispatcher of
    crates/k0-arch/src/usermode.rs ([el0_sync]), over the whole kernel state:
    the root CNode, tasks, the kernel's table pool, physical memory and the
    console.  [park] never returns; it is the error [Parked] of the handlers.

    The invariant of this state and the steps of the system are in System.v. *)

From S2P Require Import Prelude Abi Cap Task Sched Ipc Radix Paging User.

(** ** State *)

(** What the kernel prints: the bytes that DEBUG_PUTC sends to the UART, and its
    own messages. *)
Inductive conout :=
| OutByte (b : Z)
| OutExited (code : Z)
| OutUnknownSyscall (n : Z)
| OutFault (esr elr far : Z)
| OutAllExited
| OutAllBlocked
| OutCorruptTable.

Record kstate := mkK {
  k_cnode : CNode;
  k_tasks : tstate;
  k_pool : Pool;
  k_words : words;
  k_con : list conout
}.

Inductive halt := Parked.

Definition set_cnode (c : CNode) (k : kstate) : kstate := mkK c (k_tasks k) (k_pool k) (k_words k) (k_con k).
Definition set_tasks (t : tstate) (k : kstate) : kstate := mkK (k_cnode k) t (k_pool k) (k_words k) (k_con k).
Definition set_words (w : words) (k : kstate) : kstate := mkK (k_cnode k) (k_tasks k) (k_pool k) w (k_con k).
Definition print (o : conout) (k : kstate) : kstate :=
  mkK (k_cnode k) (k_tasks k) (k_pool k) (k_words k) (k_con k ++ [o]).

(** Handlers are computations over the kernel state that may park. *)
Abbreviation K := (M kstate halt).

Definition on_tasks (f : tstate -> tstate) : K unit := modS (fun k => set_tasks (f (k_tasks k)) k).

(** [park]: the processor stops for good. *)
Definition park {A} : K A := throw Parked.

Section handlers.
Context `{Platform, PoolVa}.

(** ** System calls *)

Definition safe_byte (byte : Z) : Z :=
  let b := Z.land byte 0xFF in
  if (b =? 10) || ((0x20 <=? b) && (b <=? 0x7E)) then b else 63.

(** [EarlyCon.put_byte]: a newline is sent as carriage return and newline.  Arch.v
    has the accesses to the UART behind it. *)
Definition con_put_byte (b : Z) : K unit :=
  do! _ := if b =? 10 then modS (print (OutByte 13)) else ret tt in
  modS (print (OutByte b)).

Definition sys_putc (slot byte : Z) : K Z :=
  do! k := getS in
  match cap (k_cnode k) slot with
  | Some Cap.Console => do! _ := con_put_byte (safe_byte byte) in ret 0
  | Some _ => ret err.BAD_CAP
  | None => ret err.BAD_SLOT
  end.

Definition sys_tcb_configure (slot entry stack aspace : Z) : K Z :=
  if negb (entry mod 4 =? 0) || (entry <? GRANULE) || (Z.shiftl 1 48 <=? entry) then ret err.BAD_VA else
  if negb (stack mod 16 =? 0) || (stack <? GRANULE) || (Z.shiftl 1 48 <? stack) then ret err.BAD_VA else
  do! k := getS in
  match cap (k_cnode k) aspace with
  | Some (Cap.AddrSpace root_pa) =>
    match cap (k_cnode k) slot with
    | Some (Cap.Tcb base) =>
      do! t := lift (add_p base KERNEL_VA_OFFSET) in
      if bool_decide (state (tcb (k_tasks k) t) = Inactive) then
        do! _ := on_tasks (upd_tcb t (fun tc =>
          mkTcb (mkContext (x zeroed) stack entry 0 (tpidr zeroed) (tpidrro zeroed)) root_pa Stopped
                (next tc) (reply_to tc))) in
        ret 0
      else ret err.BAD_STATE
    | Some _ => ret err.BAD_CAP
    | None => ret err.BAD_SLOT
    end
  | Some _ => ret err.BAD_CAP
  | None => ret err.BAD_SLOT
  end.

Definition sys_tcb_resume (slot : Z) : K Z :=
  do! k := getS in
  match cap (k_cnode k) slot with
  | Some (Cap.Tcb base) =>
    do! t := lift (add_p base KERNEL_VA_OFFSET) in
    if bool_decide (state (tcb (k_tasks k) t) = Stopped) then
      do! _ := on_tasks (enqueue t) in ret 0
    else ret err.BAD_STATE
  | Some _ => ret err.BAD_CAP
  | None => ret err.BAD_SLOT
  end.

(** [write_bytes] over a granule at its alias: the words and the objects there. *)
Definition zero_objects (va len : Z) (st : tstate) : tstate :=
  mkTstate (filter (fun kv => ~ (va <= kv.1 < va + len)) (tcbs st))
    (filter (fun kv => ~ (va <= kv.1 < va + len)) (eps st)) (sched st) (current_context st) (ttbr0 st).

Definition world : Type := Pool * tstate * words.

(** The preparation closure of [sys_retype]: map the alias, then erase. *)
Definition prep_granule (a : Z) (w : world) : res Empty_set bool * world :=
  let '(p, st, wd) := w in
  match add_p a GRANULE with
  | Ok e =>
    match map_kernel_window (mkRange a e) p with
    | (Ok _, p') =>
      match add_p a KERNEL_VA_OFFSET with
      | Ok va => (Ok true, (p', zero_objects va GRANULE st, zero_range a GRANULE wd))
      | Err e' => match e' : Empty_set with end
      | Panic => (Panic, (p', st, wd))
      | OutOfFuel => (OutOfFuel, (p', st, wd))
      end
    | (Err _, p') => (Ok false, (p', st, wd))
    | (Panic, p') => (Panic, (p', st, wd))
    | (OutOfFuel, p') => (OutOfFuel, (p', st, wd))
    end
  | Err e' => match e' : Empty_set with end
  | Panic => (Panic, w)
  | OutOfFuel => (OutOfFuel, w)
  end.

Definition obj_kind (kind : Z) : option ObjKind.t :=
  if kind =? obj.FRAME then Some ObjKind.Frame else
  if kind =? obj.PAGE_TABLE then Some ObjKind.PageTable else
  if kind =? obj.TCB then Some ObjKind.Tcb else
  if kind =? obj.ENDPOINT then Some ObjKind.Endpoint else None.

Definition retype_code (r : res RetypeError.t Z) : res halt Z :=
  match r with
  | Ok n => Ok n
  | Err RetypeError.BadSlot => Ok err.BAD_SLOT
  | Err RetypeError.NotUntyped => Ok err.NOT_UNTYPED
  | Err RetypeError.Exhausted => Ok err.EXHAUSTED
  | Err RetypeError.OutOfSlots => Ok err.OUT_OF_SLOTS
  | Err RetypeError.PrepFailed => Ok err.KERNEL_RESOURCE
  | Panic => Panic
  | OutOfFuel => OutOfFuel
  end.

Definition sys_retype (slot kind : Z) : K Z := fun k =>
  match obj_kind kind with
  | None => (Ok err.BAD_TYPE, k)
  | Some kd =>
    let '(r, (cn, (p, st, wd))) :=
      retype slot kd GRANULE prep_granule (k_cnode k, (k_pool k, k_tasks k, k_words k)) in
    (retype_code r, mkK cn st p wd (k_con k))
  end.

Definition mmu_err (e : MmuError.t) : K Z :=
  match e with
  | MmuError.Misaligned | MmuError.NullPage => ret err.BAD_VA
  | MmuError.Overlap => ret err.OVERLAP
  | MmuError.MissingTable => ret err.MISSING_TABLE
  | MmuError.BadTable => do! _ := modS (print OutCorruptTable) in park
  | _ => ret err.KERNEL_RESOURCE
  end.

(** Runs a page-table operation on physical memory; its error is a value. *)
Definition run_mmu {A} (m : M words MmuError.t A) : K (A + MmuError.t) := fun k =>
  match m (k_words k) with
  | (Ok v, w) => (Ok (inl v), set_words w k)
  | (Err e, w) => (Ok (inr e), set_words w k)
  | (Panic, w) => (Panic, set_words w k)
  | (OutOfFuel, w) => (OutOfFuel, set_words w k)
  end.

Definition user_perm (perm : Z) : option UserPerm.t :=
  if perm =? perm.RO then Some UserPerm.RoUser else
  if perm =? perm.RW then Some UserPerm.RwUser else None.

Definition sys_map (slot va perm aspace : Z) : K Z :=
  do! k := getS in
  match cap (k_cnode k) aspace with
  | Some (Cap.AddrSpace root) =>
    match cap_mut (k_cnode k) slot with
    | Some (Cap.Frame base mapped) =>
      if (mapped : bool) then ret err.ALREADY_MAPPED else
      match user_perm perm with
      | None => ret err.BAD_PERM
      | Some up =>
        do! r := run_mmu (user_map_frame root va base up) in
        match r with
        | inl _ => do! _ := modS (fun k => set_cnode (set_slot (k_cnode k) slot (Cap.Frame base true)) k) in ret 0
        | inr e => mmu_err e
        end
      end
    | Some (Cap.PageTable base installed) =>
      if (installed : bool) then ret err.ALREADY_MAPPED else
      do! r := run_mmu (user_install_table root va base) in
      match r with
      | inl _ => do! _ := modS (fun k => set_cnode (set_slot (k_cnode k) slot (Cap.PageTable base true)) k) in ret 0
      | inr e => mmu_err e
      end
    | Some _ => ret err.BAD_CAP
    | None => ret err.BAD_SLOT
    end
  | Some _ => ret err.BAD_CAP
  | None => ret err.BAD_SLOT
  end.

(** ** Dispatch *)

(** [kill_current]; [Ipc.kill_current] is its effect on the tasks. *)
Definition kill : K unit :=
  do! k := getS in
  let '(b, st) := kill_current (k_tasks k) in
  do! _ := modS (set_tasks st) in
  if (b : bool) then ret tt else do! _ := modS (print OutAllExited) in park.

Definition ipc_or_park (h : CNode -> Z -> tstate -> res Empty_set bool * tstate) (c : Z) : K unit := fun k =>
  match h (k_cnode k) c (k_tasks k) with
  | (Ok b, st) =>
    (if (b : bool) then ret tt else do! _ := modS (print OutAllBlocked) in park) (set_tasks st k)
  | (Err e, _) => match e : Empty_set with end
  | (Panic, st) => (Panic, set_tasks st k)
  | (OutOfFuel, st) => (OutOfFuel, set_tasks st k)
  end.

(** [ctx.x[0] = m as u64]. *)
Definition to_x0 (c : Z) (m : K Z) : K unit :=
  do! v := m in on_tasks (set_ctx c (set_reg 0 (as_u64 v))).

Definition k0_syscall (c : Z) : K unit :=
  do! k := getS in
  let xr := reg (ctx (tcb (k_tasks k) c)) in
  let n := xr 8%nat in
  if n =? syscall.DEBUG_PUTC then to_x0 c (sys_putc (xr 0%nat) (xr 1%nat)) else
  if n =? syscall.YIELD then
    do! _ := on_tasks (set_ctx c (set_reg 0 0)) in on_tasks rotate
  else if n =? syscall.EXIT then
    do! _ := modS (print (OutExited (xr 0%nat))) in kill
  else if n =? syscall.RETYPE then to_x0 c (sys_retype (xr 0%nat) (xr 1%nat)) else
  if n =? syscall.MAP then to_x0 c (sys_map (xr 0%nat) (xr 1%nat) (xr 2%nat) (xr 3%nat)) else
  if n =? syscall.TCB_CONFIGURE then
    to_x0 c (sys_tcb_configure (xr 0%nat) (xr 1%nat) (xr 2%nat) (xr 3%nat))
  else if n =? syscall.TCB_RESUME then to_x0 c (sys_tcb_resume (xr 0%nat)) else
  if n =? syscall.SEND then ipc_or_park sys_send c else
  if n =? syscall.RECV then ipc_or_park sys_recv c else
  if n =? syscall.CALL then ipc_or_park sys_call c else
  if n =? syscall.REPLY_RECV then ipc_or_park sys_reply_recv c else
  do! _ := modS (print (OutUnknownSyscall n)) in kill.

Definition k0_fault (c esr far : Z) : K unit :=
  do! k := getS in
  do! _ := modS (print (OutFault esr (elr (ctx (tcb (k_tasks k) c))) far)) in kill.

Definition k0_preempt : K unit := on_tasks rotate.

(** usermode.rs [el0_sync], on the syndrome registers. *)
Definition el0_sync (c esr far : Z) : K unit :=
  let ec := Z.land (Z.shiftr esr 26) 0x3F in
  if ec =? 0x15 then k0_syscall c
  else if ec =? 0x01 then
    do! k := getS in
    let cx := ctx (tcb (k_tasks k) c) in
    do! e := lift (add_p (elr cx) 4) in
    on_tasks (set_ctx c (fun cx => mkContext (x cx) (sp cx) e (spsr cx) (tpidr cx) (tpidrro cx)))
  else k0_fault c esr far.
End handlers.
