(* ===== verification/System.v ===== *)
(** * The system invariant

    The states that the kernel and its tasks can reach together.  A step of the
    system is a task running in user mode, with any effect that its registers
    and its writable mappings allow, until it traps, and the kernel's handling of
    the trap ([el0_sync] or the timer tick).

    [kinv] ties the components together: a TCB or endpoint that takes part in
    scheduling is the object of a capability, the page tables in use are the boot
    tables and the installed page tables, a user mapping names a boot frame of
    the root task or a mapped frame capability, and all these are disjoint. *)

From S2P Require Import Prelude Abi Cap Task Sched Ipc Radix Paging User Build Kernel.

(** ** The board

    What the boot sequence leaves behind and no system call changes: the
    physical memory given to user space as untyped memory, the frames of the
    root task's tables, its other frames, and the address of the root TCB. *)

Record board := mkBoard {
  b_allowed : Z -> Prop;
  b_table : Z -> Prop;
  b_frame : Z -> Prop;
  b_root_tcb : Z
}.

Section inv.
Context `{Platform, PoolVa, !PoolVaOk}.

Record board_ok (b : board) : Prop := {
  bo_allowed : forall p, b_allowed b p -> 0 <= p < 2 ^ 48;
  bo_table : forall t, b_table b t -> frame_ok t /\ forall p, t <= p < t + GRANULE -> ~ b_allowed b p;
  bo_frame : forall f, b_frame b f -> frame_ok f /\ ~ b_table b f /\
    forall p, f <= p < f + GRANULE -> ~ b_allowed b p;
  bo_tcb : KERNEL_VA_OFFSET <= b_root_tcb b /\ ~ b_allowed b (b_root_tcb b - KERNEL_VA_OFFSET)
}.

(** TCBs and endpoints are the objects of capabilities. *)
Definition live (b : board) (cn : CNode) (p : Z) : Prop :=
  p = b_root_tcb b \/ exists base, Cap.Tcb base ∈ filled cn /\ p = base + KERNEL_VA_OFFSET.
Definition isep (cn : CNode) (e : Z) : Prop :=
  exists base, Cap.Endpoint base ∈ filled cn /\ e = base + KERNEL_VA_OFFSET.

Record tasks_inv (b : board) (cn : CNode) (st : tstate) (a : astate) : Prop := {
  ti_rep : rep st a;
  ti_ainv : ainv (live b cn) (isep cn) a;
  ti_ctxs : ctxs_ok a;
  (* every started task has an address space that a capability names *)
  ti_roots : forall p, a_state a p <> Inactive -> Cap.AddrSpace (a_root a p) ∈ filled cn
}.

Definition kernel_space_inv (p : Pool) : Prop :=
  pool_inv [0; 1] p /\ enabled p = true /\ root1 p = 1 /\
  forall root va d, root ∈ [0; 1] -> translate p root va = Some d -> kernel_safe d.

(** What a user mapping may name. *)
Definition leaf_ok (b : board) (cn : CNode) (d : Z) : Prop :=
  user_safe d /\
  (b_frame b (Z.land d ADDR_MASK) \/
   Cap.Frame (Z.land d ADDR_MASK) true ∈ filled cn /\ el0_executable d = false).

Record spaces_inv (b : board) (cn : CNode) (w : words) (dom : Z -> Prop) (tag : tagging) : Prop := {
  si_space : user_space dom tag w;
  si_dom : forall t, dom t <-> b_table b t \/ Cap.PageTable t true ∈ filled cn;
  si_roots : forall r, Cap.AddrSpace r ∈ filled cn -> is_root dom tag r;
  si_fresh : forall t i, Cap.PageTable t false ∈ filled cn -> umem w t i = 0;
  si_leaf : forall r va d, Cap.AddrSpace r ∈ filled cn -> utranslate w r va = Some d -> leaf_ok b cn d
}.

Definition kinv (b : board) (k : kstate) : Prop :=
  caps_inv GRANULE (b_allowed b) (k_cnode k) /\
  (exists a, tasks_inv b (k_cnode k) (k_tasks k) a) /\
  kernel_space_inv (k_pool k) /\
  exists dom tag, spaces_inv b (k_cnode k) (k_words k) dom tag.

(** ** Steps *)

(** A store reaches only pages that the task may write. *)
Definition user_store (root : Z) (w w' : words) : Prop :=
  forall j, w' !! j <> w !! j -> exists va d, utranslate w root va = Some d /\ el0_writable d = true /\
    Z.land d ADDR_MASK <= j < Z.land d ADDR_MASK + GRANULE.

(** The running task executes at EL0 until the next exception, which saves its
    registers; the saved mode is EL0. *)
Definition user_run (k k' : kstate) : Prop :=
  exists cx w', ctx_ok cx /\ user_store (ttbr0 (k_tasks k)) (k_words k) w' /\
    k' = set_words w' (set_tasks (set_ctx (current_context (k_tasks k)) (fun _ => cx) (k_tasks k)) k).

(** The exceptions after which the kernel goes on: a synchronous one of user mode,
    and the timer.  A spurious interrupt is ignored; any other interrupt and an
    SError stop the machine ([Arch.interrupt_exact], [Arch.fatal_report]). *)
Inductive event :=
| Sync (esr far : Z)
| Tick.

Definition handle (ev : event) : K unit := fun k =>
  match ev with
  | Sync esr far => el0_sync (current_context (k_tasks k)) esr far k
  | Tick => k0_preempt k
  end.

(** A trapped WFI or WFE was fetched from the user half of the address space. *)
Definition trap_ok (ev : event) (k : kstate) : Prop :=
  match ev with
  | Sync esr _ => Z.land (Z.shiftr esr 26) 0x3F = 0x01 ->
      elr (ctx (tcb (k_tasks k) (current_context (k_tasks k)))) < 2 ^ 48
  | Tick => True
  end.

Inductive step (k k' : kstate) : Prop :=
| step_trap k1 ev : user_run k k1 -> trap_ok ev k1 -> handle ev k1 = (Ok tt, k') -> step k k'.

Inductive reachable (k0 : kstate) : kstate -> Prop :=
| reach_init : reachable k0 k0
| reach_step k k' : reachable k0 k -> step k k' -> reachable k0 k'.

(** Nobody can run: the state in which the kernel parks. *)
Definition nobody_runs (k : kstate) : Prop :=
  forall p, state (tcb (k_tasks k) p) <> Ready /\ state (tcb (k_tasks k) p) <> Running.

(** What a handler of the kernel does from a good state. *)
Definition handler_ok (b : board) (m : K unit) (k : kstate) : Prop :=
  exists r k', m k = (r, k') /\
    match r with Ok _ => kinv b k' | Err Parked => nobody_runs k' | _ => False end.

(** A system call that returns a code always returns. *)
Definition call_ok (b : board) (m : K Z) (k : kstate) : Prop :=
  exists v k', m k = (Ok v, k') /\ kinv b k'.

(** ** Tasks *)

Lemma ainv_live_self live' isep' a :
  ainv live' isep' a -> ainv (fun p => a_state a p <> Inactive) isep' a.
Proof.
  intros ([] & Hr & Hm). split_and!; [|done..]. split; try done. intros Hi. by apply ac_live0, ac_live.
Qed.

Lemma spec_block_root a : a_root (snd (spec_block a)) = a_root a.
Proof. unfold spec_block. by destruct (a_ready a). Qed.

Lemma spec_rotate_root a : a_root (spec_rotate a) = a_root a.
Proof. unfold spec_rotate. by destruct (a_ready a). Qed.

Lemma spec_abort_root h a : a_root (spec_abort h a) = a_root a.
Proof. unfold spec_abort. by repeat case_match. Qed.

Lemma spec_kill_root a : a_root (snd (spec_kill a)) = a_root a.
Proof. unfold spec_kill, spec_exit. rewrite spec_block_root. apply spec_abort_root. Qed.

Lemma spec_recv_root e nb a : a_root (snd (spec_recv e nb a)) = a_root a.
Proof.
  unfold spec_recv, spec_block_on. destruct (first_waiter _ _ _) as [[s l]|].
  - case_decide; simpl; by rewrite ?spec_abort_root.
  - destruct nb; [done|]. by rewrite spec_block_root.
Qed.

Lemma contract_root kd e nb a : a_root (snd (contract kd e nb a)) = a_root a.
Proof.
  destruct kd; simpl.
  - unfold spec_send, spec_block_on. destruct (first_waiter _ _ _) as [[s l]|]; [done|].
    destruct nb; [done|]. by rewrite spec_block_root.
  - apply spec_recv_root.
  - unfold spec_call, spec_block_on. destruct (first_waiter _ _ _) as [[s l]|].
    + rewrite spec_block_root. simpl. by rewrite spec_abort_root.
    + destruct nb; [done|]. by rewrite spec_block_root.
  - unfold spec_reply_recv. rewrite spec_recv_root. unfold spec_reply. by case_decide.
Qed.

Lemma spec_ipc_root kd cn a : a_root (snd (spec_ipc kd cn a)) = a_root a.
Proof. unfold spec_ipc. destruct (ep_of _ _); [apply contract_root|done..]. Qed.

(** Task operations that start no task keep the address spaces. *)
Lemma roots_keep b cn st a a' :
  tasks_inv b cn st a -> a_root a' = a_root a ->
  ainv (fun p => a_state a p <> Inactive) (isep cn) a' ->
  forall p, a_state a' p <> Inactive -> Cap.AddrSpace (a_root a' p) ∈ filled cn.
Proof.
  intros Ht Hr [Ha _] p Hp. rewrite Hr. apply (ti_roots _ _ _ _ Ht). by apply (ac_live _ _ _ _ Ha).
Qed.

Lemma tasks_set_ctx b cn st a p f :
  tasks_inv b cn st a -> (forall cx, ctx_ok cx -> ctx_ok (f cx)) ->
  tasks_inv b cn (set_ctx p f st) (spec_set_ctx p f a).
Proof.
  intros [] Hf. split; [by apply rep_set_ctx|by apply ainv_set_ctx|by apply ctxs_ok_upd; auto|done].
Qed.

Lemma tasks_rotate b cn st a : tasks_inv b cn st a -> tasks_inv b cn (rotate st) (spec_rotate a).
Proof.
  intros Ht. pose proof Ht as [Hr Ha Hc Hro]. split.
  - apply rep_rotate; [done|]. by eapply ainv_cur_unqueued.
  - by apply spec_rotate_inv.
  - intros p. replace (a_ctx (spec_rotate a)) with (a_ctx a); [done|].
    unfold spec_rotate. by destruct (a_ready a).
  - eapply roots_keep; [done|apply spec_rotate_root|]. by eapply spec_rotate_inv, ainv_live_self.
Qed.

(** Killing the running task hands over to the next ready one, if any. *)
Lemma tasks_kill b cn st a :
  tasks_inv b cn st a -> exists r st', kill_current st = (r, st') /\
    if r then exists a', tasks_inv b cn st' a'
    else forall p, state (tcb st' p) <> Ready /\ state (tcb st' p) <> Running.
Proof.
  intros Ht. pose proof Ht as [Hr Ha Hc Hro].
  destruct (kill_refines _ _ st a Hr Ha) as (st' & Hk & Hr').
  exists (fst (spec_kill a)), st'. split; [done|].
  pose proof (spec_kill_inv _ _ a _ _ Ha (surjective_pairing _)) as Ho.
  pose proof (spec_kill_inv _ _ a _ _ (ainv_live_self _ _ _ Ha) (surjective_pairing _)) as Ho'.
  unfold outcome in *. destruct (fst (spec_kill a)).
  - exists (snd (spec_kill a)). split; [done|done|by apply spec_kill_ctxs|].
    by eapply roots_keep; [|apply spec_kill_root|].
  - intros p. rewrite !(rep_state _ _ Hr'). apply Ho.
Qed.

Lemma tasks_ipc b cn st a kd :
  tasks_inv b cn st a -> endpoints_ok (isep cn) cn ->
  exists r st', handler kd cn (current_context st) st = (Ok r, st') /\
    if (r : bool) then exists a', tasks_inv b cn st' a'
    else forall p, state (tcb st' p) <> Ready /\ state (tcb st' p) <> Running.
Proof.
  intros Ht He. pose proof Ht as [Hr Ha Hc Hro].
  destruct (ipc_step _ _ kd cn st a Hr Ha He) as (st' & Hk & Hr').
  exists (fst (spec_ipc kd cn a)), st'. split; [done|].
  pose proof (spec_ipc_inv _ _ kd cn a _ _ Ha He (surjective_pairing _)) as Ho.
  pose proof (spec_ipc_inv _ _ kd cn a _ _ (ainv_live_self _ _ _ Ha) He (surjective_pairing _)) as Ho'.
  unfold outcome in *. destruct (fst (spec_ipc kd cn a)).
  - exists (snd (spec_ipc kd cn a)). split; [done|done|by apply spec_ipc_ctxs|].
    by eapply roots_keep; [|apply spec_ipc_root|].
  - intros p. rewrite !(rep_state _ _ Hr'). apply Ho.
Qed.

(** ** Capabilities *)

Lemma cap_filled cn slot c : cap cn slot = Some c -> c ∈ filled cn.
Proof. unfold cap, get. case_match; [|done]. apply list_elem_of_lookup_2. Qed.

(** The object of a capability lies in allowed memory, below 2^48. *)
Lemma object_bounds b cn c base :
  board_ok b -> caps_inv GRANULE (b_allowed b) cn -> c ∈ filled cn ->
  extent GRANULE c = Some (base, base + GRANULE) ->
  (forall p, base <= p < base + GRANULE -> b_allowed b p) /\ 0 <= base /\ base + GRANULE <= 2 ^ 48.
Proof.
  intros Hb Hc [i Hi]%list_elem_of_lookup He. pose proof granule_bounds.
  assert (Hal : forall p, base <= p < base + GRANULE -> b_allowed b p) by (intros; by eapply ci_allowed).
  split; [done|]. assert (0 <= base < 2 ^ 48) by (apply (bo_allowed b Hb), Hal; lia).
  assert (0 <= base + GRANULE - 1 < 2 ^ 48) by (apply (bo_allowed b Hb), Hal; lia). lia.
Qed.

Lemma object_aligned al cn c base :
  caps_inv GRANULE al cn -> c ∈ filled cn ->
  c = Cap.Tcb base \/ c = Cap.Endpoint base \/ (exists m, c = Cap.Frame base m) \/ (exists m, c = Cap.PageTable base m) ->
  base mod GRANULE = 0.
Proof.
  intros Hc Hin Hk. pose proof (proj1 (list.Forall_forall _ _) (ci_caps _ _ _ Hc) c Hin) as Hw.
  destruct Hk as [->|[->|[[m ->]|[m ->]]]]; apply Hw.
Qed.

Lemma endpoints_ok_isep b cn :
  board_ok b -> caps_inv GRANULE (b_allowed b) cn -> endpoints_ok (isep cn) cn.
Proof.
  intros Hb Hc slot. unfold ep_of. destruct (cap cn slot) as [c|] eqn:E; [|done]. apply cap_filled in E.
  destruct c; try done. destruct (object_bounds b cn _ _ Hb Hc E eq_refl) as (_ & ? & ?).
  pose proof granule_bounds. assert (KERNEL_VA_OFFSET + 2 ^ 48 = U64) by reflexivity.
  rewrite add_p_ok by lia. by exists base.
Qed.

(** *** Configuring and starting a task *)

Definition spec_configure (t root : Z) (cx : Context) (a : astate) : astate :=
  mkA (a_cur a) (a_ready a) (a_wait a) (upd (a_state a) t Stopped) (a_reply a) (upd (a_ctx a) t cx)
    (upd (a_root a) t root) (a_mmu a).

Lemma rep_configure st a t root cx :
  rep st a -> Z.land root BADDR_MASK = root ->
  rep (upd_tcb t (fun tc => mkTcb cx root Stopped (next tc) (reply_to tc)) st) (spec_configure t root cx a).
Proof.
  intros H2 Hr. split; simpl; try solve [eauto with k0]; try solve [heap_fields].
  - same_links H2.
  - same_links H2.
  - intros p. unfold upd. case_decide; [done|]. by apply (rep_root_ok _ _ H2).
Qed.

Lemma frame_baddr r : frame_ok r -> Z.land r BADDR_MASK = r.
Proof.
  intros [Hr Hm]. assert (Hm' : Z.land BADDR_MASK ADDR_MASK = ADDR_MASK).
  { unfold BADDR_MASK, ADDR_MASK, GRANULE. by destruct plat. }
  rewrite <- (land_addr_mask r) at 1 by done. rewrite <- Z.land_assoc, (Z.land_comm ADDR_MASK), Hm'.
  by apply land_addr_mask.
Qed.

Lemma tasks_configure b cn st a base root cx :
  let t := base + KERNEL_VA_OFFSET in
  tasks_inv b cn st a -> Cap.Tcb base ∈ filled cn -> Cap.AddrSpace root ∈ filled cn ->
  frame_ok root -> ctx_ok cx -> state (tcb st t) = Inactive ->
  tasks_inv b cn (upd_tcb t (fun tc => mkTcb cx root Stopped (next tc) (reply_to tc)) st)
    (spec_configure t root cx a).
Proof.
  intros t [Hr (Ha & Hra & Hm) Hc Hro] Ht Hroot Hf Hcx Hs. rewrite (rep_state _ _ Hr) in Hs.
  assert (Hlive : live b cn t) by (right; eauto).
  assert (Hcur : a_state a (a_cur a) = Running) by by apply (ac_running _ _ _ _ Ha).
  split.
  - by apply rep_configure, frame_baddr.
  - split_and!.
    + eapply (enter_neutral _ _ _ a t Stopped) in Ha; [|by rewrite Hs|done|done].
      eapply acore_ext; [exact Ha|done|done|done|done].
    + intros h Hh. simpl. upd_cases t h; [|by apply Hra]. apply Hra in Hh. by rewrite Hs in Hh.
    + simpl. rewrite upd_ne; [done|]. intros E. by rewrite E, Hcur in Hs.
  - intros p. simpl. by upd_cases t p.
  - intros p. simpl. by upd_cases t p; auto.
Qed.

Lemma tasks_resume b cn st a base :
  let t := base + KERNEL_VA_OFFSET in
  tasks_inv b cn st a -> Cap.Tcb base ∈ filled cn -> state (tcb st t) = Stopped ->
  tasks_inv b cn (enqueue t st) (spec_enqueue t a).
Proof.
  intros t [Hr (Ha & Hra & Hm) Hc Hro] Ht Hs. rewrite (rep_state _ _ Hr) in Hs.
  assert (Hlive : live b cn t) by (right; eauto).
  assert (Hn : neutral (a_state a t) = true) by by rewrite Hs.
  split.
  - apply rep_push; [done|]. by eapply neutral_unqueued.
  - split_and!; [by apply enter_ready| |done].
    by apply (replies_active_upd (spec_set_ready _ a) t Ready).
  - done.
  - intros p Hp. simpl in *. apply Hro. by upd_cases t p; [rewrite Hs|].
Qed.

(** *** Retype *)

Lemma tcb_zero_objects va len st p :
  tcb (zero_objects va len st) p = if decide (va <= p < va + len) then zero_tcb else tcb st p.
Proof.
  unfold tcb, zero_objects. simpl. rewrite map_lookup_filter.
  destruct (tcbs st !! p); simpl; case_decide; try done.
  - by rewrite option_guard_False by tauto.
  - by rewrite option_guard_True by tauto.
Qed.

Lemma ep_zero_objects va len st p :
  ep (zero_objects va len st) p = if decide (va <= p < va + len) then zero_ep else ep st p.
Proof.
  unfold ep, zero_objects. simpl. rewrite map_lookup_filter.
  destruct (eps st !! p); simpl; case_decide; try done.
  - by rewrite option_guard_False by tauto.
  - by rewrite option_guard_True by tauto.
Qed.

Definition spec_zero (va len : Z) (a : astate) : astate :=
  mkA (a_cur a) (a_ready a) (a_wait a) (a_state a) (a_reply a)
    (fun p => if decide (va <= p < va + len) then zeroed else a_ctx a p)
    (fun p => if decide (va <= p < va + len) then 0 else a_root a p) (a_mmu a).

(** Erasing addresses that no object occupies. *)
Lemma tasks_zero b cn st a va len :
  tasks_inv b cn st a -> (forall p, va <= p < va + len -> ~ live b cn p /\ ~ isep cn p) ->
  tasks_inv b cn (zero_objects va len st) (spec_zero va len a).
Proof.
  intros [Hr (Ha & Hra & Hm) Hc Hro] Hfree.
  assert (Hin : forall p, va <= p < va + len -> a_state a p = Inactive).
  { intros p Hp. destruct (decide (a_state a p = Inactive)) as [|E]; [done|].
    apply (ac_live _ _ _ _ Ha) in E. by apply Hfree in Hp as []. }
  assert (Hre : forall p, va <= p < va + len -> a_reply a p = 0).
  { intros p Hp. destruct (decide (a_reply a p = 0)) as [|E]; [done|].
    apply Hra in E. by rewrite Hin in E. }
  assert (Hwa : forall p, va <= p < va + len -> a_wait a p = []).
  { intros p Hp. destruct (decide (a_wait a p = [])) as [|E]; [done|].
    apply (ac_isep _ _ _ _ Ha) in E. by apply Hfree in Hp as []. }
  assert (Hcur : a_state a (a_cur a) = Running) by by apply (ac_running _ _ _ _ Ha).
  assert (Hnx : forall p, a_state a p <> Inactive -> nx (zero_objects va len st) p = nx st p).
  { intros p Hp. unfold nx. rewrite tcb_zero_objects. case_decide; [|done]. by destruct (Hp (Hin _ ltac:(done))). }
  split.
  - split; simpl; try solve [apply Hr].
    + eapply queue_frame; [|apply Hr]. intros p Hp. apply Hnx.
      apply (ac_ready _ _ _ _ Ha) in Hp. by rewrite Hp.
    + intros e. rewrite ep_zero_objects. case_decide as E; [rewrite Hwa by done; by apply queue_nil|].
      eapply queue_frame; [|apply Hr]. intros p Hp. apply Hnx.
      pose proof (wait_state _ _ _ _ _ _ Ha Hp) as Hw. by destruct (a_state a p).
    + intros p. rewrite tcb_zero_objects. case_decide; [by rewrite Hin|apply Hr].
    + intros p. rewrite tcb_zero_objects. case_decide; [by rewrite Hre|apply Hr].
    + intros p. rewrite tcb_zero_objects. case_decide; [done|apply Hr].
    + intros p. rewrite tcb_zero_objects. case_decide; [done|apply Hr].
    + intros p. case_decide; [done|apply Hr].
  - split_and!; [by eapply acore_ext|done|]. simpl. case_decide as E; [|done].
    by rewrite Hin in Hcur.
  - intros p. simpl. case_decide; [apply zeroed_ok|apply Hc].
  - intros p Hp. simpl in *. case_decide; [by destruct (Hp (Hin _ ltac:(done)))|auto].
Qed.

(** More objects do no harm. *)
Lemma tasks_mono b cn cn' st a :
  tasks_inv b cn st a ->
  (forall p, live b cn p -> live b cn' p) -> ~ live b cn' 0 -> (forall e, isep cn e -> isep cn' e) ->
  (forall r, Cap.AddrSpace r ∈ filled cn -> Cap.AddrSpace r ∈ filled cn') ->
  tasks_inv b cn' st a.
Proof.
  intros [Hr ([] & Hra & Hm) Hc Hro] Hl H0' Hi Has. split; [done| |done|auto].
  split_and!; [|done..]. split; auto.
Qed.

Lemma not_live_0 b cn : board_ok b -> caps_inv GRANULE (b_allowed b) cn -> ~ live b cn 0.
Proof.
  intros Hb Hc. assert (Hp : 0 < KERNEL_VA_OFFSET) by reflexivity.
  intros [E|(base & Hin & E)].
  - pose proof (bo_tcb _ Hb). lia.
  - destruct (object_bounds b cn _ _ Hb Hc Hin eq_refl). lia.
Qed.

Lemma prep_granule_spec c p st wd :
  kernel_space_inv p -> 0 <= c -> c + GRANULE <= 2 ^ 48 ->
  prep_granule c (p, st, wd) = (Ok false, (p, st, wd)) \/
  exists p', kernel_space_inv p' /\
    (forall root va, root ∈ [0; 1] -> translate p' root va =
       if decide (root = 1 /\ vpn va = c / GRANULE) then Some (linear Perm.Rw (vpn va)) else translate p root va) /\
    prep_granule c (p, st, wd) =
      (Ok true, (p', zero_objects (c + KERNEL_VA_OFFSET) GRANULE st, zero_range c GRANULE wd)).
Proof.
  intros (Hp & Hen & Hr1 & Hsafe) Hc Hb. pose proof granule_bounds.
  assert (Hk : KERNEL_VA_OFFSET + 2 ^ 48 = U64) by reflexivity.
  assert (Hin : root1 p ∈ [0; 1]) by (rewrite Hr1; set_solver).
  unfold prep_granule. rewrite add_p_ok by lia.
  destruct (map_kernel_window_spec [0; 1] p (mkRange c (c + GRANULE)) Hp Hin) as (r & p' & -> & Hr); [done|done|].
  simpl in Hr. replace (c + GRANULE - c) with GRANULE in Hr by lia. rewrite Z.div_same in Hr by lia.
  destruct r as [[]|e| |]; try done; [|left; by rewrite (proj2 Hr eq_refl)].
  right. exists p'. destruct Hr as (_ & _ & Hi' & He' & Hr1' & _ & Ht). rewrite add_p_ok by lia.
  assert (Htr : forall root va, root ∈ [0; 1] -> translate p' root va =
    if decide (root = 1 /\ vpn va = c / GRANULE) then Some (linear Perm.Rw (vpn va)) else translate p root va).
  { intros root va Hroot. rewrite Ht, Hr1 by done. apply decide_ext. lia. }
  split_and!; [|done|done]. split_and!; [done|congruence|congruence|].
  intros root va d Hroot. rewrite Htr by done. case_decide; [|by apply Hsafe].
  intros [= <-]. apply linear_safe.
Qed.

(** A capability that retype keeps. *)
Lemma retyped_elem q cn cn' slot kd b s u c cp :
  filled cn !! Z.to_nat slot = Some (Cap.Untyped b s u) -> retyped q cn cn' slot kd b s u c ->
  (forall b s u, cp <> Cap.Untyped b s u) ->
  cp ∈ filled cn' <-> cp = new_cap kd c \/ cp ∈ filled cn.
Proof.
  intros Hs (_ & _ & _ & _ & ->) Hn. rewrite elem_of_app, list_elem_of_singleton.
  enough (cp ∈ <[Z.to_nat slot:=Cap.Untyped b s (c + 2 ^ q - b)]> (filled cn) <-> cp ∈ filled cn) as -> by tauto.
  rewrite !list_elem_of_lookup. split; intros [i Hi]; exists i.
  - destruct (decide (i = Z.to_nat slot)) as [->|]; [|by rewrite list_lookup_insert_ne in Hi].
    rewrite list_lookup_insert_eq in Hi by (by eapply lookup_lt_Some). simplify_eq. by destruct (Hn b s (c + 2 ^ q - b)).
  - rewrite list_lookup_insert_ne; [done|]. intros <-. rewrite Hs in Hi. simplify_eq. by destruct (Hn b s u).
Qed.

(** The carved granule is disjoint from every other object. *)
Lemma carved_fresh al cn slot b s u c cp l h :
  caps_inv GRANULE al cn -> filled cn !! Z.to_nat slot = Some (Cap.Untyped b s u) ->
  b + u <= c -> c + GRANULE <= b + s ->
  cp ∈ filled cn -> (forall b s u, cp <> Cap.Untyped b s u) -> extent GRANULE cp = Some (l, h) ->
  h <= c \/ c + GRANULE <= l.
Proof.
  intros Hc Hs Hl Hh [i Hi]%list_elem_of_lookup Hn He.
  assert (i <> Z.to_nat slot) by (intros ->; rewrite Hs in Hi; simplify_eq; by destruct (Hn b s u)).
  pose proof (ci_disjoint _ _ _ Hc _ _ _ _ ltac:(done) Hi Hs) as Hd. unfold disjoint_caps in Hd.
  rewrite He in Hd. simpl in Hd. lia.
Qed.

(** ** User memory *)

(** A change of memory outside the tables in use, and of the CNode in what does
    not concern page tables, keeps the address spaces. *)
Lemma spaces_agree b cn cn' w w' dom tag :
  spaces_inv b cn w dom tag ->
  (forall t i, dom t -> umem w' t i = umem w t i) ->
  (forall t i, Cap.PageTable t false ∈ filled cn' -> umem w' t i = 0) ->
  (forall r, Cap.AddrSpace r ∈ filled cn' -> Cap.AddrSpace r ∈ filled cn) ->
  (forall t, Cap.PageTable t true ∈ filled cn' <-> Cap.PageTable t true ∈ filled cn) ->
  (forall f, Cap.Frame f true ∈ filled cn -> Cap.Frame f true ∈ filled cn') ->
  spaces_inv b cn' w' dom tag.
Proof.
  intros [[Htr Hfr] Hd Hro Hf Hl] Hm Hf' Has Hpt Hfm.
  split; [|intros t; by rewrite Hd, Hpt|auto|done|].
  - split; [|done]. by apply (tree_agree _ _ _ _ _ _ Htr).
  - intros r va d Hr Ht. apply Has in Hr. pose proof (Hro r Hr) as [Hdr Htg].
    unfold utranslate in Ht. rewrite (leaf_agree user_child 3 dom tag (umem w)) in Ht; [|done|done|done|by rewrite Htg].
    destruct (Hl r va d Hr Ht) as (Hs & [?|[? ?]]); (split; [done|]); [by left|right; auto].
Qed.

(** Ranges that do not meet lie on either side. *)
Lemma apart t c : (forall p, t <= p < t + GRANULE -> ~ c <= p < c + GRANULE) ->
  t + GRANULE <= c \/ c + GRANULE <= t.
Proof. intros Hp. pose proof granule_bounds. specialize (Hp (Z.max t c)). lia. Qed.

(** The tables in use are apart from the granule that retype carves. *)
Lemma dom_fresh b cn w dom tag slot bs s u c t :
  board_ok b -> caps_inv GRANULE (b_allowed b) cn -> spaces_inv b cn w dom tag ->
  filled cn !! Z.to_nat slot = Some (Cap.Untyped bs s u) -> bs + u <= c -> c + GRANULE <= bs + s ->
  dom t -> t + GRANULE <= c \/ c + GRANULE <= t.
Proof.
  intros Hb Hc Hsp Hs Hl Hh Hd. apply (si_dom _ _ _ _ _ Hsp) in Hd as [Ht|Ht].
  - apply apart. intros p Hp Hp'. apply (bo_table _ Hb t Ht) in Hp. apply Hp.
    eapply (ci_allowed _ _ _ Hc); [exact Hs|reflexivity|lia].
  - by eapply (carved_fresh _ _ _ _ _ _ _ _ t (t + GRANULE) Hc Hs).
Qed.

(** No TCB or endpoint occupies the granule that retype carves. *)
Lemma objects_fresh b cn slot bs s u c p :
  board_ok b -> caps_inv GRANULE (b_allowed b) cn ->
  filled cn !! Z.to_nat slot = Some (Cap.Untyped bs s u) -> bs + u <= c -> c + GRANULE <= bs + s ->
  c + KERNEL_VA_OFFSET <= p < c + KERNEL_VA_OFFSET + GRANULE -> ~ live b cn p /\ ~ isep cn p.
Proof.
  intros Hb Hc Hs Hl Hh Hp. pose proof granule_bounds. split.
  - intros [->|(base & Hin & ->)].
    + destruct (bo_tcb _ Hb) as [_ Hna]. apply Hna.
      eapply (ci_allowed _ _ _ Hc); [exact Hs|reflexivity|lia].
    + destruct (carved_fresh _ _ _ _ _ _ c _ base (base + GRANULE) Hc Hs Hl Hh Hin); [done|done|lia|lia].
  - intros (base & Hin & ->).
    destruct (carved_fresh _ _ _ _ _ _ c _ base (base + GRANULE) Hc Hs Hl Hh Hin); [done|done|lia|lia].
Qed.

(** The state after a successful RETYPE. *)
Lemma retyped_kinv b k slot kd bs s u c cn' p' :
  board_ok b -> kinv b k ->
  filled (k_cnode k) !! Z.to_nat slot = Some (Cap.Untyped bs s u) ->
  retyped PAGE_SHIFT (k_cnode k) cn' slot kd bs s u c -> kernel_space_inv p' ->
  kinv b (mkK cn' (zero_objects (c + KERNEL_VA_OFFSET) GRANULE (k_tasks k)) p'
            (zero_range c GRANULE (k_words k)) (k_con k)).
Proof.
  intros Hb (Hc & (a & Ht) & Hp & dom & tag & Hsp) Hs Hret Hp'. pose proof granule_bounds.
  pose proof page_shift_bounds as Hps. pose proof granule_pow2 as Hg.
  assert (Hc' : caps_inv GRANULE (b_allowed b) cn').
  { rewrite Hg in Hc |- *. eapply retyped_inv; [|done..]. lia. }
  pose proof Hret as (Ecarve & Hfit & _). rewrite <- Hg in Ecarve, Hfit.
  destruct (round_up_spec GRANULE (bs + u)) as [_ Hcl]; [lia|]. rewrite <- Ecarve in Hcl.
  assert (Hel := fun cp => retyped_elem _ _ _ _ _ _ _ _ _ cp Hs Hret).
  split_and!; simpl; [done| |done|].
  - eexists. eapply tasks_mono.
    + apply tasks_zero; [exact Ht|]. intros p Hin. apply (objects_fresh b (k_cnode k) slot bs s u c p); (done || lia).
    + intros p [->|(base & Hin & ->)]; [by left|]. right. exists base. rewrite Hel by done. eauto.
    + by apply not_live_0.
    + intros e (base & Hin & ->). exists base. rewrite Hel by done. eauto.
    + intros r Hin. rewrite Hel by done. eauto.
  - exists dom, tag. eapply spaces_agree; [exact Hsp|..].
    + intros t i Hd. apply umem_zero_out.
      apply (dom_fresh b (k_cnode k) (k_words k) dom tag slot bs s u); (done || lia).
    + intros t i. rewrite Hel by done. intros [Hn|Hin].
      * destruct kd; try done. injection Hn as ->. apply umem_zero_in.
      * rewrite umem_zero_out; [by apply (si_fresh _ _ _ _ _ Hsp)|].
        apply (carved_fresh _ _ slot bs s u c (Cap.PageTable t false) t (t + GRANULE) Hc Hs); (done || lia).
    + intros r. rewrite Hel by done. intros [Hn|]; [by destruct kd|done].
    + intros t. rewrite Hel by done. split; [intros [Hn|]; [by destruct kd|done]|auto].
    + intros f. rewrite Hel by done. auto.
Qed.

(** Why RETYPE refuses. *)
Definition retype_refused (k : kstate) (slot kind v : Z) : Prop :=
  v = err.BAD_TYPE /\ obj_kind kind = None \/
  obj_kind kind <> None /\
  (v = err.BAD_SLOT /\ cap (k_cnode k) slot = None \/
   v = err.NOT_UNTYPED /\ (exists c, cap (k_cnode k) slot = Some c /\ forall bs s u, c <> Cap.Untyped bs s u) \/
   exists bs s u, cap (k_cnode k) slot = Some (Cap.Untyped bs s u) /\
     (v = err.OUT_OF_SLOTS /\ Cap.used (k_cnode k) = CNODE_SLOTS \/
      v = err.EXHAUSTED /\ (forall c, c mod GRANULE = 0 -> bs + u <= c -> bs + s < c + GRANULE) \/
      v = err.KERNEL_RESOURCE /\
        fst (prep_granule (round_up GRANULE (bs + u)) (k_pool k, k_tasks k, k_words k)) = Ok false)).

(** What a successful RETYPE does: the granule [c] of an untyped becomes an erased
    object with a new capability and a kernel alias. *)
Record retype_done (k : kstate) (slot kind v c : Z) (k' : kstate) : Prop := {
  rd_kind : obj_kind kind <> None;
  rd_caps : exists bs s u kd, obj_kind kind = Some kd /\
    filled (k_cnode k) !! Z.to_nat slot = Some (Cap.Untyped bs s u) /\
    retyped PAGE_SHIFT (k_cnode k) (k_cnode k') slot kd bs s u c;
  rd_slot : v = Cap.used (k_cnode k);
  rd_tasks : k_tasks k' = zero_objects (c + KERNEL_VA_OFFSET) GRANULE (k_tasks k);
  rd_words : k_words k' = zero_range c GRANULE (k_words k);
  rd_alias : forall root va, root ∈ [0; 1] -> translate (k_pool k') root va =
    if decide (root = 1 /\ vpn va = c / GRANULE) then Some (linear Perm.Rw (vpn va)) else translate (k_pool k) root va;
  rd_pool : kernel_space_inv (k_pool k');
  rd_con : k_con k' = k_con k
}.

Lemma carve_bounds b cn slot bs s u c :
  board_ok b -> caps_inv GRANULE (b_allowed b) cn ->
  filled cn !! Z.to_nat slot = Some (Cap.Untyped bs s u) -> bs + u <= c -> c + GRANULE <= bs + s ->
  0 <= c /\ c + GRANULE <= 2 ^ 48.
Proof.
  intros Hb Hc Hf Hlo Hhi. pose proof granule_bounds.
  assert (Hal : forall q, c <= q < c + GRANULE -> b_allowed b q).
  { intros q Hq. eapply (ci_allowed _ _ _ Hc); [exact Hf|reflexivity|lia]. }
  assert (0 <= c < 2 ^ 48) by (apply (bo_allowed b Hb), Hal; lia).
  assert (0 <= c + GRANULE - 1 < 2 ^ 48) by (apply (bo_allowed b Hb), Hal; lia). lia.
Qed.

Lemma sys_retype_spec b k slot kind :
  board_ok b -> kinv b k -> is_u64 slot ->
  exists v k', sys_retype slot kind k = (Ok v, k') /\
    (retype_refused k slot kind v /\ k' = k \/ exists c, retype_done k slot kind v c k').
Proof.
  intros Hb Hk Hs. unfold sys_retype, retype_refused.
  destruct (obj_kind kind) as [kd|] eqn:Ek; [|exists err.BAD_TYPE, k; split; [done|]; left; split; [by left|done]].
  pose proof Hk as (Hc & _ & Hp & _). pose proof granule_bounds as Hgb. pose proof page_shift_bounds as Hps.
  assert (Hq : 0 <= PAGE_SHIFT <= 32) by lia.
  pose proof (ci_wf _ _ _ Hc) as Hwf. pose proof (ci_caps _ _ _ Hc) as Hcs. rewrite granule_pow2 in Hcs.
  pose proof (retype_cases PAGE_SHIFT Hq prep_granule (k_cnode k) (k_pool k, k_tasks k, k_words k) slot kd Hwf Hcs Hs) as Hr.
  rewrite <- granule_pow2 in Hr. unfold world in *. rewrite !cap_spec in * by done.
  assert (Ek' : mkK (k_cnode k) (k_tasks k) (k_pool k) (k_words k) (k_con k) = k) by by destruct k.
  destruct (filled (k_cnode k) !! Z.to_nat slot) as [c0|] eqn:Ef; [destruct c0 as [| | | | |bs s u| | |]|];
    try (rewrite Hr, Ek'; eexists _, k; (split; [done|]); left; (split; [|done]); right; (split; [done|]);
         first [by left; split | by right; left; eauto]).
  destruct (Z.eqb_spec (Cap.used (k_cnode k)) CNODE_SLOTS) as [Eu|Eu].
  { rewrite Hr, Ek'. exists err.OUT_OF_SLOTS, k. split; [done|]. left. split; [|done]. right. split; [done|].
    right; right. exists bs, s, u. auto. }
  cbv zeta in Hr. destruct (round_up_spec GRANULE (bs + u)) as [Hal Hcl]; [lia|].
  destruct (Z.ltb_spec (bs + s) (round_up GRANULE (bs + u) + GRANULE)) as [Hfit|Hfit].
  { rewrite Hr, Ek'. exists err.EXHAUSTED, k. split; [done|]. left. split; [|done]. right. split; [done|].
    right; right. exists bs, s, u. split; [done|]. right; left. split; [done|]. intros c Hm Hlo.
    enough (round_up GRANULE (bs + u) <= c) by lia.
    destruct (Z.lt_ge_cases c (round_up GRANULE (bs + u))) as [Hlt|]; [|done].
    pose proof (multiple_lt GRANULE (round_up GRANULE (bs + u)) c). lia. }
  destruct (carve_bounds b _ _ _ _ _ (round_up GRANULE (bs + u)) Hb Hc Ef) as [Hlo Hhi]; [lia|lia|].
  destruct (prep_granule_spec _ (k_pool k) (k_tasks k) (k_words k) Hp Hlo Hhi) as [E|(p1 & Hp1 & Ht & E)];
    rewrite E in Hr.
  - rewrite Hr, Ek'. exists err.KERNEL_RESOURCE, k. split; [done|]. left. split; [|done]. right. split; [done|].
    right; right. exists bs, s, u. split; [done|]. right; right. by rewrite E.
  - destruct Hr as (cn' & Hret & ->). eexists _, _. split; [done|]. right.
    exists (round_up GRANULE (bs + u)). split; simpl; try done; [by rewrite Ek|]. by exists bs, s, u, kd.
Qed.

Lemma sys_retype_ok b k slot kind :
  board_ok b -> kinv b k -> is_u64 slot -> call_ok b (sys_retype slot kind) k.
Proof.
  intros Hb Hk Hs. destruct (sys_retype_spec b k slot kind Hb Hk Hs) as (v & k' & E & [[_ ->]|[c Hd]]); exists v.
  - by exists k.
  - exists k'. split; [done|]. destruct Hd as [_ (bs & s & u & kd & _ & Hf & Hret) _ Ht Hw _ Hp' Ho].
    destruct k' as [cn' st' p' wd' con']. simpl in *. subst. by eapply retyped_kinv.
Qed.

(** *** Map *)

(** Marking a slot's object as mapped or installed. *)
Lemma set_slot_elem cn slot c0 c1 cp :
  filled cn !! Z.to_nat slot = Some c0 ->
  cp ∈ filled (set_slot cn slot c1) <-> cp = c1 \/ exists i, i <> Z.to_nat slot /\ filled cn !! i = Some cp.
Proof.
  intros Hs. rewrite filled_set_slot, list_elem_of_lookup. pose proof (lookup_lt_Some _ _ _ Hs). split.
  - intros [i Hi]. destruct (decide (i = Z.to_nat slot)) as [->|].
    + rewrite list_lookup_insert_eq in Hi by done. left. congruence.
    + rewrite list_lookup_insert_ne in Hi by done. eauto.
  - intros [->|(i & Hne & Hi)]; [exists (Z.to_nat slot); by apply list_lookup_insert_eq|].
    exists i. by rewrite list_lookup_insert_ne.
Qed.

Lemma set_slot_inv al cn slot c0 c1 :
  caps_inv GRANULE al cn -> filled cn !! Z.to_nat slot = Some c0 ->
  extent GRANULE c1 = extent GRANULE c0 -> cap_wf GRANULE c1 ->
  caps_inv GRANULE al (set_slot cn slot c1).
Proof.
  intros [Hw Hcs Hd Ha] Hs He Hc1. pose proof (lookup_lt_Some _ _ _ Hs) as Hlt.
  assert (Hl : forall i c, filled (set_slot cn slot c1) !! i = Some c ->
    exists c', filled cn !! i = Some c' /\ extent GRANULE c = extent GRANULE c').
  { intros i c. rewrite filled_set_slot. destruct (decide (i = Z.to_nat slot)) as [->|].
    - rewrite list_lookup_insert_eq by done. intros [= <-]. eauto.
    - rewrite list_lookup_insert_ne by done. eauto. }
  split.
  - by apply set_slot_wf.
  - rewrite filled_set_slot. by apply Forall_insert.
  - intros i j c d Hij Hi Hj. destruct (Hl _ _ Hi) as (c' & Hi' & Ei), (Hl _ _ Hj) as (d' & Hj' & Ej).
    unfold disjoint_caps. rewrite Ei, Ej. exact (Hd i j c' d' Hij Hi' Hj').
  - intros i c lo hi p Hi. destruct (Hl _ _ Hi) as (c' & Hi' & ->). by apply (Ha i c').
Qed.

(** A slot that changes only in such a mark keeps the tasks. *)
Lemma tasks_set_slot b cn slot c0 c1 st a :
  filled cn !! Z.to_nat slot = Some c0 -> ~ live b (set_slot cn slot c1) 0 ->
  (forall base, c0 <> Cap.Tcb base) -> (forall base, c0 <> Cap.Endpoint base) ->
  (forall r, c0 <> Cap.AddrSpace r) ->
  tasks_inv b cn st a -> tasks_inv b (set_slot cn slot c1) st a.
Proof.
  intros Hs Hl0 N1 N2 N3 Ht.
  assert (Hin : forall cp, cp <> c0 -> cp ∈ filled cn -> cp ∈ filled (set_slot cn slot c1)).
  { intros cp Hne [i Hi]%list_elem_of_lookup. apply (set_slot_elem _ _ c0); [done|]. right. exists i.
    split; [|done]. intros ->. congruence. }
  eapply tasks_mono; [done| |done| |].
  - intros p [->|(base & Hi & ->)]; [by left|]. right. exists base. split; [|done]. by apply Hin.
  - intros e (base & Hi & ->). exists base. split; [|done]. by apply Hin.
  - intros r Hr. by apply Hin.
Qed.

(** An object apart from the tables in use. *)
Lemma dom_apart b cn w dom tag cp base t :
  board_ok b -> caps_inv GRANULE (b_allowed b) cn -> spaces_inv b cn w dom tag ->
  cp ∈ filled cn -> extent GRANULE cp = Some (base, base + GRANULE) ->
  cp <> Cap.PageTable t true -> dom t -> t + GRANULE <= base \/ base + GRANULE <= t.
Proof.
  intros Hb Hc Hsp Hin He Hne Hd. destruct (object_bounds b cn cp base Hb Hc Hin He) as [Hal _].
  apply (si_dom _ _ _ _ _ Hsp) in Hd as [Ht|Ht].
  - apply apart. intros p Hp Hp'. by apply (bo_table _ Hb t Ht) in Hp; apply Hp, Hal.
  - apply list_elem_of_lookup in Hin as [i Hi]. apply list_elem_of_lookup in Ht as [j Hj].
    assert (Hij : j <> i) by (intros ->; congruence).
    pose proof (ci_disjoint _ _ _ Hc _ _ _ _ Hij Hj Hi) as Hdis. unfold disjoint_caps in Hdis.
    rewrite He in Hdis. exact Hdis.
Qed.

(** Writing tables in use leaves every uninstalled table empty. *)
Lemma fresh_keep b cn w w' dom tag t i :
  board_ok b -> caps_inv GRANULE (b_allowed b) cn -> spaces_inv b cn w dom tag -> same_outside dom w w' ->
  Cap.PageTable t false ∈ filled cn -> umem w' t i = 0.
Proof.
  intros Hb Hc Hsp Ho Hin. rewrite <- (si_fresh _ _ _ _ _ Hsp t i Hin). apply umem_agree.
  intros j Hj. destruct (decide (w' !! j = w !! j)) as [|Hne]; [done|].
  destruct (Ho j Hne) as (t' & Hd & Ht').
  destruct (dom_apart b cn w dom tag (Cap.PageTable t false) t t' Hb Hc Hsp Hin eq_refl ltac:(done) Hd); lia.
Qed.

Lemma object_frame b cn cp base :
  board_ok b -> caps_inv GRANULE (b_allowed b) cn -> cp ∈ filled cn ->
  (exists m, cp = Cap.Frame base m) \/ (exists m, cp = Cap.PageTable base m) -> frame_ok base.
Proof.
  intros Hb Hc Hin Hk. pose proof granule_bounds.
  assert (He : extent GRANULE cp = Some (base, base + GRANULE)) by (by destruct Hk as [[m ->]|[m ->]]).
  destruct (object_bounds b cn cp base Hb Hc Hin He) as (_ & Hlo & Hhi).
  split; [lia|]. eapply object_aligned; eauto.
Qed.

Lemma user_perm_noexec perm up base :
  frame_ok base -> user_perm perm = Some up -> el0_executable (Z.lor base (UserPerm.attrs up)) = false.
Proof.
  intros Hf Hp. destruct (el0_executable _) eqn:E; [|done]. apply user_desc_exec in E as ->; [|done].
  unfold user_perm in Hp. by repeat case_match.
Qed.

Lemma user_perm_writable perm up base :
  frame_ok base -> user_perm perm = Some up -> el0_writable (Z.lor base (UserPerm.attrs up)) = (perm =? perm.RW).
Proof.
  intros [Hf Hm] Hp. pose proof page_shift_bounds. unfold el0_writable. rewrite !desc_bits by (try done; lia).
  unfold user_perm in Hp. destruct (Z.eqb_spec perm perm.RO) as [->|]; [by simplify_eq|].
  destruct (Z.eqb_spec perm perm.RW) as [->|]; by simplify_eq.
Qed.

(** Mapping a frame and marking it. *)
Lemma spaces_map_frame b cn w w' dom tag slot base root va perm up :
  board_ok b -> caps_inv GRANULE (b_allowed b) cn -> spaces_inv b cn w dom tag ->
  filled cn !! Z.to_nat slot = Some (Cap.Frame base false) -> Cap.AddrSpace root ∈ filled cn ->
  user_perm perm = Some up -> user_mapped dom tag w root va (Z.lor base (UserPerm.attrs up)) w' ->
  spaces_inv b (set_slot cn slot (Cap.Frame base true)) w' dom tag.
Proof.
  intros Hb Hc Hsp Hs Hr Hp (_ & Hu' & Ho & Ht).
  assert (Hel := fun cp => set_slot_elem cn slot _ (Cap.Frame base true) cp Hs).
  assert (Hback : forall cp, cp <> Cap.Frame base true ->
    cp ∈ filled (set_slot cn slot (Cap.Frame base true)) -> cp ∈ filled cn).
  { intros cp Hne. rewrite Hel. intros [->|(i & _ & Hi)]; [done|]. by eapply list_elem_of_lookup_2. }
  assert (Hfwd : forall cp, cp <> Cap.Frame base false -> cp ∈ filled cn ->
    cp ∈ filled (set_slot cn slot (Cap.Frame base true))).
  { intros cp Hne [i Hi]%list_elem_of_lookup. rewrite Hel. right. exists i. split; [|done]. intros ->. congruence. }
  assert (Hf : frame_ok base).
  { apply (object_frame b cn (Cap.Frame base false)); [done|done|by eapply list_elem_of_lookup_2|eauto]. }
  split; [done| | | |].
  - intros t. rewrite (si_dom _ _ _ _ _ Hsp). split; intros [|]; auto.
  - intros r Hin. apply (si_roots _ _ _ _ _ Hsp). by apply Hback.
  - intros t i Hin. apply (fresh_keep b cn w w' dom tag); try done. by apply Hback.
  - intros r va' d Hin. apply Hback in Hin; [|done]. rewrite Ht by (by apply (si_roots _ _ _ _ _ Hsp)).
    case_decide.
    + intros [= <-]. split; [by apply user_desc_safe|]. right. rewrite user_desc_addr by done.
      split; [apply Hel; by left|by eapply user_perm_noexec].
    + intros Hd. destruct (si_leaf _ _ _ _ _ Hsp r va' d Hin Hd) as [? [?|[? ?]]]; (split; [done|]); auto.
Qed.

(** Installing a table and marking it. *)
Lemma spaces_install b cn w w' dom tag slot base root va l tag' :
  board_ok b -> caps_inv GRANULE (b_allowed b) cn -> spaces_inv b cn w dom tag ->
  filled cn !! Z.to_nat slot = Some (Cap.PageTable base false) ->
  installed dom w root va base l w' ->
  user_space (fun s => dom s \/ s = base) tag' w' -> (forall t, dom t -> tag' t = tag t) ->
  (forall root' va', is_root dom tag root' -> utranslate w' root' va' = utranslate w root' va') ->
  spaces_inv b (set_slot cn slot (Cap.PageTable base true)) w' (fun s => dom s \/ s = base) tag'.
Proof.
  intros Hb Hc Hsp Hs (_ & Ho & _) Hu' Htag Ht.
  assert (Hel := fun cp => set_slot_elem cn slot _ (Cap.PageTable base true) cp Hs).
  assert (Hback : forall cp, cp <> Cap.PageTable base true ->
    cp ∈ filled (set_slot cn slot (Cap.PageTable base true)) -> cp ∈ filled cn).
  { intros cp Hne. rewrite Hel. intros [->|(i & _ & Hi)]; [done|]. by eapply list_elem_of_lookup_2. }
  assert (Hfwd : forall cp, cp <> Cap.PageTable base false -> cp ∈ filled cn ->
    cp ∈ filled (set_slot cn slot (Cap.PageTable base true))).
  { intros cp Hne [i Hi]%list_elem_of_lookup. rewrite Hel. right. exists i. split; [|done]. intros ->. congruence. }
  split; [done| | | |].
  - intros t. rewrite (si_dom _ _ _ _ _ Hsp). split.
    + intros [[?|?]| ->]; [by left|right; by apply Hfwd|right; apply Hel; by left].
    + intros [?|Hin]; [by left; left|]. destruct (decide (t = base)) as [->|]; [by right|].
      left. right. apply Hback; [congruence|done].
  - intros r Hin. apply Hback in Hin; [|done]. destruct (si_roots _ _ _ _ _ Hsp r Hin) as [Hd Hg].
    split; [by left|]. by rewrite Htag.
  - intros t i Hin. apply (fresh_keep b cn w w' dom tag); try done. by apply Hback.
  - intros r va' d Hin. apply Hback in Hin; [|done]. rewrite Ht by (by apply (si_roots _ _ _ _ _ Hsp)).
    intros Hd. destruct (si_leaf _ _ _ _ _ Hsp r va' d Hin Hd) as [? [?|[? ?]]]; (split; [done|]); auto.
Qed.

Lemma cap_mut_spec cn slot : cnode_wf cn -> is_u64 slot -> cap_mut cn slot = filled cn !! Z.to_nat slot.
Proof.
  intros Hw Hs. unfold cap_mut. destruct (Z.leb_spec (Cap.used cn) slot) as [Hge|Hlt].
  - symmetry. apply lookup_ge_None. rewrite length_filled by done. lia.
  - apply get_slots_filled; [done|]. destruct Hs. lia.
Qed.

(** ** Every system call keeps the invariant *)

Lemma mmu_err_ok b e k :
  kinv b k -> e <> MmuError.BadTable -> call_ok b (mmu_err e) k.
Proof. intros Hk He. unfold call_ok. destruct e; try done; by eexists _, _. Qed.

Lemma kinv_same_words b k : kinv b k -> kinv b (set_words (k_words k) k).
Proof. by destruct k. Qed.

Lemma ret_ok b k : kinv b k -> forall v, call_ok b (ret v) k.
Proof. intros Hk v. by exists v, k. Qed.

(** The words that may change: those of the page tables in use. *)
Definition tables_only (b : board) (k : kstate) (w' : words) : Prop :=
  forall j, w' !! j <> k_words k !! j ->
    exists t, (b_table b t \/ Cap.PageTable t true ∈ filled (k_cnode k)) /\ t <= j < t + GRANULE.

Lemma same_outside_tables b cn st p w con dom tag w' :
  spaces_inv b cn w dom tag -> same_outside dom w w' -> tables_only b (mkK cn st p w con) w'.
Proof.
  intros Hsp Ho j Hj. destruct (Ho j Hj) as (t & Hd & Ht). exists t. split; [|done].
  by apply (si_dom _ _ _ _ _ Hsp).
Qed.

(** What a successful MAP of a frame does: the frame is marked and one page of one
    address space translates to it. *)
Definition map_frame_done (b : board) (k : kstate) (slot va base root : Z) (up : UserPerm.t) (k' : kstate) : Prop :=
  exists w', k' = set_cnode (set_slot (k_cnode k) slot (Cap.Frame base true)) (set_words w' k) /\
    va_ok va /\ utranslate (k_words k) root va = None /\ tables_only b k w' /\
    forall r va', Cap.AddrSpace r ∈ filled (k_cnode k) ->
      utranslate w' r va' = if decide (r = root /\ vpn va' = vpn va)
                            then Some (Z.lor base (UserPerm.attrs up)) else utranslate (k_words k) r va'.

(** What a successful MAP of a page table does: the table is marked and hangs in
    the first missing level of the path; no translation changes. *)
Definition map_table_done (b : board) (k : kstate) (slot va base root : Z) (k' : kstate) : Prop :=
  exists w' n, k' = set_cnode (set_slot (k_cnode k) slot (Cap.PageTable base true)) (set_words w' k) /\
    va < 2 ^ 48 /\ (0 < n < 4)%nat /\ tables_only b k w' /\
    walk user_child (umem (k_words k)) root (ixs n 0 va) = None /\
    walk user_child (umem w') root (ixs n 0 va) = Some base /\
    forall r va', Cap.AddrSpace r ∈ filled (k_cnode k) -> utranslate w' r va' = utranslate (k_words k) r va'.

Lemma set_words_same k : set_words (k_words k) k = k.
Proof. by destruct k. Qed.

Lemma sys_map_frame_spec b k slot va perm base root :
  board_ok b -> kinv b k -> is_u64 slot -> 0 <= va -> Cap.AddrSpace root ∈ filled (k_cnode k) ->
  filled (k_cnode k) !! Z.to_nat slot = Some (Cap.Frame base false) ->
  forall up, user_perm perm = Some up ->
  exists v k', (do! r := run_mmu (user_map_frame root va base up) in
    match r with
    | inl _ => do! _ := modS (fun k => set_cnode (set_slot (k_cnode k) slot (Cap.Frame base true)) k) in ret 0
    | inr e => mmu_err e
    end) k = (Ok v, k') /\ kinv b k' /\
    (v = 0 /\ map_frame_done b k slot va base root up k' \/
     k' = k /\ (v = err.BAD_VA /\ ~ va_ok va \/
                v = err.OVERLAP /\ utranslate (k_words k) root va <> None \/
                v = err.MISSING_TABLE /\ walk user_child (umem (k_words k)) root (path va) = None)).
Proof.
  intros Hb Hk Hs Hva Hroot Hf up Hup. pose proof Hk as (Hc & (a & Ht) & Hp & dom & tag & Hsp).
  pose proof (si_roots _ _ _ _ _ Hsp root Hroot) as Hr.
  assert (Hba : base mod GRANULE = 0) by (eapply object_aligned; [done|by eapply list_elem_of_lookup_2|eauto]).
  destruct (user_map_frame_spec dom tag (k_words k) root va base up (si_space _ _ _ _ _ Hsp) Hr Hva)
    as (r & w' & E & Hres). unfold bind at 1, run_mmu. rewrite E. clear E.
  destruct r as [[]|e| |]; try done.
  - destruct Hres as (Hv & _ & Hm). eexists 0, _. split; [done|].
    assert (Hc' : caps_inv GRANULE (b_allowed b) (set_slot (k_cnode k) slot (Cap.Frame base true))).
    { eapply set_slot_inv; [done|done|done|]. by apply (proj1 (Forall_lookup _ _) (ci_caps _ _ _ Hc) _ _ Hf). }
    split; [split_and!; simpl; [done| |done|]|].
    + exists a. eapply tasks_set_slot; [done|by apply not_live_0|done..].
    + exists dom, tag. by eapply spaces_map_frame.
    + left. split; [done|]. exists w'. pose proof Hm as (Hn & _ & Ho & Htr). split_and!; try done.
      * destruct k. by eapply same_outside_tables.
      * intros r va' Hin. by apply Htr, (si_roots _ _ _ _ _ Hsp).
  - destruct Hres as [-> He]. rewrite set_words_same.
    destruct e; try done; eexists _, k; (split; [done|]); (split; [done|]); right; (split; [done|]);
      first [left; split; [done|tauto]|right; left; split; [done|tauto]|right; right; split; [done|tauto]].
Qed.

Lemma sys_map_table_spec b k slot va base root :
  board_ok b -> kinv b k -> is_u64 slot -> Cap.AddrSpace root ∈ filled (k_cnode k) ->
  filled (k_cnode k) !! Z.to_nat slot = Some (Cap.PageTable base false) ->
  exists v k', (do! r := run_mmu (user_install_table root va base) in
    match r with
    | inl _ => do! _ := modS (fun k => set_cnode (set_slot (k_cnode k) slot (Cap.PageTable base true)) k) in ret 0
    | inr e => mmu_err e
    end) k = (Ok v, k') /\ kinv b k' /\
    (v = 0 /\ map_table_done b k slot va base root k' \/
     k' = k /\ (v = err.BAD_VA /\ 2 ^ 48 <= va \/
                v = err.OVERLAP /\ walk user_child (umem (k_words k)) root (path va) <> None)).
Proof.
  intros Hb Hk Hs Hroot Hf. pose proof Hk as (Hc & (a & Ht) & Hp & dom & tag & Hsp).
  pose proof (list_elem_of_lookup_2 _ _ _ Hf) as Hin.
  assert (Hfr : frame_ok base) by (apply (object_frame b (k_cnode k) (Cap.PageTable base false)); eauto).
  assert (Hnd : ~ dom base).
  { intros Hd. pose proof granule_bounds.
    destruct (dom_apart b _ _ dom tag _ base base Hb Hc Hsp Hin eq_refl ltac:(done) Hd); lia. }
  destruct (user_install_table_spec dom tag (k_words k) root va base (si_space _ _ _ _ _ Hsp)
    (si_roots _ _ _ _ _ Hsp root Hroot) Hfr Hnd (fun j => si_fresh _ _ _ _ _ Hsp base j Hin))
    as (r & w' & E & Hres). unfold bind at 1, run_mmu. rewrite E. clear E.
  destruct r as [l|e| |]; try done.
  - destruct Hres as (Hva & Hi & tag' & Hu' & Htag & Htr). eexists 0, _. split; [done|].
    assert (Hc' : caps_inv GRANULE (b_allowed b) (set_slot (k_cnode k) slot (Cap.PageTable base true))).
    { eapply set_slot_inv; [done|done|done|]. by apply (proj1 (Forall_lookup _ _) (ci_caps _ _ _ Hc) _ _ Hf). }
    split; [split_and!; simpl; [done| |done|]|].
    + exists a. eapply tasks_set_slot; [done|by apply not_live_0|done..].
    + eexists _, tag'. by eapply spaces_install.
    + left. split; [done|]. destruct Hi as (Hl & Ho & Hw1 & Hw2). exists w', (Z.to_nat (l + 1)).
      split_and!; try done; try lia.
      * destruct k. by eapply same_outside_tables.
      * intros r va' Hr. by apply Htr, (si_roots _ _ _ _ _ Hsp).
  - destruct e; try done; destruct Hres as [-> He]; rewrite set_words_same;
      eexists _, k; (split; [done|]); (split; [done|]); right; (split; [done|]);
      first [left; split; [done|tauto]|right; split; [done|tauto]].
Qed.

(** Why MAP refuses, before it looks at the tables. *)
Definition map_refused (k : kstate) (slot perm aspace v : Z) : Prop :=
  match cap (k_cnode k) aspace with
  | None => v = err.BAD_SLOT
  | Some (Cap.AddrSpace _) =>
    match cap (k_cnode k) slot with
    | None => v = err.BAD_SLOT
    | Some (Cap.Frame _ true) | Some (Cap.PageTable _ true) => v = err.ALREADY_MAPPED
    | Some (Cap.Frame _ false) => v = err.BAD_PERM /\ user_perm perm = None
    | Some (Cap.PageTable _ false) => False
    | Some _ => v = err.BAD_CAP
    end
  | Some _ => v = err.BAD_CAP
  end.

(** Every outcome of MAP. *)
Definition map_outcome (b : board) (k : kstate) (slot va perm aspace v : Z) (k' : kstate) : Prop :=
  k' = k /\ map_refused k slot perm aspace v \/
  exists root base, cap (k_cnode k) aspace = Some (Cap.AddrSpace root) /\
    (cap (k_cnode k) slot = Some (Cap.Frame base false) /\ (exists up, user_perm perm = Some up /\
       (v = 0 /\ map_frame_done b k slot va base root up k' \/
        k' = k /\ (v = err.BAD_VA /\ ~ va_ok va \/
                   v = err.OVERLAP /\ utranslate (k_words k) root va <> None \/
                   v = err.MISSING_TABLE /\ walk user_child (umem (k_words k)) root (path va) = None))) \/
     cap (k_cnode k) slot = Some (Cap.PageTable base false) /\
       (v = 0 /\ map_table_done b k slot va base root k' \/
        k' = k /\ (v = err.BAD_VA /\ 2 ^ 48 <= va \/
                   v = err.OVERLAP /\ walk user_child (umem (k_words k)) root (path va) <> None))).

Lemma sys_map_spec b k slot va perm aspace :
  board_ok b -> kinv b k -> is_u64 slot -> is_u64 va ->
  exists v k', sys_map slot va perm aspace k = (Ok v, k') /\ kinv b k' /\ map_outcome b k slot va perm aspace v k'.
Proof.
  intros Hb Hk Hs [Hva _]. unfold sys_map, map_outcome, map_refused, bind at 1, getS.
  pose proof Hk as (Hc & _). rewrite cap_mut_spec by (done || apply Hc).
  rewrite (cap_spec _ slot) by (done || apply Hc).
  destruct (cap (k_cnode k) aspace) as [[| |root| | | | | |]|] eqn:Ea; try (by eexists _, k; split_and!; [done|done|left]).
  apply cap_filled in Ea.
  destruct (filled (k_cnode k) !! Z.to_nat slot) as [[| | | | | |base m|base m|]|] eqn:Ef; try (by eexists _, k; split_and!; [done|done|left]).
  - destruct m; [by eexists _, k; split_and!; [done|done|left]|]. destruct (user_perm perm) as [up|] eqn:Eu; [|by eexists _, k; split_and!; [done|done|left]].
    destruct (sys_map_frame_spec b k slot va perm base root Hb Hk Hs Hva Ea Ef up Eu) as (v & k' & -> & Hk' & Ho).
    exists v, k'. split_and!; [done|done|]. right. exists root, base. split; [done|]. left. eauto.
  - destruct m; [by eexists _, k; split_and!; [done|done|left]|].
    destruct (sys_map_table_spec b k slot va base root Hb Hk Hs Ea Ef) as (v & k' & -> & Hk' & Ho).
    exists v, k'. split_and!; [done|done|]. right. exists root, base. eauto.
Qed.

Lemma sys_map_ok b k slot va perm aspace :
  board_ok b -> kinv b k -> is_u64 slot -> is_u64 va -> call_ok b (sys_map slot va perm aspace) k.
Proof.
  intros Hb Hk Hs Hva. destruct (sys_map_spec b k slot va perm aspace Hb Hk Hs Hva) as (v & k' & E & Hk' & _).
  by exists v, k'.
Qed.

Lemma object_alias b cn cp base :
  board_ok b -> caps_inv GRANULE (b_allowed b) cn -> cp ∈ filled cn ->
  extent GRANULE cp = Some (base, base + GRANULE) ->
  @add_p halt base KERNEL_VA_OFFSET = Ok (base + KERNEL_VA_OFFSET).
Proof.
  intros Hb Hc Hin He. destruct (object_bounds b cn cp base Hb Hc Hin He) as (_ & ? & ?).
  pose proof granule_bounds. assert (KERNEL_VA_OFFSET + 2 ^ 48 = U64) by reflexivity. apply add_p_ok. lia.
Qed.

Lemma kinv_set_tasks b k st a : kinv b k -> tasks_inv b (k_cnode k) st a -> kinv b (set_tasks st k).
Proof. intros (? & _ & ? & ?) Ht. split_and!; simpl; eauto. Qed.

Lemma sys_tcb_configure_ok b k slot entry stack aspace :
  board_ok b -> kinv b k -> call_ok b (sys_tcb_configure slot entry stack aspace) k.
Proof.
  intros Hb Hk. unfold sys_tcb_configure, call_ok.
  assert (Hret := ret_ok b k Hk). unfold call_ok in Hret.
  destruct (_ || _ || _); [apply Hret|]. destruct (_ || _ || _); [apply Hret|]. unfold bind at 1, getS.
  destruct (cap (k_cnode k) aspace) as [[| |root| | | | | |]|] eqn:Ea; try apply Hret. apply cap_filled in Ea.
  destruct (cap (k_cnode k) slot) as [[| | | |base| | | |]|] eqn:Es; try apply Hret. apply cap_filled in Es.
  pose proof Hk as (Hc & (a & Ht) & Hp & dom & tag & Hsp).
  unfold bind at 1, lift. rewrite (object_alias b (k_cnode k) (Cap.Tcb base)) by done.
  case_bool_decide as E; [|apply Hret]. eexists 0, _. split; [done|]. eapply kinv_set_tasks; [done|].
  eapply tasks_configure; try done.
  - pose proof (si_roots _ _ _ _ _ Hsp root Ea) as [Hd _]. by apply (si_space _ _ _ _ _ Hsp).
  - destruct zeroed_ok as (? & ? & _). by split_and!.
Qed.

Lemma sys_tcb_resume_ok b k slot : board_ok b -> kinv b k -> call_ok b (sys_tcb_resume slot) k.
Proof.
  intros Hb Hk. unfold sys_tcb_resume, call_ok, bind at 1, getS.
  assert (Hret := ret_ok b k Hk). unfold call_ok in Hret.
  destruct (cap (k_cnode k) slot) as [[| | | |base| | | |]|] eqn:Es; try apply Hret. apply cap_filled in Es.
  pose proof Hk as (Hc & (a & Ht) & _).
  unfold bind at 1, lift. rewrite (object_alias b (k_cnode k) (Cap.Tcb base)) by done.
  case_bool_decide as E; [|apply Hret]. eexists 0, _. split; [done|]. eapply kinv_set_tasks; [done|].
  by eapply tasks_resume.
Qed.

Lemma sys_putc_ok b k slot byte : kinv b k -> call_ok b (sys_putc slot byte) k.
Proof.
  intros Hk. unfold sys_putc, call_ok, bind at 1, getS.
  unfold con_put_byte. destruct (cap (k_cnode k) slot) as [[]|]; try (by eexists _, _).
  destruct (safe_byte byte =? 10); by eexists _, _.
Qed.

(** ** Dispatch *)

Lemma kinv_print b k o : kinv b k -> kinv b (print o k).
Proof. done. Qed.

Lemma on_tasks_ok b k f a :
  kinv b k -> tasks_inv b (k_cnode k) (f (k_tasks k)) a -> handler_ok b (on_tasks f) k.
Proof. intros Hk Ht. eexists _, _. split; [done|]. by eapply kinv_set_tasks. Qed.

Lemma to_x0_ok b c m k : call_ok b m k -> handler_ok b (to_x0 c m) k.
Proof.
  intros (v & k' & E & Hk'). unfold handler_ok, to_x0, bind. rewrite E.
  pose proof Hk' as (_ & (a & Ht) & _). eapply on_tasks_ok; [done|]. apply tasks_set_ctx; [done|].
  intros. auto with k0.
Qed.

Lemma kill_ok b k : kinv b k -> handler_ok b kill k.
Proof.
  intros Hk. pose proof Hk as (_ & (a & Ht) & _). unfold handler_ok, kill, bind at 1, getS.
  destruct (tasks_kill _ _ _ _ Ht) as (r & st' & -> & Hr). destruct r.
  - destruct Hr as [a' Hr]. eexists (Ok tt), _. split; [done|]. by eapply kinv_set_tasks.
  - by eexists (Err Parked), _.
Qed.

Lemma ipc_or_park_ok b kd k :
  board_ok b -> kinv b k -> handler_ok b (ipc_or_park (handler kd) (current_context (k_tasks k))) k.
Proof.
  intros Hb Hk. pose proof Hk as (Hc & (a & Ht) & _). unfold handler_ok, ipc_or_park.
  destruct (tasks_ipc _ _ _ _ kd Ht (endpoints_ok_isep b _ Hb Hc)) as (r & st' & -> & Hr). destruct r.
  - destruct Hr as [a' Hr]. eexists (Ok tt), _. split; [done|]. by eapply kinv_set_tasks.
  - by eexists (Err Parked), _.
Qed.

Lemma k0_syscall_ok b k : board_ok b -> kinv b k -> handler_ok b (k0_syscall (current_context (k_tasks k))) k.
Proof.
  intros Hb Hk. pose proof Hk as (_ & (a & Ht) & _).
  assert (Hreg : forall i, is_u64 (reg (ctx (tcb (k_tasks k) (current_context (k_tasks k)))) i)).
  { intros i. apply reg_u64. rewrite (rep_ctx _ _ (ti_rep _ _ _ _ Ht)). apply (ti_ctxs _ _ _ _ Ht). }
  unfold k0_syscall, handler_ok, bind at 1, getS.
  repeat match goal with |- context [if ?n =? _ then _ else _] => destruct (n =? _) end;
    try (apply to_x0_ok); auto using sys_putc_ok, sys_retype_ok, sys_map_ok, sys_tcb_configure_ok, sys_tcb_resume_ok.
  - unfold bind at 1, on_tasks at 1, modS. eapply on_tasks_ok.
    + eapply kinv_set_tasks; [done|]. eapply tasks_set_ctx; [done|]. intros. by apply set_reg_ok.
    + apply tasks_rotate. apply tasks_set_ctx; [done|]. intros. by apply set_reg_ok.
  - by apply kill_ok.
  - by apply (ipc_or_park_ok b Send).
  - by apply (ipc_or_park_ok b Recv).
  - by apply (ipc_or_park_ok b Call).
  - by apply (ipc_or_park_ok b ReplyRecv).
  - by apply kill_ok.
Qed.

Lemma handle_ok b k ev : board_ok b -> kinv b k -> trap_ok ev k -> handler_ok b (handle ev) k.
Proof.
  intros Hb Hk Ht. pose proof Hk as (_ & (a & Hta) & _). destruct ev as [esr far|].
  - simpl in Ht. unfold handle, handler_ok, el0_sync.
    destruct (Z.eqb_spec (Z.land (Z.shiftr esr 26) 63) 21); [by apply k0_syscall_ok|].
    destruct (Z.eqb_spec (Z.land (Z.shiftr esr 26) 63) 1) as [E|]; [|by apply kill_ok].
    specialize (Ht E). unfold bind, getS, lift. rewrite add_p_ok by lia.
    eapply on_tasks_ok; [done|]. apply tasks_set_ctx; [done|]. by intros cx (? & ? & ?).
  - eapply on_tasks_ok; [done|]. by apply tasks_rotate.
Qed.

(** ** User mode *)

(** What a user mapping names is apart from every object that is not a frame. *)
Lemma leaf_object_apart b cn d cp base :
  board_ok b -> caps_inv GRANULE (b_allowed b) cn -> leaf_ok b cn d ->
  cp ∈ filled cn -> extent GRANULE cp = Some (base, base + GRANULE) ->
  (forall f, cp <> Cap.Frame f true) ->
  base + GRANULE <= Z.land d ADDR_MASK \/ Z.land d ADDR_MASK + GRANULE <= base.
Proof.
  intros Hb Hc [_ Hl] Hin He Hnf. destruct (object_bounds b cn cp base Hb Hc Hin He) as [Hal _].
  destruct Hl as [Hf|[Hf _]].
  - apply apart. intros p Hp Hp'. by apply (bo_frame b Hb _ Hf) in Hp'; apply Hp', Hal.
  - apply list_elem_of_lookup in Hin as [i Hi]. apply list_elem_of_lookup in Hf as [j Hj].
    assert (Hij : i <> j) by (intros ->; rewrite Hi in Hj; injection Hj as ->; by eapply Hnf).
    pose proof (ci_disjoint _ _ _ Hc _ _ _ _ Hij Hi Hj) as Hdis. unfold disjoint_caps in Hdis.
    rewrite He in Hdis. exact Hdis.
Qed.

(** Nor does it meet a page table in use. *)
Lemma leaf_table_apart b cn w dom tag d t :
  board_ok b -> caps_inv GRANULE (b_allowed b) cn -> spaces_inv b cn w dom tag -> leaf_ok b cn d ->
  dom t -> t + GRANULE <= Z.land d ADDR_MASK \/ Z.land d ADDR_MASK + GRANULE <= t.
Proof.
  intros Hb Hc Hsp Hl Hd. pose proof Hd as Hd'. apply (si_dom _ _ _ _ _ Hsp) in Hd as [Ht|Ht].
  - destruct Hl as [_ [Hf|[Hf _]]].
    + destruct (bo_frame b Hb _ Hf) as ([_ Ha] & Hnt & _). destruct (bo_table b Hb _ Ht) as [[_ Hta] _].
      apply aligned_apart; [done|done|]. intros E. by rewrite E in Hnt.
    + by apply (dom_apart b cn w dom tag (Cap.Frame (Z.land d ADDR_MASK) true)).
  - by eapply leaf_object_apart.
Qed.

(** The running task's address space is one that a capability names. *)
Lemma running_root b k : kinv b k -> Cap.AddrSpace (ttbr0 (k_tasks k)) ∈ filled (k_cnode k).
Proof.
  intros (_ & (a & Ht) & _). rewrite (rep_mmu _ _ (ti_rep _ _ _ _ Ht)).
  pose proof (ainv_cur _ _ _ (ti_ainv _ _ _ _ Ht)) as Hc. destruct (ti_ainv _ _ _ _ Ht) as (_ & _ & ->).
  apply (ti_roots _ _ _ _ Ht). by rewrite Hc.
Qed.

(** A task's stores leave alone what is apart from every user mapping. *)
Lemma user_store_apart b k w' t i :
  kinv b k -> user_store (ttbr0 (k_tasks k)) (k_words k) w' ->
  (forall d, leaf_ok b (k_cnode k) d -> t + GRANULE <= Z.land d ADDR_MASK \/ Z.land d ADDR_MASK + GRANULE <= t) ->
  umem w' t i = umem (k_words k) t i.
Proof.
  intros Hk Hst Hap. pose proof (running_root b k Hk) as Hr. destruct Hk as (_ & _ & _ & dom & tag & Hsp).
  apply umem_agree. intros j Hj. destruct (decide (w' !! j = k_words k !! j)) as [|Hne]; [done|].
  destruct (Hst j Hne) as (va & d & Htr & _ & Hd). destruct (Hap d (si_leaf _ _ _ _ _ Hsp _ va d Hr Htr)); lia.
Qed.

(** So they leave every page table alone. *)
Lemma user_store_tables b k w' dom tag :
  board_ok b -> kinv b k -> user_store (ttbr0 (k_tasks k)) (k_words k) w' ->
  spaces_inv b (k_cnode k) (k_words k) dom tag ->
  (forall t i, dom t -> umem w' t i = umem (k_words k) t i) /\ spaces_inv b (k_cnode k) w' dom tag.
Proof.
  intros Hb Hk Hst Hsp. pose proof Hk as (Hc & _).
  assert (Hd : forall t i, dom t -> umem w' t i = umem (k_words k) t i).
  { intros t i Hd. eapply user_store_apart; [done..|]. intros d Hl. by eapply leaf_table_apart. }
  split; [done|]. eapply spaces_agree; [exact Hsp|done| |done..].
  intros t i Hin. erewrite user_store_apart; [by apply (si_fresh _ _ _ _ _ Hsp)|done..|]. intros d Hl.
  by eapply (leaf_object_apart _ _ _ _ t).
Qed.

(** And no translation changes. *)
Lemma user_store_translate b k w' r va :
  board_ok b -> kinv b k -> user_store (ttbr0 (k_tasks k)) (k_words k) w' -> Cap.AddrSpace r ∈ filled (k_cnode k) ->
  utranslate w' r va = utranslate (k_words k) r va.
Proof.
  intros Hb Hk Hst Hin. pose proof Hk as (_ & _ & _ & dom & tag & Hsp). unfold utranslate.
  destruct (si_roots _ _ _ _ _ Hsp r Hin) as [Hd Htg].
  apply (leaf_agree user_child 3 dom tag (umem (k_words k))); [by apply Hsp| |done|by rewrite Htg].
  exact (proj1 (user_store_tables b k w' dom tag Hb Hk Hst Hsp)).
Qed.

Lemma user_run_ok b k k' : board_ok b -> kinv b k -> user_run k k' -> kinv b k'.
Proof.
  intros Hb Hk (cx & w' & Hcx & Hst & ->). pose proof Hk as (Hc & (a & Ht) & Hp & dom & tag & Hsp).
  apply (user_store_tables b k w' dom tag Hb Hk Hst) in Hsp as [_ Hsp].
  split_and!; simpl; [done| |done|by exists dom, tag]. eexists. by apply tasks_set_ctx.
Qed.

Lemma step_ok b k k' : board_ok b -> kinv b k -> step k k' -> kinv b k'.
Proof.
  intros Hb Hk [k1 ev Hu Ht Hh]. pose proof (user_run_ok b k k1 Hb Hk Hu) as Hk1.
  destruct (handle_ok b k1 ev Hb Hk1 Ht) as (r & k2 & E & Hr). rewrite Hh in E. by simplify_eq.
Qed.

Lemma reachable_ok b k0 k : board_ok b -> kinv b k0 -> reachable k0 k -> kinv b k.
Proof. intros Hb Hk Hr. induction Hr; [done|]. by eapply step_ok. Qed.
End inv.
