(* ===== verification/Fdt.v ===== *)
(** * The device-tree parser

    crates/k0-boot/src/fdt.rs: [dtb_span], [parse] and the structure-block walk
    of [parse_blob] over an untrusted blob.  Memory is a function from addresses
    to bytes; a blob is the list of its bytes.  Slicing with [get] is checked, the
    indexing forms panic out of range ([slice_p]), and every plain [+] carries its
    overflow check.  The fixed arrays of [BootInfo] with their counts are the
    lists of their filled prefixes.

    The two loops run on fuel: the memreserve loop advances by 16 bytes and the
    token loop by at least 4 bytes inside the blob, so [length blob + 1] rounds
    are enough; [parse_safe] includes that the fuel never runs out. *)

From Stdlib Require Import String Ascii.
From S2P Require Import Prelude.

#[local] Close Scope string_scope.
#[local] Open Scope Z_scope.

(** ** Data *)

Definition MAX_MEM_REGIONS : Z := 8.
Definition MAX_RSV_REGIONS : Z := 8.
Definition MAX_ENTROPY : Z := 72.
Definition FDT_MAGIC : Z := 0xd00dfeed.
Definition HEADER_SIZE : Z := 40.
Definition MAX_DTB_SIZE : Z := 2 * 1024 * 1024.
Definition MAX_DEPTH : Z := 32.
Definition SUPPORTED_VERSION : Z := 17.
Definition FDT_BEGIN_NODE : Z := 0x1.
Definition FDT_END_NODE : Z := 0x2.
Definition FDT_PROP : Z := 0x3.
Definition FDT_NOP : Z := 0x4.
Definition FDT_END : Z := 0x9.

Record MemRegion := mkMem { m_base : Z; m_size : Z }.

Record BootInfo := mkInfo {
  dtb_start : Z;
  dtb_end : Z;
  memory : list MemRegion;
  reserved : list MemRegion;
  entropy : list Z
}.

Module BootError.
Inductive t :=
| NullPointer | Misaligned | BadMagic | BadHeader | UnsupportedVersion | OverlapsKernel | Truncated
| BadStructure | TooDeep | BadString | UnsupportedCells | BadReg | TooManyRegions | NoMemory.
End BootError.

Abbreviation R := (res BootError.t).

(** ** Bytes *)

(** [from_be_bytes]. *)
Definition be_val (l : list Z) : Z := foldl (fun acc b => acc * 256 + b) 0 l.

(** [read_cells]: the shift drops what leaves 64 bits. *)
Definition read_cells (bytes : list Z) : Z :=
  foldl (fun acc b => Z.lor (Z.shiftl acc 8 mod U64) b) 0 bytes.

Definition be32 (blob : list Z) (off : Z) : R Z :=
  let? b := ok_or (get_range blob off ((off + 4) mod U64)) BootError.Truncated in Ok (be_val b).

Definition be64 (blob : list Z) (off : Z) : R Z :=
  let? b := ok_or (get_range blob off ((off + 8) mod U64)) BootError.Truncated in Ok (be_val b).

Definition align4 (off : Z) : R Z :=
  let? v := ok_or (checked_add off 3) BootError.Truncated in Ok (Z.land v (not64 3)).

(** [&s[a..b]]. *)
Definition slice_p (l : list Z) (a b : Z) : R (list Z) :=
  match get_range l a b with Some s => Ok s | None => Panic end.

(** [iter().position(|&b| b == 0)]. *)
Fixpoint position0 (l : list Z) : option Z :=
  match l with
  | [] => None
  | b :: l' => if b =? 0 then Some 0 else (fun n => n + 1) <$> position0 l'
  end.

(** A byte-string literal. *)
Definition lit (s : string) : list Z := (fun c => Z.of_N (N_of_ascii c)) <$> list_ascii_of_string s.

(** [checked_add] with the range filter of the parser. *)
Definition checked_end (a b limit : Z) (e : BootError.t) : R Z :=
  let? v := ok_or (checked_add a b) e in if v <=? limit then Ok v else Err e.

(** ** Properties *)

Definition prop_name (blob : list Z) (off_strings strings_end name_off : Z) : R (list Z) :=
  let? start := ok_or (checked_add off_strings name_off) BootError.BadString in
  if negb (start <? strings_end) then Err BootError.BadString else
  let? tl := slice_p blob start strings_end in
  let? rel := ok_or (position0 tl) BootError.BadString in
  let? e := add_p start rel in
  slice_p blob start e.

Definition cell_count (value : list Z) : R Z :=
  if negb (Z.of_nat (length value) =? 4) then Err BootError.UnsupportedCells else Ok (be_val value).

(** The chunks of [parse_reg]; [n] bounds the number of chunks. *)
Fixpoint parse_chunks (n : nat) (value : list Z) (addr_bytes entry limit : Z) (out : list MemRegion) :
    R (list MemRegion) :=
  match n with
  | O => Ok out
  | S n' =>
    let chunk := take (Z.to_nat entry) value in
    let base := read_cells (take (Z.to_nat addr_bytes) chunk) in
    let size := read_cells (drop (Z.to_nat addr_bytes) chunk) in
    let rest := drop (Z.to_nat entry) value in
    if size =? 0 then parse_chunks n' rest addr_bytes entry limit out else
    let? _ := ok_or (checked_add base size) BootError.BadReg in
    if Z.of_nat (length out) =? limit then Err BootError.TooManyRegions else
    parse_chunks n' rest addr_bytes entry limit (out ++ [mkMem base size])
  end.

Definition parse_reg (value : list Z) (addr_cells size_cells limit : Z) (out : list MemRegion) :
    R (list MemRegion) :=
  if negb ((1 <=? addr_cells) && (addr_cells <=? 2)) || negb ((1 <=? size_cells) && (size_cells <=? 2))
  then Err BootError.UnsupportedCells else
  let entry := (addr_cells + size_cells) * 4 in
  let len := Z.of_nat (length value) in
  if (len =? 0) || negb (len mod entry =? 0) then Err BootError.BadReg else
  parse_chunks (Z.to_nat (len / entry)) value (addr_cells * 4) entry limit out.

Definition push_regions (value : list Z) (addr_cells size_cells : Z) (info : BootInfo) : R BootInfo :=
  let? rs := parse_reg value addr_cells size_cells MAX_MEM_REGIONS (memory info) in
  Ok (mkInfo (dtb_start info) (dtb_end info) rs (reserved info) (entropy info)).

Definition push_reserved_regions (value : list Z) (addr_cells size_cells : Z) (info : BootInfo) : R BootInfo :=
  let? rs := parse_reg value addr_cells size_cells MAX_RSV_REGIONS (reserved info) in
  Ok (mkInfo (dtb_start info) (dtb_end info) (memory info) rs (entropy info)).

Definition push_reserved (info : BootInfo) (base size : Z) : R BootInfo :=
  let? _ := ok_or (checked_add base size) BootError.BadReg in
  if Z.of_nat (length (reserved info)) =? MAX_RSV_REGIONS then Err BootError.TooManyRegions else
  Ok (mkInfo (dtb_start info) (dtb_end info) (memory info) (reserved info ++ [mkMem base size]) (entropy info)).

Definition push_entropy (value : list Z) (info : BootInfo) : R BootInfo :=
  let? cap := sub_p MAX_ENTROPY (Z.of_nat (length (entropy info))) in
  let n := Z.min (Z.of_nat (length value)) cap in
  let? v := slice_p value 0 n in
  Ok (mkInfo (dtb_start info) (dtb_end info) (memory info) (reserved info) (entropy info ++ v)).

(** ** The blob *)

(** The memreserve block: pairs of 64-bit words up to a pair of zeros. *)
Fixpoint memreserve (fuel : nat) (blob : list Z) (rsv_off : Z) (info : BootInfo) : R BootInfo :=
  match fuel with
  | O => OutOfFuel
  | S fuel' =>
    let? base := be64 blob rsv_off in
    let? off8 := add_p rsv_off 8 in
    let? size := be64 blob off8 in
    let? rsv_off' := ok_or (checked_add rsv_off 16) BootError.Truncated in
    if (base =? 0) && (size =? 0) then Ok info else
    if size =? 0 then memreserve fuel' blob rsv_off' info else
    let? info' := push_reserved info base size in
    memreserve fuel' blob rsv_off' info'
  end.

(** The locals of the token loop. *)
Record walk_state := mkW {
  addr_cells : Z;
  size_cells : Z;
  depth : Z;
  memory_depth : option Z;
  chosen_depth : option Z;
  rsv_node : bool;
  rsv_addr_cells : Z;
  rsv_size_cells : Z;
  w_info : BootInfo
}.

Definition init_walk (info : BootInfo) : walk_state := mkW 2 1 0 None None false 2 1 info.

(** The [FDT_BEGIN_NODE] arm; [off] is past the token. *)
Definition begin_node (blob : list Z) (struct_end off : Z) (w : walk_state) : R (walk_state * Z) :=
  let d := depth w + 1 in
  if MAX_DEPTH <? d then Err BootError.TooDeep else
  let? tl := ok_or (get_range blob off struct_end) BootError.BadStructure in
  let? rel := ok_or (position0 tl) BootError.BadStructure in
  let? e := add_p off rel in
  let? name := slice_p blob off e in
  if (d =? 1) && negb (bool_decide (name = [])) then Err BootError.BadStructure else
  let mem := if (d =? 2) && (bool_decide (name = lit "memory") ||
                             bool_decide (take 7 name = lit "memory@"))
             then Some d else memory_depth w in
  let cho := if (d =? 2) && bool_decide (name = lit "chosen") then Some d else chosen_depth w in
  let rsv := (d =? 2) && bool_decide (name = lit "reserved-memory") in
  let? e1 := add_p e 1 in
  let? off' := align4 e1 in
  Ok (mkW (addr_cells w) (size_cells w) d mem cho (rsv || rsv_node w)
        (if rsv then addr_cells w else rsv_addr_cells w)
        (if rsv then size_cells w else rsv_size_cells w) (w_info w), off').

(** The [FDT_END_NODE] arm. *)
Definition end_node (w : walk_state) : R walk_state :=
  let d := depth w in
  if d =? 0 then Err BootError.BadStructure else
  Ok (mkW (addr_cells w) (size_cells w) (d - 1)
        (if bool_decide (memory_depth w = Some d) then None else memory_depth w)
        (if bool_decide (chosen_depth w = Some d) then None else chosen_depth w)
        (if rsv_node w && (d =? 2) then false else rsv_node w)
        (rsv_addr_cells w) (rsv_size_cells w) (w_info w)).

(** What a property means at its place in the tree. *)
Definition apply_prop (name value : list Z) (w : walk_state) : R walk_state :=
  let d := depth w in
  let with_info info := mkW (addr_cells w) (size_cells w) d (memory_depth w) (chosen_depth w) (rsv_node w)
                          (rsv_addr_cells w) (rsv_size_cells w) info in
  if d =? 1 then
    if bool_decide (name = lit "#address-cells") then
      let? c := cell_count value in
      Ok (mkW c (size_cells w) d (memory_depth w) (chosen_depth w) (rsv_node w) (rsv_addr_cells w)
            (rsv_size_cells w) (w_info w))
    else if bool_decide (name = lit "#size-cells") then
      let? c := cell_count value in
      Ok (mkW (addr_cells w) c d (memory_depth w) (chosen_depth w) (rsv_node w) (rsv_addr_cells w)
            (rsv_size_cells w) (w_info w))
    else Ok w
  else if bool_decide (memory_depth w = Some d) && bool_decide (name = lit "reg") then
    let? info := push_regions value (addr_cells w) (size_cells w) (w_info w) in Ok (with_info info)
  else if rsv_node w && (d =? 2) then
    if bool_decide (name = lit "#address-cells") then
      let? c := cell_count value in
      Ok (mkW (addr_cells w) (size_cells w) d (memory_depth w) (chosen_depth w) (rsv_node w) c
            (rsv_size_cells w) (w_info w))
    else if bool_decide (name = lit "#size-cells") then
      let? c := cell_count value in
      Ok (mkW (addr_cells w) (size_cells w) d (memory_depth w) (chosen_depth w) (rsv_node w)
            (rsv_addr_cells w) c (w_info w))
    else Ok w
  else if rsv_node w && (d =? 3) && bool_decide (name = lit "reg") then
    let? info := push_reserved_regions value (rsv_addr_cells w) (rsv_size_cells w) (w_info w) in Ok (with_info info)
  else if bool_decide (chosen_depth w = Some d) &&
          (bool_decide (name = lit "rng-seed") || bool_decide (name = lit "kaslr-seed")) then
    let? info := push_entropy value (w_info w) in Ok (with_info info)
  else Ok w.

(** The [FDT_PROP] arm; [off] is past the token. *)
Definition prop_node (blob : list Z) (off_strings strings_end struct_end off : Z) (w : walk_state) :
    R (walk_state * Z) :=
  if depth w =? 0 then Err BootError.BadStructure else
  let? len := be32 blob off in
  let? off4 := add_p off 4 in
  let? name_off := be32 blob off4 in
  let? val_start := add_p off 8 in
  let? val_end := checked_end val_start len struct_end BootError.Truncated in
  let? name := prop_name blob off_strings strings_end name_off in
  let? value := slice_p blob val_start val_end in
  let? w' := apply_prop name value w in
  let? off' := align4 val_end in
  Ok (w', off').

(** The token loop. *)
Fixpoint walk_tokens (fuel : nat) (blob : list Z) (off_strings strings_end struct_end off : Z)
    (w : walk_state) : R walk_state :=
  match fuel with
  | O => OutOfFuel
  | S fuel' =>
    if struct_end <=? off then Err BootError.BadStructure else
    let? token := be32 blob off in
    let? off := add_p off 4 in
    if token =? FDT_BEGIN_NODE then
      let? r := begin_node blob struct_end off w in
      walk_tokens fuel' blob off_strings strings_end struct_end r.2 r.1
    else if token =? FDT_END_NODE then
      let? w' := end_node w in
      walk_tokens fuel' blob off_strings strings_end struct_end off w'
    else if token =? FDT_PROP then
      let? r := prop_node blob off_strings strings_end struct_end off w in
      walk_tokens fuel' blob off_strings strings_end struct_end r.2 r.1
    else if token =? FDT_NOP then
      walk_tokens fuel' blob off_strings strings_end struct_end off w
    else if token =? FDT_END then
      if negb (depth w =? 0) then Err BootError.BadStructure else Ok w
    else Err BootError.BadStructure
  end.

Definition parse_blob (blob : list Z) (dtb_lo dtb_hi : Z) : R BootInfo :=
  let? off_struct := be32 blob 8 in
  let? off_strings := be32 blob 12 in
  let? version := be32 blob 20 in
  let? last_comp_version := be32 blob 24 in
  let? size_strings := be32 blob 32 in
  let? size_struct := be32 blob 36 in
  if (version <? SUPPORTED_VERSION) || (SUPPORTED_VERSION <? last_comp_version)
  then Err BootError.UnsupportedVersion else
  if negb (off_struct mod 4 =? 0) || negb (size_struct mod 4 =? 0) then Err BootError.BadHeader else
  let? struct_end := checked_end off_struct size_struct (Z.of_nat (length blob)) BootError.BadHeader in
  let? strings_end := checked_end off_strings size_strings (Z.of_nat (length blob)) BootError.BadHeader in
  let? off_rsvmap := be32 blob 16 in
  if negb (off_rsvmap mod 8 =? 0) then Err BootError.BadHeader else
  let? info := memreserve (S (length blob)) blob off_rsvmap (mkInfo dtb_lo dtb_hi [] [] []) in
  let? w := walk_tokens (S (length blob)) blob off_strings strings_end struct_end off_struct (init_walk info) in
  if Z.of_nat (length (memory (w_info w))) =? 0 then Err BootError.NoMemory else Ok (w_info w).

(** ** Reading physical memory *)

(** The [n] bytes from [a] on. *)
Definition read_bytes (mem : Z -> Z) (a : Z) (n : nat) : list Z := (fun i => mem (a + Z.of_nat i)) <$> seq 0 n.

Definition read_be32_phys (mem : Z -> Z) (addr : Z) : Z := be_val (read_bytes mem addr 4).

Definition dtb_span (mem : Z -> Z) (dtb_phys : Z) : R (Z * Z) :=
  if dtb_phys =? 0 then Err BootError.NullPointer else
  if negb (dtb_phys mod 8 =? 0) then Err BootError.Misaligned else
  if negb (read_be32_phys mem dtb_phys =? FDT_MAGIC) then Err BootError.BadMagic else
  let? a := add_p dtb_phys 4 in
  let totalsize := read_be32_phys mem a in
  if negb ((HEADER_SIZE <=? totalsize) && (totalsize <=? MAX_DTB_SIZE)) then Err BootError.BadHeader else
  let? e := ok_or (checked_add dtb_phys totalsize) BootError.BadHeader in
  Ok (dtb_phys, e).

Definition parse (mem : Z -> Z) (dtb_phys image_start image_end read_offset : Z) : R BootInfo :=
  let? read_base := ok_or (checked_add dtb_phys read_offset) BootError.BadHeader in
  let? span := dtb_span mem read_base in
  let len := span.2 - span.1 in
  let? dtb_hi := ok_or (checked_add dtb_phys len) BootError.BadHeader in
  if (dtb_phys <? image_end) && (image_start <? dtb_hi) then Err BootError.OverlapsKernel else
  parse_blob (read_bytes mem span.1 (Z.to_nat len)) dtb_phys dtb_hi.

(** ** Theory *)

Definition is_byte (b : Z) : Prop := 0 <= b < 256.

Definition region_ok (r : MemRegion) : Prop := 0 <= m_base r /\ 0 < m_size r /\ m_base r + m_size r < U64.

Definition info_ok (lo hi : Z) (i : BootInfo) : Prop :=
  (dtb_start i = lo /\ dtb_end i = hi) /\
  (Z.of_nat (length (memory i)) <= MAX_MEM_REGIONS /\ Forall region_ok (memory i)) /\
  (Z.of_nat (length (reserved i)) <= MAX_RSV_REGIONS /\ Forall region_ok (reserved i)) /\
  (Z.of_nat (length (entropy i)) <= MAX_ENTROPY /\ Forall is_byte (entropy i)).

Lemma get_range_Some {A} (l : list A) a b s :
  get_range l a b = Some s ->
  0 <= a /\ a <= b /\ b <= Z.of_nat (length l) /\ s = take (Z.to_nat (b - a)) (drop (Z.to_nat a) l) /\
  Z.of_nat (length s) = b - a.
Proof.
  unfold get_range. destruct (_ && _) eqn:E; [|done]. intros [= <-]. bool_to_prop.
  rewrite length_take, length_drop. split_and!; try done; lia.
Qed.

Lemma get_range_ok {A} (l : list A) a b :
  0 <= a -> a <= b -> b <= Z.of_nat (length l) -> exists s, get_range l a b = Some s.
Proof.
  intros. unfold get_range. rewrite !(proj2 (Z.leb_le _ _)) by lia. by eexists.
Qed.

Lemma get_range_Forall {A} (P : A -> Prop) l a b s : Forall P l -> get_range l a b = Some s -> Forall P s.
Proof.
  intros Hl Hs. apply get_range_Some in Hs as (_ & _ & _ & -> & _). by apply Forall_take, Forall_drop.
Qed.

Lemma slice_post (blob : list Z) a b (P : list Z -> Prop) :
  0 <= a -> a <= b -> b <= Z.of_nat (length blob) ->
  (forall s, get_range blob a b = Some s -> P s) -> post (slice_p blob a b) P.
Proof.
  intros Ha Hb Hl HP. destruct (get_range_ok blob a b Ha Hb Hl) as [s Hs]. unfold slice_p. rewrite Hs. by apply HP.
Qed.

Lemma be_val_bound l : Forall is_byte l -> 0 <= be_val l < 256 ^ Z.of_nat (length l).
Proof.
  intros Hl. unfold be_val. induction l as [|b l IH] using rev_ind; [done|].
  apply Forall_app in Hl as [Hl [Hb _]%list.Forall_cons]. specialize (IH Hl).
  rewrite foldl_app, length_app. simpl. unfold is_byte in Hb.
  replace (Z.of_nat (length l + 1)) with (Z.of_nat (length l) + 1) by lia.
  rewrite Z.pow_add_r by lia. lia.
Qed.

Section blob.
Context (blob : list Z).
Context (Hbytes : Forall is_byte blob) (Hlen : Z.of_nat (length blob) <= MAX_DTB_SIZE).
#[local] Abbreviation len := (Z.of_nat (length blob)).

Lemma wrapped_range off n s :
  0 < n <= 8 -> 0 <= off < U64 -> get_range blob off ((off + n) mod U64) = Some s ->
  off + n <= len /\ length s = Z.to_nat n /\ Forall is_byte s.
Proof.
  intros Hn Ho Hs. pose proof (get_range_Forall _ _ _ _ _ Hbytes Hs) as Hf.
  apply get_range_Some in Hs as (H1 & H2 & H3 & _ & H4).
  assert (off + n < U64) by (destruct (Z.lt_ge_cases (off + n) U64); [done|]; div_lia).
  rewrite Z.mod_small in * by lia. split_and!; [lia|lia|done].
Qed.

Lemma be32_post off : 0 <= off < U64 -> post (be32 blob off) (fun v => 0 <= v < 2 ^ 32 /\ off + 4 <= len).
Proof.
  intros Ho. unfold be32. eapply post_bind; [apply post_ok_or; intros s Hs; exact (wrapped_range off 4 s ltac:(lia) Ho Hs)|].
  intros s (Hl & Hn & Hf). simpl. pose proof (be_val_bound s Hf) as Hb. rewrite Hn in Hb. split; [exact Hb|done].
Qed.

Lemma be64_post off : 0 <= off < U64 -> post (be64 blob off) (fun v => 0 <= v < U64 /\ off + 8 <= len).
Proof.
  intros Ho. unfold be64. eapply post_bind; [apply post_ok_or; intros s Hs; exact (wrapped_range off 8 s ltac:(lia) Ho Hs)|].
  intros s (Hl & Hn & Hf). simpl. pose proof (be_val_bound s Hf) as Hb. rewrite Hn in Hb. split; [exact Hb|done].
Qed.
End blob.

Lemma align4_ok off : 0 <= off -> off + 3 < U64 -> align4 off = Ok (round_up 4 off).
Proof.
  intros H1 H2. unfold align4, checked_add. rewrite (proj2 (Z.ltb_lt _ _)) by done. simpl.
  change (not64 3) with (not64 (2 ^ 2 - 1)). rewrite land_not64_pow2 by (unfold is_u64; lia). done.
Qed.

Lemma position0_Some l n : position0 l = Some n -> 0 <= n < Z.of_nat (length l).
Proof.
  revert n. induction l as [|b l IH]; intros n; simpl; [done|]. case_match; [intros; simplify_eq; lia|].
  destruct (position0 l) as [m|]; simpl; [|done]. intros [= <-]. specialize (IH m eq_refl). lia.
Qed.

(** ** Regions *)

Lemma read_cells_val l : Forall is_byte l -> (length l <= 8)%nat -> read_cells l = be_val l.
Proof.
  intros Hl. unfold read_cells, be_val. induction l as [|b l IH] using rev_ind; intros Hn; [done|].
  apply Forall_app in Hl as [Hl [Hb _]%list.Forall_cons]. rewrite length_app in Hn. simpl in Hn.
  specialize (IH Hl ltac:(lia)). rewrite !foldl_app. simpl. rewrite IH. fold (be_val l).
  pose proof (be_val_bound l Hl) as Hv. unfold is_byte in Hb.
  assert (256 ^ Z.of_nat (length l) <= 256 ^ 7) by (apply Z.pow_le_mono_r; lia).
  assert (be_val l < 0x100000000000000) by (change 0x100000000000000 with (256 ^ 7); lia).
  rewrite Z.shiftl_mul_pow2, Z.mod_small by lia. by apply lor_shift_add.
Qed.

Lemma read_cells_post l : Forall is_byte l -> (length l <= 8)%nat -> is_u64 (read_cells l).
Proof.
  intros Hl Hn. rewrite read_cells_val by done. pose proof (be_val_bound l Hl).
  assert (256 ^ Z.of_nat (length l) <= 256 ^ 8) by (apply Z.pow_le_mono_r; lia).
  change (256 ^ 8) with U64 in *. split; lia.
Qed.

Definition regions_ok (limit : Z) (rs : list MemRegion) : Prop :=
  Z.of_nat (length rs) <= limit /\ Forall region_ok rs.

Lemma parse_chunks_post n value ab entry limit out :
  Forall is_byte value -> 0 <= ab <= 8 -> ab <= entry <= ab + 8 -> regions_ok limit out ->
  post (parse_chunks n value ab entry limit out) (regions_ok limit).
Proof.
  intros Hv Hab He. revert value Hv out. induction n as [|n IH]; intros value Hv out Hout; [done|]. simpl.
  set (chunk := take (Z.to_nat entry) value).
  assert (Hc : Forall is_byte chunk) by by apply Forall_take.
  assert (Hb : is_u64 (read_cells (take (Z.to_nat ab) chunk))).
  { apply read_cells_post; [by apply Forall_take|]. rewrite length_take. lia. }
  assert (Hs : is_u64 (read_cells (drop (Z.to_nat ab) chunk))).
  { apply read_cells_post; [by apply Forall_drop|]. unfold chunk. rewrite length_drop, length_take. lia. }
  assert (Hr : Forall is_byte (drop (Z.to_nat entry) value)) by by apply Forall_drop.
  destruct (Z.eqb_spec (read_cells (drop (Z.to_nat ab) chunk)) 0); [by apply IH|].
  unfold is_u64 in *. eapply post_bind; [apply post_ok_or; intros e Ee; exact (proj1 (checked_add_Some _ _ _) Ee)|].
  intros e [_ Hfit]. simpl. destruct (Z.eqb_spec (Z.of_nat (length out)) limit); [done|].
  apply IH; [done|]. destruct Hout as [Hl Hf]. split; [rewrite length_app; simpl; lia|].
  apply Forall_app. split; [done|]. constructor; [|done]. split_and!; simpl; lia.
Qed.

Lemma parse_reg_post value ac sc limit out :
  Forall is_byte value -> regions_ok limit out -> post (parse_reg value ac sc limit out) (regions_ok limit).
Proof.
  intros Hv Ho. unfold parse_reg. destruct (_ || _) eqn:E; [done|].
  rewrite orb_false_iff, !negb_false_iff, !andb_true_iff, !Z.leb_le in E.
  destruct (_ || _); [done|]. apply parse_chunks_post; [done|lia|lia|done].
Qed.

(** ** The walk *)

Section walk.
Context (lo hi : Z).

Lemma push_regions_post value ac sc info :
  Forall is_byte value -> info_ok lo hi info -> post (push_regions value ac sc info) (info_ok lo hi).
Proof.
  intros Hv (Hd & Hm & Hr & He). unfold push_regions. eapply post_bind; [by apply parse_reg_post|].
  intros rs [? ?]. destruct Hd, Hr, He. by split_and!.
Qed.

Lemma push_reserved_regions_post value ac sc info :
  Forall is_byte value -> info_ok lo hi info -> post (push_reserved_regions value ac sc info) (info_ok lo hi).
Proof.
  intros Hv (Hd & Hm & Hr & He). unfold push_reserved_regions. eapply post_bind; [by apply parse_reg_post|].
  intros rs [? ?]. destruct Hd, Hm, He. by split_and!.
Qed.

Lemma push_reserved_post info base size :
  info_ok lo hi info -> 0 <= base -> 0 < size -> post (push_reserved info base size) (info_ok lo hi).
Proof.
  intros (Hd & Hm & [Hl Hf] & He) Hb Hs. unfold push_reserved.
  eapply post_bind; [apply post_ok_or; intros e Ee; exact (proj1 (checked_add_Some _ _ _) Ee)|].
  intros e [_ Hfit]. simpl. destruct (Z.eqb_spec (Z.of_nat (length (reserved info))) MAX_RSV_REGIONS); [done|].
  split_and!; simpl; try apply Hd; try apply Hm; try apply He.
  - rewrite length_app. simpl. lia.
  - apply Forall_app. split; [done|]. constructor; [|done]. unfold region_ok. simpl. lia.
Qed.

Lemma push_entropy_post value info :
  Forall is_byte value -> info_ok lo hi info -> post (push_entropy value info) (info_ok lo hi).
Proof.
  intros Hv (Hd & Hm & Hr & [Hl Hf]). unfold push_entropy. rewrite sub_p_ok by done. simpl.
  eapply post_bind.
  - apply (slice_post value 0 _ (fun s => Forall is_byte s /\ Z.of_nat (length s) <= MAX_ENTROPY - Z.of_nat (length (entropy info)))); [lia|lia|lia|].
    intros s Hs. split; [exact (get_range_Forall _ _ _ _ _ Hv Hs)|]. apply get_range_Some in Hs. lia.
  - intros s [Hs Hn]. destruct Hd, Hm, Hr. split_and!; simpl; try done.
    + rewrite length_app. lia.
    + by apply Forall_app.
Qed.

Lemma apply_prop_post name value w :
  Forall is_byte value -> info_ok lo hi (w_info w) ->
  post (apply_prop name value w) (fun w' => info_ok lo hi (w_info w') /\ depth w' = depth w).
Proof.
  intros Hv Hi. unfold apply_prop.
  assert (Hc : post (cell_count value) (fun _ => True)) by (unfold cell_count; by case_match).
  repeat match goal with
  | |- post (if ?b then _ else _) _ => destruct b
  end; simpl; try done;
  solve [ eapply post_bind; [exact Hc|]; intros; done
        | eapply post_bind; [by apply push_regions_post|]; intros; done
        | eapply post_bind; [by apply push_reserved_regions_post|]; intros; done
        | eapply post_bind; [by apply push_entropy_post|]; intros; done ].
Qed.

Section tokens.
Context (blob : list Z).
Context (Hbytes : Forall is_byte blob) (Hlen : Z.of_nat (length blob) <= MAX_DTB_SIZE).
Context (off_strings strings_end struct_end : Z).
Context (Hos : 0 <= off_strings) (Hse : strings_end <= Z.of_nat (length blob)).
Context (Hst : 0 <= struct_end <= Z.of_nat (length blob)) (Hst4 : struct_end mod 4 = 0).
#[local] Abbreviation len := (Z.of_nat (length blob)).

Lemma prop_name_post name_off :
  0 <= name_off -> post (prop_name blob off_strings strings_end name_off) (fun _ => True).
Proof.
  intros Hn. unfold prop_name. unfold MAX_DTB_SIZE in *.
  eapply post_bind; [apply post_ok_or; intros e Ee; exact (proj1 (checked_add_Some _ _ _) Ee)|].
  intros start [-> Hfit]. destruct (Z.ltb_spec (off_strings + name_off) strings_end); simpl; [|done].
  eapply post_bind; [apply (slice_post _ _ _ (fun s => Z.of_nat (length s) = strings_end - (off_strings + name_off))); try lia;
    intros s Hs; by apply get_range_Some in Hs as (_ & _ & _ & _ & ?)|].
  intros tl Htl. cbv beta in Htl. eapply post_bind; [apply post_ok_or; intros r Hr; exact (position0_Some _ _ Hr)|].
  intros rel Hrel. cbv beta in Hrel. simpl. rewrite add_p_ok by lia. simpl. apply slice_post; [lia|lia|lia|done].
Qed.

Lemma round4 off : off mod 4 = 0 -> round_up 4 off = off.
Proof. intros. unfold round_up. div_lia. Qed.

Lemma round4_le off e : off <= e -> e mod 4 = 0 -> round_up 4 off mod 4 = 0 /\ off <= round_up 4 off <= e.
Proof.
  intros Hle He. destruct (round_up_spec 4 off ltac:(lia)) as [Hm Hr].
  pose proof (multiple_lt 4 (round_up 4 off) e ltac:(lia) Hm He). lia.
Qed.

Definition next_ok (off : Z) (w : walk_state) (r : walk_state * Z) : Prop :=
  info_ok lo hi (w_info r.1) /\ off <= r.2 <= struct_end /\ r.2 mod 4 = 0.

Lemma begin_node_post off w :
  0 <= off <= struct_end -> info_ok lo hi (w_info w) -> post (begin_node blob struct_end off w) (next_ok off w).
Proof.
  intros Ho Hi. unfold begin_node. unfold MAX_DTB_SIZE in *. destruct (_ <? _); [done|].
  eapply post_bind; [apply post_ok_or; intros s Hs; exact (get_range_Some _ _ _ _ Hs)|].
  intros tl (_ & _ & _ & _ & Htl). eapply post_bind; [apply post_ok_or; intros r Hr; exact (position0_Some _ _ Hr)|].
  intros rel Hrel. cbv beta in Hrel. simpl. rewrite add_p_ok by lia. simpl.
  eapply post_bind; [apply (slice_post _ _ _ (fun _ => True)); [lia|lia|lia|done]|].
  intros name _. destruct (_ && _); [done|]. rewrite add_p_ok by lia. simpl. rewrite align4_ok by lia. simpl.
  destruct (round4_le (off + rel + 1) struct_end ltac:(lia) Hst4). split_and!; simpl; try apply Hi; lia.
Qed.

Lemma prop_node_post off w :
  0 <= off <= struct_end -> info_ok lo hi (w_info w) ->
  post (prop_node blob off_strings strings_end struct_end off w) (next_ok off w).
Proof.
  intros Ho Hi. unfold prop_node. unfold MAX_DTB_SIZE in *. destruct (_ =? _); [done|].
  eapply post_bind; [apply be32_post; [done|lia]|]. intros l [Hl _].
  rewrite add_p_ok by lia. simpl. eapply post_bind; [apply be32_post; [done|lia]|]. intros no [Hno _].
  rewrite add_p_ok by lia. simpl. unfold checked_end.
  eapply post_bind; [eapply post_bind; [apply post_ok_or; intros e Ee; exact (proj1 (checked_add_Some _ _ _) Ee)|]|].
  { intros e [-> Hfit]. instantiate (1 := fun e => e = off + 8 + l /\ e <= struct_end).
    destruct (Z.leb_spec (off + 8 + l) struct_end); simpl; [split; lia|done]. }
  intros e [-> Hle]. eapply post_bind; [apply prop_name_post; lia|]. intros name _.
  eapply post_bind; [apply (slice_post _ _ _ (Forall is_byte)); [lia|lia|lia|]; intros s Hs; by eapply get_range_Forall|].
  intros value Hv. eapply post_bind; [by apply apply_prop_post|]. intros w' [Hi' _].
  rewrite align4_ok by lia. simpl. destruct (round4_le (off + 8 + l) struct_end Hle Hst4).
  split_and!; simpl; try apply Hi'; lia.
Qed.

Lemma walk_tokens_post fuel off w :
  0 <= off <= struct_end -> off mod 4 = 0 -> struct_end - off < 4 * Z.of_nat fuel -> info_ok lo hi (w_info w) ->
  post (walk_tokens fuel blob off_strings strings_end struct_end off w) (fun w' => info_ok lo hi (w_info w')).
Proof.
  revert off w. induction fuel as [|fuel IH]; intros off w Ho Hm Hf Hi; [exfalso; lia|].
  cbn [walk_tokens]. destruct (Z.leb_spec struct_end off); [done|].
  assert (off + 4 <= struct_end /\ (off + 4) mod 4 = 0) as [Ho4 Hm4] by div_lia.
  eapply post_bind; [apply be32_post; [done|unfold MAX_DTB_SIZE in *; lia]|]. intros token [_ _].
  rewrite add_p_ok by (unfold MAX_DTB_SIZE in *; lia). cbn [rbind].
  destruct (token =? FDT_BEGIN_NODE).
  { eapply post_bind; [apply begin_node_post; [lia|done]|]. intros r (? & ? & ?). apply IH; [lia|done|lia|done]. }
  destruct (token =? FDT_END_NODE).
  { eapply post_bind; [instantiate (1 := fun w' => info_ok lo hi (w_info w')); unfold end_node; by destruct (_ =? 0)|].
    intros w' Hi'. apply IH; [lia|done|lia|done]. }
  destruct (token =? FDT_PROP).
  { eapply post_bind; [apply prop_node_post; [lia|done]|]. intros r (? & ? & ?). apply IH; [lia|done|lia|done]. }
  destruct (token =? FDT_NOP); [apply IH; [lia|done|lia|done]|].
  destruct (token =? FDT_END); [|done]. by destruct (negb _).
Qed.

Lemma memreserve_post fuel off info :
  0 <= off < U64 -> len - off < 16 * Z.of_nat fuel -> (0 < fuel)%nat -> info_ok lo hi info ->
  post (memreserve fuel blob off info) (info_ok lo hi).
Proof.
  revert off info. induction fuel as [|fuel IH]; intros off info Ho Hf Hf0 Hi; [lia|].
  cbn [memreserve]. unfold MAX_DTB_SIZE in *.
  eapply post_bind; [by apply be64_post|]. intros base [Hb Hl].
  rewrite add_p_ok by lia. cbn [rbind]. eapply post_bind; [apply be64_post; [done|lia]|]. intros size [Hs Hl2].
  unfold checked_add. rewrite (proj2 (Z.ltb_lt _ _)) by lia. cbn [ok_or rbind].
  destruct (_ && _); [done|]. destruct (Z.eqb_spec size 0).
  - apply IH; [lia|lia|lia|done].
  - eapply post_bind; [apply push_reserved_post; [done|lia|lia]|]. intros info' Hi'. apply IH; [lia|lia|lia|done].
Qed.
End tokens.
End walk.

Lemma checked_end_post a b limit e :
  post (checked_end a b limit e) (fun v => v = a + b /\ v <= limit).
Proof.
  unfold checked_end. eapply post_bind; [apply post_ok_or; intros v Ev; exact (proj1 (checked_add_Some _ _ _) Ev)|].
  intros v [-> _]. destruct (Z.leb_spec (a + b) limit); done.
Qed.

Lemma parse_blob_post blob lo hi :
  Forall is_byte blob -> Z.of_nat (length blob) <= MAX_DTB_SIZE ->
  post (parse_blob blob lo hi) (fun i => info_ok lo hi i /\ memory i <> []).
Proof.
  intros Hb Hl. unfold parse_blob. pose proof (be32_post blob Hb) as H32.
  eapply post_bind; [by apply H32|]. intros off_struct [? _]. eapply post_bind; [by apply H32|]. intros off_strings [? _].
  eapply post_bind; [by apply H32|]. intros version _. eapply post_bind; [by apply H32|]. intros lcv _.
  eapply post_bind; [by apply H32|]. intros size_strings [? _]. eapply post_bind; [by apply H32|]. intros size_struct [? _].
  destruct (_ || _); [done|]. destruct (negb _ || _) eqn:E; [done|].
  rewrite orb_false_iff, !negb_false_iff, !Z.eqb_eq in E. destruct E as [E1 E2].
  eapply post_bind; [apply checked_end_post|]. intros struct_end [-> Hst].
  eapply post_bind; [apply checked_end_post|]. intros strings_end [-> Hse].
  eapply post_bind; [by apply H32|]. intros off_rsv [? _]. destruct (negb _); [done|].
  eapply post_bind; [apply memreserve_post; [done|done|lia|lia|lia|by split_and!]|]. intros info Hi.
  eapply post_bind; [apply walk_tokens_post; [done|done|lia|lia|lia|div_lia|lia|done|lia|done]|].
  intros w Hw. destruct (Z.eqb_spec (Z.of_nat (length (memory (w_info w)))) 0); [done|]. simpl.
  split; [done|]. intros Em. by rewrite Em in *.
Qed.

(** ** Theorems *)

Lemma read_bytes_byte mem a n : (forall a, is_byte (mem a)) -> Forall is_byte (read_bytes mem a n).
Proof. intros Hm. apply Forall_fmap, Forall_true. intros i. apply Hm. Qed.

Lemma length_read_bytes mem a n : length (read_bytes mem a n) = n.
Proof. unfold read_bytes. by rewrite length_fmap, length_seq. Qed.

Lemma dtb_span_post mem a :
  0 <= a < U64 ->
  post (dtb_span mem a) (fun r => r.1 = a /\ HEADER_SIZE <= r.2 - r.1 <= MAX_DTB_SIZE /\ r.2 < U64).
Proof.
  intros Ha. unfold dtb_span. destruct (a =? 0); [done|].
  destruct (Z.eqb_spec (a mod 8) 0) as [Hm|]; simpl; [|done]. destruct (negb _); [done|].
  rewrite add_p_ok by div_lia. simpl. destruct (negb _) eqn:E; [done|].
  rewrite negb_false_iff, andb_true_iff, !Z.leb_le in E.
  eapply post_bind; [apply post_ok_or; intros v Ev; exact (proj1 (checked_add_Some _ _ _) Ev)|].
  intros v [-> Hv]. simpl. split_and!; [done|lia|lia|done].
Qed.

Lemma parse_post mem dtb_phys image_start image_end read_offset :
  (forall a, is_byte (mem a)) -> 0 <= dtb_phys -> 0 <= read_offset ->
  post (parse mem dtb_phys image_start image_end read_offset) (fun i =>
      (1 <= length (memory i) <= 8)%nat /\ Forall region_ok (memory i) /\
      (length (reserved i) <= 8)%nat /\ Forall region_ok (reserved i) /\
      (length (entropy i) <= 72)%nat /\ Forall is_byte (entropy i) /\
      dtb_start i = dtb_phys /\ HEADER_SIZE <= dtb_end i - dtb_start i <= MAX_DTB_SIZE /\ dtb_end i < U64 /\
      (image_end <= dtb_start i \/ dtb_end i <= image_start)).
Proof.
  intros Hm Hd Ho.
  unfold parse. eapply post_bind; [apply post_ok_or; intros v Ev; exact (proj1 (checked_add_Some _ _ _) Ev)|].
  intros rb [-> Hrb]. eapply post_bind; [apply dtb_span_post; lia|]. intros [a e] (-> & Hn & _). cbn [fst snd] in *.
  eapply post_bind; [apply post_ok_or; intros v Ev; exact (proj1 (checked_add_Some _ _ _) Ev)|].
  intros hi [Ehi Hhi]. destruct (_ && _) eqn:Ek; [done|].
  rewrite andb_false_iff, !Z.ltb_ge in Ek.
  eapply post_mono; [apply parse_blob_post; [by apply read_bytes_byte|rewrite length_read_bytes; unfold HEADER_SIZE in Hn; lia]|].
  intros i (([E1 E2] & [M1 M2] & [R1 R2] & [N1 N2]) & Hne).
  unfold MAX_MEM_REGIONS, MAX_RSV_REGIONS, MAX_ENTROPY in *.
  assert (length (memory i) <> 0%nat) by (by intros E%nil_length_inv). split_and!; try done; lia.
Qed.

(** C37: the parser is total on untrusted input.  For any memory contents it
    returns without a panic, with every loop terminating.  What it accepts obeys
    every limit the boot sequence relies on: one to eight memory regions and at
    most eight reserved ones, all non-empty and without address overflow, at
    most 72 bytes of entropy, and a blob of 40 bytes to 2 MiB that does not
    overlap the kernel image. *)
Theorem parse_safe mem dtb_phys image_start image_end read_offset :
  (forall a, is_byte (mem a)) -> 0 <= dtb_phys -> 0 <= read_offset ->
  match parse mem dtb_phys image_start image_end read_offset with
  | Ok i =>
      (1 <= length (memory i) <= 8)%nat /\ Forall region_ok (memory i) /\
      (length (reserved i) <= 8)%nat /\ Forall region_ok (reserved i) /\
      (length (entropy i) <= 72)%nat /\ Forall is_byte (entropy i) /\
      dtb_start i = dtb_phys /\ HEADER_SIZE <= dtb_end i - dtb_start i <= MAX_DTB_SIZE /\ dtb_end i < U64 /\
      (image_end <= dtb_start i \/ dtb_end i <= image_start)
  | Err _ => True
  | _ => False
  end.
Proof. exact (parse_post mem dtb_phys image_start image_end read_offset). Qed.

Lemma read_bytes_agree mem mem' a n :
  (forall j, a <= j < a + Z.of_nat n -> mem' j = mem j) -> read_bytes mem' a n = read_bytes mem a n.
Proof.
  intros Hm. unfold read_bytes. apply list_fmap_ext. intros i x Hx. apply lookup_seq in Hx as [-> Hx].
  apply Hm. lia.
Qed.

(** the parser never reads outside the blob: its answer depends only on the
    first eight bytes and, once they name a size, on the bytes of that span. *)
Lemma parse_reads_blob mem mem' dtb_phys image_start image_end read_offset :
  let base := dtb_phys + read_offset in
  (forall a, base <= a < base + 8 -> mem' a = mem a) ->
  (forall lo hi a, dtb_span mem base = Ok (lo, hi) -> lo <= a < hi -> mem' a = mem a) ->
  parse mem' dtb_phys image_start image_end read_offset = parse mem dtb_phys image_start image_end read_offset.
Proof.
  intros base H8 Hsp. unfold parse. destruct (checked_add dtb_phys read_offset) as [rb|] eqn:E;
    cbn [ok_or rbind]; [|reflexivity].
  apply checked_add_Some in E as [-> E]. fold base. clearbody base.
  assert (Hs : dtb_span mem' base = dtb_span mem base).
  { assert (E1 : read_be32_phys mem' base = read_be32_phys mem base).
    { unfold read_be32_phys. f_equal. apply read_bytes_agree. intros. apply H8. lia. }
    assert (E2 : forall a, @add_p BootError.t base 4 = Ok a -> read_be32_phys mem' a = read_be32_phys mem a).
    { intros a Ea. unfold add_p in Ea. destruct (_ <? _); [|done]. injection Ea as <-.
      unfold read_be32_phys. f_equal. apply read_bytes_agree. intros. apply H8. lia. }
    unfold dtb_span. rewrite E1. destruct (add_p base 4) as [a| | |]; cbn [rbind]; [rewrite (E2 a eq_refl)|..]; reflexivity. }
  rewrite Hs. destruct (dtb_span mem base) as [[lo hi]| | |] eqn:Esp; cbn [rbind fst snd]; [|reflexivity..].
  destruct (checked_add dtb_phys (hi - lo)); cbn [ok_or rbind]; [|reflexivity]. destruct (_ && _); [reflexivity|].
  rewrite (read_bytes_agree mem mem' lo (Z.to_nat (hi - lo))); [reflexivity|].
  intros j Hj. apply (Hsp lo hi); [reflexivity|lia].
Qed.

(** *** The encoding of [reg] *)

(** The [n] bytes of [v], big endian. *)
Fixpoint be_bytes (n : nat) (v : Z) : list Z :=
  match n with O => [] | S n' => be_bytes n' (v / 256) ++ [v mod 256] end.

Lemma length_be_bytes n v : length (be_bytes n v) = n.
Proof. revert v. induction n as [|n IH]; intros v; [done|]. simpl. rewrite length_app, IH. simpl. lia. Qed.

Lemma be_bytes_byte n v : Forall is_byte (be_bytes n v).
Proof.
  revert v. induction n as [|n IH]; intros v; simpl; [constructor|]. apply Forall_app. split; [done|].
  constructor; [|done]. apply Z.mod_pos_bound. lia.
Qed.

Lemma be_val_bytes n v : 0 <= v < 256 ^ Z.of_nat n -> be_val (be_bytes n v) = v.
Proof.
  revert v. induction n as [|n IH]; intros v Hv; [simpl in *; unfold be_val; simpl; lia|].
  unfold be_val in *. cbn [be_bytes]. rewrite foldl_app. simpl. rewrite IH.
  - pose proof (Z.div_mod v 256). lia.
  - rewrite Nat2Z.inj_succ, Z.pow_succ_r in Hv by lia. split; [apply Z.div_pos; lia|].
    apply Z.div_lt_upper_bound; lia.
Qed.

(** Encoding truncates. *)
Lemma be_bytes_mod n v : be_bytes n (v mod 256 ^ Z.of_nat n) = be_bytes n v.
Proof.
  revert v. induction n as [|n IH]; intros v; [done|]. cbn [be_bytes].
  rewrite Nat2Z.inj_succ, Z.pow_succ_r by lia. assert (0 < 256 ^ Z.of_nat n) by (apply Z.pow_pos_nonneg; lia).
  rewrite Z.rem_mul_r by lia. f_equal.
  - rewrite <- (IH (v / 256)). f_equal. rewrite Z.mul_comm, Z_div_plus_full by lia.
    rewrite Z.div_small by (apply Z.mod_pos_bound; lia). done.
  - rewrite Z.mul_comm, Z_mod_plus_full, Z.mod_mod by lia. done.
Qed.

Lemma be_bytes_app n m v : be_bytes (n + m) v = be_bytes n (v / 256 ^ Z.of_nat m) ++ be_bytes m v.
Proof.
  revert v. induction m as [|m IH]; intros v.
  - change (256 ^ Z.of_nat 0) with 1. by rewrite Nat.add_0_r, Z.div_1_r, app_nil_r.
  - rewrite Nat.add_succ_r. cbn [be_bytes]. rewrite IH, <- app_assoc. do 2 f_equal.
    rewrite Z.div_div, Nat2Z.inj_succ, Z.pow_succ_r by lia. done.
Qed.

Lemma read_cells_bytes n v : (n <= 8)%nat -> 0 <= v < 256 ^ Z.of_nat n -> read_cells (be_bytes n v) = v.
Proof.
  intros Hn Hv. rewrite read_cells_val; [by apply be_val_bytes|apply be_bytes_byte|by rewrite length_be_bytes].
Qed.

(** A [reg] property as the device-tree format writes it. *)
Definition emit_reg (ac sc : nat) (rs : list MemRegion) : list Z :=
  r ← rs; be_bytes (4 * ac) (m_base r) ++ be_bytes (4 * sc) (m_size r).

Lemma length_emit_reg ac sc rs : length (emit_reg ac sc rs) = (length rs * (4 * ac + 4 * sc))%nat.
Proof.
  unfold emit_reg. induction rs as [|r rs IH]; [done|]. cbn [mbind list_bind].
  rewrite !length_app, !length_be_bytes, IH. simpl. lia.
Qed.

(** A region that fits its cells and does not overflow. *)
Definition fits_cells (ac sc : nat) (r : MemRegion) : Prop :=
  0 <= m_base r < 256 ^ Z.of_nat (4 * ac) /\ 0 <= m_size r < 256 ^ Z.of_nat (4 * sc) /\ m_base r + m_size r < U64.

(** What a table of regions becomes: the non-empty ones are appended, if they fit. *)
Definition append_regions (limit : Z) (out rs : list MemRegion) : R (list MemRegion) :=
  let nz := filter (fun r => m_size r <> 0) rs in
  if decide (Z.of_nat (length out) + Z.of_nat (length nz) <= limit) then Ok (out ++ nz)
  else Err BootError.TooManyRegions.

Lemma parse_chunks_emit ac sc limit rs out :
  (ac <= 2)%nat -> (sc <= 2)%nat -> Forall (fits_cells ac sc) rs -> Z.of_nat (length out) <= limit ->
  parse_chunks (length rs) (emit_reg ac sc rs) (Z.of_nat (4 * ac)) (Z.of_nat (4 * ac + 4 * sc)) limit out
  = append_regions limit out rs.
Proof.
  intros Hac Hsc. revert out. induction rs as [|[b s] rs IH]; intros out Hf Hl.
  { unfold append_regions. simpl. rewrite decide_True by lia. by rewrite app_nil_r. }
  apply list.Forall_cons in Hf as [(Hb & Hs & Hsum) Hf].
  cbn [length parse_chunks emit_reg mbind list_bind m_base m_size] in *.
  fold (emit_reg ac sc rs). set (x := be_bytes _ b). set (y := be_bytes _ s).
  assert (Hx : length x = (4 * ac)%nat) by apply length_be_bytes.
  assert (Hy : length y = (4 * sc)%nat) by apply length_be_bytes.
  rewrite !Nat2Z.id. rewrite (take_app_length' (x ++ y)), (drop_app_length' (x ++ y)) by (rewrite length_app; lia).
  rewrite (take_app_length' x), (drop_app_length' x) by done. unfold x, y.
  rewrite !read_cells_bytes by lia. unfold append_regions.
  rewrite filter_cons. cbn [m_size]. destruct (Z.eqb_spec s 0) as [->|Hn]; [rewrite (decide_False (P := 0 <> 0)) by lia; by apply IH|].
  rewrite (decide_True (P := s <> 0)) by done.
  rewrite (proj2 (checked_add_Some b s _)) by (split; [reflexivity|done]). cbn [ok_or rbind length].
  destruct (Z.eqb_spec (Z.of_nat (length out)) limit) as [He|He]; [by rewrite decide_False by lia|].
  rewrite IH by (try done; rewrite length_app; simpl; lia). unfold append_regions. rewrite length_app. simpl.
  rewrite <- app_assoc. apply decide_ext. lia.
Qed.

(** Reading a [reg] property gives back the regions that were written. *)
Lemma parse_reg_emit ac sc limit rs out :
  (1 <= ac <= 2)%nat -> (1 <= sc <= 2)%nat -> rs <> [] -> Forall (fits_cells ac sc) rs ->
  Z.of_nat (length out) <= limit ->
  parse_reg (emit_reg ac sc rs) (Z.of_nat ac) (Z.of_nat sc) limit out = append_regions limit out rs.
Proof.
  intros Hac Hsc Hne Hf Hl. unfold parse_reg. rewrite !(proj2 (Z.leb_le _ _)) by lia. cbn [andb negb orb].
  assert (0 < length rs)%nat by (destruct rs; [done|simpl; lia]).
  replace ((Z.of_nat ac + Z.of_nat sc) * 4) with (Z.of_nat (4 * ac + 4 * sc)) by lia.
  replace (Z.of_nat ac * 4) with (Z.of_nat (4 * ac)) by lia.
  rewrite length_emit_reg, Nat2Z.inj_mul, Z_mod_mult, Z.div_mul by lia.
  rewrite (proj2 (Z.eqb_neq _ 0)) by nia. cbn [orb negb Z.eqb]. rewrite Nat2Z.id.
  apply parse_chunks_emit; [lia|lia|done|done].
Qed.

(** ** An instance

    A device tree with one memory region, one memreserve entry, one child of
    /reserved-memory with one-cell addresses, and eight bytes of rng-seed. *)

Definition ex_dtb : list Z :=
  [208; 13; 254; 237; 0; 0; 1; 80; 0; 0; 0; 72; 0; 0; 1; 40; 0; 0; 0; 40; 0; 0; 0; 17; 0; 0; 0; 16; 0; 0; 0; 0;
   0; 0; 0; 40; 0; 0; 0; 224; 0; 0; 0; 0; 64; 0; 0; 0; 0; 0; 0; 0; 0; 0; 16; 0; 0; 0; 0; 0; 0; 0; 0; 0; 0; 0; 0;
   0; 0; 0; 0; 0; 0; 0; 0; 1; 0; 0; 0; 0; 0; 0; 0; 3; 0; 0; 0; 4; 0; 0; 0; 0; 0; 0; 0; 2; 0; 0; 0; 3; 0; 0; 0; 4;
   0; 0; 0; 15; 0; 0; 0; 2; 0; 0; 0; 1; 109; 101; 109; 111; 114; 121; 64; 52; 48; 48; 48; 48; 48; 48; 48; 0; 0;
   0; 0; 3; 0; 0; 0; 16; 0; 0; 0; 27; 0; 0; 0; 0; 64; 0; 0; 0; 0; 0; 0; 0; 8; 0; 0; 0; 0; 0; 0; 2; 0; 0; 0; 1;
   114; 101; 115; 101; 114; 118; 101; 100; 45; 109; 101; 109; 111; 114; 121; 0; 0; 0; 0; 3; 0; 0; 0; 4; 0; 0; 0;
   0; 0; 0; 0; 1; 0; 0; 0; 3; 0; 0; 0; 4; 0; 0; 0; 15; 0; 0; 0; 1; 0; 0; 0; 1; 102; 119; 0; 0; 0; 0; 0; 3; 0; 0;
   0; 8; 0; 0; 0; 27; 71; 240; 0; 0; 0; 16; 0; 0; 0; 0; 0; 2; 0; 0; 0; 2; 0; 0; 0; 1; 99; 104; 111; 115; 101;
   110; 0; 0; 0; 0; 0; 3; 0; 0; 0; 8; 0; 0; 0; 31; 1; 2; 3; 4; 5; 6; 7; 8; 0; 0; 0; 2; 0; 0; 0; 2; 0; 0; 0; 9;
   35; 97; 100; 100; 114; 101; 115; 115; 45; 99; 101; 108; 108; 115; 0; 35; 115; 105; 122; 101; 45; 99; 101; 108;
   108; 115; 0; 114; 101; 103; 0; 114; 110; 103; 45; 115; 101; 101; 100; 0].

(** The tree lies at 0x48000000; the rest of memory is zero. *)
Definition ex_mem (a : Z) : Z := default 0 (get ex_dtb (a - 0x48000000)).

Lemma ex_mem_byte a : is_byte (ex_mem a).
Proof.
  assert (Hb : Forall is_byte ex_dtb).
  { apply (bool_decide_unpack _). vm_compute. exact I. }
  unfold ex_mem. destruct (get ex_dtb (a - 0x48000000)) as [v|] eqn:E; simpl; [|done].
  apply get_Some in E as [_ E]. by eapply Forall_lookup_1.
Qed.

Definition ex_info : BootInfo :=
  mkInfo 0x48000000 (0x48000000 + 336) [mkMem 0x40000000 0x8000000]
    [mkMem 0x40000000 0x1000; mkMem 0x47f00000 0x100000] [1; 2; 3; 4; 5; 6; 7; 8].

Lemma ex_parse : parse ex_mem 0x48000000 0x40080000 0x40280000 0 = Ok ex_info.
Proof. vm_compute. reflexivity. Qed.

Lemma parse_safe_witness :
  (length (memory ex_info) <= 8)%nat /\ Forall region_ok (reserved ex_info).
Proof.
  pose proof (parse_safe ex_mem 0x48000000 0x40080000 0x40280000 0 ex_mem_byte ltac:(lia) ltac:(lia)) as Hp.
  rewrite ex_parse in Hp. destruct Hp as ([_ Hm] & _ & _ & Hr & _). split; [exact Hm|exact Hr].
Defined.

Lemma parse_reads_blob_witness :
  parse (fun a => if a <? 0x48001000 then ex_mem a else 255) 0x48000000 0x40080000 0x40280000 0 = Ok ex_info.
Proof.
  rewrite <- ex_parse. apply parse_reads_blob.
  - intros a Ha. rewrite (proj2 (Z.ltb_lt _ _)) by lia. reflexivity.
  - assert (E : dtb_span ex_mem (0x48000000 + 0) = Ok (0x48000000, 0x48000000 + 336)) by (vm_compute; reflexivity).
    intros lo hi a Hs Ha. rewrite E in Hs. injection Hs as <- <-.
    rewrite (proj2 (Z.ltb_lt _ _)) by lia. reflexivity.
Defined.
