(* ===== verification/FdtBuild.v ===== *)
(** * Building device trees, and the parser's round trip

    crates/k0-boot/src/fdt/builder.rs: the [Builder] that writes the flattened
    format and the [Board] descriptions from which the tests build trees, with
    a noise callback that adds content the parser must ignore.  Theorem
    [builder_roundtrip] is the parser's correctness: for every board and every
    noise, [parse_blob] of the built blob recovers exactly what the board
    describes, or fails exactly if it exceeds the parser's tables. *)

From stdpp Require Import strings.
From S2P Require Import Prelude Fdt.

(** ** The builder *)

Module Builder.
Definition BEGIN_NODE : Z := 0x1.
Definition END_NODE : Z := 0x2.
Definition PROP : Z := 0x3.
Definition NOP : Z := 0x4.
Definition END : Z := 0x9.

Record t := mk {
  rsvmap : list (Z * Z);
  structure : list Z;
  strings : list Z;
  version : Z;
  last_comp_version : Z;
  terminate : bool
}.

Definition new : t := mk [] [] [] 17 16 true.

Definition memreserve (base size : Z) (b : t) : t :=
  mk (rsvmap b ++ [(base, size)]) (structure b) (strings b) (version b) (last_comp_version b) (terminate b).

Definition raw (bytes : list Z) (b : t) : t :=
  mk (rsvmap b) (structure b ++ bytes) (strings b) (version b) (last_comp_version b) (terminate b).

Definition token (v : Z) (b : t) : t := raw (be_bytes 4 v) b.

(** The loop of [pad] runs at most three times. *)
Fixpoint pad_loop (fuel : nat) (l : list Z) : list Z :=
  match fuel with
  | O => l
  | S fuel' => if Z.of_nat (length l) mod 4 =? 0 then l else pad_loop fuel' (l ++ [0])
  end.

Definition pad (b : t) : t :=
  mk (rsvmap b) (pad_loop 4 (structure b)) (strings b) (version b) (last_comp_version b) (terminate b).

Definition begin (name : list Z) (b : t) : t := pad (raw [0] (raw name (token BEGIN_NODE b))).

Definition end_ (b : t) : t := token END_NODE b.

Definition nop (b : t) : t := token NOP b.

(** [split(|&b| b == 0)]. *)
Fixpoint split0 (l : list Z) : list (list Z) :=
  match l with
  | [] => [[]]
  | c :: l' =>
    if c =? 0 then [] :: split0 l' else
    match split0 l' with s :: r => (c :: s) :: r | [] => [[c]] end
  end.

Fixpoint find_string (segs : list (list Z)) (name : list Z) (off len : Z) : option Z :=
  match segs with
  | [] => None
  | s :: segs' =>
    if bool_decide (s = name) && (off <? len) then Some off
    else find_string segs' name (off + Z.of_nat (length s) + 1) len
  end.

Definition string_offset (name : list Z) (b : t) : Z * t :=
  let len := Z.of_nat (length (strings b)) in
  match find_string (split0 (strings b)) name 0 len with
  | Some off => (off mod U32, b)
  | None =>
    (len mod U32, mk (rsvmap b) (structure b) (strings b ++ name ++ [0]) (version b) (last_comp_version b) (terminate b))
  end.

Definition prop_at (name_off : Z) (value : list Z) (b : t) : t :=
  pad (raw value (raw (be_bytes 4 name_off)
    (raw (be_bytes 4 (Z.of_nat (length value) mod U32)) (token PROP b)))).

Definition prop (name value : list Z) (b : t) : t :=
  let '(off, b) := string_offset name b in prop_at off value b.

Definition prop_u32 (name : list Z) (v : Z) (b : t) : t := prop name (be_bytes 4 v) b.

Definition rsv_bytes (rs : list (Z * Z)) : list Z := r ← rs; be_bytes 8 r.1 ++ be_bytes 8 r.2.

Definition build (b : t) : list Z :=
  let rsv := rsv_bytes (rsvmap b) ++ replicate 16 0 in
  let st := structure b ++ (if terminate b then be_bytes 4 END else []) in
  let off_rsv := 40 in
  let off_struct := off_rsv + Z.of_nat (length rsv) in
  let off_strings := off_struct + Z.of_nat (length st) in
  let total := off_strings + Z.of_nat (length (strings b)) in
  (v ← [0xd00dfeed; total mod U32; off_struct mod U32; off_strings mod U32; off_rsv mod U32; version b;
        last_comp_version b; 0; Z.of_nat (length (strings b)) mod U32; Z.of_nat (length st) mod U32];
   be_bytes 4 v) ++ rsv ++ st ++ strings b.
End Builder.

Fixpoint push_cells (v : list Z) (x : Z) (cells : nat) : list Z :=
  match cells with
  | O => v
  | S i =>
    let word := if (2 <=? i)%nat then 0 else Z.shiftr x (32 * Z.of_nat i) mod U32 in
    push_cells (v ++ be_bytes 4 word) x i
  end.

Definition reg (entries : list (Z * Z)) (addr_cells size_cells : nat) : list Z :=
  foldl (fun v e => push_cells (push_cells v e.1 addr_cells) e.2 size_cells) [] entries.

(** ** Formatting numbers *)

Definition digit (d : Z) : Z := if d <? 10 then 48 + d else 87 + d.

(** The digit's value back. *)
Definition digit_value (c : Z) : Z := if c <? 58 then c - 48 else c - 87.

Lemma digit_value_digit d : 0 <= d < 16 -> digit_value (digit d) = d.
Proof.
  unfold digit, digit_value. intros Hd. destruct (Z.ltb_spec d 10).
  - destruct (Z.ltb_spec (48 + d) 58); lia.
  - destruct (Z.ltb_spec (87 + d) 58); lia.
Qed.

(** [{v:x}] and [{v}]: no leading zeros; [fuel] digits are enough for [radix ^ fuel]. *)
Fixpoint format_radix (fuel : nat) (radix v : Z) (acc : list Z) : list Z :=
  match fuel with
  | O => acc
  | S fuel' =>
    let acc := digit (v mod radix) :: acc in
    if v <? radix then acc else format_radix fuel' radix (v / radix) acc
  end.

Definition format_hex (v : Z) : list Z := format_radix 16 16 v [].
Definition format_dec (v : Z) : list Z := format_radix 20 10 v [].

(** ** Boards *)

Module Board.
Record t := mk {
  cells : option (nat * nat);
  memory : list (list (Z * Z));
  memreserve : list (Z * Z);
  rsv_cells : option (nat * nat);
  rsv_children : list (option (list (Z * Z)));
  rng_seed : option (list Z);
  kaslr_seed : option (list Z)
}.

Definition empty : t := mk None [] [] None [] None None.

Definition qemu_virt : t :=
  mk (Some (2, 2)%nat) [[(0x40000000, 0x20000000)]] [] None []
    (Some (Z.of_nat <$> seq 0 32)) (Some (replicate 8 0xA5)).

Definition root_cells (bd : t) : nat * nat := default (2, 1)%nat (cells bd).

(** [write] threads the builder and the state of the noise closure. *)
Section write.
Context {N : Type} (noise : N * Builder.t -> N * Builder.t).

Definition on (f : Builder.t -> Builder.t) (s : N * Builder.t) : N * Builder.t := (s.1, f s.2).

Definition opt_prop (name : list Z) (v : option (list Z)) (s : N * Builder.t) : N * Builder.t :=
  match v with Some x => on (Builder.prop name x) s | None => s end.

Definition opt_cells (c : option (nat * nat)) (s : N * Builder.t) : N * Builder.t :=
  match c with
  | Some (a, z) => on (fun b => Builder.prop_u32 (lit "#size-cells") (Z.of_nat z)
                             (Builder.prop_u32 (lit "#address-cells") (Z.of_nat a) b)) s
  | None => s
  end.

Definition is_some {A} (o : option A) : bool := match o with Some _ => true | None => false end.

Definition write_chosen (bd : t) (s : N * Builder.t) : N * Builder.t :=
  if is_some (rng_seed bd) || is_some (kaslr_seed bd) then
    let s := on (Builder.begin (lit "chosen")) s in
    let s := noise s in
    let s := opt_prop (lit "rng-seed") (rng_seed bd) s in
    let s := on (Builder.prop (lit "bootargs") (lit "console=ttyAMA0" ++ [0])) s in
    let s := opt_prop (lit "kaslr-seed") (kaslr_seed bd) s in
    let s := noise s in
    on Builder.end_ s
  else s.

Definition memory_name (i : nat) (entries : list (Z * Z)) : list Z :=
  match entries with
  | (base, _) :: _ => if (i mod 2 =? 0)%nat then lit "memory@" ++ format_hex base else lit "memory"
  | [] => lit "memory"
  end.

Definition write_memory (ac sc : nat) (i : nat) (entries : list (Z * Z)) (s : N * Builder.t) : N * Builder.t :=
  let s := on (Builder.begin (memory_name i entries)) s in
  let s := on (Builder.prop (lit "device_type") (lit "memory" ++ [0])) s in
  let s := noise s in
  let s := on (Builder.prop (lit "reg") (reg entries ac sc)) s in
  let s := noise s in
  let s := on Builder.end_ s in
  noise s.

Fixpoint write_memories (ac sc : nat) (i : nat) (ms : list (list (Z * Z))) (s : N * Builder.t) : N * Builder.t :=
  match ms with [] => s | m :: ms' => write_memories ac sc (S i) ms' (write_memory ac sc i m s) end.

Definition child_prop (rac rsc : nat) (child : option (list (Z * Z))) (s : N * Builder.t) : N * Builder.t :=
  match child with
  | Some entries => on (Builder.prop (lit "reg") (reg entries rac rsc)) s
  | None => on (Builder.prop (lit "size") (reg [(0, 0x100000)] 0 rsc)) s
  end.

Definition write_child (rac rsc : nat) (i : nat) (child : option (list (Z * Z))) (s : N * Builder.t) :
    N * Builder.t :=
  let s := on (Builder.begin (lit "region@" ++ format_dec (Z.of_nat i))) s in
  let s := child_prop rac rsc child s in
  let s := on (Builder.prop (lit "no-map") []) s in
  let s := noise s in
  on Builder.end_ s.

Fixpoint write_children (rac rsc : nat) (i : nat) (cs : list (option (list (Z * Z)))) (s : N * Builder.t) :
    N * Builder.t :=
  match cs with [] => s | c :: cs' => write_children rac rsc (S i) cs' (write_child rac rsc i c s) end.

Definition write_reserved (bd : t) (s : N * Builder.t) : N * Builder.t :=
  if negb (bool_decide (rsv_children bd = [])) || is_some (rsv_cells bd) then
    let '(rac, rsc) := default (root_cells bd) (rsv_cells bd) in
    let s := on (Builder.begin (lit "reserved-memory")) s in
    let s := opt_cells (rsv_cells bd) s in
    let s := on (Builder.prop (lit "ranges") []) s in
    let s := noise s in
    let s := write_children rac rsc 0 (rsv_children bd) s in
    on Builder.end_ s
  else s.

Definition write (bd : t) (s : N * Builder.t) : N * Builder.t :=
  let s := foldl (fun s r => on (Builder.memreserve r.1 r.2) s) s (memreserve bd) in
  let '(ac, sc) := root_cells bd in
  let s := on (Builder.begin []) s in
  let s := opt_cells (cells bd) s in
  let s := on (Builder.prop (lit "compatible") (lit "linux,dummy-virt" ++ [0])) s in
  let s := noise s in
  let s := write_chosen bd s in
  let s := write_memories ac sc 0 (memory bd) s in
  let s := write_reserved bd s in
  let s := noise s in
  on Builder.end_ s.
End write.

Definition blob (bd : t) : list Z := Builder.build (write (fun s => s) bd (tt, Builder.new)).2.

Definition regions (es : list (Z * Z)) : list MemRegion :=
  (fun e => mkMem e.1 e.2) <$> filter (fun e => e.2 <> 0) es.

Definition expected_memory (bd : t) : list MemRegion := regions (concat (memory bd)).

(** [take_while(|&e| e != (0, 0))]. *)
Fixpoint until_zero (rs : list (Z * Z)) : list (Z * Z) :=
  match rs with
  | [] => []
  | r :: rs' => if bool_decide (r = (0, 0)) then [] else r :: until_zero rs'
  end.

Definition expected_reserved (bd : t) : list MemRegion :=
  regions (until_zero (memreserve bd) ++ concat (omap id (rsv_children bd))).

Definition expected_entropy (bd : t) : list Z :=
  take (Z.to_nat MAX_ENTROPY) (default [] (rng_seed bd) ++ default [] (kaslr_seed bd)).
End Board.

#[local] Opaque be_bytes.

(** ** Tokens

    What the structure block means: a list of tokens whose property names are
    resolved in the strings block. *)

Inductive tok :=
| TBegin (name : list Z)
| TEnd
| TProp (name value : list Z)
| TNop.

Definition nonul (l : list Z) : Prop := Forall (fun c => c <> 0) l.

(** The name at an offset of the strings block. *)
Definition name_at (strs : list Z) (off : Z) (name : list Z) : Prop :=
  exists pre suf, strs = pre ++ name ++ 0 :: suf /\ Z.of_nat (length pre) = off.

Definition pad4 (l : list Z) : list Z := l ++ replicate (Z.to_nat (round_up 4 (Z.of_nat (length l)) - Z.of_nat (length l))) 0.

Definition enc (strs : list Z) (k : tok) (bs : list Z) : Prop :=
  match k with
  | TBegin name => nonul name /\ bs = be_bytes 4 1 ++ pad4 (name ++ [0])
  | TEnd => bs = be_bytes 4 2
  | TProp name value => nonul name /\ exists off, name_at strs off name /\
      bs = be_bytes 4 3 ++ be_bytes 4 (Z.of_nat (length value)) ++ be_bytes 4 off ++ pad4 value
  | TNop => bs = be_bytes 4 4
  end.

Definition encs (strs : list Z) (ts : list tok) (bs : list Z) : Prop :=
  exists bss, Forall2 (enc strs) ts bss /\ bs = concat bss.

Lemma length_pad4 l : Z.of_nat (length (pad4 l)) = round_up 4 (Z.of_nat (length l)).
Proof.
  unfold pad4. rewrite length_app, length_replicate. destruct (round_up_spec 4 (Z.of_nat (length l)) ltac:(lia)). lia.
Qed.

Lemma length_pad4_mod l : Z.of_nat (length (pad4 l)) mod 4 = 0.
Proof. rewrite length_pad4. by apply round_up_spec. Qed.

Lemma pad_loop_spec l : Builder.pad_loop 4 l = pad4 l.
Proof.
  unfold pad4. destruct (round_up_spec 4 (Z.of_nat (length l)) ltac:(lia)) as [Hm Hr].
  assert (Hd : exists d, Z.to_nat (round_up 4 (Z.of_nat (length l)) - Z.of_nat (length l)) = d /\ (d < 4)%nat /\
    (Z.of_nat (length l) + Z.of_nat d) mod 4 = 0).
  { eexists. split; [done|]. split; [lia|]. rewrite Z2Nat.id by lia. by rewrite Zplus_minus. }
  destruct Hd as (d & -> & Hd & Hmod). clear Hm Hr.
  assert (Hg : forall fuel l d, (d < fuel)%nat -> (d < 4)%nat -> (Z.of_nat (length l) + Z.of_nat d) mod 4 = 0 ->
    Builder.pad_loop fuel l = l ++ replicate d 0); [|by apply Hg].
  clear. induction fuel as [|fuel IH]; intros l d Hf Hd Hm; [lia|]. simpl.
  destruct d as [|d].
  - rewrite Z.add_0_r in Hm. rewrite Hm. simpl. by rewrite app_nil_r.
  - destruct (Z.eqb_spec (Z.of_nat (length l) mod 4) 0) as [H0|_]; [div_lia|].
    rewrite (IH (l ++ [0]) d); [by rewrite <- app_assoc|lia|lia|]. rewrite length_app. simpl.
    rewrite <- Hm. f_equal. lia.
Qed.

Lemma enc_mono strs suf k bs : enc strs k bs -> enc (strs ++ suf) k bs.
Proof.
  destruct k; simpl; try done. intros (Hn & off & (pre & post & -> & Hl) & ->). split; [done|]. exists off.
  split; [|done]. exists pre, (post ++ suf). by rewrite <- !app_assoc.
Qed.

Lemma encs_mono strs suf ts bs : encs strs ts bs -> encs (strs ++ suf) ts bs.
Proof.
  intros (bss & Hf & ->). exists bss. split; [|done]. induction Hf; constructor; auto using enc_mono.
Qed.

Lemma encs_app strs ts bs ts' bs' : encs strs ts bs -> encs strs ts' bs' -> encs strs (ts ++ ts') (bs ++ bs').
Proof.
  intros (b1 & H1 & ->) (b2 & H2 & ->). exists (b1 ++ b2). split; [by apply Forall2_app|]. by rewrite concat_app.
Qed.

Lemma encs_one strs k bs : enc strs k bs -> encs strs [k] bs.
Proof. intros. exists [bs]. split; [by constructor|]. simpl. by rewrite app_nil_r. Qed.

(** Every token takes a positive multiple of four bytes. *)
Lemma enc_length strs k bs : enc strs k bs -> Z.of_nat (length bs) mod 4 = 0 /\ (4 <= length bs)%nat.
Proof.
  destruct k; simpl.
  - intros [_ ->]. rewrite length_app, length_be_bytes. pose proof (length_pad4_mod (name ++ [0])). split; [div_lia|lia].
  - intros ->. by rewrite length_be_bytes.
  - intros (_ & off & _ & ->). rewrite !length_app, !length_be_bytes. pose proof (length_pad4_mod value).
    split; [div_lia|lia].
  - intros ->. by rewrite length_be_bytes.
Qed.

Lemma encs_length strs ts bs : encs strs ts bs -> Z.of_nat (length bs) mod 4 = 0 /\ (4 * length ts <= length bs)%nat.
Proof.
  intros (bss & Hf & ->). induction Hf as [|k bs ts bss Hk _ [IH1 IH2]]; [done|]. simpl. rewrite length_app.
  apply enc_length in Hk as [H1 H2]. split; [div_lia|lia].
Qed.

(** ** What the builder has written *)

Record emits (b : Builder.t) (ts : list tok) : Prop := {
  em_structure : encs (Builder.strings b) ts (Builder.structure b);
  em_strings : Builder.strings b = [] \/ exists l, Builder.strings b = l ++ [0]
}.

(** The builder's other fields. *)
Definition same_header (b b' : Builder.t) : Prop :=
  Builder.rsvmap b' = Builder.rsvmap b /\ Builder.version b' = Builder.version b /\
  Builder.last_comp_version b' = Builder.last_comp_version b /\ Builder.terminate b' = Builder.terminate b.

(** [f] appends the tokens [ts], whatever came before. *)
Definition appends (f : Builder.t -> Builder.t) (ts : list tok) : Prop :=
  forall b ts0, emits b ts0 -> emits (f b) (ts0 ++ ts) /\ same_header b (f b).

Lemma same_header_trans b1 b2 b3 : same_header b1 b2 -> same_header b2 b3 -> same_header b1 b3.
Proof. intros (?&?&?&?) (?&?&?&?). split_and!; congruence. Qed.

Lemma appends_token k v :
  enc [] k (be_bytes 4 v) -> appends (Builder.token v) [k].
Proof.
  intros Hk b ts0 [He Hs]. split; [|done]. split; [|done]. simpl. apply encs_app; [done|].
  apply encs_one. rewrite <- (app_nil_l (Builder.strings b)). by apply enc_mono.
Qed.

Lemma appends_end : appends Builder.end_ [TEnd].
Proof. by apply appends_token. Qed.

Lemma appends_nop : appends Builder.nop [TNop].
Proof. by apply appends_token. Qed.

(** Padding what was appended to an aligned block. *)
Lemma pad4_app l m : Z.of_nat (length l) mod 4 = 0 -> pad4 (l ++ m) = l ++ pad4 m.
Proof.
  intros Hl. unfold pad4. rewrite <- app_assoc. do 3 f_equal. rewrite length_app. unfold round_up. div_lia.
Qed.

Lemma appends_begin name : nonul name -> appends (Builder.begin name) [TBegin name].
Proof.
  intros Hn b ts0 [He Hs]. split; [|done]. split; [|done].
  change (Builder.structure (Builder.begin name b)) with
    (Builder.pad_loop 4 (((Builder.structure b ++ be_bytes 4 1) ++ name) ++ [0])).
  rewrite pad_loop_spec, <- !app_assoc. apply encs_length in He as Hl. rewrite (app_assoc _ (be_bytes 4 1)).
  rewrite pad4_app by (rewrite length_app, length_be_bytes; div_lia). rewrite <- app_assoc. apply encs_app; [done|].
  by apply encs_one.
Qed.

Lemma appends_prop_at name value off b ts0 :
  nonul name -> name_at (Builder.strings b) off name -> emits b ts0 ->
  emits (Builder.prop_at (off mod U32) value b) (ts0 ++ [TProp name value]) /\
  same_header b (Builder.prop_at (off mod U32) value b).
Proof.
  intros Hn Ho [He Hs]. split; [|done]. split; [|done].
  change (Builder.structure (Builder.prop_at (off mod U32) value b)) with
    (Builder.pad_loop 4 ((((Builder.structure b ++ be_bytes 4 3) ++ be_bytes 4 (Z.of_nat (length value) mod U32)) ++
       be_bytes 4 (off mod U32)) ++ value)).
  rewrite pad_loop_spec. apply encs_length in He as Hl.
  rewrite pad4_app by (rewrite !length_app, !length_be_bytes; div_lia).
  change U32 with (256 ^ Z.of_nat 4). rewrite !be_bytes_mod. rewrite <- !app_assoc. apply encs_app; [done|]. apply encs_one. simpl. split; [done|]. by exists off.
Qed.

Lemma split0_nonul l : nonul l -> Builder.split0 l = [l].
Proof. induction 1 as [|c l Hc _ IH]; [done|]. simpl. by rewrite (proj2 (Z.eqb_neq c 0)), IH. Qed.

Lemma split0_cons p l : nonul p -> Builder.split0 (p ++ 0 :: l) = p :: Builder.split0 l.
Proof. induction 1 as [|c p Hc _ IH]; [done|]. simpl. by rewrite (proj2 (Z.eqb_neq c 0)), IH. Qed.

Lemma first_zero l : nonul l \/ exists p l', l = p ++ 0 :: l' /\ nonul p.
Proof.
  induction l as [|c l [IH|(p & l' & -> & Hp)]]; [by left; constructor|..]; destruct (decide (c = 0)) as [->|Hc].
  - right. exists [], l. split; [done|constructor].
  - left. by constructor.
  - right. exists [], (p ++ 0 :: l'). split; [done|constructor].
  - right. exists (c :: p), l'. split; [done|by constructor].
Qed.

Lemma find_string_name l name o off :
  (l = [] \/ exists l', l = l' ++ [0]) ->
  Builder.find_string (Builder.split0 l) name o (o + Z.of_nat (length l)) = Some off ->
  exists pre suf, l = pre ++ name ++ 0 :: suf /\ off = o + Z.of_nat (length pre).
Proof.
  remember (length l) as n eqn:En. revert l o En. induction (lt_wf n) as [n _ IH]. intros l o -> Hl.
  destruct (first_zero l) as [Hz|(p & l' & -> & Hp)].
  { rewrite split0_nonul by done. destruct Hl as [->|[l' ->]].
    - simpl. rewrite Z.add_0_r, Z.ltb_irrefl, andb_false_r. done.
    - apply Forall_app in Hz as [_ Hz]. by inversion Hz. }
  rewrite split0_cons by done. cbn [Builder.find_string].
  rewrite length_app. cbn [length].
  destruct (bool_decide (p = name) && _) eqn:E.
  - apply andb_true_iff in E as [->%bool_decide_eq_true_1 _]. intros [= <-]. exists [], l'. simpl. split; [done|lia].
  - replace (o + Z.of_nat (length p + S (length l'))) with (o + Z.of_nat (length p) + 1 + Z.of_nat (length l')) by lia.
    intros Hf. apply (IH (length l')) in Hf as (pre & suf & -> & ->).
    + exists (p ++ 0 :: pre), suf. split; [by rewrite <- app_assoc|]. rewrite length_app. simpl. lia.
    + rewrite length_app. simpl. lia.
    + done.
    + destruct Hl as [Hl|[l2 Hl]]; [by destruct p|]. destruct l' as [|c l'] using rev_ind; [by left|].
      right. exists l'. rewrite app_comm_cons, app_assoc in Hl. by apply app_inj_tail in Hl as [_ ->].
Qed.

Lemma appends_prop name value : nonul name -> appends (Builder.prop name value) [TProp name value].
Proof.
  intros Hn b ts0 He. unfold Builder.prop, Builder.string_offset.
  destruct (Builder.find_string _ _ _ _) as [off|] eqn:E.
  - apply (find_string_name _ _ 0) in E as (pre & suf & Hs & ->); [|apply He].
    apply appends_prop_at; [done|by exists pre, suf|done].
  - set (b' := Builder.mk _ _ _ _ _ _). change (same_header b) with (same_header b').
    assert (He' : emits b' ts0).
    { split; [by apply encs_mono, He|]. right. exists (Builder.strings b ++ name). simpl. by rewrite <- app_assoc. }
    apply appends_prop_at; [done|by exists (Builder.strings b), []|done].
Qed.

Lemma nonul_lit_dec s : forallb (fun c => negb (c =? 0)) (lit s) = true -> nonul (lit s).
Proof.
  intros Hf. apply list.Forall_forall. intros c Hc. apply list_elem_of_In in Hc.
  rewrite forallb_forall in Hf. apply Hf in Hc. by destruct (Z.eqb_spec c 0).
Qed.

Lemma nonul_app l m : nonul l -> nonul m -> nonul (l ++ m).
Proof. intros. by apply Forall_app. Qed.

Lemma digit_nonul d : 0 <= d -> digit d <> 0.
Proof. unfold digit. intros. destruct (_ <? _); lia. Qed.

Lemma format_radix_nonul fuel radix v acc : 0 < radix -> nonul acc -> nonul (format_radix fuel radix v acc).
Proof.
  intros Hr. revert v acc. induction fuel as [|fuel IH]; intros v acc Ha; [done|]. simpl.
  assert (nonul (digit (v mod radix) :: acc)).
  { constructor; [|done]. apply digit_nonul, Z.mod_pos_bound. lia. }
  destruct (_ <? _); [done|]. by apply IH.
Qed.

(** ** What the parser does with a token *)

Definition begin_step (name : list Z) (w : walk_state) : R walk_state :=
  let d := depth w + 1 in
  if MAX_DEPTH <? d then Err BootError.TooDeep else
  if (d =? 1) && negb (bool_decide (name = [])) then Err BootError.BadStructure else
  let mem := (d =? 2) && (bool_decide (name = lit "memory") || bool_decide (take 7 name = lit "memory@")) in
  let cho := (d =? 2) && bool_decide (name = lit "chosen") in
  let rsv := (d =? 2) && bool_decide (name = lit "reserved-memory") in
  Ok (mkW (addr_cells w) (size_cells w) d (if mem then Some d else memory_depth w)
        (if cho then Some d else chosen_depth w) (rsv || rsv_node w)
        (if rsv then addr_cells w else rsv_addr_cells w)
        (if rsv then size_cells w else rsv_size_cells w) (w_info w)).

Definition tok_step (k : tok) (w : walk_state) : R walk_state :=
  match k with
  | TBegin name => begin_step name w
  | TEnd => end_node w
  | TProp name value => if depth w =? 0 then Err BootError.BadStructure else apply_prop name value w
  | TNop => Ok w
  end.

Fixpoint steps (ts : list tok) (w : walk_state) : R walk_state :=
  match ts with [] => Ok w | k :: ts' => let? w' := tok_step k w in steps ts' w' end.

Lemma steps_app ts ts' w : steps (ts ++ ts') w = let? w' := steps ts w in steps ts' w'.
Proof.
  revert w. induction ts as [|k ts IH]; intros w; [done|]. simpl. destruct (tok_step k w); simpl; [apply IH|done..].
Qed.

(** [bs] lies at offset [off]. *)
Definition at_ (blob : list Z) (off : Z) (bs : list Z) : Prop :=
  exists pre suf, blob = pre ++ bs ++ suf /\ Z.of_nat (length pre) = off.

Lemma at_app blob off l m : at_ blob off (l ++ m) -> at_ blob off l /\ at_ blob (off + Z.of_nat (length l)) m.
Proof.
  intros (pre & suf & -> & <-). rewrite <- !app_assoc. split; [by exists pre, (m ++ suf)|].
  exists (pre ++ l), suf. rewrite <- app_assoc. split; [done|]. rewrite length_app. lia.
Qed.

Lemma at_bounds blob off bs : at_ blob off bs -> 0 <= off /\ off + Z.of_nat (length bs) <= Z.of_nat (length blob).
Proof. intros (pre & suf & -> & <-). rewrite !length_app. lia. Qed.

(** A range that reaches past [bs] starts with it. *)
Lemma get_range_at blob off bs e :
  at_ blob off bs -> off + Z.of_nat (length bs) <= e -> e <= Z.of_nat (length blob) ->
  exists tl, get_range blob off e = Some (bs ++ tl) /\ Z.of_nat (length (bs ++ tl)) = e - off.
Proof.
  intros (pre & suf & -> & <-) He Hl. rewrite !length_app in Hl. unfold get_range.
  rewrite !length_app, !(proj2 (Z.leb_le _ _)) by lia. cbn [andb]. rewrite Nat2Z.id, drop_app_length.
  rewrite take_app_ge by lia. eexists. split; [done|]. rewrite length_app, length_take. lia.
Qed.

Lemma get_range_at_exact blob off bs :
  at_ blob off bs -> get_range blob off (off + Z.of_nat (length bs)) = Some bs.
Proof.
  intros Ha. pose proof (at_bounds _ _ _ Ha). destruct (get_range_at blob off bs _ Ha ltac:(reflexivity)) as (tl & -> & Hl); [lia|].
  rewrite length_app in Hl. assert (Ht : length tl = 0%nat) by lia. apply nil_length_inv in Ht as ->. by rewrite app_nil_r.
Qed.

Lemma position0_at name tl : nonul name -> position0 (name ++ 0 :: tl) = Some (Z.of_nat (length name)).
Proof.
  induction 1 as [|c name Hc _ IH]; [done|]. cbn [app position0 length]. rewrite (proj2 (Z.eqb_neq c 0)), IH by done.
  simpl. f_equal. lia.
Qed.

Lemma be32_at blob off v : Z.of_nat (length blob) < U32 -> at_ blob off (be_bytes 4 v) -> be32 blob off = Ok (v mod U32).
Proof.
  intros Hlen Ha. pose proof (at_bounds _ _ _ Ha) as Hb. rewrite length_be_bytes in Hb. unfold be32.
  rewrite Z.mod_small by lia. pose proof (get_range_at_exact _ _ _ Ha) as Hg. rewrite length_be_bytes in Hg.
  change (Z.of_nat 4) with 4 in Hg. rewrite Hg. cbn [ok_or rbind]. f_equal.
  rewrite <- (be_bytes_mod 4 v). change (256 ^ Z.of_nat 4) with U32. apply be_val_bytes.
  change (256 ^ Z.of_nat 4) with U32. apply Z.mod_pos_bound. lia.
Qed.

Lemma be64_at blob off v : Z.of_nat (length blob) < U32 -> at_ blob off (be_bytes 8 v) -> be64 blob off = Ok (v mod U64).
Proof.
  intros Hlen Ha. pose proof (at_bounds _ _ _ Ha) as Hb. rewrite length_be_bytes in Hb. unfold be64.
  rewrite (Z.mod_small (off + 8)) by lia. pose proof (get_range_at_exact _ _ _ Ha) as Hg. rewrite length_be_bytes in Hg.
  change (Z.of_nat 8) with 8 in Hg. rewrite Hg. cbn [ok_or rbind]. f_equal.
  rewrite <- (be_bytes_mod 8 v). change (256 ^ Z.of_nat 8) with U64. apply be_val_bytes.
  change (256 ^ Z.of_nat 8) with U64. apply Z.mod_pos_bound. lia.
Qed.

Section walk.
Context (blob strs : list Z) (off_strings strings_end struct_end : Z).
Context (Hlen : Z.of_nat (length blob) < U32).
Context (Hstrs : at_ blob off_strings strs) (Hse : strings_end = off_strings + Z.of_nat (length strs)).
Context (Hst : struct_end <= Z.of_nat (length blob)).

Lemma prop_name_at off name :
  nonul name -> name_at strs off name -> prop_name blob off_strings strings_end off = Ok name.
Proof.
  intros Hn (pre & suf & Es & <-). pose proof (at_bounds _ _ _ Hstrs) as Hb. subst strings_end.
  assert (Ha : at_ blob (off_strings + Z.of_nat (length pre)) (name ++ 0 :: suf)).
  { rewrite Es in Hstrs. by apply at_app in Hstrs as [_ Ha]. }
  assert (El : Z.of_nat (length strs) = Z.of_nat (length pre) + Z.of_nat (length name) + 1 + Z.of_nat (length suf)).
  { rewrite Es, !length_app. simpl. lia. }
  unfold prop_name, checked_add. rewrite (proj2 (Z.ltb_lt _ U64)) by lia. cbn [ok_or rbind].
  rewrite (proj2 (Z.ltb_lt _ _)) by lia. cbn [negb]. unfold slice_p.
  destruct (get_range_at _ _ _ (off_strings + Z.of_nat (length strs)) Ha) as (tl & -> & _);
    [rewrite length_app; simpl; lia|lia|]. cbn [rbind].
  rewrite <- app_assoc. cbn [app]. rewrite position0_at by done. cbn [ok_or rbind].
  rewrite add_p_ok by lia. cbn [rbind]. apply at_app in Ha as [Ha _].
  rewrite (get_range_at_exact _ _ _ Ha). done.
Qed.

Lemma begin_node_at off name :
  nonul name -> at_ blob off (pad4 (name ++ [0])) -> off + Z.of_nat (length (pad4 (name ++ [0]))) <= struct_end ->
  off mod 4 = 0 -> forall w,
  begin_node blob struct_end off w =
    let? w' := begin_step name w in Ok (w', off + Z.of_nat (length (pad4 (name ++ [0])))).
Proof.
  intros Hn Ha He Hm w. pose proof (at_bounds _ _ _ Ha) as Hb. unfold begin_node, begin_step.
  destruct (MAX_DEPTH <? depth w + 1); [done|].
  assert (Hp : round_up 4 (off + Z.of_nat (length name) + 1) = off + Z.of_nat (length (pad4 (name ++ [0])))).
  { rewrite length_pad4, length_app. cbn [length]. unfold round_up. div_lia. }
  assert (Hge : Z.of_nat (length name) + 1 <= Z.of_nat (length (pad4 (name ++ [0])))).
  { unfold pad4. rewrite !length_app. simpl. lia. }
  unfold pad4 in Ha. apply at_app in Ha as [Ha _].
  destruct (get_range_at _ _ _ struct_end Ha) as (tl & -> & _); [rewrite length_app; simpl; lia|done|].
  cbn [ok_or rbind]. rewrite <- app_assoc. cbn [app]. rewrite position0_at by done. cbn [ok_or rbind].
  rewrite add_p_ok by lia. cbn [rbind]. unfold slice_p. apply at_app in Ha as [Ha _].
  rewrite (get_range_at_exact _ _ _ Ha). cbn [rbind].
  destruct (_ && negb _); [done|]. rewrite add_p_ok by lia. cbn [rbind]. rewrite align4_ok by lia. cbn [rbind].
  by rewrite Hp.
Qed.

Lemma prop_node_at off name value noff :
  nonul name -> name_at strs noff name ->
  at_ blob off (be_bytes 4 (Z.of_nat (length value)) ++ be_bytes 4 noff ++ pad4 value) ->
  off + 8 + Z.of_nat (length (pad4 value)) <= struct_end -> off mod 4 = 0 -> forall w,
  prop_node blob off_strings strings_end struct_end off w =
    let? w' := tok_step (TProp name value) w in Ok (w', off + 8 + Z.of_nat (length (pad4 value))).
Proof.
  intros Hn Hno Ha He Hm w. unfold prop_node, tok_step. destruct (depth w =? 0); [done|].
  apply at_app in Ha as [Ha1 Ha]. rewrite length_be_bytes in Ha. apply at_app in Ha as [Ha2 Ha3].
  rewrite length_be_bytes in Ha3. change (Z.of_nat 4) with 4 in *.
  pose proof (at_bounds _ _ _ Ha3) as Hb. pose proof (length_pad4 value) as Hl.
  destruct (round_up_spec 4 (Z.of_nat (length value)) ltac:(lia)) as [_ Hr].
  assert (Hn32 : 0 <= noff < U32).
  { destruct Hno as (pre & suf & Es & <-). pose proof (at_bounds _ _ _ Hstrs) as Hb'. rewrite Es, !length_app in Hb'. lia. }
  rewrite (be32_at _ _ _ Hlen Ha1), Z.mod_small by lia. cbn [rbind].
  rewrite add_p_ok by lia. cbn [rbind]. rewrite (be32_at _ _ _ Hlen Ha2), Z.mod_small by lia. cbn [rbind].
  rewrite add_p_ok by lia. cbn [rbind]. unfold checked_end, checked_add.
  rewrite (proj2 (Z.ltb_lt _ U64)) by lia. cbn [ok_or rbind]. rewrite (proj2 (Z.leb_le _ struct_end)) by lia. cbn [rbind].
  rewrite (prop_name_at noff name) by done. cbn [rbind].
  unfold slice_p. unfold pad4 in Ha3. apply at_app in Ha3 as [Ha3 _].
  replace (off + 4 + 4) with (off + 8) in Ha3 by lia. rewrite (get_range_at_exact _ _ _ Ha3). cbn [rbind].
  destruct (apply_prop name value w); cbn [rbind]; [|done..]. rewrite align4_ok by lia. cbn [rbind].
  do 3 f_equal. rewrite Hl. unfold round_up. div_lia.
Qed.

(** One round of the token loop. *)
Lemma walk_tok fuel k bs off w :
  enc strs k bs -> at_ blob off bs -> off + Z.of_nat (length bs) <= struct_end -> off mod 4 = 0 ->
  walk_tokens (S fuel) blob off_strings strings_end struct_end off w =
    let? w' := tok_step k w in
    walk_tokens fuel blob off_strings strings_end struct_end (off + Z.of_nat (length bs)) w'.
Proof.
  intros Hk Ha He Hm. pose proof (at_bounds _ _ _ Ha) as Hb. pose proof (enc_length _ _ _ Hk) as [_ Hl4].
  cbn [walk_tokens]. rewrite (proj2 (Z.leb_gt _ _)) by lia.
  assert (Hm4 : (off + 4) mod 4 = 0) by div_lia.
  destruct k as [name| |name value|]; cbn [enc] in Hk.
  - destruct Hk as [Hn ->]. rewrite length_app, length_be_bytes in *. apply at_app in Ha as [Ha1 Ha2].
    rewrite length_be_bytes in Ha2. rewrite (be32_at _ _ _ Hlen Ha1). cbn [rbind]. rewrite add_p_ok by lia. cbn [rbind].
    change (1 mod U32) with FDT_BEGIN_NODE. rewrite Z.eqb_refl.
    rewrite (begin_node_at (off + 4) name) by (done || lia). cbn [tok_step].
    destruct (begin_step name w); cbn [rbind fst snd]; [|done..]. f_equal. lia.
  - subst bs. rewrite length_be_bytes in *. rewrite (be32_at _ _ _ Hlen Ha). cbn [rbind]. rewrite add_p_ok by lia. cbn [rbind].
    change (2 mod U32 =? FDT_BEGIN_NODE) with false. change (2 mod U32 =? FDT_END_NODE) with true. done.
  - destruct Hk as (Hn & noff & Hno & ->). rewrite !length_app, !length_be_bytes in *. apply at_app in Ha as [Ha1 Ha2].
    rewrite length_be_bytes in Ha2. rewrite (be32_at _ _ _ Hlen Ha1). cbn [rbind]. rewrite add_p_ok by lia. cbn [rbind].
    change (3 mod U32 =? FDT_BEGIN_NODE) with false. change (3 mod U32 =? FDT_END_NODE) with false.
    change (3 mod U32 =? FDT_PROP) with true. cbv iota.
    rewrite (prop_node_at (off + 4) name value noff) by (done || lia).
    destruct (tok_step (TProp name value) w); cbn [rbind fst snd]; [|done..]. f_equal. lia.
  - subst bs. rewrite length_be_bytes in *. rewrite (be32_at _ _ _ Hlen Ha). cbn [rbind]. rewrite add_p_ok by lia. cbn [rbind].
    change (4 mod U32 =? FDT_BEGIN_NODE) with false. change (4 mod U32 =? FDT_END_NODE) with false.
    change (4 mod U32 =? FDT_PROP) with false. change (4 mod U32 =? FDT_NOP) with true. done.
Qed.

Lemma walk_toks fuel ts bs off w :
  encs strs ts bs -> at_ blob off bs -> off + Z.of_nat (length bs) <= struct_end -> off mod 4 = 0 ->
  walk_tokens (length ts + fuel) blob off_strings strings_end struct_end off w =
    let? w' := steps ts w in
    walk_tokens fuel blob off_strings strings_end struct_end (off + Z.of_nat (length bs)) w'.
Proof.
  intros (bss & Hf & ->). revert off w. induction Hf as [|k bs ts bss Hk _ IH]; intros off w Ha He Hm.
  { simpl. f_equal. lia. }
  cbn [concat length] in *. rewrite length_app in He. apply at_app in Ha as [Ha1 Ha2].
  pose proof (enc_length _ _ _ Hk) as [Hk4 _]. cbn [plus]. rewrite (walk_tok _ k bs) by (done || lia).
  cbn [steps]. destruct (tok_step k w) as [w'| | |]; cbn [rbind]; [|done..].
  rewrite IH; [|done|lia|div_lia]. destruct (steps ts w'); cbn [rbind]; [|done..]. f_equal. rewrite length_app. lia.
Qed.

Lemma walk_end fuel off w :
  at_ blob off (be_bytes 4 Builder.END) -> off < struct_end ->
  walk_tokens (S fuel) blob off_strings strings_end struct_end off w =
    if negb (depth w =? 0) then Err BootError.BadStructure else Ok w.
Proof.
  intros Ha He. pose proof (at_bounds _ _ _ Ha). rewrite length_be_bytes in *. cbn [walk_tokens].
  rewrite (proj2 (Z.leb_gt _ _)) by lia. rewrite (be32_at _ _ _ Hlen Ha). cbn [rbind]. rewrite add_p_ok by lia. reflexivity.
Qed.

End walk.

(** The memreserve block. *)
Definition push_all (info : BootInfo) (rs : list (Z * Z)) : R BootInfo :=
  let? m := append_regions MAX_RSV_REGIONS (reserved info) ((fun r => mkMem r.1 r.2) <$> rs) in
  Ok (mkInfo (dtb_start info) (dtb_end info) (memory info) m (entropy info)).

Lemma push_all_nil info : Z.of_nat (length (reserved info)) <= MAX_RSV_REGIONS -> push_all info [] = Ok info.
Proof.
  intros Hl. unfold push_all, append_regions. simpl. rewrite decide_True by lia. simpl. rewrite app_nil_r. by destruct info.
Qed.

Lemma push_all_skip info b rs : push_all info ((b, 0) :: rs) = push_all info rs.
Proof. done. Qed.

Lemma push_all_cons info b z rs :
  z <> 0 -> b + z < U64 -> Z.of_nat (length (reserved info)) <= MAX_RSV_REGIONS ->
  push_all info ((b, z) :: rs) = let? info' := push_reserved info b z in push_all info' rs.
Proof.
  intros Hz Hs Hl. unfold push_reserved. rewrite (proj2 (checked_add_Some b z _)) by (split; [reflexivity|done]).
  cbn [ok_or rbind]. unfold push_all, append_regions. rewrite fmap_cons, filter_cons, (decide_True (P := m_size _ <> 0)) by done.
  cbn [fst snd length]. destruct (Z.eqb_spec (Z.of_nat (length (reserved info))) MAX_RSV_REGIONS) as [E|E].
  - by rewrite decide_False by lia.
  - cbn [rbind reserved dtb_start dtb_end memory entropy]. rewrite length_app. cbn [length].
    rewrite <- app_assoc. cbn [app]. rewrite (decide_ext (Z.of_nat (length (reserved info)) + _ <= _)
      (Z.of_nat (length (reserved info) + 1) + Z.of_nat (length (filter (fun r => m_size r <> 0)
         ((fun r : Z * Z => mkMem r.1 r.2) <$> rs))) <= MAX_RSV_REGIONS)) by lia. done.
Qed.

Lemma memreserve_at blob fuel rs off info :
  Z.of_nat (length blob) < U32 ->
  Forall (fun r => 0 <= r.1 /\ 0 <= r.2 /\ r.1 + r.2 < U64) rs ->
  at_ blob off (Builder.rsv_bytes rs ++ be_bytes 8 0 ++ be_bytes 8 0) -> (length rs < fuel)%nat ->
  Z.of_nat (length (reserved info)) <= MAX_RSV_REGIONS ->
  memreserve fuel blob off info = push_all info (Board.until_zero rs).
Proof.
  intros Hlen. revert off info fuel. induction rs as [|[b z] rs IH]; intros off info fuel Hr Ha Hf Hl;
    (destruct fuel as [|fuel]; [lia|]); cbn [memreserve].
  - cbn [Builder.rsv_bytes mbind list_bind app] in Ha. pose proof (at_bounds _ _ _ Ha) as Hb.
    rewrite length_app, !length_be_bytes in Hb. apply at_app in Ha as [Ha1 Ha2]. rewrite length_be_bytes in Ha2.
    change (Z.of_nat 8) with 8 in *. rewrite (be64_at _ _ _ Hlen Ha1). cbn [rbind]. rewrite add_p_ok by lia. cbn [rbind].
    rewrite (be64_at _ _ _ Hlen Ha2). cbn [rbind]. unfold checked_add. rewrite (proj2 (Z.ltb_lt _ _)) by lia. cbn [ok_or rbind].
    change (0 mod U64) with 0. cbn [Z.eqb andb]. by rewrite push_all_nil.
  - cbn [Builder.rsv_bytes mbind list_bind fst snd] in Ha. fold (Builder.rsv_bytes rs) in Ha.
    rewrite <- !app_assoc in Ha. pose proof (at_bounds _ _ _ Ha) as Hb. rewrite !length_app, !length_be_bytes in Hb.
    apply at_app in Ha as [Ha1 Ha2]. rewrite length_be_bytes in Ha2. apply at_app in Ha2 as [Ha2 Ha3].
    rewrite length_be_bytes in Ha3. change (Z.of_nat 8) with 8 in *.
    apply list.Forall_cons in Hr as [(Hb0 & Hz0 & Hs) Hr]. cbn [fst snd] in *.
    rewrite (be64_at _ _ _ Hlen Ha1), Z.mod_small by lia. cbn [rbind]. rewrite add_p_ok by lia. cbn [rbind].
    rewrite (be64_at _ _ _ Hlen Ha2), Z.mod_small by lia. cbn [rbind]. unfold checked_add.
    rewrite (proj2 (Z.ltb_lt _ _)) by lia. cbn [ok_or rbind]. replace (off + 8 + 8) with (off + 16) in Ha3 by lia.
    cbn [Board.until_zero]. cbn [length] in Hf.
    destruct (Z.eqb_spec z 0) as [->|Hz].
    + destruct (Z.eqb_spec b 0) as [->|Hbn]; cbn [andb].
      * rewrite bool_decide_eq_true_2 by done. by rewrite push_all_nil.
      * rewrite bool_decide_eq_false_2 by congruence. rewrite push_all_skip. apply IH; [done|done|lia|done].
    + rewrite andb_false_r. rewrite bool_decide_eq_false_2 by congruence. rewrite push_all_cons by done.
      unfold push_reserved. rewrite (proj2 (checked_add_Some b z _)) by (split; [reflexivity|done]). cbn [ok_or rbind].
      destruct (Z.eqb_spec (Z.of_nat (length (reserved info))) MAX_RSV_REGIONS); cbn [rbind]; [done|].
      apply IH; [done|done|lia|]. cbn [reserved]. rewrite length_app. cbn [length]. lia.
Qed.

(** ** Parsing a built blob *)

Lemma length_rsv_bytes rs : length (Builder.rsv_bytes rs) = (16 * length rs)%nat.
Proof.
  unfold Builder.rsv_bytes. induction rs as [|r rs IH]; [done|]. cbn [mbind list_bind].
  rewrite !length_app, !length_be_bytes, IH. simpl. lia.
Qed.

(** The ten header words. *)
Lemma header_at (vs : list Z) tl i v :
  vs !! i = Some v -> at_ ((x ← vs; be_bytes 4 x) ++ tl) (4 * Z.of_nat i) (be_bytes 4 v).
Proof.
  revert i. induction vs as [|x vs IH]; intros i Hi; [done|]. cbn [mbind list_bind]. destruct i as [|i].
  - injection Hi as ->. exists [], ((x ← vs; be_bytes 4 x) ++ tl). by rewrite <- app_assoc.
  - destruct (IH i Hi) as (pre & suf & E & Hl). exists (be_bytes 4 x ++ pre), suf. split.
    + rewrite <- !app_assoc. f_equal. exact E.
    + rewrite length_app, length_be_bytes. lia.
Qed.

(** Parsing a blob with a known header, memreserve table, structure and strings. *)
Lemma parse_at blob rsvmap structure strs ts nr ns lo hi :
  Z.of_nat (length blob) < U32 ->
  be32 blob 8 = Ok (40 + nr) -> be32 blob 12 = Ok (40 + nr + ns) -> be32 blob 16 = Ok 40 -> be32 blob 20 = Ok 17 ->
  be32 blob 24 = Ok 16 -> be32 blob 32 = Ok (Z.of_nat (length strs)) -> be32 blob 36 = Ok ns ->
  nr = 16 * Z.of_nat (length rsvmap) + 16 -> ns = Z.of_nat (length structure) + 4 ->
  Z.of_nat (length blob) = 40 + nr + ns + Z.of_nat (length strs) ->
  Forall (fun r => 0 <= r.1 /\ 0 <= r.2 /\ r.1 + r.2 < U64) rsvmap -> encs strs ts structure ->
  at_ blob 40 (Builder.rsv_bytes rsvmap ++ be_bytes 8 0 ++ be_bytes 8 0) ->
  at_ blob (40 + nr) (structure ++ be_bytes 4 Builder.END) -> at_ blob (40 + nr + ns) strs ->
  parse_blob blob lo hi =
    let? info := push_all (mkInfo lo hi [] [] []) (Board.until_zero rsvmap) in
    let? w := steps ts (init_walk info) in
    if negb (depth w =? 0) then Err BootError.BadStructure else
    if Z.of_nat (length (memory (w_info w))) =? 0 then Err BootError.NoMemory else Ok (w_info w).
Proof.
  intros Hlen E2 E3 E4 E5 E6 E8 E9 Hrl Hsl Hbl Hr He Arsv Ast Astr. pose proof (encs_length _ _ _ He) as [Hm4 Hl4].
  unfold parse_blob. rewrite E2, E3, E5, E6, E8, E9, E4. cbn [rbind].
  change ((17 <? SUPPORTED_VERSION) || (SUPPORTED_VERSION <? 16)) with false. cbv iota.
  rewrite (proj2 (Z.eqb_eq ((40 + nr) mod 4) 0)) by (rewrite Hrl; div_lia).
  rewrite (proj2 (Z.eqb_eq (ns mod 4) 0)) by div_lia. cbn [negb orb].
  unfold checked_end, checked_add. rewrite !(proj2 (Z.ltb_lt _ U64)) by lia. cbn [ok_or rbind].
  rewrite !(proj2 (Z.leb_le _ (Z.of_nat (length blob)))) by lia. cbn [rbind].
  change (negb (40 mod 8 =? 0)) with false. cbv iota.
  rewrite (memreserve_at blob _ rsvmap); [|done|done|done|lia|done].
  destruct (push_all _ _) as [info| | |]; cbn [rbind]; [|done..].
  assert (Hfuel : exists f, S (length blob) = (length ts + S f)%nat) by (exists (length blob - length ts)%nat; lia).
  destruct Hfuel as [f ->]. apply at_app in Ast as [Ast Aend].
  assert (Hoff : (40 + nr) mod 4 = 0) by (rewrite Hrl; div_lia).
  assert (Hse : 40 + nr + ns <= Z.of_nat (length blob)) by lia.
  rewrite (walk_toks blob strs _ _ _ Hlen Astr eq_refl Hse _ ts structure) by (done || lia).
  destruct (steps ts (init_walk info)) as [w| | |]; cbn [rbind]; [|done..].
  rewrite (walk_end blob strs _ _ _ Hlen) by (done || lia). by destruct (negb (depth w =? 0)).
Qed.

Lemma parse_build b ts lo hi :
  emits b ts -> Builder.version b = 17 -> Builder.last_comp_version b = 16 -> Builder.terminate b = true ->
  Forall (fun r => 0 <= r.1 /\ 0 <= r.2 /\ r.1 + r.2 < U64) (Builder.rsvmap b) ->
  Z.of_nat (length (Builder.build b)) < U32 ->
  parse_blob (Builder.build b) lo hi =
    let? info := push_all (mkInfo lo hi [] [] []) (Board.until_zero (Builder.rsvmap b)) in
    let? w := steps ts (init_walk info) in
    if negb (depth w =? 0) then Err BootError.BadStructure else
    if Z.of_nat (length (memory (w_info w))) =? 0 then Err BootError.NoMemory else Ok (w_info w).
Proof.
  intros [He _] Hv Hc Ht Hr Hlen. pose proof (encs_length _ _ _ He) as [Hm4 Hl4].
  unfold Builder.build in Hlen |- *. rewrite Ht, Hv, Hc in Hlen |- *.
  change (replicate 16 0) with (be_bytes 8 0 ++ be_bytes 8 0) in Hlen |- *.
  set (rsv := Builder.rsv_bytes (Builder.rsvmap b) ++ be_bytes 8 0 ++ be_bytes 8 0) in *.
  set (st := Builder.structure b ++ be_bytes 4 Builder.END) in *.
  set (vs := [_; _; _; _; _; _; _; _; _; _]) in *.
  assert (Hh : length (x ← vs; be_bytes 4 x) = 40%nat) by (unfold vs; cbn; rewrite !length_app, !length_be_bytes; done).
  assert (Hrl : Z.of_nat (length rsv) = 16 * Z.of_nat (length (Builder.rsvmap b)) + 16).
  { unfold rsv. rewrite !length_app, !length_be_bytes, length_rsv_bytes. lia. }
  assert (Hsl : Z.of_nat (length st) = Z.of_nat (length (Builder.structure b)) + 4).
  { unfold st. rewrite !length_app, !length_be_bytes. lia. }
  set (blob := (x ← vs; be_bytes 4 x) ++ rsv ++ st ++ Builder.strings b) in *.
  assert (Hbl : Z.of_nat (length blob) = 40 + Z.of_nat (length rsv) + Z.of_nat (length st) +
    Z.of_nat (length (Builder.strings b))) by (unfold blob; rewrite !length_app, Hh; lia).
  assert (Hhd : forall i v, vs !! i = Some v -> be32 blob (4 * Z.of_nat i) = Ok (v mod U32)).
  { intros i v Hi. apply be32_at; [done|]. by apply header_at. }
  assert (Arsv : at_ blob 40 rsv) by (eexists _, _; split; [reflexivity|by rewrite Hh]).
  assert (Ast : at_ blob (40 + Z.of_nat (length rsv)) st).
  { exists ((x ← vs; be_bytes 4 x) ++ rsv), (Builder.strings b). unfold blob. rewrite <- app_assoc. split; [done|].
    rewrite length_app, Hh. lia. }
  assert (Astr : at_ blob (40 + Z.of_nat (length rsv) + Z.of_nat (length st)) (Builder.strings b)).
  { exists ((x ← vs; be_bytes 4 x) ++ rsv ++ st), []. unfold blob. rewrite <- !app_assoc, app_nil_r. split; [done|].
    rewrite !length_app, Hh. lia. }
  apply (parse_at blob (Builder.rsvmap b) (Builder.structure b) (Builder.strings b) ts (Z.of_nat (length rsv)) (Z.of_nat (length st)));
    try done.
  - etransitivity; [exact (Hhd 2%nat _ eq_refl)|]. rewrite Z.mod_mod, Z.mod_small by lia. done.
  - etransitivity; [exact (Hhd 3%nat _ eq_refl)|]. rewrite Z.mod_mod, Z.mod_small by lia. done.
  - exact (Hhd 4%nat _ eq_refl).
  - exact (Hhd 5%nat _ eq_refl).
  - exact (Hhd 6%nat _ eq_refl).
  - etransitivity; [exact (Hhd 8%nat _ eq_refl)|]. rewrite Z.mod_mod, Z.mod_small by lia. done.
  - etransitivity; [exact (Hhd 9%nat _ eq_refl)|]. rewrite Z.mod_mod, Z.mod_small by lia. done.
Qed.

(** ** Noise

    Tokens that mean nothing to the parser: no-ops, properties and nodes whose
    names it does not know, nested at most [h] deep. *)

Definition dull (name : list Z) : Prop :=
  name ∉ [lit "#address-cells"; lit "#size-cells"; lit "reg"; lit "rng-seed"; lit "kaslr-seed"].

Definition dull_node (name : list Z) : Prop :=
  (name ∉ [lit "memory"; lit "chosen"; lit "reserved-memory"]) /\ take 7 name <> lit "memory@".

Inductive quiet : nat -> list tok -> Prop :=
| quiet_nil h : quiet h []
| quiet_nop h q : quiet h q -> quiet h (TNop :: q)
| quiet_prop h name value q : dull name -> quiet h q -> quiet h (TProp name value :: q)
| quiet_node h name inner q :
    dull_node name -> quiet h inner -> quiet (S h) q -> quiet (S h) (TBegin name :: inner ++ TEnd :: q).

(** The parser's marks belong to the open nodes. *)
Definition settled (w : walk_state) : Prop :=
  1 <= depth w /\ (forall d, memory_depth w = Some d -> d <= depth w) /\
  (forall d, chosen_depth w = Some d -> d <= depth w) /\ (rsv_node w = true -> 2 <= depth w).

Definition deeper (w : walk_state) : walk_state :=
  mkW (addr_cells w) (size_cells w) (depth w + 1) (memory_depth w) (chosen_depth w) (rsv_node w)
    (rsv_addr_cells w) (rsv_size_cells w) (w_info w).

Lemma apply_prop_dull name value w : dull name -> apply_prop name value w = Ok w.
Proof.
  intros Hd. unfold dull in Hd. rewrite !not_elem_of_cons in Hd. destruct Hd as (N1 & N2 & N3 & N4 & N5 & _).
  unfold apply_prop. rewrite !(bool_decide_eq_false_2 (name = _)) by done. rewrite !andb_false_r. cbn [orb].
  destruct (depth w =? 1); [done|]. by destruct (rsv_node w && _).
Qed.

Lemma begin_step_dull name w :
  dull_node name -> 1 <= depth w -> depth w + 1 <= MAX_DEPTH -> begin_step name w = Ok (deeper w).
Proof.
  intros [Hd Ht] H1 Hm. rewrite !not_elem_of_cons in Hd. destruct Hd as (N1 & N2 & N3 & _).
  unfold begin_step. rewrite (proj2 (Z.ltb_ge _ _)) by lia. rewrite (proj2 (Z.eqb_neq (depth w + 1) 1)) by lia.
  cbn [andb]. rewrite !(bool_decide_eq_false_2 (name = _)) by done.
  rewrite (bool_decide_eq_false_2 (take 7 name = _)) by done. by rewrite !andb_false_r.
Qed.

Lemma end_node_deeper w : settled w -> end_node (deeper w) = Ok w.
Proof.
  intros (H1 & Hm & Hc & Hr). unfold end_node. cbn [deeper depth]. rewrite (proj2 (Z.eqb_neq _ 0)) by lia.
  destruct w as [ac sc d m c r rac rsc info]. cbn [deeper addr_cells size_cells depth memory_depth chosen_depth
    rsv_node rsv_addr_cells rsv_size_cells w_info] in *.
  rewrite (bool_decide_eq_false_2 (m = _)) by (intros E; apply Hm in E; lia).
  rewrite (bool_decide_eq_false_2 (c = _)) by (intros E; apply Hc in E; lia).
  assert (Hd : d + 1 - 1 = d) by lia. rewrite Hd. destruct r; [|done]. cbn [andb].
  rewrite (proj2 (Z.eqb_neq (d + 1) 2)); [done|]. specialize (Hr eq_refl). lia.
Qed.

Lemma quiet_steps h q w : quiet h q -> settled w -> depth w + Z.of_nat h <= MAX_DEPTH -> steps q w = Ok w.
Proof.
  intros Hq. revert w. induction Hq as [h|h q _ IH|h name value q Hn _ IH|h name inner q Hn _ IHi _ IH]; intros w Hs Hd.
  - done.
  - by apply IH.
  - cbn [steps tok_step]. destruct Hs as (H1 & Hs). rewrite (proj2 (Z.eqb_neq _ 0)) by lia.
    rewrite apply_prop_dull by done. cbn [rbind]. by apply IH.
  - cbn [steps tok_step]. rewrite begin_step_dull by (done || (destruct Hs; lia)). cbn [rbind].
    rewrite steps_app. destruct Hs as (H1 & Hm & Hc & Hr). rewrite IHi.
    + cbn [rbind steps tok_step]. rewrite end_node_deeper by done. cbn [rbind]. by apply IH.
    + split_and!; cbn [deeper depth memory_depth chosen_depth rsv_node]; [lia|..];
        [intros d E; apply Hm in E; lia|intros d E; apply Hc in E; lia|lia].
    + cbn [deeper depth]. lia.
Qed.

Lemma quiet_app h q q' : quiet h q -> quiet h q' -> quiet h (q ++ q').
Proof.
  induction 1; intros Hq'; simpl; try constructor; auto. rewrite <- app_assoc. simpl. constructor; auto.
Qed.

Lemma quiet_mono h h' q : quiet h q -> (h <= h')%nat -> quiet h' q.
Proof.
  intros Hq. revert h'. induction Hq; intros h' Hh; try (constructor; auto; fail).
  destruct h' as [|h']; [lia|]. constructor; [done|apply IHHq1; lia|by apply IHHq2].
Qed.

(** ** The board's tokens *)

(** Entries that fit their cells. *)
Definition entries_ok (ac sc : nat) (es : list (Z * Z)) : Prop :=
  es <> [] /\ Forall (fun e => fits_cells ac sc (mkMem e.1 e.2)) es.

Definition cells_ok (c : nat * nat) : Prop := (1 <= c.1 <= 2)%nat /\ (1 <= c.2 <= 2)%nat.

(** What the parser supports: one or two cells, non-empty [reg] properties of
    regions that fit their cells and do not overflow. *)
Record supported (bd : Board.t) : Prop := {
  bd_cells : cells_ok (Board.root_cells bd);
  bd_memory : Forall (entries_ok (Board.root_cells bd).1 (Board.root_cells bd).2) (Board.memory bd);
  bd_memreserve : Forall (fun r => 0 <= r.1 /\ 0 <= r.2 /\ r.1 + r.2 < U64) (Board.memreserve bd);
  bd_rsv_cells : cells_ok (default (Board.root_cells bd) (Board.rsv_cells bd));
  bd_children : Forall (fun c => match c with
    | Some es => let rc := default (Board.root_cells bd) (Board.rsv_cells bd) in entries_ok rc.1 rc.2 es
    | None => True
    end) (Board.rsv_children bd)
}.

(** Tokens in number, and what the parser does with them from [w]. *)
Section writes.
Context {N : Type}.
#[local] Abbreviation S := (N * Builder.t)%type.

Definition total (f : S -> S) : Prop :=
  forall s ts, emits s.2 ts -> exists q, emits (f s).2 (ts ++ q) /\ same_header s.2 (f s).2.

Definition writes (f : S -> S) (w : walk_state) (r : R walk_state) : Prop :=
  forall s ts, emits s.2 ts -> exists q, emits (f s).2 (ts ++ q) /\ same_header s.2 (f s).2 /\ steps q w = r.

Lemma writes_total f w r : writes f w r -> total f.
Proof. intros Hf s ts He. destruct (Hf s ts He) as (q & ? & ? & _). by exists q. Qed.

Lemma writes_on f ks w : appends f ks -> writes (Board.on f) w (steps ks w).
Proof. intros Hf s ts He. destruct (Hf s.2 ts He). by exists ks. Qed.

Lemma total_on f ks : appends f ks -> total (Board.on f).
Proof. intros Hf s ts He. destruct (Hf s.2 ts He). by exists ks. Qed.

Lemma writes_id w : writes (fun s => s) w (Ok w).
Proof. intros s ts He. exists []. rewrite app_nil_r. by split_and!. Qed.

Lemma total_seq f g : total f -> total g -> total (fun s => g (f s)).
Proof.
  intros Hf Hg s ts He. destruct (Hf s ts He) as (q & He' & Hh). destruct (Hg _ _ He') as (q' & He'' & Hh').
  exists (q ++ q'). rewrite app_assoc. split; [done|]. by eapply same_header_trans.
Qed.

Lemma writes_bind f g w r k :
  writes f w r -> total g -> (forall w', r = Ok w' -> writes g w' (k w')) ->
  writes (fun s => g (f s)) w (rbind r k).
Proof.
  intros Hf Ht Hg s ts He. destruct (Hf s ts He) as (q & He' & Hh & Hq).
  assert (Hx : exists q', emits (g (f s)).2 ((ts ++ q) ++ q') /\ same_header (f s).2 (g (f s)).2 /\
    steps (q ++ q') w = rbind r k).
  { destruct r as [w'| | |].
    1: destruct (Hg w' eq_refl (f s) _ He') as (q' & ? & ? & Hq'); exists q'; split_and!; [done..|];
       rewrite steps_app, Hq; done.
    all: destruct (Ht (f s) _ He') as (q' & ? & ?); exists q'; split_and!; [done..|]; rewrite steps_app, Hq; done. }
  destruct Hx as (q' & He'' & Hh' & Hr). exists (q ++ q'). rewrite app_assoc. split_and!; [done| |done].
  by eapply same_header_trans.
Qed.

Lemma writes_seq f g w w' r : writes f w (Ok w') -> writes g w' r -> writes (fun s => g (f s)) w r.
Proof.
  intros Hf Hg. apply (writes_bind f g w (Ok w') (fun _ => r)); [done|by eapply writes_total|]. by intros ? [= <-].
Qed.

Lemma writes_last f g w r k :
  writes f w r -> total g -> (forall w', r = Ok w' -> writes g w' (Ok (k w'))) ->
  writes (fun s => g (f s)) w (let? w' := r in Ok (k w')).
Proof. apply writes_bind. Qed.

Lemma prop_writes name value w :
  nonul name -> 1 <= depth w -> writes (Board.on (Builder.prop name value)) w (apply_prop name value w).
Proof.
  intros Hn Hd. pose proof (writes_on _ _ w (appends_prop name value Hn)) as Hw. cbn [steps tok_step] in Hw.
  rewrite (proj2 (Z.eqb_neq (depth w) 0)) in Hw by lia. by destruct (apply_prop name value w).
Qed.

Lemma prop_total name value : nonul name -> total (Board.on (Builder.prop name value)).
Proof. intros Hn. eapply total_on. by apply appends_prop. Qed.

(** Steps whose outcome is that of a table. *)
Lemma writes_info f g w (r : R BootInfo) (F : BootInfo -> walk_state) (G : BootInfo -> R walk_state) :
  writes f w (let? i := r in Ok (F i)) -> total g -> (forall i, r = Ok i -> writes g (F i) (G i)) ->
  writes (fun s => g (f s)) w (let? i := r in G i).
Proof.
  intros Hf Ht Hg. destruct r as [i| | |]; cbn [rbind] in *;
    [eapply writes_seq; [done|by apply Hg]|by apply (writes_bind f g w _ Ok Hf)..].
Qed.

Lemma begin_writes name w w' :
  nonul name -> begin_step name w = Ok w' -> writes (Board.on (Builder.begin name)) w (Ok w').
Proof.
  intros Hn Hb. pose proof (writes_on _ _ w (appends_begin name Hn)) as Hw. cbn [steps tok_step] in Hw.
  by rewrite Hb in Hw.
Qed.

Lemma end_writes w w' : end_node w = Ok w' -> writes (Board.on Builder.end_) w (Ok w').
Proof.
  intros Hb. pose proof (writes_on _ _ w appends_end) as Hw. cbn [steps tok_step] in Hw. by rewrite Hb in Hw.
Qed.

Lemma prop_writes_to name value w r :
  nonul name -> 1 <= depth w -> apply_prop name value w = r -> writes (Board.on (Builder.prop name value)) w r.
Proof. intros Hn Hd <-. by apply prop_writes. Qed.

Lemma begin_total name : nonul name -> total (Board.on (Builder.begin name)).
Proof. intros Hn. eapply total_on. by apply appends_begin. Qed.

Lemma end_total : total (Board.on Builder.end_).
Proof. eapply total_on, appends_end. Qed.

Lemma total_id : total (fun s => s).
Proof. eapply writes_total, (writes_id (init_walk (mkInfo 0 0 [] [] []))). Qed.

Lemma total_if (b : bool) f g : total f -> total g -> total (fun s => if b then f s else g s).
Proof. by destruct b. Qed.

Context (noise : S -> S) (h : nat).

(** A noise callback only ever adds noise. *)
Definition harmless : Prop :=
  forall s ts, emits s.2 ts -> exists q, quiet h q /\ emits (noise s).2 (ts ++ q) /\ same_header s.2 (noise s).2.

Context (Hnoise : harmless) (Hh : Z.of_nat h + 3 <= MAX_DEPTH).

Lemma noise_writes w : settled w -> depth w <= 3 -> writes noise w (Ok w).
Proof.
  intros Hs Hd s ts He. destruct (Hnoise s ts He) as (q & Hq & He' & Hs'). exists q. split_and!; [done..|].
  eapply quiet_steps; [done|done|lia].
Qed.

Lemma noise_total : total noise.
Proof. intros s ts He. destruct (Hnoise s ts He) as (q & _ & ? & ?). by exists q. Qed.
End writes.

(** Decides the comparisons of names. *)
Ltac names :=
  repeat match goal with
  | |- context [bool_decide (lit ?a = lit ?b)] =>
    let v := eval vm_compute in (bool_decide (lit a = lit b)) in
    change (bool_decide (lit a = lit b)) with v
  | |- context [bool_decide (take 7 (lit ?a) = lit ?b)] =>
    let v := eval vm_compute in (bool_decide (take 7 (lit a) = lit b)) in
    change (bool_decide (take 7 (lit a) = lit b)) with v
  end.

#[local] Arguments lit : simpl never.

Lemma lit_nonul s : forallb (fun c => negb (c =? 0)) (lit s) = true -> nonul (lit s).
Proof. apply nonul_lit_dec. Qed.

Ltac nonul_tac := apply lit_nonul; vm_compute; reflexivity.

Lemma cell_count_bytes v : 0 <= v < U32 -> cell_count (be_bytes 4 v) = Ok v.
Proof.
  intros Hv. unfold cell_count. rewrite length_be_bytes. cbn [Z.of_nat Z.eqb Pos.eqb Pos.of_succ_nat Pos.succ negb].
  f_equal. by apply be_val_bytes.
Qed.

(** The parser's state in the root node, in /reserved-memory, in a memory node,
    in /chosen and in a reserved region. *)
Definition at_root (c rc : nat * nat) (info : BootInfo) : walk_state :=
  mkW (Z.of_nat c.1) (Z.of_nat c.2) 1 None None false (Z.of_nat rc.1) (Z.of_nat rc.2) info.

Definition at_rsv (c rc : nat * nat) (info : BootInfo) : walk_state :=
  mkW (Z.of_nat c.1) (Z.of_nat c.2) 2 None None true (Z.of_nat rc.1) (Z.of_nat rc.2) info.

Definition at_mem (c rc : nat * nat) (info : BootInfo) : walk_state :=
  mkW (Z.of_nat c.1) (Z.of_nat c.2) 2 (Some 2) None false (Z.of_nat rc.1) (Z.of_nat rc.2) info.

Definition at_cho (c rc : nat * nat) (info : BootInfo) : walk_state :=
  mkW (Z.of_nat c.1) (Z.of_nat c.2) 2 None (Some 2) false (Z.of_nat rc.1) (Z.of_nat rc.2) info.

Definition at_child (c rc : nat * nat) (info : BootInfo) : walk_state :=
  mkW (Z.of_nat c.1) (Z.of_nat c.2) 3 None None true (Z.of_nat rc.1) (Z.of_nat rc.2) info.

Lemma at_root_settled c rc info : settled (at_root c rc info).
Proof. split_and!; simpl; [lia|done..]. Qed.

Lemma at_rsv_settled c rc info : settled (at_rsv c rc info).
Proof. split_and!; simpl; [lia|done|done|lia]. Qed.

Lemma at_mem_settled c rc info : settled (at_mem c rc info).
Proof. split_and!; simpl; [lia|intros d [= <-]; lia|done..]. Qed.

Lemma at_cho_settled c rc info : settled (at_cho c rc info).
Proof. split_and!; simpl; [lia|done|intros d [= <-]; lia|done]. Qed.

Lemma at_child_settled c rc info : settled (at_child c rc info).
Proof. split_and!; simpl; [lia|done|done|lia]. Qed.

Lemma cho_end c rc info : end_node (at_cho c rc info) = Ok (at_root c rc info).
Proof. done. Qed.

Lemma child_end c rc info : end_node (at_child c rc info) = Ok (at_rsv c rc info).
Proof. done. Qed.

Lemma rsv_end c rc info : end_node (at_rsv c rc info) = Ok (at_root c rc info).
Proof. done. Qed.

(** *** The [reg] property *)

Lemma push_cells_spec v x c : (c <= 2)%nat -> push_cells v x c = v ++ be_bytes (4 * c) x.
Proof.
  intros Hc. destruct c as [|[|[|c]]]; [by rewrite app_nil_r| | |lia]; cbn [push_cells Nat.leb].
  - f_equal. change U32 with (256 ^ Z.of_nat 4). rewrite be_bytes_mod. by rewrite Z.shiftr_0_r.
  - rewrite <- app_assoc. f_equal. change U32 with (256 ^ Z.of_nat 4). rewrite !be_bytes_mod.
    change (4 * 2)%nat with (4 + 4)%nat. rewrite be_bytes_app, Z.shiftr_0_r, Z.shiftr_div_pow2 by lia. done.
Qed.

Lemma reg_emit es ac sc :
  (ac <= 2)%nat -> (sc <= 2)%nat -> reg es ac sc = emit_reg ac sc ((fun e => mkMem e.1 e.2) <$> es).
Proof.
  intros Ha Hs. unfold reg, emit_reg. rewrite <- (app_nil_l (_ ≫= _)). generalize (@nil Z). induction es as [|e es IH]; intros v.
  - by rewrite app_nil_r.
  - cbn [foldl fmap list_fmap mbind list_bind m_base m_size]. rewrite !push_cells_spec by done.
    rewrite IH, <- !app_assoc. done.
Qed.

Lemma regions_filter es : filter (fun r => m_size r <> 0) ((fun e => mkMem e.1 e.2) <$> es) = Board.regions es.
Proof.
  unfold Board.regions. induction es as [|e es IH]; [done|]. cbn [fmap list_fmap].
  rewrite !filter_cons. cbn [m_size]. case_decide; cbn [fmap list_fmap]; by rewrite IH.
Qed.

(** What a [reg] of a memory node and of a reserved region adds. *)
Definition add_memory (es : list (Z * Z)) (info : BootInfo) : R BootInfo :=
  if decide (Z.of_nat (length (memory info)) + Z.of_nat (length (Board.regions es)) <= MAX_MEM_REGIONS)
  then Ok (mkInfo (dtb_start info) (dtb_end info) (memory info ++ Board.regions es) (reserved info) (entropy info))
  else Err BootError.TooManyRegions.

Definition add_reserved (es : list (Z * Z)) (info : BootInfo) : R BootInfo :=
  if decide (Z.of_nat (length (reserved info)) + Z.of_nat (length (Board.regions es)) <= MAX_RSV_REGIONS)
  then Ok (mkInfo (dtb_start info) (dtb_end info) (memory info) (reserved info ++ Board.regions es) (entropy info))
  else Err BootError.TooManyRegions.

Definition add_entropy (v : list Z) (info : BootInfo) : BootInfo :=
  mkInfo (dtb_start info) (dtb_end info) (memory info) (reserved info) (take (Z.to_nat MAX_ENTROPY) (entropy info ++ v)).

(** The tables of the parser never exceed their limits. *)
Definition within (info : BootInfo) : Prop :=
  Z.of_nat (length (memory info)) <= MAX_MEM_REGIONS /\ Z.of_nat (length (reserved info)) <= MAX_RSV_REGIONS /\
  Z.of_nat (length (entropy info)) <= MAX_ENTROPY.

Lemma parse_reg_reg es c limit out :
  cells_ok c -> entries_ok c.1 c.2 es -> Z.of_nat (length out) <= limit ->
  parse_reg (reg es c.1 c.2) (Z.of_nat c.1) (Z.of_nat c.2) limit out =
    if decide (Z.of_nat (length out) + Z.of_nat (length (Board.regions es)) <= limit)
    then Ok (out ++ Board.regions es) else Err BootError.TooManyRegions.
Proof.
  intros [Hc1 Hc2] [Hne He] Hl. rewrite reg_emit by lia. rewrite parse_reg_emit; [|done|done| | |done].
  - unfold append_regions. by rewrite regions_filter.
  - by destruct es.
  - by apply Forall_fmap.
Qed.

Lemma push_regions_reg es c info :
  cells_ok c -> entries_ok c.1 c.2 es -> within info ->
  push_regions (reg es c.1 c.2) (Z.of_nat c.1) (Z.of_nat c.2) info = add_memory es info.
Proof.
  intros Hc He (Hm & _). unfold push_regions, add_memory. rewrite parse_reg_reg by done. by case_decide.
Qed.

Lemma push_reserved_regions_reg es c info :
  cells_ok c -> entries_ok c.1 c.2 es -> within info ->
  push_reserved_regions (reg es c.1 c.2) (Z.of_nat c.1) (Z.of_nat c.2) info = add_reserved es info.
Proof.
  intros Hc He (_ & Hr & _). unfold push_reserved_regions, add_reserved. rewrite parse_reg_reg by done. by case_decide.
Qed.

Lemma push_entropy_add v info : within info -> push_entropy v info = Ok (add_entropy v info).
Proof.
  intros (_ & _ & He). unfold push_entropy, add_entropy. rewrite sub_p_ok by done. cbn [rbind].
  unfold slice_p, get_range. rewrite !(proj2 (Z.leb_le _ _)) by lia. cbn [andb rbind]. rewrite drop_0, Z.sub_0_r.
  do 2 f_equal. rewrite take_app. unfold MAX_ENTROPY in *. rewrite (take_ge (entropy info)) by lia. f_equal.
  destruct (Z.le_ge_cases (Z.of_nat (length v)) (72 - Z.of_nat (length (entropy info)))).
  - rewrite Z.min_l by lia. rewrite !take_ge by lia. done.
  - rewrite Z.min_r by lia. f_equal. lia.
Qed.

Lemma add_memory_within es info info' : within info -> add_memory es info = Ok info' -> within info'.
Proof.
  intros (Hm & Hr & He). unfold add_memory. case_decide as Hd; [|done]. intros [= <-].
  split_and!; cbn [memory reserved entropy]; [rewrite length_app; lia|done..].
Qed.

Lemma add_reserved_within es info info' : within info -> add_reserved es info = Ok info' -> within info'.
Proof.
  intros (Hm & Hr & He). unfold add_reserved. case_decide as Hd; [|done]. intros [= <-].
  split_and!; cbn [memory reserved entropy]; [done|rewrite length_app; lia|done].
Qed.

Lemma add_entropy_within v info : within info -> within (add_entropy v info).
Proof.
  intros (Hm & Hr & He). split_and!; cbn [add_entropy memory reserved entropy]; [done..|].
  rewrite length_take. unfold MAX_ENTROPY. lia.
Qed.

Lemma regions_app a b : Board.regions (a ++ b) = Board.regions a ++ Board.regions b.
Proof. unfold Board.regions. by rewrite list.filter_app, fmap_app. Qed.

Lemma add_memory_app a b info : add_memory (a ++ b) info = let? info' := add_memory a info in add_memory b info'.
Proof.
  unfold add_memory at 1 2. rewrite regions_app, length_app. case_decide as H1; case_decide as H2; try done; try lia;
    cbn [rbind]; unfold add_memory; cbn [memory reserved entropy dtb_start dtb_end]; rewrite length_app.
  - rewrite decide_True by lia. by rewrite app_assoc.
  - by rewrite decide_False by lia.
Qed.

Lemma add_reserved_app a b info :
  add_reserved (a ++ b) info = let? info' := add_reserved a info in add_reserved b info'.
Proof.
  unfold add_reserved at 1 2. rewrite regions_app, length_app. case_decide as H1; case_decide as H2; try done; try lia;
    cbn [rbind]; unfold add_reserved; cbn [memory reserved entropy dtb_start dtb_end]; rewrite length_app.
  - rewrite decide_True by lia. by rewrite app_assoc.
  - by rewrite decide_False by lia.
Qed.

Lemma add_memory_nil info : within info -> add_memory [] info = Ok info.
Proof.
  intros (Hm & _). unfold add_memory. cbn. rewrite decide_True by lia. rewrite app_nil_r. by destruct info.
Qed.

Lemma add_reserved_nil info : within info -> add_reserved [] info = Ok info.
Proof.
  intros (_ & Hr & _). unfold add_reserved. cbn. rewrite decide_True by lia. rewrite app_nil_r. by destruct info.
Qed.

Lemma add_entropy_nil info : within info -> add_entropy [] info = info.
Proof.
  intros (_ & _ & He). unfold add_entropy, MAX_ENTROPY in *. rewrite app_nil_r, take_ge by lia. by destruct info.
Qed.

Lemma add_entropy_app a b info : add_entropy b (add_entropy a info) = add_entropy (a ++ b) info.
Proof.
  unfold add_entropy. cbn [memory reserved entropy dtb_start dtb_end]. f_equal. rewrite app_assoc.
  rewrite !(take_app _ b), take_take, Nat.min_id. f_equal.
  destruct (Nat.le_gt_cases (length (entropy info ++ a)) (Z.to_nat MAX_ENTROPY)).
  - by rewrite (take_ge (_ ++ _)).
  - rewrite length_take. replace (_ - _)%nat with 0%nat by lia. replace (_ - _)%nat with 0%nat by lia. done.
Qed.

Lemma push_all_add info rs : push_all info rs = add_reserved rs info.
Proof. unfold push_all, append_regions, add_reserved. rewrite regions_filter. by case_decide. Qed.

Section board.
Context {N : Type} (noise : N * Builder.t -> N * Builder.t) (h : nat).
Context (Hnoise : harmless noise h) (Hh : Z.of_nat h + 3 <= MAX_DEPTH).

Definition small (c : option (nat * nat)) : Prop :=
  match c with Some (a, z) => Z.of_nat a < U32 /\ Z.of_nat z < U32 | None => True end.

Lemma opt_cells_root c c0 rc info :
  small c -> writes (N := N) (Board.opt_cells c) (at_root c0 rc info) (Ok (at_root (default c0 c) rc info)).
Proof.
  destruct c as [[a z]|]; [|intros _; apply writes_id]. intros [Ha Hz]. unfold Board.opt_cells.
  apply (writes_seq (Board.on (Builder.prop (lit "#address-cells") (be_bytes 4 (Z.of_nat a))))
    (Board.on (Builder.prop (lit "#size-cells") (be_bytes 4 (Z.of_nat z)))) _ (at_root (a, c0.2) rc info)).
  - replace (Ok (at_root (a, c0.2) rc info)) with
      (apply_prop (lit "#address-cells") (be_bytes 4 (Z.of_nat a)) (at_root c0 rc info)).
    + apply prop_writes; [nonul_tac|done].
    + unfold apply_prop. cbn [at_root depth Z.eqb Pos.eqb]. names. cbv iota. rewrite cell_count_bytes by lia. done.
  - replace (Ok (at_root (default c0 (Some (a, z))) rc info)) with
      (apply_prop (lit "#size-cells") (be_bytes 4 (Z.of_nat z)) (at_root (a, c0.2) rc info)).
    + apply prop_writes; [nonul_tac|done].
    + unfold apply_prop. cbn [at_root depth Z.eqb Pos.eqb]. names. cbv iota. rewrite cell_count_bytes by lia. done.
Qed.

Lemma opt_cells_rsv c c0 rc info :
  small c -> writes (N := N) (Board.opt_cells c) (at_rsv c0 rc info) (Ok (at_rsv c0 (default rc c) info)).
Proof.
  destruct c as [[a z]|]; [|intros _; apply writes_id]. intros [Ha Hz]. unfold Board.opt_cells.
  apply (writes_seq (Board.on (Builder.prop (lit "#address-cells") (be_bytes 4 (Z.of_nat a))))
    (Board.on (Builder.prop (lit "#size-cells") (be_bytes 4 (Z.of_nat z)))) _ (at_rsv c0 (a, rc.2) info)).
  - replace (Ok (at_rsv c0 (a, rc.2) info)) with
      (apply_prop (lit "#address-cells") (be_bytes 4 (Z.of_nat a)) (at_rsv c0 rc info)).
    + apply prop_writes; [nonul_tac|done].
    + unfold apply_prop. cbn [at_rsv depth memory_depth rsv_node Z.eqb Pos.eqb]. names.
      rewrite andb_false_r. cbv iota. cbn [andb]. rewrite cell_count_bytes by lia. done.
  - replace (Ok (at_rsv c0 (default rc (Some (a, z))) info)) with
      (apply_prop (lit "#size-cells") (be_bytes 4 (Z.of_nat z)) (at_rsv c0 (a, rc.2) info)).
    + apply prop_writes; [nonul_tac|done].
    + unfold apply_prop. cbn [at_rsv depth memory_depth rsv_node Z.eqb Pos.eqb]. names.
      rewrite andb_false_r. cbv iota. cbn [andb]. rewrite cell_count_bytes by lia. done.
Qed.

(** A property that the parser ignores. *)
Lemma dull_writes name value w :
  nonul name -> dull name -> 1 <= depth w -> writes (N := N) (Board.on (Builder.prop name value)) w (Ok w).
Proof. intros Hn Hd Hw. rewrite <- (apply_prop_dull name value w Hd). by apply prop_writes. Qed.

Lemma opt_prop_total name v : nonul name -> total (N := N) (Board.opt_prop name v).
Proof. intros Hn. destruct v; [by apply prop_total|apply total_id]. Qed.

Lemma opt_cells_total c : total (N := N) (Board.opt_cells c).
Proof.
  destruct c as [[a z]|]; [|apply total_id].
  apply (total_seq (Board.on (Builder.prop (lit "#address-cells") (be_bytes 4 (Z.of_nat a))))
    (Board.on (Builder.prop (lit "#size-cells") (be_bytes 4 (Z.of_nat z))))); apply prop_total; nonul_tac.
Qed.

Ltac total_tac :=
  cbv beta zeta;
  lazymatch goal with
  | |- total (fun s => s) => apply total_id
  | |- total (fun s => ?g (@?E s)) => apply (total_seq E g); [total_tac|total_tac]
  | |- total noise => eapply noise_total; eassumption
  | |- total (Board.on (Builder.prop _ _)) => apply prop_total; first [done|nonul_tac]
  | |- total (Board.on (Builder.begin _)) => apply begin_total; first [done|nonul_tac]
  | |- total (Board.on Builder.end_) => apply end_total
  | |- total (Board.opt_prop _ _) => apply opt_prop_total; nonul_tac
  | |- total (Board.opt_cells _) => apply opt_cells_total
  | |- total _ => done
  end.

(** Peels the last step of a writer. *)
Ltac last_step :=
  cbv beta zeta; lazymatch goal with |- writes (fun s => ?g (@?E s)) _ _ => eapply (writes_seq E g) end.

Ltac noise_tac :=
  first [ apply (noise_writes noise h Hnoise Hh); [solve [auto using at_root_settled, at_rsv_settled, at_mem_settled,
    at_cho_settled, at_child_settled]|simpl; lia] ].

Ltac dull_tac := apply dull_writes; [nonul_tac|apply (bool_decide_unpack _); vm_compute; exact I|simpl; lia].

(** *** /memory *)

Lemma memory_name_nonul i es : nonul (Board.memory_name i es).
Proof.
  unfold Board.memory_name. destruct es as [|[base z] es]; [nonul_tac|]. destruct (_ =? _)%nat; [|nonul_tac].
  apply nonul_app; [nonul_tac|]. apply format_radix_nonul; [lia|constructor].
Qed.

Lemma memory_begin i es c rc info :
  begin_step (Board.memory_name i es) (at_root c rc info) = Ok (at_mem c rc info).
Proof.
  unfold begin_step, Board.memory_name. cbn [at_root depth Z.add Pos.add].
  assert (Hp : forall l, bool_decide (lit "memory@" ++ l = lit "memory") = false /\
    bool_decide (take 7 (lit "memory@" ++ l) = lit "memory@") = true /\
    bool_decide (lit "memory@" ++ l = lit "chosen") = false /\
    bool_decide (lit "memory@" ++ l = lit "reserved-memory") = false).
  { intros l. split_and!; try (apply bool_decide_eq_false_2; discriminate). by apply bool_decide_eq_true_2. }
  destruct es as [|[base z] es]; [done|]. destruct (_ =? _)%nat; [|done].
  destruct (Hp (format_hex base)) as (-> & -> & -> & ->). done.
Qed.

Lemma memory_reg es c rc info :
  cells_ok c -> entries_ok c.1 c.2 es -> within info ->
  writes (N := N) (Board.on (Builder.prop (lit "reg") (reg es c.1 c.2))) (at_mem c rc info)
    (let? i := add_memory es info in Ok (at_mem c rc i)).
Proof.
  intros Hc He Hw. apply prop_writes_to; [nonul_tac|simpl; lia|]. unfold apply_prop.
  cbn [at_mem depth memory_depth addr_cells size_cells w_info Z.eqb Pos.eqb]. names.
  rewrite (bool_decide_eq_true_2 (Some 2 = Some 2)) by done. cbn [andb]. by rewrite push_regions_reg.
Qed.

Lemma write_memory_total ac sc i es : total (Board.write_memory noise ac sc i es).
Proof. unfold Board.write_memory. pose proof (memory_name_nonul i es). total_tac. Qed.

Lemma write_memory_writes i es c rc info :
  cells_ok c -> entries_ok c.1 c.2 es -> within info ->
  writes (Board.write_memory noise c.1 c.2 i es) (at_root c rc info)
    (let? info' := add_memory es info in Ok (at_root c rc info')).
Proof.
  intros Hc He Hw. pose proof (memory_name_nonul i es) as Hn.
  apply (writes_info (fun s => Board.on (Builder.prop (lit "reg") (reg es c.1 c.2)) (noise
           (Board.on (Builder.prop (lit "device_type") (lit "memory" ++ [0]))
             (Board.on (Builder.begin (Board.memory_name i es)) s))))
    (fun s => noise (Board.on Builder.end_ (noise s))) _ _ (at_mem c rc)); [|total_tac|].
  - last_step; [|by apply memory_reg]. last_step; [|noise_tac]. last_step; [|dull_tac].
    apply begin_writes; [done|apply memory_begin].
  - intros info' _. last_step; [|noise_tac]. last_step; [noise_tac|]. by apply end_writes.
Qed.

Lemma write_memories_total ac sc i ms : total (Board.write_memories noise ac sc i ms).
Proof.
  revert i. induction ms as [|m ms IH]; intros i; [apply total_id|].
  apply (total_seq (Board.write_memory noise ac sc i m)); [apply write_memory_total|apply IH].
Qed.

Lemma write_memories_writes i ms c rc info :
  cells_ok c -> Forall (entries_ok c.1 c.2) ms -> within info ->
  writes (Board.write_memories noise c.1 c.2 i ms) (at_root c rc info)
    (let? info' := add_memory (concat ms) info in Ok (at_root c rc info')).
Proof.
  intros Hc. revert i info. induction ms as [|m ms IH]; intros i info Hms Hw.
  - cbn [concat]. rewrite add_memory_nil by done. apply writes_id.
  - apply list.Forall_cons in Hms as [Hm Hms]. cbn [concat]. rewrite add_memory_app.
    pose proof (writes_info (Board.write_memory noise c.1 c.2 i m) (Board.write_memories noise c.1 c.2 (S i) ms)
      (at_root c rc info) (add_memory m info) (at_root c rc)
      (fun i => let? info' := add_memory (concat ms) i in Ok (at_root c rc info'))) as Hx.
    destruct (add_memory m info) eqn:E; apply Hx; clear Hx;
      try (rewrite <- E; by apply write_memory_writes); try apply write_memories_total; try done.
    intros ? [= <-]. apply IH; [done|]. by eapply add_memory_within.
Qed.

(** *** /chosen *)

Lemma seed_writes name v c rc info :
  name = lit "rng-seed" \/ name = lit "kaslr-seed" -> within info ->
  writes (N := N) (Board.opt_prop name v) (at_cho c rc info) (Ok (at_cho c rc (add_entropy (default [] v) info))).
Proof.
  intros Hname Hw. destruct v as [v|]; cbn [default from_option id]; [|rewrite add_entropy_nil by done; apply writes_id].
  apply prop_writes_to; [destruct Hname as [-> | ->]; nonul_tac|simpl; lia|]. unfold apply_prop.
  cbn [at_cho depth memory_depth chosen_depth rsv_node w_info Z.eqb Pos.eqb andb].
  rewrite (bool_decide_eq_true_2 (Some 2 = Some 2)) by done. rewrite push_entropy_add by done.
  destruct Hname as [-> | ->]; names; done.
Qed.

Lemma write_chosen_writes bd c rc info :
  within info ->
  writes (Board.write_chosen noise bd) (at_root c rc info)
    (Ok (at_root c rc (add_entropy (default [] (Board.rng_seed bd) ++ default [] (Board.kaslr_seed bd)) info))).
Proof.
  intros Hw. unfold Board.write_chosen. rewrite <- add_entropy_app.
  destruct (Board.is_some _ || Board.is_some _) eqn:E.
  - last_step; [|apply end_writes, cho_end]. last_step; [|noise_tac].
    last_step; [|apply seed_writes; [by right|by apply add_entropy_within]]. last_step; [|dull_tac].
    last_step; [|apply seed_writes; [by left|done]]. last_step; [|noise_tac].
    apply begin_writes; [nonul_tac|done].
  - destruct (Board.rng_seed bd), (Board.kaslr_seed bd); try done. cbn [default from_option].
    rewrite !add_entropy_nil by (done || by apply add_entropy_within). apply writes_id.
Qed.

(** *** /reserved-memory *)

Lemma child_name_nonul i : nonul (lit "region@" ++ format_dec i).
Proof. apply nonul_app; [nonul_tac|]. apply format_radix_nonul; [lia|constructor]. Qed.

Lemma child_reg es c rc info :
  cells_ok rc -> entries_ok rc.1 rc.2 es -> within info ->
  writes (N := N) (Board.on (Builder.prop (lit "reg") (reg es rc.1 rc.2))) (at_child c rc info)
    (let? i := add_reserved es info in Ok (at_child c rc i)).
Proof.
  intros Hc He Hw. apply prop_writes_to; [nonul_tac|simpl; lia|]. unfold apply_prop.
  cbn [at_child depth memory_depth rsv_node rsv_addr_cells rsv_size_cells w_info Z.eqb Pos.eqb]. names.
  rewrite (bool_decide_eq_false_2 (None = Some 3)) by done. cbn [andb]. by rewrite push_reserved_regions_reg.
Qed.

(** The contents of a reserved region: static or dynamic. *)
Lemma child_prop_writes child c rc info :
  cells_ok rc -> (forall es, child = Some es -> entries_ok rc.1 rc.2 es) -> within info ->
  writes (N := N) (Board.child_prop rc.1 rc.2 child) (at_child c rc info) (let? i := add_reserved (default [] child) info in Ok (at_child c rc i)).
Proof.
  intros Hc He Hw. destruct child as [es|]; [by apply child_reg; [|apply He|]|].
  cbn [default from_option]. rewrite add_reserved_nil by done. dull_tac.
Qed.

Lemma write_child_total rac rsc i child : total (Board.write_child noise rac rsc i child).
Proof.
  unfold Board.write_child. pose proof (child_name_nonul (Z.of_nat i)). destruct child; cbn [Board.child_prop]; total_tac.
Qed.

Lemma write_child_writes i child c rc info :
  cells_ok rc -> (forall es, child = Some es -> entries_ok rc.1 rc.2 es) -> within info ->
  writes (Board.write_child noise rc.1 rc.2 i child) (at_rsv c rc info)
    (let? info' := add_reserved (default [] child) info in Ok (at_rsv c rc info')).
Proof.
  intros Hc He Hw. pose proof (child_name_nonul (Z.of_nat i)) as Hn.
  apply (writes_info (fun s => Board.child_prop rc.1 rc.2 child (Board.on (Builder.begin (lit "region@" ++ format_dec (Z.of_nat i))) s))
    (fun s => Board.on Builder.end_ (noise (Board.on (Builder.prop (lit "no-map") []) s))) _ _ (at_child c rc));
    [|total_tac|].
  - eapply (writes_seq (Board.on (Builder.begin _))); [|by apply child_prop_writes]. by apply begin_writes.
  - intros info' _. last_step; [|apply end_writes, child_end]. last_step; [|noise_tac]. dull_tac.
Qed.

Lemma write_children_total rac rsc i cs : total (Board.write_children noise rac rsc i cs).
Proof.
  revert i. induction cs as [|m ms IH]; intros i; [apply total_id|].
  apply (total_seq (Board.write_child noise rac rsc i m)); [apply write_child_total|apply IH].
Qed.

Lemma write_children_writes i cs c rc info :
  cells_ok rc -> Forall (fun child => forall es, child = Some es -> entries_ok rc.1 rc.2 es) cs -> within info ->
  writes (Board.write_children noise rc.1 rc.2 i cs) (at_rsv c rc info)
    (let? info' := add_reserved (concat (omap id cs)) info in Ok (at_rsv c rc info')).
Proof.
  intros Hc. revert i info. induction cs as [|m ms IH]; intros i info Hms Hw.
  - cbn [concat omap list_omap]. rewrite add_reserved_nil by done. apply writes_id.
  - apply list.Forall_cons in Hms as [Hm Hms].
    replace (concat (omap id (m :: ms))) with (default [] m ++ concat (omap id ms)) by by destruct m.
    rewrite add_reserved_app.
    pose proof (writes_info (Board.write_child noise rc.1 rc.2 i m) (Board.write_children noise rc.1 rc.2 (S i) ms)
      (at_rsv c rc info) (add_reserved (default [] m) info) (at_rsv c rc)
      (fun i => let? info' := add_reserved (concat (omap id ms)) i in Ok (at_rsv c rc info'))) as Hx.
    destruct (add_reserved (default [] m) info) eqn:E; apply Hx; clear Hx;
      try (rewrite <- E; by apply write_child_writes); try apply write_children_total; try done.
    intros ? [= <-]. apply IH; [done|]. by eapply add_reserved_within.
Qed.

Lemma write_reserved_total bd : total (Board.write_reserved noise bd).
Proof.
  unfold Board.write_reserved. destruct (_ || _); [|apply total_id]. destruct (default _ _) as [rac rsc].
  pose proof (write_children_total rac rsc 0 (Board.rsv_children bd)). total_tac.
Qed.

Lemma write_reserved_writes bd rc :
  supported bd -> exists rc', forall info, within info ->
  writes (Board.write_reserved noise bd) (at_root (Board.root_cells bd) rc info)
    (let? info' := add_reserved (concat (omap id (Board.rsv_children bd))) info in
     Ok (at_root (Board.root_cells bd) rc' info')).
Proof.
  intros Hs. set (c := Board.root_cells bd). set (rc' := default c (Board.rsv_cells bd)).
  unfold Board.write_reserved. destruct (_ || _) eqn:E.
  - exists rc'. intros info Hw. fold c. fold rc'. rewrite (surjective_pairing rc'). cbv beta iota zeta.
    apply (writes_info (fun s => Board.write_children noise rc'.1 rc'.2 0 (Board.rsv_children bd) (noise
        (Board.on (Builder.prop (lit "ranges") []) (Board.opt_cells (Board.rsv_cells bd)
          (Board.on (Builder.begin (lit "reserved-memory")) s)))))
      (Board.on Builder.end_) _ _ (at_rsv c rc')); [|total_tac|].
    + last_step; [|apply write_children_writes; [apply Hs| |done]].
      * last_step; [|noise_tac]. last_step; [|dull_tac].
        last_step; [|apply (opt_cells_rsv _ c c info)].
        -- by apply begin_writes; [nonul_tac|].
        -- pose proof (bd_rsv_cells _ Hs) as [Hc1 Hc2]. destruct (Board.rsv_cells bd) as [[a z]|]; [|done].
           cbn in *. lia.
      * apply (list.Forall_impl _ _ _ (bd_children _ Hs)). intros child Hc es ->. exact Hc.
    + intros info' _. rewrite <- surjective_pairing. apply end_writes, rsv_end.
  - exists rc. intros info Hw. apply orb_false_iff in E as [E _]. apply negb_false_iff, bool_decide_eq_true_1 in E. rewrite E.
    cbn [concat omap list_omap]. rewrite add_reserved_nil by done. apply writes_id.
Qed.

(** *** The whole tree *)

Definition tree (bd : Board.t) (s : N * Builder.t) : N * Builder.t :=
  let s := noise (Board.on (Builder.prop (lit "compatible") (lit "linux,dummy-virt" ++ [0]))
    (Board.opt_cells (Board.cells bd) (Board.on (Builder.begin []) s))) in
  let s := Board.write_memories noise (Board.root_cells bd).1 (Board.root_cells bd).2 0 (Board.memory bd)
    (Board.write_chosen noise bd s) in
  Board.on Builder.end_ (noise (Board.write_reserved noise bd s)).

Lemma write_tree bd s :
  Board.write noise bd s =
    tree bd (foldl (fun s r => Board.on (Builder.memreserve r.1 r.2) s) s (Board.memreserve bd)).
Proof. unfold Board.write, tree. by destruct (Board.root_cells bd). Qed.

(** What the parser makes of a board, after the memory reservation block. *)
Definition tables (bd : Board.t) (info : BootInfo) : R BootInfo :=
  let? i := add_memory (concat (Board.memory bd))
    (add_entropy (default [] (Board.rng_seed bd) ++ default [] (Board.kaslr_seed bd)) info) in
  add_reserved (concat (omap id (Board.rsv_children bd))) i.

Lemma head_writes bd info :
  supported bd -> within info ->
  writes (fun s => Board.write_chosen noise bd (noise (Board.on (Builder.prop (lit "compatible")
      (lit "linux,dummy-virt" ++ [0])) (Board.opt_cells (Board.cells bd) (Board.on (Builder.begin []) s)))))
    (init_walk info)
    (Ok (at_root (Board.root_cells bd) (2, 1)%nat
       (add_entropy (default [] (Board.rng_seed bd) ++ default [] (Board.kaslr_seed bd)) info))).
Proof.
  intros Hs Hw. last_step; [|by apply write_chosen_writes]. last_step; [|noise_tac]. last_step; [|dull_tac].
  last_step; [|apply (opt_cells_root _ (2, 1)%nat)].
  - by apply begin_writes; [constructor|].
  - pose proof (bd_cells _ Hs) as [Hc1 Hc2]. unfold Board.root_cells in *.
    destruct (Board.cells bd) as [[a z]|]; [|done]. cbn in *. lia.
Qed.

Lemma rbind_assoc {A B C} (r : R A) (f : A -> R B) (g : B -> R C) :
  (let? b := (let? a := r in f a) in g b) = (let? a := r in let? b := f a in g b).
Proof. by destruct r. Qed.

Lemma tree_writes bd info :
  supported bd -> within info ->
  exists w, writes (tree bd) (init_walk info) (let? i := tables bd info in Ok (w i)) /\
    (forall i, depth (w i) = 0 /\ w_info (w i) = i).
Proof.
  intros Hs Hw. unfold tables. set (c := Board.root_cells bd). set (e := add_entropy _ info).
  assert (He : within e) by by apply add_entropy_within.
  destruct (write_reserved_writes bd (2, 1)%nat Hs) as [rc' Hrsv]. fold c in Hrsv.
  set (w i := mkW (Z.of_nat c.1) (Z.of_nat c.2) 0 None None false (Z.of_nat rc'.1) (Z.of_nat rc'.2) i).
  exists w. split; [|done]. rewrite rbind_assoc.
  apply (writes_info (fun s => Board.write_memories noise c.1 c.2 0 (Board.memory bd) (Board.write_chosen noise bd
      (noise (Board.on (Builder.prop (lit "compatible") (lit "linux,dummy-virt" ++ [0]))
        (Board.opt_cells (Board.cells bd) (Board.on (Builder.begin []) s))))))
    (fun s => Board.on Builder.end_ (noise (Board.write_reserved noise bd s))) _ _ (at_root c (2, 1)%nat)).
  - eapply (writes_seq (fun s => Board.write_chosen noise bd _)); [by apply head_writes|].
    by apply write_memories_writes; [apply Hs|apply Hs|].
  - pose proof (write_reserved_total bd). total_tac.
  - intros i Hi. eapply (writes_info (Board.write_reserved noise bd) (fun s => Board.on Builder.end_ (noise s))).
    + apply Hrsv. by eapply add_memory_within.
    + total_tac.
    + intros i' _. last_step; [noise_tac|]. by apply end_writes.
Qed.
End board.

(** ** The round trip *)

(** [board_is_valid]: what the parser has room for. *)
Definition board_is_valid (bd : Board.t) : bool :=
  let mem := Z.of_nat (length (Board.expected_memory bd)) in
  let rsv := Z.of_nat (length (Board.expected_reserved bd)) in
  ((1 <=? mem) && (mem <=? MAX_MEM_REGIONS)) && (rsv <=? MAX_RSV_REGIONS).

(** The blob of a board, with noise. *)
Definition noisy_blob {N} (noise : N * Builder.t -> N * Builder.t) (bd : Board.t) (n : N) : list Z :=
  Builder.build (Board.write noise bd (n, Builder.new)).2.

Lemma memreserves_spec {N} rs (n : N) :
  forall b, emits b [] -> exists b', foldl (fun s r => Board.on (Builder.memreserve r.1 r.2) s) (n, b) rs = (n, b') /\
    emits b' [] /\ Builder.rsvmap b' = Builder.rsvmap b ++ rs /\ Builder.version b' = Builder.version b /\
    Builder.last_comp_version b' = Builder.last_comp_version b /\ Builder.terminate b' = Builder.terminate b.
Proof.
  induction rs as [|r rs IH]; intros b Hb; cbn [foldl].
  - exists b. rewrite app_nil_r. by split_and!.
  - destruct (IH (Builder.memreserve r.1 r.2 b)) as (b' & E & He & Hr & Hv); [by destruct Hb|].
    exists b'. split_and!; [exact E|done| |apply Hv..]. rewrite Hr. cbn [Builder.memreserve Builder.rsvmap].
    rewrite <- app_assoc. by destruct r.
Qed.

Lemma new_emits : emits Builder.new [].
Proof. split; [by exists []|by left]. Qed.

(** What [tables] computes after the memory reservations. *)
Lemma tables_spec bd lo hi :
  (let? info := add_reserved (Board.until_zero (Board.memreserve bd)) (mkInfo lo hi [] [] []) in tables bd info) =
    if decide (Z.of_nat (length (Board.expected_memory bd)) <= MAX_MEM_REGIONS /\
               Z.of_nat (length (Board.expected_reserved bd)) <= MAX_RSV_REGIONS)
    then Ok (mkInfo lo hi (Board.expected_memory bd) (Board.expected_reserved bd) (Board.expected_entropy bd))
    else Err BootError.TooManyRegions.
Proof.
  unfold Board.expected_memory, Board.expected_reserved. rewrite regions_app, length_app. unfold tables, add_reserved at 1.
  cbn [reserved length dtb_start dtb_end memory entropy app]. case_decide as H1; cbn [rbind].
  - unfold add_memory. cbn [add_entropy memory reserved entropy dtb_start dtb_end length app].
    case_decide as H2; cbn [rbind]; [|rewrite decide_False by lia; done].
    unfold add_reserved. cbn [memory reserved entropy dtb_start dtb_end].
    case_decide as H3; [rewrite decide_True by lia; done|rewrite decide_False by lia; done].
  - rewrite decide_False by lia. done.
Qed.

Lemma blob_parses {N} (noise : N * Builder.t -> N * Builder.t) h bd n lo hi :
  harmless noise h -> Z.of_nat h + 3 <= MAX_DEPTH -> supported bd ->
  Z.of_nat (length (noisy_blob noise bd n)) < U32 ->
  parse_blob (noisy_blob noise bd n) lo hi =
    let? i := (let? info := add_reserved (Board.until_zero (Board.memreserve bd)) (mkInfo lo hi [] [] []) in
               tables bd info) in
    if Z.of_nat (length (memory i)) =? 0 then Err BootError.NoMemory else Ok i.
Proof.
  intros Hn Hh Hs. unfold noisy_blob. rewrite write_tree.
  destruct (memreserves_spec (Board.memreserve bd) n Builder.new new_emits) as (b & -> & He & Hr & Hv & Hc & Ht).
  intros Hl. pose proof (bd_memreserve _ Hs) as Hm.
  set (info0 := mkInfo lo hi [] [] []). assert (H0 : within info0) by by split_and!.
  assert (Hgo : forall q, emits (tree noise bd (n, b)).2 q -> same_header b (tree noise bd (n, b)).2 ->
    parse_blob (Builder.build (tree noise bd (n, b)).2) lo hi =
      let? info := add_reserved (Board.until_zero (Board.memreserve bd)) info0 in
      let? w := steps q (init_walk info) in
      if negb (depth w =? 0) then Err BootError.BadStructure else
      if Z.of_nat (length (memory (w_info w))) =? 0 then Err BootError.NoMemory else Ok (w_info w)).
  { intros q Hq (Hq1 & Hq2 & Hq3 & Hq4). cbn [Builder.new Builder.rsvmap app] in Hr.
    rewrite (parse_build _ q); [|done|by rewrite Hq2, Hv|by rewrite Hq3, Hc|by rewrite Hq4, Ht|by rewrite Hq1, Hr|done].
    by rewrite Hq1, Hr, push_all_add. }
  destruct (add_reserved _ info0) as [info|e| |] eqn:E; cbn [rbind] in Hgo |- *.
  - assert (Hw : within info) by by eapply add_reserved_within.
    destruct (tree_writes noise h Hn Hh bd info Hs Hw) as (w & Hq & Hwi).
    destruct (Hq (n, b) [] He) as (q & Hem & Hsh & Hst). rewrite (Hgo q Hem Hsh), Hst.
    destruct (tables bd info) as [i| | |]; cbn [rbind]; [|done..]. destruct (Hwi i) as [-> ->]. done.
  - destruct (tree_writes noise h Hn Hh bd info0 Hs H0) as (w & Hq & _).
    destruct (Hq (n, b) [] He) as (q & Hem & Hsh & _). by apply (Hgo q).
  - unfold add_reserved in E. by case_decide.
  - unfold add_reserved in E. by case_decide.
Qed.

Lemma noisy_roundtrip {N} (noise : N * Builder.t -> N * Builder.t) (h : nat) (bd : Board.t) (n : N) (lo hi : Z)
  (Hnoise : harmless noise h) (Hh : Z.of_nat h + 3 <= MAX_DEPTH) (Hbd : supported bd)
  (Hlen : Z.of_nat (length (noisy_blob noise bd n)) < U32) :
  match parse_blob (noisy_blob noise bd n) lo hi with
  | Ok i => board_is_valid bd = true /\
      i = mkInfo lo hi (Board.expected_memory bd) (Board.expected_reserved bd) (Board.expected_entropy bd)
  | Err BootError.TooManyRegions =>
      MAX_MEM_REGIONS < Z.of_nat (length (Board.expected_memory bd)) \/
      MAX_RSV_REGIONS < Z.of_nat (length (Board.expected_reserved bd))
  | Err BootError.NoMemory => Board.expected_memory bd = []
  | _ => False
  end.
Proof.
  rewrite (blob_parses noise h), tables_spec by done. case_decide as Hv; cbn [rbind memory]; [|lia].
  destruct (Z.eqb_spec (Z.of_nat (length (Board.expected_memory bd))) 0) as [E|E].
  - destruct (Board.expected_memory bd); [done|]. cbn [length] in E. lia.
  - split; [|done]. unfold board_is_valid. rewrite !(proj2 (Z.leb_le _ _)) by lia. done.
Qed.

(** C38: the builder and the parser agree.  For every board whose cells and
    regions the parser supports, and whatever harmless noise is interleaved,
    parsing the built blob gives exactly the board's memory, reserved regions
    and entropy when the board fits the parser's tables, and an error
    otherwise: too many regions, or no memory. *)
Theorem builder_roundtrip {N} (noise : N * Builder.t -> N * Builder.t) (h : nat) (bd : Board.t) (n : N) (lo hi : Z)
  (Hnoise : harmless noise h) (Hh : Z.of_nat h + 3 <= MAX_DEPTH) (Hbd : supported bd)
  (Hlen : Z.of_nat (length (noisy_blob noise bd n)) < U32) :
  match parse_blob (noisy_blob noise bd n) lo hi with
  | Ok i => board_is_valid bd = true /\
      i = mkInfo lo hi (Board.expected_memory bd) (Board.expected_reserved bd) (Board.expected_entropy bd)
  | Err BootError.TooManyRegions =>
      MAX_MEM_REGIONS < Z.of_nat (length (Board.expected_memory bd)) \/
      MAX_RSV_REGIONS < Z.of_nat (length (Board.expected_reserved bd))
  | Err BootError.NoMemory => Board.expected_memory bd = []
  | _ => False
  end.
Proof. by apply (noisy_roundtrip noise h). Qed.

Lemma id_harmless {N} : harmless (N := N) (fun s => s) 0.
Proof. intros s ts He. exists []. rewrite app_nil_r. by split_and!; [constructor|..]. Qed.

Lemma qemu_virt_supported : supported Board.qemu_virt.
Proof.
  split; cbn; unfold cells_ok, entries_ok, fits_cells; cbn; repeat constructor; try done; try lia.
Qed.

Lemma builder_roundtrip_witness :
  match parse_blob (Board.blob Board.qemu_virt) 0 0 with
  | Ok i => board_is_valid Board.qemu_virt = true /\ memory i = [mkMem 0x40000000 0x20000000]
  | _ => False
  end.
Proof.
  pose proof (builder_roundtrip (fun s => s) 0 Board.qemu_virt tt 0 0 id_harmless ltac:(unfold MAX_DEPTH; lia)
    qemu_virt_supported ltac:(vm_compute; reflexivity)) as H.
  change (noisy_blob (fun s => s) Board.qemu_virt tt) with (Board.blob Board.qemu_virt) in H.
  destruct (parse_blob (Board.blob Board.qemu_virt) 0 0) as [i|e| |] eqn:E; [|exfalso..].
  - destruct H as [H ->]. split; [exact H|reflexivity].
  - vm_compute in E. discriminate E.
  - vm_compute in E. discriminate E.
  - vm_compute in E. discriminate E.
Defined.
