(* ===== verification/Fuzz.v ===== *)
(** * The fuzzer of the device tree parser

    crates/k0-boot/src/fdt/fuzz.rs: the generator of random boards, the noise it
    interleaves, the mutator, the assertions it makes of every parse, and the test
    around them, with the environment variables as an argument; and the unit tests
    of builder.rs.  The assertions are panics of the model; theorem
    [fuzz_never_fails] is that no environment reaches one of a case, so what the
    fuzzer samples holds of every input it could ever generate.  Only the final
    thresholds, which are statistics of the drawn cases, can fail. *)

From Stdlib Require Import Ascii.
From stdpp Require Import strings.
From S2P Require Import Prelude Fdt FdtBuild.

(** ** Random numbers *)

Definition splitmix (x : Z) : Z :=
  let x := (x + 0x9E3779B97F4A7C15) mod U64 in
  let x := (Z.lxor x (Z.shiftr x 30) * 0xBF58476D1CE4E5B9) mod U64 in
  let x := (Z.lxor x (Z.shiftr x 27) * 0x94D049BB133111EB) mod U64 in
  Z.lxor x (Z.shiftr x 31).

(** An operation returns its value and the generator's next state. *)
Module Rng.
Definition new (seed : Z) : Z := Z.lor (splitmix seed) 1.

Definition next (r : Z) : Z * Z :=
  let r := Z.lxor r (Z.shiftr r 12) in
  let r := Z.lxor r (Z.shiftl r 25 mod U64) in
  let r := Z.lxor r (Z.shiftr r 27) in
  ((r * 0x2545F4914F6CDD1D) mod U64, r).

Definition below (r n : Z) : Z * Z :=
  if n =? 0 then (0, r) else let '(v, r) := next r in (v mod n, r).

Definition index (r : Z) (n : nat) : nat * Z :=
  let '(v, r) := below r (Z.of_nat n) in (Z.to_nat v, r).

Fixpoint bytes (r : Z) (n : nat) : list Z * Z :=
  match n with
  | O => ([], r)
  | S n' => let '(v, r) := next r in let '(l, r) := bytes r n' in (v mod 256 :: l, r)
  end.
End Rng.

(** [(0..n).map(|_| f(rng)).collect()]. *)
Fixpoint collect {A} (f : Z -> A * Z) (n : nat) (r : Z) : list A * Z :=
  match n with
  | O => ([], r)
  | S n' => let '(x, r) := f r in let '(l, r) := collect f n' r in (x :: l, r)
  end.

(** ** Boards *)

Definition NOISE_NODES : list string :=
  ["cpus"; "cpu@0"; "soc"; "uart@9000000"; "timer"; "psci"; "pl061@9030000"; "flash@0"; "intc@8000000"; "apb-pclk";
   "fw-cfg@9020000"; "pcie@10000000"; "platform-bus@c000000"; "virtio_mmio@a000000"; "gpio-keys"; "pmu"]%string.

Definition NOISE_PROPS : list string :=
  ["compatible"; "status"; "interrupts"; "phandle"; "linux,phandle"; "clock-frequency"; "ranges"; "device_type";
   "interrupt-parent"; "dma-coherent"; "stdout-path"; "model"]%string.

(** One turn of the loop; [deeper] is the recursive call, if [depth < 6].  The
    draws index the name tables by their length, so the defaults are never
    taken. *)
Definition noise_round (deeper : option (Z * Builder.t -> Z * Builder.t)) (s : Z * Builder.t) : Z * Builder.t :=
  let '(r, b) := s in
  let '(kind, r) := Rng.below r 4 in
  if kind =? 0 then (r, Builder.nop b)
  else if kind =? 1 then
    let '(i, r) := Rng.index r (length NOISE_PROPS) in
    let '(n, r) := Rng.index r 24 in
    let '(v, r) := Rng.bytes r n in
    (r, Builder.prop (lit (default "compatible"%string (NOISE_PROPS !! i))) v b)
  else match deeper with
  | None => (r, b)
  | Some inner =>
    let '(i, r) := Rng.index r (length NOISE_NODES) in
    let '(r, b) := inner (r, Builder.begin (lit (default "cpus"%string (NOISE_NODES !! i))) b) in
    (r, Builder.end_ b)
  end.

(** [left] is [6 - depth]: the nesting that remains. *)
Fixpoint noise (left : nat) (s : Z * Builder.t) : Z * Builder.t :=
  let '(n, r) := Rng.below s.1 3 in
  Nat.iter (Z.to_nat n) (noise_round (match left with O => None | S left' => Some (noise left') end)) (r, s.2).

Definition region (addr_cells size_cells : nat) (r : Z) : (Z * Z) * Z :=
  let amax := if (addr_cells =? 1)%nat then U32 - 1 else U64 - 1 in
  let smax := if (size_cells =? 1)%nat then U32 - 1 else U64 - 1 in
  let '(k, r) := Rng.below r 4 in
  let '(base, r) :=
    if k =? 0 then let '(v, r) := Rng.below r 0x10000 in (Z.shiftl v 12, r)
    else if k =? 1 then let '(v, r) := Rng.below r 0x10000 in (amax - v, r)
    else let '(v, r) := Rng.next r in (Z.land v amax, r) in
  let room := Z.min (U64 - 1 - base) smax in
  let '(k, r) := Rng.below r 5 in
  let '(size, r) :=
    if k =? 0 then (0, r)
    else if k =? 1 then (room, r)
    else let '(v, r) := Rng.below r (Z.min room (2 ^ 40)) in (v + 1, r) in
  ((base, Z.min size room), r).

Definition random_cells (r : Z) : option (nat * nat) * Z :=
  let '(k, r) := Rng.below r 5 in
  (if k =? 0 then None else if k =? 1 then Some (1, 1)%nat else if k =? 2 then Some (1, 2)%nat
   else if k =? 3 then Some (2, 1)%nat else Some (2, 2)%nat, r).

Definition random_rsv_cells (r : Z) : option (nat * nat) * Z :=
  let '(k, r) := Rng.below r 3 in
  if k =? 0 then
    let '(a, r) := Rng.below r 2 in
    let '(z, r) := Rng.below r 2 in
    (Some (1 + Z.to_nat a, 1 + Z.to_nat z)%nat, r)
  else (None, r).

(** A range of [lo + below n] items. *)
Definition several {A} (lo : nat) (n : Z) (f : Z -> A * Z) (r : Z) : list A * Z :=
  let '(v, r) := Rng.below r n in collect f (lo + Z.to_nat v) r.

Definition random_child (rac rsc : nat) (r : Z) : option (list (Z * Z)) * Z :=
  let '(k, r) := Rng.below r 4 in
  if k =? 0 then (None, r) else let '(l, r) := several 1 2 (region rac rsc) r in (Some l, r).

Definition random_seed (r : Z) : option (list Z) * Z :=
  let '(k, r) := Rng.below r 3 in
  if k =? 0 then (None, r) else let '(n, r) := Rng.index r 64 in let '(l, r) := Rng.bytes r n in (Some l, r).

Definition random_board (r : Z) : Board.t * Z :=
  let '(cells, r) := random_cells r in
  let '(ac, sc) := default (2, 1)%nat cells in
  let '(rsv_cells, r) := random_rsv_cells r in
  let '(rac, rsc) := default (ac, sc) rsv_cells in
  let '(memory, r) := several 0 4 (several 1 4 (region ac sc)) r in
  let '(memreserve, r) := several 0 4 (region 2 2) r in
  let '(rsv_children, r) := several 0 4 (random_child rac rsc) r in
  let '(rng_seed, r) := random_seed r in
  let '(kaslr_seed, r) := random_seed r in
  (Board.mk cells memory memreserve rsv_cells rsv_children rng_seed kaslr_seed, r).

(** ** Mutations *)

#[local] Abbreviation F := (res unit).

Definition pool (len : Z) : list Z :=
  [0; 1; 2; 3; 4; 8; 9; 16; 17; 32; 33; 40; 0x7F; 0x80; 0xFF; 0xFFFF; 0x7FFFFFFF; 0x80000000; U32 - 1; U32 - 1 - 3;
   len; (len - 4) mod U32; (len + 4) mod U32; 0xd00dfeed; MAX_DTB_SIZE; MAX_DTB_SIZE + 1].

Definition at_p {A} (l : list A) (i : nat) : F A := match l !! i with Some x => Ok x | None => Panic end.

Definition interesting (r : Z) (len : nat) : F (Z * Z) :=
  let len := Z.of_nat len mod U32 in
  let '(k, r) := Rng.below r 4 in
  if k =? 0 then let '(v, r) := Rng.next r in Ok (v mod U32, r)
  else let '(i, r) := Rng.index r (length (pool len)) in let? v := at_p (pool len) i in Ok (v, r).

Definition set_p (blob : list Z) (i : nat) (v : Z) : F (list Z) :=
  if (i <? length blob)%nat then Ok (<[i := v]> blob) else Panic.

(** [blob[i..i + n].copy_from_slice(l)] with [n] the length of [l]. *)
Definition splice_p (blob : list Z) (i : nat) (l : list Z) : F (list Z) :=
  if (i + length l <=? length blob)%nat then Ok (take i blob ++ l ++ drop (i + length l) blob) else Panic.

Definition set_be32 (blob : list Z) (off : nat) (v : Z) : F (list Z) := splice_p blob off (be_bytes 4 v).

(** [u32::from_be_bytes(blob[off..off + 4])]. *)
Definition get_be32 (blob : list Z) (off : nat) : F Z :=
  if (off + 4 <=? length blob)%nat then Ok (be_val (take 4 (drop off blob))) else Panic.

Definition OFF_TOTALSIZE : nat := 4.
Definition OFF_DT_STRUCT : nat := 8.
Definition OFF_DT_STRINGS : nat := 12.
Definition OFF_MEM_RSVMAP : nat := 16.
Definition OFF_VERSION : nat := 20.
Definition OFF_LAST_COMP : nat := 24.
Definition OFF_SIZE_STRINGS : nat := 32.
Definition OFF_SIZE_STRUCT : nat := 36.

(** One mutation of a blob of at least eight bytes. *)
Definition mutate_one (kind r : Z) (blob : list Z) : F (Z * list Z) :=
  let len := length blob in
  if kind =? 0 then
    let '(i, r) := Rng.index r len in
    let '(s, r) := Rng.below r 8 in
    let? x := at_p blob i in
    let? blob := set_p blob i (Z.lxor x (Z.shiftl 1 s)) in Ok (r, blob)
  else if kind =? 1 then
    let '(i, r) := Rng.index r len in
    let '(j, r) := Rng.index r 5 in
    let? v := at_p [0x00; 0x01; 0x7F; 0x80; 0xFF] j in
    let? blob := set_p blob i v in Ok (r, blob)
  else if kind =? 2 then
    let '(i, r) := Rng.index r (len / 4) in
    let? vr := interesting r len in
    let? blob := set_be32 blob (i * 4) vr.1 in Ok (vr.2, blob)
  else if (kind =? 3) && (40 <=? len)%nat then
    let '(i, r) := Rng.index r 10 in
    let? vr := interesting r len in
    let? blob := set_be32 blob (i * 4) vr.1 in Ok (vr.2, blob)
  else if kind =? 4 then
    let '(i, r) := Rng.index r len in Ok (r, take i blob)
  else if kind =? 5 then
    let '(n, r) := Rng.index r 64 in
    let '(l, r) := Rng.bytes r n in Ok (r, blob ++ l)
  else if kind =? 6 then
    let '(a, r) := Rng.index r len in
    let '(b, r) := Rng.index r len in
    let '(n, r) := Rng.index r (Nat.min (len - Nat.max a b) 64 + 1) in
    if (a + n <=? len)%nat then
      let? blob := splice_p blob b (take n (drop a blob)) in Ok (r, blob)
    else Panic
  else if kind =? 7 then
    let '(i, r) := Rng.index r (len / 4) in
    let? vr := interesting r len in
    if (i * 4 <=? len)%nat then Ok (vr.2, take (i * 4) blob ++ be_bytes 4 vr.1 ++ drop (i * 4) blob) else Panic
  else if kind =? 8 then
    let '(i, r) := Rng.index r (len - 3) in
    if (i + 4 <=? len)%nat then Ok (r, take i blob ++ drop (i + 4) blob) else Panic
  else if (8 <=? len)%nat then
    let? blob := set_be32 blob OFF_TOTALSIZE (Z.of_nat len mod U32) in Ok (r, blob)
  else Ok (r, blob).

Fixpoint mutate_loop (n : nat) (r : Z) (blob : list Z) : F (Z * list Z) :=
  match n with
  | O => Ok (r, blob)
  | S n' =>
    if (length blob <? 8)%nat then
      let '(l, r) := Rng.bytes r 8 in mutate_loop n' r (blob ++ l)
    else
      let '(kind, r) := Rng.below r 10 in
      let? rb := mutate_one kind r blob in mutate_loop n' rb.1 rb.2
  end.

Definition mutate (r : Z) (blob : list Z) : F (Z * list Z) :=
  let '(n, r) := Rng.below r 4 in mutate_loop (1 + Z.to_nat n) r blob.

(** ** One case *)

#[export] Instance mem_region_eq_dec : EqDecision MemRegion.
Proof. solve_decision. Defined.

Definition assert (b : bool) : F unit := if b then Ok tt else Panic.

Definition region_sound (r : MemRegion) : bool :=
  (0 <? m_size r) && match checked_add (m_base r) (m_size r) with Some _ => true | None => false end.

Definition invariants (info : BootInfo) (lo hi : Z) : F unit :=
  let? _ := assert ((1 <=? Z.of_nat (length (memory info))) && (Z.of_nat (length (memory info)) <=? MAX_MEM_REGIONS)) in
  let? _ := assert (Z.of_nat (length (reserved info)) <=? MAX_RSV_REGIONS) in
  let? _ := assert (forallb region_sound (memory info ++ reserved info)) in
  let? _ := assert (Z.of_nat (length (entropy info)) <=? MAX_ENTROPY) in
  assert ((dtb_start info =? lo) && (dtb_end info =? hi)).

Record Window := mkWindow { bytes : list Z; dirty : nat }.

Module Win.
Definition new : Window := mkWindow (replicate (Z.to_nat ((MAX_DTB_SIZE / 8 + 1) * 8)) 0) 0.

Definition load (w : Window) (blob : list Z) : F Window :=
  if (dirty w <=? length (bytes w))%nat then
    let cleared := replicate (dirty w) 0 ++ drop (dirty w) (bytes w) in
    let n := Nat.min (length blob) (length cleared) in
    Ok (mkWindow (take n blob ++ drop n cleared) n)
  else Panic.
End Win.

Record Stats := mkStats { clean_ok : Z; mutated_ok : Z; mutated_err : Z; pointer_ok : Z }.

Definition stats_default : Stats := mkStats 0 0 0 0.

Definition KERNEL : Z * Z := (0x40080000, 0x40300000).

(** Physical memory with the window's buffer at [addr]. *)
Definition win_mem (outside : Z -> Z) (addr : Z) (w : Window) (a : Z) : Z :=
  match get (bytes w) (a - addr) with Some b => b | None => outside a end.

(** The first parse: the clean blob gives back the board. *)
Definition check_clean (board : Board.t) (clean : list Z) (st : Stats) : F Stats :=
  let lo := 0x48000000 in
  let hi := 0x48000000 + Z.of_nat (length clean) in
  match parse_blob clean lo hi with
  | Ok info =>
    let? _ := assert (board_is_valid board) in
    let? _ := assert (bool_decide (memory info = Board.expected_memory board)) in
    let? _ := assert (bool_decide (reserved info = Board.expected_reserved board)) in
    let? _ := assert (bool_decide (entropy info = Board.expected_entropy board)) in
    let? _ := invariants info lo hi in
    Ok (mkStats (clean_ok st + 1) (mutated_ok st) (mutated_err st) (pointer_ok st))
  | Err _ => let? _ := assert (negb (board_is_valid board)) in Ok st
  | Panic => Panic
  | OutOfFuel => OutOfFuel
  end.

(** The second: a mutated blob is refused or obeys the limits. *)
Definition check_mutated (blob : list Z) (st : Stats) : F Stats :=
  let lo := 0x48000000 in
  let hi := 0x48000000 + Z.of_nat (length blob) in
  match parse_blob blob lo hi with
  | Ok info =>
    let? _ := invariants info lo hi in
    Ok (mkStats (clean_ok st) (mutated_ok st + 1) (mutated_err st) (pointer_ok st))
  | Err _ => Ok (mkStats (clean_ok st) (mutated_ok st) (mutated_err st + 1) (pointer_ok st))
  | Panic => Panic
  | OutOfFuel => OutOfFuel
  end.

(** The third: the same through a pointer. *)
Definition check_pointer (mem : Z -> Z) (addr r : Z) (st : Stats) : F Stats :=
  let '(k, r) := Rng.below r 8 in
  let? kernel := if k =? 0 then let? e := add_p addr 1 in Ok (addr, e) else Ok KERNEL in
  match parse mem addr kernel.1 kernel.2 0 with
  | Ok info =>
    let? _ := assert ((dtb_end info <=? kernel.1) || (kernel.2 <=? dtb_start info)) in
    let len := dtb_end info - dtb_start info in
    let? _ := assert ((HEADER_SIZE <=? len) && (len <=? MAX_DTB_SIZE)) in
    let? hi := add_p addr len in
    let? _ := invariants info addr hi in
    Ok (mkStats (clean_ok st) (mutated_ok st) (mutated_err st) (pointer_ok st + 1))
  | Err _ => Ok st
  | Panic => Panic
  | OutOfFuel => OutOfFuel
  end.

Definition one_case (outside : Z -> Z) (addr seed : Z) (window : Window) (st : Stats) : F (Window * Stats) :=
  let '(board, r) := random_board (Rng.new seed) in
  let clean := noisy_blob (noise 4) board (Rng.new (Z.lxor seed 0xA5A5)) in
  let? st := check_clean board clean st in
  let? rb := mutate r clean in
  let? st := check_mutated rb.2 st in
  let? window := Win.load window rb.2 in
  let? st := check_pointer (win_mem outside addr window) addr rb.1 st in
  Ok (window, st).

(** The loop of [fuzz_parse_with_mutated_boards] from case [i]; [only] is the
    seed of a case to reproduce. *)
Fixpoint cases (outside : Z -> Z) (addr : Z) (only : option Z) (base i : Z) (n : nat) (window : Window) (st : Stats) :
    F (Window * Stats) :=
  match n with
  | O => Ok (window, st)
  | S n' =>
    let seed := default (splitmix ((base + i) mod U64)) only in
    let? ws := one_case outside addr seed window st in
    cases outside addr only base (i + 1) n' ws.1 ws.2
  end.

(** ** The test *)

Definition DEFAULT_CASES : Z := 20000.
Definition BASE_SEED : Z := 0x6B305F445442465A.

(** [char::is_whitespace]. *)
Definition is_whitespace (c : Z) : bool :=
  ((9 <=? c) && (c <=? 13)) || ((0x2000 <=? c) && (c <=? 0x200A)) ||
  bool_decide (c ∈ [32; 0x85; 0xA0; 0x1680; 0x2028; 0x2029; 0x202F; 0x205F; 0x3000]).

Fixpoint trim_start (s : list Z) : list Z :=
  match s with [] => [] | c :: s' => if is_whitespace c then trim_start s' else s end.

Definition trim (s : list Z) : list Z := reverse (trim_start (reverse (trim_start s))).

(** [char::to_digit]. *)
Definition to_digit (radix c : Z) : option Z :=
  let d := if (48 <=? c) && (c <=? 57) then c - 48 else if (97 <=? c) && (c <=? 122) then c - 87
           else if (65 <=? c) && (c <=? 90) then c - 55 else radix in
  if d <? radix then Some d else None.

Fixpoint parse_digits (radix acc : Z) (s : list Z) : option Z :=
  match s with
  | [] => Some acc
  | c :: s' => d ← to_digit radix c; m ← checked_mul acc radix; a ← checked_add m d; parse_digits radix a s'
  end.

(** [u64::from_str_radix]: a plus sign is allowed, a sign alone is not a number. *)
Definition from_str_radix (radix : Z) (s : list Z) : option Z :=
  match s with
  | [] | [43] | [45] => None
  | 43 :: s' => parse_digits radix 0 s'
  | _ => parse_digits radix 0 s
  end.

(** The environment holds strings as their characters. *)
Definition env_u64 (env : list Z -> option (list Z)) (name : list Z) : option Z :=
  v ← env name;
  let v := filter (fun c => c <> 95) (trim v) in
  if bool_decide (take 2 v = lit "0x") then from_str_radix 16 (drop 2 v) else from_str_radix 10 v.

Definition fuzz_parse_with_mutated_boards (env : list Z -> option (list Z)) (outside : Z -> Z) (addr : Z) : F Stats :=
  let only := env_u64 env (lit "K0_FUZZ_CASE") in
  let base := default BASE_SEED (env_u64 env (lit "K0_FUZZ_SEED")) in
  let n := if bool_decide (is_Some only) then 1 else default DEFAULT_CASES (env_u64 env (lit "K0_FUZZ_ITERS")) in
  let? ws := cases outside addr only base 0 (Z.to_nat n) Win.new stats_default in
  let st := ws.2 in
  if bool_decide (only = None) && (1000 <=? n) then
    let? c := mul_p (clean_ok st) 4 in
    let? _ := assert (n <=? c) in
    let? _ := assert (0 <? mutated_ok st) in
    let? _ := assert (0 <? pointer_ok st) in
    Ok st
  else Ok st.

(** ** The builder's own tests *)

Definition check_header (blob : list Z) : F unit :=
  let? magic := get_be32 blob 0 in
  let? _ := assert (magic =? 0xd00dfeed) in
  let? total := get_be32 blob OFF_TOTALSIZE in
  let? _ := assert (total =? Z.of_nat (length blob)) in
  let? rsv := get_be32 blob OFF_MEM_RSVMAP in
  let? _ := assert (rsv =? 40) in
  let? version := get_be32 blob OFF_VERSION in
  let? _ := assert (version =? 17) in
  let? last_comp := get_be32 blob OFF_LAST_COMP in
  let? _ := assert (last_comp =? 16) in
  let? off_struct := get_be32 blob OFF_DT_STRUCT in
  let? size_struct := get_be32 blob OFF_SIZE_STRUCT in
  let? _ := assert (off_struct mod 4 =? 0) in
  let? _ := assert (size_struct mod 4 =? 0) in
  let? first := get_be32 blob (Z.to_nat off_struct) in
  let? _ := assert (first =? Builder.BEGIN_NODE) in
  let? last := sub_p (off_struct + size_struct) 4 in
  let? last := get_be32 blob (Z.to_nat last) in
  let? _ := assert (last =? Builder.END) in
  let? off_strings := get_be32 blob OFF_DT_STRINGS in
  let? size_strings := get_be32 blob OFF_SIZE_STRINGS in
  assert (off_strings + size_strings =? Z.of_nat (length blob)).

Definition builder_emits_a_well_formed_header : F unit := check_header (Board.blob Board.qemu_virt).

Definition builder_deduplicates_property_names : F unit :=
  let '(a, b) := Builder.string_offset (lit "reg") Builder.new in
  let '(c, b) := Builder.string_offset (lit "compatible") b in
  let '(a', b) := Builder.string_offset (lit "reg") b in
  let? _ := assert (a' =? a) in
  let '(c', b) := Builder.string_offset (lit "compatible") b in
  let? _ := assert (c' =? c) in
  assert (negb (a =? c)).

Definition reg_encodes_big_endian_cells : F unit :=
  let? _ := assert (bool_decide (reg [(0x123456789, 0x10)] 2 1 = [0; 0; 0; 1; 0x23; 0x45; 0x67; 0x89; 0; 0; 0; 0x10])) in
  assert (bool_decide (reg [(0x80000000, 0x1000)] 1 1 = [0x80; 0; 0; 0; 0; 0; 0x10; 0])).

(** ** Random draws *)

Lemma next_bound r : 0 <= (Rng.next r).1 < U64.
Proof. unfold Rng.next. cbn [fst]. apply Z.mod_pos_bound. lia. Qed.

Lemma below_bound r n : 0 < n -> 0 <= (Rng.below r n).1 < n.
Proof.
  intros Hn. unfold Rng.below. rewrite (proj2 (Z.eqb_neq n 0)) by lia. destruct (Rng.next r) as [v r']. cbn [fst].
  by apply Z.mod_pos_bound.
Qed.

Lemma index_bound r n : (0 < n)%nat -> ((Rng.index r n).1 < n)%nat.
Proof.
  intros Hn. unfold Rng.index. pose proof (below_bound r (Z.of_nat n)) as Hb.
  destruct (Rng.below r (Z.of_nat n)) as [v r']. cbn [fst] in *. lia.
Qed.

Lemma bytes_spec n r : length (Rng.bytes r n).1 = n /\ Forall is_byte (Rng.bytes r n).1.
Proof.
  revert r. induction n as [|n IH]; intros r; [done|]. cbn [Rng.bytes]. destruct (Rng.next r) as [v r'].
  specialize (IH r'). destruct (Rng.bytes r' n) as [l r'']. cbn [fst length] in *. split; [lia|].
  constructor; [|apply IH]. by apply Z.mod_pos_bound.
Qed.

Lemma collect_spec {A} (P : A -> Prop) f n r :
  (forall r, P (f r).1) -> length (collect f n r).1 = n /\ Forall P (collect f n r).1.
Proof.
  intros Hf. revert r. induction n as [|n IH]; intros r; [done|]. cbn [collect]. pose proof (Hf r) as Hx.
  destruct (f r) as [x r']. specialize (IH r'). destruct (collect f n r') as [l r'']. cbn [fst length] in *.
  split; [lia|]. constructor; [done|apply IH].
Qed.

Lemma several_spec {A} (P : A -> Prop) lo n f r :
  0 < n -> (forall r, P (f r).1) ->
  (lo <= length (several lo n f r).1)%nat /\ Z.of_nat (length (several lo n f r).1) < Z.of_nat lo + n /\
  Forall P (several lo n f r).1.
Proof.
  intros Hn Hf. unfold several. pose proof (below_bound r n Hn) as Hb. destruct (Rng.below r n) as [v r'].
  cbn [fst] in Hb. destruct (collect_spec P f (lo + Z.to_nat v) r' Hf) as [Hl Hp]. rewrite Hl. split_and!; [lia|lia|done].
Qed.

(** Names of a draw. *)
Lemma draw_name (P : string -> Prop) l i d : Forall P l -> P d -> P (default d (l !! i)).
Proof. intros Hl Hd. destruct (l !! i) eqn:E; [|done]. by apply (Forall_lookup_1 _ _ _ _ Hl E). Qed.

(** ** The boards are supported *)

Definition cell_max (c : nat) : Z := if (c =? 1)%nat then U32 - 1 else U64 - 1.

Lemma region_spec ac sc r :
  (1 <= ac <= 2)%nat -> (1 <= sc <= 2)%nat -> fits_cells ac sc (mkMem (region ac sc r).1.1 (region ac sc r).1.2).
Proof.
  intros Hac Hsc. unfold region. fold (cell_max ac) (cell_max sc).
  assert (Ha : cell_max ac = U32 - 1 \/ cell_max ac = U64 - 1) by (unfold cell_max; destruct (_ =? _)%nat; lia).
  assert (Hs : U32 - 1 <= cell_max sc) by (unfold cell_max; destruct (_ =? _)%nat; lia).
  destruct (Rng.below r 4) as [k r0]. set (bp := if k =? 0 then _ else _).
  assert (Hb : 0 <= bp.1 <= cell_max ac).
  { unfold bp. destruct (k =? 0); [|destruct (k =? 1)].
    - pose proof (below_bound r0 0x10000 ltac:(lia)). destruct (Rng.below r0 0x10000) as [v r1]. cbn [fst] in *.
      rewrite Z.shiftl_mul_pow2 by lia. lia.
    - pose proof (below_bound r0 0x10000 ltac:(lia)). destruct (Rng.below r0 0x10000) as [v r1]. cbn [fst] in *. lia.
    - pose proof (next_bound r0). destruct (Rng.next r0) as [v r1]. cbn [fst] in *.
      destruct Ha as [-> | ->];
        [change (U32 - 1) with (Z.ones 32)|change (U64 - 1) with (Z.ones 64)]; rewrite Z.land_ones by lia;
        [change (Z.ones 32) with (2 ^ 32 - 1)|change (Z.ones 64) with (2 ^ 64 - 1)]; div_lia. }
  destruct bp as [base r1]. cbn [fst] in Hb. destruct (Rng.below r1 5) as [k' r2]. set (sp := if k' =? 0 then _ else _).
  assert (Hsp : 0 <= sp.1).
  { unfold sp. destruct (k' =? 0); [done|]. destruct (k' =? 1); cbn [fst]; [lia|]. unfold Rng.below.
    destruct (Z.eqb_spec (Z.min (Z.min (U64 - 1 - base) (cell_max sc)) (2 ^ 40)) 0); cbn [fst]; [lia|].
    destruct (Rng.next r2) as [v r3]. cbn [fst]. pose proof (Z.mod_pos_bound v (Z.min (Z.min (U64 - 1 - base) (cell_max sc)) (2 ^ 40))). lia. }
  destruct sp as [size r3]. cbn [fst] in *. unfold fits_cells. cbn [fst snd m_base m_size].
  assert (cell_max ac < 256 ^ Z.of_nat (4 * ac)) by (destruct ac as [|[|[|?]]]; [lia|done|done|lia]).
  assert (cell_max sc < 256 ^ Z.of_nat (4 * sc)) by (destruct sc as [|[|[|?]]]; [lia|done|done|lia]).
  lia.
Qed.

Lemma random_cells_ok r : cells_ok (default (2, 1)%nat (random_cells r).1).
Proof.
  unfold random_cells. destruct (Rng.below r 5) as [k r']. cbn [fst].
  repeat destruct (k =? _); unfold cells_ok; cbn; lia.
Qed.

Lemma random_rsv_cells_ok r c : cells_ok c -> cells_ok (default c (random_rsv_cells r).1).
Proof.
  intros Hc. unfold random_rsv_cells. destruct (Rng.below r 3) as [k r']. destruct (k =? 0); [|done].
  pose proof (below_bound r' 2 ltac:(lia)). destruct (Rng.below r' 2) as [a r2].
  pose proof (below_bound r2 2 ltac:(lia)). destruct (Rng.below r2 2) as [z r3].
  unfold cells_ok. cbn [fst snd default from_option id] in *. lia.
Qed.

(** What the generator draws, in size. *)
Definition few_entries (n : nat) (c : nat * nat) (es : list (Z * Z)) : Prop :=
  entries_ok c.1 c.2 es /\ (length es <= n)%nat.

Record small_board (bd : Board.t) : Prop := {
  sm_memory : (length (Board.memory bd) <= 3)%nat /\ Forall (fun es => length es <= 4)%nat (Board.memory bd);
  sm_memreserve : (length (Board.memreserve bd) <= 3)%nat;
  sm_children : (length (Board.rsv_children bd) <= 3)%nat /\
    Forall (fun c => length (default [] c) <= 2)%nat (Board.rsv_children bd);
  sm_rng_seed : Forall is_byte (default [] (Board.rng_seed bd)) /\ (length (default [] (Board.rng_seed bd)) < 64)%nat;
  sm_kaslr_seed : Forall is_byte (default [] (Board.kaslr_seed bd)) /\ (length (default [] (Board.kaslr_seed bd)) < 64)%nat
}.

Lemma regions_spec c n r :
  cells_ok c -> (0 < n)%nat -> few_entries n c (several 1 (Z.of_nat n) (region c.1 c.2) r).1.
Proof.
  intros [Hc1 Hc2] Hn.
  destruct (several_spec (fun e => fits_cells c.1 c.2 (mkMem e.1 e.2)) 1 (Z.of_nat n) (region c.1 c.2) r) as (H1 & H2 & H3);
    [lia|by intros; apply region_spec|].
  split; [split; [|done]|lia]. by destruct (several _ _ _ _).1; [cbn in H1; lia|].
Qed.

Lemma random_child_spec c r :
  cells_ok c -> match (random_child c.1 c.2 r).1 with Some es => few_entries 2 c es | None => True end.
Proof.
  intros Hc. unfold random_child. destruct (Rng.below r 4) as [k r']. destruct (k =? 0); [done|].
  pose proof (regions_spec c 2 r' Hc ltac:(lia)) as Hr. change (Z.of_nat 2) with 2 in Hr.
  by destruct (several 1 2 (region c.1 c.2) r').
Qed.

Lemma random_seed_spec r : Forall is_byte (default [] (random_seed r).1) /\ (length (default [] (random_seed r).1) < 64)%nat.
Proof.
  unfold random_seed. destruct (Rng.below r 3) as [k r']. destruct (k =? 0); [split; [constructor|cbn; lia]|].
  pose proof (index_bound r' 64 ltac:(lia)). destruct (Rng.index r' 64) as [n r2].
  pose proof (bytes_spec n r2) as [Hl Hb]. destruct (Rng.bytes r2 n) as [l r3]. cbn [fst default from_option id] in *.
  split; [done|lia].
Qed.

Lemma random_board_spec r : supported (random_board r).1 /\ small_board (random_board r).1.
Proof.
  unfold random_board. pose proof (random_cells_ok r) as Hc. destruct (random_cells r) as [cells r1]. cbn [fst] in Hc.
  destruct (default (2, 1)%nat cells) as [ac sc] eqn:Ec. pose proof (random_rsv_cells_ok r1 _ Hc) as Hrc.
  destruct (random_rsv_cells r1) as [rcells r2]. cbn [fst] in Hrc. destruct (default (ac, sc) rcells) as [rac rsc] eqn:Er.
  destruct (several_spec (few_entries 4 (ac, sc)) 0 4 (several 1 4 (region ac sc)) r2) as (_ & M1 & M2);
    [lia|intros; apply (regions_spec (ac, sc) 4); [done|lia]|].
  destruct (several 0 4 (several 1 4 (region ac sc)) r2) as [mem r3]. cbn [fst] in M1, M2.
  destruct (several_spec (fun e => fits_cells 2 2 (mkMem e.1 e.2)) 0 4 (region 2 2) r3) as (_ & V1 & V2);
    [lia|intros; apply region_spec; lia|].
  destruct (several 0 4 (region 2 2) r3) as [rsv r4]. cbn [fst] in V1, V2.
  destruct (several_spec (fun c => match c with Some es => few_entries 2 (rac, rsc) es | None => True end) 0 4
    (random_child rac rsc) r4) as (_ & C1 & C2); [lia|intros; by apply (random_child_spec (rac, rsc))|].
  destruct (several 0 4 (random_child rac rsc) r4) as [kids r5]. cbn [fst] in C1, C2.
  pose proof (random_seed_spec r5) as S1. destruct (random_seed r5) as [s1 r6].
  pose proof (random_seed_spec r6) as S2. destruct (random_seed r6) as [s2 r7]. cbn [fst] in *.
  split; split; cbn [Board.memory Board.memreserve Board.rsv_children Board.rng_seed Board.kaslr_seed]; try done.
  all: unfold Board.root_cells; cbn [Board.cells Board.rsv_cells]; rewrite ?Ec, ?Er; try done.
  - eapply list.Forall_impl; [exact M2|]. by intros es [? _].
  - eapply list.Forall_impl; [exact V2|]. intros e He. unfold fits_cells in He. cbn [m_base m_size] in He. lia.
  - eapply list.Forall_impl; [exact C2|]. intros [es|] He; [apply He|done].
  - split; [lia|]. eapply list.Forall_impl; [exact M2|]. by intros es [_ ?].
  - lia.
  - split; [lia|]. eapply list.Forall_impl; [exact C2|]. intros [es|] He; cbn; [apply He|lia].
Qed.

(** ** The noise is harmless *)

Lemma harmless_iter {N} (f : N * Builder.t -> N * Builder.t) h n : harmless f h -> harmless (Nat.iter n f) h.
Proof.
  intros Hf s ts He. induction n as [|n IH].
  - exists []. rewrite app_nil_r. by split_and!; [constructor|..].
  - destruct IH as (q & Hq & He1 & Hs1). destruct (Hf _ _ He1) as (q' & Hq' & He2 & Hs2).
    exists (q ++ q'). rewrite app_assoc. split_and!; [by apply quiet_app|done|by eapply same_header_trans].
Qed.

(** A name of the tables: short, without a null, and of no meaning ([P]) to the
    parser. *)
Definition plain_name (P : list Z -> Prop) (x : string) : Prop :=
  nonul (lit x) /\ P (lit x) /\ Forall is_byte (lit x) /\ (length (lit x) <= 20)%nat.

Ltac plain_tac :=
  split_and!; [nonul_tac|apply (bool_decide_unpack _); vm_compute; exact I
    |apply (bool_decide_unpack _); vm_compute; exact I|vm_compute; lia].

Lemma noise_props i : plain_name dull (default "compatible"%string (NOISE_PROPS !! i)).
Proof.
  apply draw_name; [|plain_tac]. repeat (apply list.Forall_cons; split; [plain_tac|]). apply list.Forall_nil_2.
Qed.

Lemma noise_nodes i : plain_name dull_node (default "cpus"%string (NOISE_NODES !! i)).
Proof.
  apply draw_name; [|plain_tac]. repeat (apply list.Forall_cons; split; [plain_tac|]). apply list.Forall_nil_2.
Qed.

(** A turn of the loop adds nothing, a no-op, a property or a node. *)
Inductive turn (deeper : option (Z * Builder.t -> Z * Builder.t)) (b : Builder.t) : Z * Builder.t -> Prop :=
| turn_none r : turn deeper b (r, b)
| turn_nop r : turn deeper b (r, Builder.nop b)
| turn_prop r i v : (length v < 24)%nat -> Forall is_byte v ->
    turn deeper b (r, Builder.prop (lit (default "compatible"%string (NOISE_PROPS !! i))) v b)
| turn_node inner r i : deeper = Some inner ->
    turn deeper b (let s := inner (r, Builder.begin (lit (default "cpus"%string (NOISE_NODES !! i))) b) in
                   (s.1, Builder.end_ s.2)).

Lemma noise_turn deeper s : turn deeper s.2 (noise_round deeper s).
Proof.
  unfold noise_round. destruct s as [r b]. cbn [snd]. destruct (Rng.below r 4) as [k r1].
  destruct (k =? 0); [constructor|]. destruct (k =? 1).
  - destruct (Rng.index r1 _) as [i r2]. pose proof (index_bound r2 24 ltac:(lia)) as Hn.
    destruct (Rng.index r2 24) as [n r3]. pose proof (bytes_spec n r3) as [Hl Hb].
    destruct (Rng.bytes r3 n) as [v r4]. cbn [fst] in *. constructor; [lia|done].
  - destruct deeper as [inner|] eqn:Ed; [|constructor]. destruct (Rng.index r1 _) as [i r2].
    pose proof (turn_node (Some inner) b inner r2 i eq_refl) as Hr. cbv zeta in Hr.
    destruct (inner _) as [r3 b3]. exact Hr.
Qed.

Definition calls (left : nat) : option (Z * Builder.t -> Z * Builder.t) :=
  match left with O => None | S left' => Some (noise left') end.

Lemma noise_eq left s :
  noise left s = let '(n, r) := Rng.below s.1 3 in Nat.iter (Z.to_nat n) (noise_round (calls left)) (r, s.2).
Proof. by destruct left. Qed.

Lemma turn_harmless deeper h :
  (forall inner, deeper = Some inner -> exists h', h = S h' /\ harmless inner h') -> harmless (noise_round deeper) h.
Proof.
  intros Hd s ts He. destruct (noise_turn deeper s) as [r|r|r i v Hl Hb|inner r i Hin].
  - exists []. rewrite app_nil_r. by split_and!; [constructor|..].
  - exists [TNop]. destruct (appends_nop _ _ He). split_and!; [repeat constructor|done..].
  - destruct (noise_props i) as (Hn & Hdull & _). exists [TProp (lit (default "compatible"%string (NOISE_PROPS !! i))) v].
    destruct (appends_prop _ v Hn _ _ He). split_and!; [by repeat constructor|done..].
  - destruct (Hd inner Hin) as (h' & -> & Hi). destruct (noise_nodes i) as (Hn & Hdull & _).
    set (name := lit _) in *. destruct (appends_begin name Hn _ _ He) as [E1 S1].
    destruct (Hi (r, Builder.begin name s.2) _ E1) as (q & Hq & E2 & S2). destruct (appends_end _ _ E2) as [E3 S3].
    exists (TBegin name :: q ++ [TEnd]). cbn [snd] in *. rewrite <- !app_assoc in E3. split_and!.
    + apply quiet_node; [done|done|constructor].
    + exact E3.
    + by eapply same_header_trans, same_header_trans.
Qed.

Lemma noise_harmless left : harmless (noise left) left.
Proof.
  assert (Hc : harmless (noise_round (calls left)) left).
  { induction left as [|left IH]; apply turn_harmless; [done|]. intros ? [= <-]. exists left. split; [done|].
    intros s ts He. rewrite noise_eq. destruct (Rng.below s.1 3) as [n r]. by apply (harmless_iter _ _ _ IH (r, s.2)). }
  intros s ts He. rewrite noise_eq. destruct (Rng.below s.1 3) as [n r]. by apply (harmless_iter _ _ _ Hc (r, s.2)).
Qed.

(** ** Sizes

    Every blob of the fuzzer consists of bytes and is far below 2 MiB. *)

Record sized (b : Builder.t) (n : Z) : Prop := {
  sz_structure : Forall is_byte (Builder.structure b);
  sz_strings : Forall is_byte (Builder.strings b);
  sz_length : Z.of_nat (length (Builder.structure b)) + Z.of_nat (length (Builder.strings b)) <= n
}.

Lemma sized_mono b n m : sized b n -> n <= m -> sized b m.
Proof. intros [] ?. split; [done..|lia]. Qed.

Lemma sized_raw b n l : sized b n -> Forall is_byte l -> sized (Builder.raw l b) (n + Z.of_nat (length l)).
Proof.
  intros [] Hl. split; cbn [Builder.raw Builder.structure Builder.strings]; [by apply Forall_app|done|].
  rewrite length_app. lia.
Qed.

Lemma sized_token b n v : sized b n -> sized (Builder.token v b) (n + 4).
Proof.
  intros Hb. eapply sized_mono; [apply sized_raw; [done|apply be_bytes_byte]|]. by rewrite length_be_bytes.
Qed.

Lemma pad_loop_sized fuel l :
  Forall is_byte l -> Forall is_byte (Builder.pad_loop fuel l) /\ (length (Builder.pad_loop fuel l) <= length l + fuel)%nat.
Proof.
  revert l. induction fuel as [|fuel IH]; intros l Hl; cbn [Builder.pad_loop]; [split; [done|lia]|].
  destruct (_ =? 0); [split; [done|lia]|]. destruct (IH (l ++ [0])) as [H1 H2].
  - apply Forall_app. split; [done|]. by repeat constructor.
  - rewrite length_app in H2. cbn [length] in H2. split; [done|lia].
Qed.

Lemma sized_pad b n : sized b n -> sized (Builder.pad b) (n + 4).
Proof.
  intros []. destruct (pad_loop_sized 4 (Builder.structure b)) as [H1 H2]; [done|].
  split; cbn [Builder.pad Builder.structure Builder.strings]; [done|done|lia].
Qed.

Lemma sized_begin b n name :
  sized b n -> Forall is_byte name -> sized (Builder.begin name b) (n + Z.of_nat (length name) + 9).
Proof.
  intros Hb Hn. unfold Builder.begin. eapply sized_mono.
  - apply sized_pad, sized_raw; [apply sized_raw; [by apply sized_token|done]|by repeat constructor].
  - cbn [length]. lia.
Qed.

Lemma sized_prop b n name v :
  sized b n -> Forall is_byte name -> Forall is_byte v ->
  sized (Builder.prop name v b) (n + Z.of_nat (length name) + Z.of_nat (length v) + 17).
Proof.
  intros Hb Hn Hv. unfold Builder.prop.
  assert (Hs : sized (Builder.string_offset name b).2 (n + Z.of_nat (length name) + 1)).
  { unfold Builder.string_offset. destruct (Builder.find_string _ _ _ _); cbn [snd]; [eapply sized_mono; [done|lia]|].
    destruct Hb. split; cbn [Builder.structure Builder.strings]; [done| |].
    - repeat (apply Forall_app; split); [done|done|by repeat constructor].
    - rewrite !length_app. cbn [length]. lia. }
  destruct (Builder.string_offset name b) as [off b']. cbn [snd] in Hs. unfold Builder.prop_at. eapply sized_mono.
  - apply sized_pad, sized_raw; [|done]. apply sized_raw; [|apply be_bytes_byte].
    apply sized_raw; [by apply sized_token|apply be_bytes_byte].
  - rewrite !length_be_bytes. lia.
Qed.

Lemma lit_byte s : Forall is_byte (lit s).
Proof.
  unfold lit. apply Forall_fmap, Forall_true. intros c. pose proof (N_ascii_bounded c). unfold is_byte. cbn. lia.
Qed.

Section grows.
Context {N : Type}.
#[local] Abbreviation S := (N * Builder.t)%type.

Definition grows (f : S -> S) (k : Z) : Prop := forall s n, sized s.2 n -> sized (f s).2 (n + k).

Lemma grows_mono f k k' : grows f k -> k <= k' -> grows f k'.
Proof. intros Hf Hk s n Hs. eapply sized_mono; [by apply Hf|lia]. Qed.

Lemma grows_seq f g k k' : grows f k -> grows g k' -> grows (fun s => g (f s)) (k + k').
Proof. intros Hf Hg s n Hs. eapply sized_mono; [by apply Hg, Hf|lia]. Qed.

Lemma grows_id : grows (fun s => s) 0.
Proof. intros s n Hs. eapply sized_mono; [done|lia]. Qed.

Lemma grows_iter f k n : 0 <= k -> grows f k -> grows (Nat.iter n f) (Z.of_nat n * k).
Proof.
  intros Hk Hf. induction n as [|n IH]; [apply grows_id|].
  eapply grows_mono; [apply (grows_seq (Nat.iter n f) f); [exact IH|exact Hf]|lia].
Qed.

Lemma grows_end : grows (Board.on Builder.end_) 4.
Proof. intros s n Hs. by apply sized_token. Qed.

Lemma grows_begin name k :
  Forall is_byte name -> Z.of_nat (length name) <= k -> grows (Board.on (Builder.begin name)) (k + 9).
Proof. intros Hn Hk s n Hs. eapply sized_mono; [by apply sized_begin|lia]. Qed.

Lemma grows_prop name v k :
  Forall is_byte name -> Forall is_byte v -> Z.of_nat (length name) + Z.of_nat (length v) <= k ->
  grows (Board.on (Builder.prop name v)) (k + 17).
Proof. intros Hn Hv Hk s n Hs. eapply sized_mono; [by apply sized_prop|lia]. Qed.

Lemma grows_opt_prop name v k :
  Forall is_byte name -> Forall is_byte (default [] v) -> Z.of_nat (length name) + Z.of_nat (length (default [] v)) <= k ->
  grows (Board.opt_prop name v) (k + 17).
Proof.
  intros Hn Hv Hk. destruct v; [by apply grows_prop|]. eapply grows_mono; [apply grows_id|]. lia.
Qed.

Lemma grows_opt_cells c : grows (Board.opt_cells c) 76.
Proof.
  destruct c as [[a z]|]; [|eapply grows_mono; [apply grows_id|lia]].
  eapply grows_mono.
  - apply (grows_seq (Board.on (Builder.prop (lit "#address-cells") (be_bytes 4 (Z.of_nat a))))
      (Board.on (Builder.prop (lit "#size-cells") (be_bytes 4 (Z.of_nat z))))).
    + apply (grows_prop _ _ 18); [apply lit_byte|apply be_bytes_byte|rewrite length_be_bytes; vm_compute; done].
    + apply (grows_prop _ _ 15); [apply lit_byte|apply be_bytes_byte|rewrite length_be_bytes; vm_compute; done].
  - lia.
Qed.
End grows.

(** Bound of the noise, by the nesting that remains. *)
Fixpoint noise_bound (left : nat) : Z := match left with O => 120 | S left' => 2 * (60 + noise_bound left') end.

Lemma noise_bound_pos left : 120 <= noise_bound left.
Proof. induction left; cbn [noise_bound]; lia. Qed.

Lemma turn_grows deeper k :
  0 <= k -> (forall inner, deeper = Some inner -> grows inner k) -> grows (noise_round deeper) (60 + k).
Proof.
  intros Hk Hd s n Hs. destruct (noise_turn deeper s) as [r|r|r i v Hl Hb|inner r i Hin]; cbn [snd].
  - eapply sized_mono; [done|lia].
  - eapply sized_mono; [by apply sized_token|lia].
  - destruct (noise_props i) as (_ & _ & Hy & Hlen). eapply sized_mono; [by apply sized_prop|lia].
  - destruct (noise_nodes i) as (_ & _ & Hy & Hlen). eapply sized_mono.
    + apply sized_token, (Hd inner Hin (r, _)), sized_begin; [done|done].
    + lia.
Qed.

Lemma rounds_grow left k :
  0 <= k -> grows (noise_round (calls left)) (60 + k) -> grows (noise left) (2 * (60 + k)).
Proof.
  intros Hk Hg s n Hs. rewrite noise_eq. pose proof (below_bound s.1 3 ltac:(lia)).
  destruct (Rng.below s.1 3) as [v r]. cbn [fst] in *. eapply sized_mono.
  - by apply (grows_iter _ (60 + k) (Z.to_nat v) ltac:(lia) Hg (r, s.2)).
  - nia.
Qed.

Lemma noise_grows left : grows (noise left) (noise_bound left).
Proof.
  induction left as [|left IH].
  - apply (rounds_grow 0 0); [lia|]. by apply turn_grows.
  - cbn [noise_bound]. pose proof (noise_bound_pos left). apply rounds_grow; [lia|]. apply turn_grows; [lia|].
    by intros ? [= <-].
Qed.

(** *** The nodes of a board *)

Lemma format_radix_spec fuel radix v acc :
  0 < radix <= 16 -> Forall is_byte acc ->
  Forall is_byte (format_radix fuel radix v acc) /\ (length (format_radix fuel radix v acc) <= fuel + length acc)%nat.
Proof.
  intros Hr. revert v acc. induction fuel as [|fuel IH]; intros v acc Ha; cbn [format_radix]; [done|].
  assert (Hd : is_byte (digit (v mod radix))).
  { pose proof (Z.mod_pos_bound v radix). unfold is_byte, digit. destruct (_ <? _); lia. }
  destruct (v <? radix); [split; [by constructor|cbn [length]; lia]|].
  destruct (IH (v / radix) (digit (v mod radix) :: acc)) as [H1 H2]; [by constructor|]. cbn [length] in H2. split; [done|lia].
Qed.

Lemma reg_spec es ac sc :
  (ac <= 2)%nat -> (sc <= 2)%nat ->
  Forall is_byte (reg es ac sc) /\ (length (reg es ac sc) <= 16 * length es)%nat.
Proof.
  intros Ha Hs. rewrite reg_emit by done. split.
  - unfold emit_reg. apply Forall_bind, Forall_fmap, Forall_true. intros e. apply Forall_app. split; apply be_bytes_byte.
  - rewrite length_emit_reg, length_fmap. nia.
Qed.

Ltac lits := repeat match goal with |- context [length (lit ?a)] =>
  let v := eval vm_compute in (length (lit a)) in change (length (lit a)) with v end.

Section board.
Context {N : Type} (noise : N * Builder.t -> N * Builder.t) (K : Z).
Context (HK : 0 <= K) (Hnoise : grows noise K).

Ltac size_tac :=
  cbv beta zeta;
  lazymatch goal with
  | |- grows (fun s => s) _ => apply grows_id
  | |- grows (fun s => ?g (@?E s)) _ => eapply (grows_seq E g); [size_tac|size_tac]
  | |- grows noise _ => exact Hnoise
  | |- grows (Board.on Builder.end_) _ => apply grows_end
  | |- grows _ _ => eauto
  end.

Lemma write_memory_grows i es c :
  cells_ok c -> (length es <= 4)%nat -> grows (Board.write_memory noise c.1 c.2 i es) (3 * K + 200).
Proof.
  intros [Hc1 Hc2] He. unfold Board.write_memory.
  assert (Hn : Forall is_byte (Board.memory_name i es) /\ (length (Board.memory_name i es) <= 23)%nat).
  { unfold Board.memory_name. destruct es as [|[base z] es]; [split; [apply lit_byte|lits; lia]|].
    destruct (_ =? _)%nat; [|split; [apply lit_byte|lits; lia]].
    destruct (format_radix_spec 16 16 base []) as [H1 H2]; [lia|constructor|]. unfold format_hex. split.
    - apply Forall_app. by split; [apply lit_byte|].
    - rewrite length_app. lits. cbn [length] in H2. lia. }
  destruct Hn as [Hn1 Hn2]. destruct (reg_spec es c.1 c.2) as [Hr1 Hr2]; [lia|lia|].
  assert (G1 : grows (N := N) (Board.on (Builder.begin (Board.memory_name i es))) (23 + 9)) by (apply grows_begin; [done|lia]).
  assert (G2 : grows (N := N) (Board.on (Builder.prop (lit "device_type") (lit "memory" ++ [0]))) (18 + 17)).
  { apply grows_prop; [apply lit_byte|apply (bool_decide_unpack _); vm_compute; exact I|vm_compute; done]. }
  assert (G3 : grows (N := N) (Board.on (Builder.prop (lit "reg") (reg es c.1 c.2))) (67 + 17)).
  { apply grows_prop; [apply lit_byte|done|lits; lia]. }
  eapply grows_mono; [size_tac|lia].
Qed.

Lemma write_memories_grows i ms c :
  cells_ok c -> Forall (fun es => length es <= 4)%nat ms ->
  grows (Board.write_memories noise c.1 c.2 i ms) (Z.of_nat (length ms) * (3 * K + 200)).
Proof.
  intros Hc. revert i. induction ms as [|m ms IH]; intros i Hms; [apply grows_id|].
  apply list.Forall_cons in Hms as [Hm Hms]. eapply grows_mono.
  - apply (grows_seq (Board.write_memory noise c.1 c.2 i m)); [by apply write_memory_grows|by apply IH].
  - cbn [length]. lia.
Qed.

Lemma write_chosen_grows bd :
  small_board bd -> grows (Board.write_chosen noise bd) (2 * K + 300).
Proof.
  intros Hs. unfold Board.write_chosen. destruct (_ || _); [|eapply grows_mono; [apply grows_id|lia]].
  destruct (sm_rng_seed _ Hs) as [R1 R2], (sm_kaslr_seed _ Hs) as [K1 K2].
  assert (G1 : grows (N := N) (Board.on (Builder.begin (lit "chosen"))) (6 + 9)) by (apply grows_begin; [apply lit_byte|done]).
  assert (G2 : grows (N := N) (Board.opt_prop (lit "rng-seed") (Board.rng_seed bd)) (71 + 17)).
  { apply grows_opt_prop; [apply lit_byte|done|lits; lia]. }
  assert (G3 : grows (N := N) (Board.on (Builder.prop (lit "bootargs") (lit "console=ttyAMA0" ++ [0]))) (24 + 17)).
  { apply grows_prop; [apply lit_byte|apply (bool_decide_unpack _); vm_compute; exact I|vm_compute; done]. }
  assert (G4 : grows (N := N) (Board.opt_prop (lit "kaslr-seed") (Board.kaslr_seed bd)) (73 + 17)).
  { apply grows_opt_prop; [apply lit_byte|done|lits; lia]. }
  eapply grows_mono; [size_tac|lia].
Qed.

Lemma write_child_grows i child c :
  cells_ok c -> (length (default [] child) <= 2)%nat -> grows (Board.write_child noise c.1 c.2 i child) (K + 200).
Proof.
  intros [Hc1 Hc2] He. unfold Board.write_child.
  destruct (format_radix_spec 20 10 (Z.of_nat i) []) as [H1 H2]; [lia|constructor|]. cbn [length] in H2.
  assert (G1 : grows (N := N) (Board.on (Builder.begin (lit "region@" ++ format_dec (Z.of_nat i)))) (27 + 9)).
  { apply grows_begin; [apply Forall_app; split; [apply lit_byte|exact H1]|]. unfold format_dec. rewrite length_app. lits. lia. }
  assert (G2 : grows (N := N) (Board.child_prop c.1 c.2 child) (36 + 17)).
  { destruct child as [es|]; cbn [Board.child_prop default from_option id] in *.
    - destruct (reg_spec es c.1 c.2) as [Hr1 Hr2]; [lia|lia|]. apply grows_prop; [apply lit_byte|done|lits; lia].
    - destruct (reg_spec [(0, 0x100000)] 0 c.2) as [Hr1 Hr2]; [lia|lia|]. cbn [length] in Hr2.
      apply grows_prop; [apply lit_byte|done|lits; lia]. }
  assert (G3 : grows (N := N) (Board.on (Builder.prop (lit "no-map") [])) (6 + 17)).
  { apply grows_prop; [apply lit_byte|constructor|done]. }
  eapply grows_mono; [size_tac|lia].
Qed.

Lemma write_children_grows i cs c :
  cells_ok c -> Forall (fun child => length (default [] child) <= 2)%nat cs ->
  grows (Board.write_children noise c.1 c.2 i cs) (Z.of_nat (length cs) * (K + 200)).
Proof.
  intros Hc. revert i. induction cs as [|m ms IH]; intros i Hms; [apply grows_id|].
  apply list.Forall_cons in Hms as [Hm Hms]. eapply grows_mono.
  - apply (grows_seq (Board.write_child noise c.1 c.2 i m)); [by apply write_child_grows|by apply IH].
  - cbn [length]. lia.
Qed.

Lemma write_reserved_grows bd :
  supported bd -> small_board bd -> grows (Board.write_reserved noise bd) (4 * K + 1000).
Proof.
  intros Hs Hm. unfold Board.write_reserved. destruct (_ || _); [|eapply grows_mono; [apply grows_id|lia]].
  pose proof (bd_rsv_cells _ Hs) as Hc. destruct (sm_children _ Hm) as [L1 L2].
  assert (G1 : grows (N := N) (Board.on (Builder.begin (lit "reserved-memory"))) (15 + 9)).
  { apply grows_begin; [apply lit_byte|done]. }
  assert (G2 : grows (N := N) (Board.opt_cells (Board.rsv_cells bd)) 76) by apply grows_opt_cells.
  assert (G3 : grows (N := N) (Board.on (Builder.prop (lit "ranges") [])) (6 + 17)).
  { apply grows_prop; [apply lit_byte|constructor|done]. }
  destruct (default (Board.root_cells bd) (Board.rsv_cells bd)) as [rac rsc].
  pose proof (write_children_grows 0 (Board.rsv_children bd) (rac, rsc) Hc L2) as G4. cbn [fst snd] in G4.
  eapply grows_mono; [size_tac|nia].
Qed.

Lemma tree_grows bd : supported bd -> small_board bd -> grows (tree noise bd) (17 * K + 3000).
Proof.
  intros Hs Hm. unfold tree. destruct (sm_memory _ Hm) as [M1 M2].
  assert (G1 : grows (N := N) (Board.on (Builder.begin [])) (0 + 9)) by (apply grows_begin; [constructor|done]).
  assert (G2 : grows (N := N) (Board.opt_cells (Board.cells bd)) 76) by apply grows_opt_cells.
  assert (G3 : grows (N := N) (Board.on (Builder.prop (lit "compatible") (lit "linux,dummy-virt" ++ [0]))) (27 + 17)).
  { apply grows_prop; [apply lit_byte|apply (bool_decide_unpack _); vm_compute; exact I|vm_compute; done]. }
  pose proof (write_chosen_grows bd Hm) as G4.
  pose proof (write_memories_grows 0 (Board.memory bd) (Board.root_cells bd) (bd_cells _ Hs) M2) as G5.
  pose proof (write_reserved_grows bd Hs Hm) as G6.
  eapply grows_mono; [size_tac|nia].
Qed.
End board.

Lemma build_spec b n :
  sized b n -> Forall is_byte (Builder.build b) /\
  Z.of_nat (length (Builder.build b)) <= n + 16 * Z.of_nat (length (Builder.rsvmap b)) + 60.
Proof.
  intros [H1 H2 H3]. unfold Builder.build. set (vs := [_; _; _; _; _; _; _; _; _; _]).
  assert (Ht : Forall is_byte (if Builder.terminate b then be_bytes 4 Builder.END else []) /\
    (length (if Builder.terminate b then be_bytes 4 Builder.END else []) <= 4)%nat).
  { destruct (Builder.terminate b); [split; [apply be_bytes_byte|by rewrite length_be_bytes]|split; [constructor|cbn; lia]]. }
  destruct Ht as [T1 T2].
  assert (length (v ← vs; be_bytes 4 v) = 40%nat) by done.
  assert (Forall is_byte (v ← vs; be_bytes 4 v)) by (apply Forall_bind, Forall_true; intros v; apply be_bytes_byte).
  assert (Forall is_byte (Builder.rsv_bytes (Builder.rsvmap b))).
  { unfold Builder.rsv_bytes. apply Forall_bind, Forall_true. intros r. apply Forall_app. split; apply be_bytes_byte. }
  assert (Forall is_byte (replicate 16 0)) by by apply Forall_replicate.
  split; [by rewrite !Forall_app|]. rewrite !length_app, length_rsv_bytes, length_replicate. lia.
Qed.

Lemma memreserves_sized {N} rs (n : N) k :
  forall b, sized b k ->
  sized (foldl (fun s r => Board.on (Builder.memreserve r.1 r.2) s) (n, b) rs).2 k.
Proof. induction rs as [|r rs IH]; intros b Hb; [done|]. apply IH. by destruct Hb. Qed.

Lemma fuzz_blob_spec bd r :
  supported bd -> small_board bd ->
  Forall is_byte (noisy_blob (noise 4) bd r) /\ Z.of_nat (length (noisy_blob (noise 4) bd r)) <= 100000.
Proof.
  intros Hs Hm. unfold noisy_blob. rewrite write_tree.
  destruct (memreserves_spec (Board.memreserve bd) r Builder.new new_emits) as (b & E & He & Hr & _).
  assert (Hb : sized b 0).
  { change b with (r, b).2. rewrite <- E. apply memreserves_sized. by split; [constructor|constructor|]. }
  rewrite E. pose proof (noise_bound_pos 4).
  assert (Ht : sized (tree (noise 4) bd (r, b)).2 (0 + (17 * noise_bound 4 + 3000))).
  { apply (tree_grows (noise 4) (noise_bound 4)); [lia|apply noise_grows|done|done|done]. }
  destruct (build_spec _ _ Ht) as [H1 H2]. split; [done|].
  assert (Hx : Builder.rsvmap (tree (noise 4) bd (r, b)).2 = Board.memreserve bd).
  { destruct (tree_writes (noise 4) 4 (noise_harmless 4) ltac:(unfold MAX_DEPTH; lia) bd (mkInfo 0 0 [] [] []) Hs
      ltac:(by split_and!)) as (w & Hw & _). destruct (Hw (r, b) [] He) as (q & _ & (Hrs & _) & _).
    rewrite Hrs. exact Hr. }
  rewrite Hx in H2. pose proof (sm_memreserve _ Hm). change (noise_bound 4) with 3720 in H2. lia.
Qed.

(** ** Mutations never panic *)

(** The code returns a value that satisfies [P]. *)
Definition yields {E A} (r : res E A) (P : A -> Prop) : Prop := match r with Ok a => P a | _ => False end.

Lemma yields_bind {E A B} (r : res E A) (k : A -> res E B) (P : A -> Prop) (Q : B -> Prop) :
  yields r P -> (forall a, P a -> yields (k a) Q) -> yields (rbind r k) Q.
Proof. destruct r; simpl; auto; done. Qed.

Lemma at_p_yields {A} (l : list A) i : (i < length l)%nat -> yields (at_p l i) (fun x => l !! i = Some x).
Proof. intros Hi. unfold at_p. by destruct (lookup_lt_is_Some_2 l i Hi) as [x ->]. Qed.

(** A mutation keeps the bytes and adds at most 64. *)
Definition grown (blob : list Z) (rb : Z * list Z) : Prop :=
  Forall is_byte rb.2 /\ (length rb.2 <= length blob + 64)%nat.

Lemma lxor_byte x y : is_byte x -> is_byte y -> is_byte (Z.lxor x y).
Proof.
  intros Hx Hy. unfold is_byte in *. assert (0 <= Z.lxor x y) by (apply Z.lxor_nonneg; lia).
  destruct (Z.eq_dec (Z.lxor x y) 0) as [->|]; [lia|]. split; [done|]. change 256 with (2 ^ 8).
  apply Z.log2_lt_pow2; [lia|]. pose proof (Z.log2_lxor x y ltac:(lia) ltac:(lia)).
  assert (Hl : forall z, 0 <= z < 256 -> Z.log2 z <= 7).
  { intros z Hz. change 7 with (Z.log2 255). apply Z.log2_le_mono. lia. }
  pose proof (Hl x Hx). pose proof (Hl y Hy). lia.
Qed.

Section mutation.
Context (blob : list Z) (Hblob : Forall is_byte blob) (Hlen : (8 <= length blob)%nat).

Lemma set_p_yields i v : (i < length blob)%nat -> is_byte v ->
  yields (set_p blob i v) (fun b => Forall is_byte b /\ length b = length blob).
Proof.
  intros Hi Hv. unfold set_p. rewrite (proj2 (Nat.ltb_lt _ _) Hi). cbn [yields].
  split; [by apply Forall_insert|apply length_insert].
Qed.

Lemma splice_p_yields i l : (i + length l <= length blob)%nat -> Forall is_byte l ->
  yields (splice_p blob i l) (fun b => Forall is_byte b /\ length b = length blob).
Proof.
  intros Hi Hl. unfold splice_p. rewrite (proj2 (Nat.leb_le _ _) Hi). cbn [yields]. split.
  - rewrite !Forall_app. split_and!; [by apply Forall_take|done|by apply Forall_drop].
  - rewrite !length_app, length_take, length_drop. lia.
Qed.

Lemma set_be32_yields i v : (i + 4 <= length blob)%nat ->
  yields (set_be32 blob i v) (fun b => Forall is_byte b /\ length b = length blob).
Proof. intros Hi. apply splice_p_yields; [by rewrite length_be_bytes|apply be_bytes_byte]. Qed.

Lemma interesting_yields r n : yields (interesting r n) (fun _ => True).
Proof.
  unfold interesting. set (p := pool _). assert (Hp : (0 < length p)%nat) by (cbn; lia).
  destruct (Rng.below r 4) as [k r1]. destruct (k =? 0); [by destruct (Rng.next r1)|].
  pose proof (index_bound r1 (length p) Hp). destruct (Rng.index r1 (length p)) as [i r2]. cbn [fst] in *.
  eapply yields_bind; [by apply at_p_yields|done].
Qed.

Lemma word_index r : (4 * (Rng.index r (length blob / 4)).1 + 4 <= length blob)%nat.
Proof.
  pose proof (Nat.div_mod (length blob) 4 ltac:(lia)). pose proof (Nat.mod_upper_bound (length blob) 4 ltac:(lia)).
  pose proof (index_bound r (length blob / 4) ltac:(lia)). lia.
Qed.

(** An index drawn below [n], and the end of a mutation that keeps the length. *)
Ltac draw n i :=
  lazymatch goal with |- context [Rng.index ?r n] =>
    pose proof (index_bound r n ltac:(lia)); destruct (Rng.index r n) as [i ?]; cbn [fst] in * end.
Ltac same_length := let b := fresh in intros b [? ?]; split; [done|cbn [snd]; lia].

Lemma mutate_one_yields kind r : yields (mutate_one kind r blob) (grown blob).
Proof.
  pose proof (interesting_yields) as Hint. unfold mutate_one, grown. cbv zeta.
  repeat (lazymatch goal with |- yields (if ?b then _ else _) _ => destruct b eqn:?; [|] end).
  - draw (length blob) i. pose proof (below_bound z 8 ltac:(lia)). destruct (Rng.below z 8) as [s r2]. cbn [fst] in *.
    eapply yields_bind; [by apply at_p_yields|]. intros x Hx. eapply yields_bind; [apply set_p_yields; [done|]|same_length].
    apply lxor_byte; [by apply (Forall_lookup_1 _ _ _ _ Hblob Hx)|]. rewrite Z.shiftl_mul_pow2 by lia.
    unfold is_byte. pose proof (Z.pow_le_mono_r 2 s 7). lia.
  - draw (length blob) i. draw 5%nat j.
    eapply yields_bind; [by apply at_p_yields|]. intros v Hv. eapply yields_bind; [apply set_p_yields; [done|]|same_length].
    apply (Forall_lookup_1 is_byte [0; 1; 127; 128; 255] j v); [|done]. by repeat constructor.
  - pose proof (word_index r). destruct (Rng.index r (length blob / 4)) as [i r1]. cbn [fst] in *.
    eapply yields_bind; [apply Hint|]. intros [v r2] _. cbn [fst snd]. eapply yields_bind; [apply set_be32_yields; lia|same_length].
  - draw 10%nat i. eapply yields_bind; [apply Hint|]. intros [v r2] _. cbn [fst snd].
    eapply yields_bind; [apply set_be32_yields|same_length].
    match goal with Hx : _ && _ = true |- _ => apply andb_prop in Hx as [_ Hx]; apply Nat.leb_le in Hx end. lia.
  - destruct (Rng.index r (length blob)) as [i r1]. cbn [yields snd]. split; [by apply Forall_take|]. rewrite length_take. lia.
  - draw 64%nat n. pose proof (bytes_spec n z) as [Hl Hb]. destruct (Rng.bytes z n) as [l r2]. cbn [yields fst snd] in *.
    split; [by apply Forall_app|]. rewrite length_app. lia.
  - draw (length blob) a. draw (length blob) b. draw (Nat.min (length blob - Nat.max a b) 64 + 1)%nat n.
    rewrite (proj2 (Nat.leb_le _ _)) by lia.
    eapply yields_bind; [apply splice_p_yields; [rewrite length_take, length_drop; lia|by apply Forall_take, Forall_drop]|same_length].
  - pose proof (word_index r). destruct (Rng.index r (length blob / 4)) as [i r1]. cbn [fst] in *.
    eapply yields_bind; [apply Hint|]. intros [v r2] _. cbn [fst snd]. rewrite (proj2 (Nat.leb_le _ _)) by lia.
    cbn [yields snd]. split.
    + rewrite !Forall_app. split_and!; [by apply Forall_take|apply be_bytes_byte|by apply Forall_drop].
    + rewrite !length_app, length_be_bytes, length_take, length_drop. lia.
  - draw (length blob - 3)%nat i. rewrite (proj2 (Nat.leb_le _ _)) by lia. cbn [yields snd]. split.
    + rewrite Forall_app. split; [by apply Forall_take|by apply Forall_drop].
    + rewrite length_app, length_take, length_drop. lia.
  - eapply yields_bind; [apply set_be32_yields; unfold OFF_TOTALSIZE; lia|same_length].
  - split; [done|cbn [snd]; lia].
Qed.
End mutation.

Lemma mutate_loop_yields n r blob :
  Forall is_byte blob ->
  yields (mutate_loop n r blob) (fun rb => Forall is_byte rb.2 /\ (length rb.2 <= length blob + 64 * n)%nat).
Proof.
  revert r blob. induction n as [|n IH]; intros r blob Hb; cbn [mutate_loop].
  - split; [done|cbn [snd]; lia].
  - destruct (Nat.ltb_spec (length blob) 8) as [Hl|Hl].
    + pose proof (bytes_spec 8 r) as [H1 H2]. destruct (Rng.bytes r 8) as [l r1]. cbn [fst] in *.
      specialize (IH r1 (blob ++ l)). rewrite length_app in IH. unfold yields in *.
      destruct (mutate_loop n r1 (blob ++ l)); try (apply IH; by apply Forall_app).
      destruct IH as [I1 I2]; [by apply Forall_app|]. split; [done|lia].
    + destruct (Rng.below r 10) as [kind r1]. eapply yields_bind; [by apply mutate_one_yields|].
      intros [r2 b] [H1 H2]. cbn [fst snd] in *. specialize (IH r2 b H1). unfold yields in *.
      destruct (mutate_loop n r2 b); try done. destruct IH as [I1 I2]. split; [done|lia].
Qed.

Lemma mutate_yields r blob :
  Forall is_byte blob ->
  yields (mutate r blob) (fun rb => Forall is_byte rb.2 /\ (length rb.2 <= length blob + 256)%nat).
Proof.
  intros Hb. unfold mutate. pose proof (below_bound r 4 ltac:(lia)). destruct (Rng.below r 4) as [n r1]. cbn [fst] in *.
  pose proof (mutate_loop_yields (1 + Z.to_nat n) r1 blob Hb) as Hm. unfold yields in *.
  destruct (mutate_loop _ _ _); try done. destruct Hm. split; [done|lia].
Qed.

(** ** No case fails *)

Lemma assert_yields b : b = true -> yields (assert b) (fun _ => True).
Proof. by intros ->. Qed.

Lemma invariants_yields info lo hi :
  info_ok lo hi info -> memory info <> [] -> yields (invariants info lo hi) (fun _ => True).
Proof.
  intros ([E1 E2] & [M1 M2] & [R1 R2] & [N1 N2]) Hne. unfold invariants.
  assert (length (memory info) <> 0%nat) by (by intros E%nil_length_inv).
  eapply yields_bind; [apply assert_yields; rewrite !(proj2 (Z.leb_le _ _)) by lia; done|intros _ _].
  eapply yields_bind; [apply assert_yields; by apply Z.leb_le|intros _ _].
  eapply yields_bind; [apply assert_yields|intros _ _].
  - apply Is_true_true, forallb_True, Forall_app. split; (eapply list.Forall_impl; [eassumption|]); intros r (H1 & H2 & H3);
      unfold region_sound, checked_add; rewrite !(proj2 (Z.ltb_lt _ _)) by lia; done.
  - eapply yields_bind; [apply assert_yields; by apply Z.leb_le|intros _ _].
    apply assert_yields. by rewrite E1, E2, !Z.eqb_refl.
Qed.

(** What a check adds to the statistics. *)
Definition counted (d : Stats -> Z) (st st' : Stats) : Prop := d st <= d st' <= d st + 1.

Lemma check_clean_yields bd r st :
  supported bd -> small_board bd ->
  yields (check_clean bd (noisy_blob (noise 4) bd r) st) (fun st' => counted clean_ok st st' /\
    mutated_ok st' = mutated_ok st /\ mutated_err st' = mutated_err st /\ pointer_ok st' = pointer_ok st).
Proof.
  intros Hs Hm. destruct (fuzz_blob_spec bd r Hs Hm) as [Hb Hl]. unfold check_clean. set (clean := noisy_blob _ _ _) in *.
  set (hi := 0x48000000 + _). pose proof (parse_blob_post clean 0x48000000 hi Hb) as Hp.
  pose proof (noisy_roundtrip (noise 4) 4 bd r 0x48000000 hi (noise_harmless 4)) as Hr. fold clean in Hr.
  unfold MAX_DTB_SIZE, MAX_DEPTH in *. specialize (Hp ltac:(lia)). specialize (Hr ltac:(lia) Hs ltac:(lia)).
  destruct (parse_blob clean 0x48000000 hi) as [info|e| |]; cbn [post] in Hp; [| |done..].
  - destruct Hp as [Hi Hne]. destruct Hr as [Hv Ei]. rewrite Hv. cbn [assert rbind].
    rewrite (bool_decide_eq_true_2 (memory info = _)) by (by rewrite Ei).
    rewrite (bool_decide_eq_true_2 (reserved info = _)) by (by rewrite Ei).
    rewrite (bool_decide_eq_true_2 (entropy info = _)) by (by rewrite Ei). cbn [assert rbind].
    eapply yields_bind; [by apply invariants_yields|]. intros _ _. unfold counted. cbn. lia.
  - assert (Hv : board_is_valid bd = false).
    { unfold board_is_valid. destruct e; try done.
      - destruct Hr; rewrite !andb_false_iff, !Z.leb_gt; lia.
      - by rewrite Hr. }
    rewrite Hv. cbn. unfold counted. lia.
Qed.

Lemma check_mutated_yields blob st :
  Forall is_byte blob -> Z.of_nat (length blob) <= MAX_DTB_SIZE ->
  yields (check_mutated blob st) (fun st' => clean_ok st' = clean_ok st /\ pointer_ok st' = pointer_ok st /\
    counted mutated_ok st st' /\ counted mutated_err st st' /\
    mutated_ok st' + mutated_err st' = mutated_ok st + mutated_err st + 1).
Proof.
  intros Hb Hl. unfold check_mutated. set (hi := 0x48000000 + _).
  pose proof (parse_blob_post blob 0x48000000 hi Hb Hl) as Hp.
  destruct (parse_blob blob 0x48000000 hi) as [info|e| |]; cbn [post] in Hp; [| |done..].
  - destruct Hp as [Hi Hne]. eapply yields_bind; [by apply invariants_yields|]. intros _ _. unfold counted. cbn. lia.
  - unfold counted. cbn. lia.
Qed.

Lemma check_pointer_yields mem addr r st :
  (forall a, is_byte (mem a)) -> 0 <= addr -> addr + 1 < U64 ->
  yields (check_pointer mem addr r st) (fun st' => clean_ok st' = clean_ok st /\ mutated_ok st' = mutated_ok st /\
    mutated_err st' = mutated_err st /\ counted pointer_ok st st').
Proof.
  intros Hm Ha Ha1. unfold check_pointer. destruct (Rng.below r 8) as [k r1].
  eapply (yields_bind _ _ (fun _ => True)); [destruct (k =? 0); [by rewrite add_p_ok|done]|]. intros kernel _.
  pose proof (parse_post mem addr kernel.1 kernel.2 0 Hm Ha ltac:(lia)) as Hp.
  destruct (parse mem addr kernel.1 kernel.2 0) as [info|e| |]; cbn [post] in Hp; [| |done..].
  - destruct Hp as (M1 & M2 & R1 & R2 & N1 & N2 & D1 & D2 & D3 & Hk).
    eapply yields_bind; [apply assert_yields; rewrite orb_true_iff, !Z.leb_le; lia|intros _ _].
    eapply yields_bind; [apply assert_yields; rewrite andb_true_iff, !Z.leb_le; lia|intros _ _].
    rewrite add_p_ok by lia. cbn [rbind]. eapply yields_bind; [apply invariants_yields|intros _ _; unfold counted; cbn; lia].
    + unfold MAX_MEM_REGIONS, MAX_RSV_REGIONS, MAX_ENTROPY. split_and!; try done; unfold MAX_MEM_REGIONS, MAX_RSV_REGIONS, MAX_ENTROPY; lia.
    + intros E. rewrite E in M1. cbn in M1. lia.
  - unfold counted. cbn. lia.
Qed.

Record window_ok (w : Window) : Prop := {
  wo_length : Z.of_nat (length (bytes w)) = MAX_DTB_SIZE + 8;
  wo_bytes : Forall is_byte (bytes w);
  wo_dirty : (dirty w <= length (bytes w))%nat
}.

Lemma new_window_ok : window_ok Win.new.
Proof.
  split; unfold Win.new; cbn [bytes dirty].
  - rewrite length_replicate, Z2Nat.id by (vm_compute; discriminate). reflexivity.
  - apply Forall_replicate. unfold is_byte. lia.
  - apply Nat.le_0_l.
Qed.

Lemma load_yields w blob : window_ok w -> Forall is_byte blob -> yields (Win.load w blob) window_ok.
Proof.
  intros [Hl Hb Hd] Hblob. unfold Win.load. rewrite (proj2 (Nat.leb_le _ _) Hd). cbn [yields].
  set (cleared := replicate _ _ ++ _). assert (Hc : length cleared = length (bytes w)).
  { unfold cleared. rewrite length_app, length_replicate, length_drop. lia. }
  split; cbn [bytes dirty].
  - rewrite length_app, length_take, length_drop. lia.
  - apply Forall_app. split; [by apply Forall_take|]. apply Forall_drop, Forall_app.
    split; [by apply Forall_replicate|by apply Forall_drop].
  - rewrite length_app, length_take, length_drop. lia.
Qed.

Lemma win_mem_byte outside addr w a : (forall a, is_byte (outside a)) -> window_ok w -> is_byte (win_mem outside addr w a).
Proof.
  intros Ho Hw. unfold win_mem. destruct (get (bytes w) (a - addr)) as [b|] eqn:E; [|apply Ho].
  apply get_Some in E as (_ & E). eapply (Forall_lookup_1 is_byte); [apply Hw|exact E].
Qed.

(** What [n] cases do. *)
Definition counts (n : Z) (st st' : Stats) : Prop :=
  clean_ok st <= clean_ok st' <= clean_ok st + n /\ pointer_ok st <= pointer_ok st' <= pointer_ok st + n /\
  mutated_ok st <= mutated_ok st' /\ mutated_err st <= mutated_err st' /\
  mutated_ok st' + mutated_err st' = mutated_ok st + mutated_err st + n.

Section fuzz.
Context (outside : Z -> Z) (addr : Z).
Context (Houtside : forall a, is_byte (outside a)) (Haddr : 0 <= addr) (Hfits : addr + (MAX_DTB_SIZE + 8) <= U64).

Lemma one_case_yields seed w st :
  window_ok w -> yields (one_case outside addr seed w st) (fun ws => window_ok ws.1 /\ counts 1 st ws.2).
Proof.
  intros Hw. unfold one_case. destruct (random_board_spec (Rng.new seed)) as [Hs Hm].
  destruct (random_board (Rng.new seed)) as [bd r]. cbn [fst] in Hs, Hm.
  set (nr := Rng.new (Z.lxor seed 0xA5A5)). destruct (fuzz_blob_spec bd nr Hs Hm) as [Hb Hl].
  eapply yields_bind; [by apply check_clean_yields|]. intros st1 (C1 & C2 & C3 & C4).
  eapply yields_bind; [by apply mutate_yields|]. intros [r' blob] [B1 B2]. cbn [fst snd] in *.
  unfold MAX_DTB_SIZE in Hfits.
  eapply yields_bind; [apply check_mutated_yields; [done|unfold MAX_DTB_SIZE; lia]|]. intros st2 (D1 & D2 & D3 & D4 & D5).
  eapply yields_bind; [by apply load_yields|]. intros w' Hw'.
  eapply yields_bind; [apply check_pointer_yields; [intros; by apply win_mem_byte|done|lia]|]. intros st3 (E1 & E2 & E3 & E4).
  split; [done|]. unfold counts, counted in *. cbn [snd]. lia.
Qed.

Lemma cases_yield only base i n w st :
  window_ok w ->
  yields (cases outside addr only base i n w st) (fun ws => window_ok ws.1 /\ counts (Z.of_nat n) st ws.2).
Proof.
  revert i w st. induction n as [|n IH]; intros i w st Hw.
  - split; [done|]. unfold counts. cbn [snd]. lia.
  - cbn [cases]. eapply yields_bind; [by apply one_case_yields|]. intros [w1 st1] [H1 H2]. cbn [fst snd] in *.
    specialize (IH (i + 1) w1 st1 H1). unfold yields in *. destruct (cases _ _ _ _ _ _ _ _); try done.
    destruct IH as [I1 I2]. split; [done|]. unfold counts in *. lia.
Qed.
End fuzz.

(** *** The builder *)

Lemma builder_tests_pass :
  builder_emits_a_well_formed_header = Ok tt /\ builder_deduplicates_property_names = Ok tt /\ reg_encodes_big_endian_cells = Ok tt.
Proof. split; [|split]; vm_compute; reflexivity. Qed.

Lemma get_set_be32 blob off v blob' :
  0 <= v < U32 -> set_be32 blob off v = Ok blob' -> get_be32 blob' off = Ok v.
Proof.
  intros Hv. unfold set_be32, splice_p. set (l := be_bytes 4 v). assert (Hl : length l = 4%nat) by apply length_be_bytes.
  assert (Ev : be_val l = v) by by apply be_val_bytes. clearbody l. rewrite Hl.
  destruct (Nat.leb_spec (off + 4) (length blob)); [|done]. intros [= <-]. unfold get_be32. rewrite !length_app, length_take, length_drop, Hl.
  rewrite (proj2 (Nat.leb_le _ _)) by lia. rewrite drop_app_le by (rewrite length_take; lia).
  rewrite drop_ge by (rewrite length_take; lia). cbn [app]. by rewrite take_app_length', Ev.
Qed.

(** *** The environment *)

Lemma to_digit_digit radix d : 0 <= d < radix -> radix <= 16 -> to_digit radix (digit d) = Some d.
Proof.
  intros Hd Hr. unfold to_digit, digit. destruct (Z.ltb_spec d 10).
  - rewrite (proj2 (Z.leb_le 48 _)), (proj2 (Z.leb_le _ 57)) by lia. cbn [andb]. rewrite (proj2 (Z.ltb_lt _ _)) by lia. f_equal. lia.
  - rewrite (proj2 (Z.leb_gt _ 57)), andb_false_r by lia. rewrite (proj2 (Z.leb_le 97 _)), (proj2 (Z.leb_le _ 122)) by lia.
    cbn [andb]. rewrite (proj2 (Z.ltb_lt _ _)) by lia. f_equal. lia.
Qed.

Lemma parse_format n radix v acc :
  2 <= radix <= 16 -> 0 <= v < radix ^ Z.of_nat n -> is_u64 v -> (0 < n)%nat ->
  parse_digits radix 0 (format_radix n radix v acc) = parse_digits radix v acc.
Proof.
  intros Hr. revert v acc. induction n as [|n IH]; intros v acc Hv Hu Hn; [lia|]. cbn [format_radix].
  pose proof (Z.mod_pos_bound v radix ltac:(lia)) as Hm. pose proof (Z.div_mod v radix ltac:(lia)) as Hq. unfold is_u64 in Hu.
  assert (Hd : parse_digits radix (v / radix) (digit (v mod radix) :: acc) = parse_digits radix v acc).
  { cbn [parse_digits]. rewrite to_digit_digit by lia. cbn [mbind option_bind]. unfold checked_mul, checked_add.
    rewrite (proj2 (Z.ltb_lt _ _)) by lia. cbn [mbind option_bind]. rewrite (proj2 (Z.ltb_lt _ _)) by lia. cbn [mbind option_bind].
    f_equal. lia. }
  destruct (Z.ltb_spec v radix) as [Hlt|Hge].
  - rewrite Z.div_small in Hd by lia. done.
  - rewrite Nat2Z.inj_succ, Z.pow_succ_r in Hv by lia. destruct n as [|n]; [change (radix ^ Z.of_nat 0) with 1 in Hv; lia|].
    rewrite IH; [done| | |lia].
    + split; [apply Z.div_pos; lia|apply Z.div_lt_upper_bound; lia].
    + split; [apply Z.div_pos; lia|]. apply Z.div_lt_upper_bound; nia.
Qed.

Lemma to_digit_nonneg radix c d : 0 <= radix -> to_digit radix c = Some d -> 0 <= d.
Proof. intros Hr. unfold to_digit. repeat case_match; intros [= <-]; lia. Qed.

Lemma parse_digits_nonneg radix acc s v : 0 <= acc -> 0 <= radix -> parse_digits radix acc s = Some v -> 0 <= v.
Proof.
  intros Ha Hr. revert acc Ha. induction s as [|c s IH]; intros acc Ha; cbn [parse_digits]; [by intros [= <-]|].
  intros (d & Hd%to_digit_nonneg & (m & Hm & (a & Ha' & E)%bind_Some)%bind_Some)%bind_Some; [|done].
  unfold checked_mul, checked_add in *. repeat case_match; simplify_eq. eapply IH, E. nia.
Qed.

Lemma env_u64_nonneg env name v : env_u64 env name = Some v -> 0 <= v.
Proof.
  unfold env_u64, from_str_radix. destruct (env name); [|done]. cbn [mbind option_bind]. intros E.
  repeat (case_match; try done); by eapply parse_digits_nonneg in E.
Qed.

Definition alnum (c : Z) : Prop := 48 <= c <= 57 \/ 97 <= c <= 120.

Lemma format_alnum n radix v acc : 2 <= radix <= 16 -> Forall alnum acc -> Forall alnum (format_radix n radix v acc).
Proof.
  intros Hr. revert v acc. induction n as [|n IH]; intros v acc Ha; cbn [format_radix]; [done|].
  assert (Hc : Forall alnum (digit (v mod radix) :: acc)).
  { constructor; [|done]. pose proof (Z.mod_pos_bound v radix ltac:(lia)). unfold alnum, digit. destruct (Z.ltb_spec (v mod radix) 10); lia. }
  destruct (_ <? _); [done|by apply IH].
Qed.

Lemma alnum_whitespace c : alnum c -> is_whitespace c = false.
Proof.
  intros Hc. unfold is_whitespace, alnum in *. rewrite bool_decide_eq_false_2 by (rewrite !elem_of_cons, elem_of_nil; lia). lia.
Qed.

Lemma trim_alnum s : Forall alnum s -> trim s = s.
Proof.
  assert (Ht : forall l, Forall alnum l -> trim_start l = l) by (intros l []; simpl; [done|]; by rewrite alnum_whitespace).
  intros Hs. unfold trim. rewrite (Ht s) by done. rewrite Ht by by apply Forall_reverse. apply reverse_involutive.
Qed.

Lemma filter_alnum s : Forall alnum s -> filter (fun c => c <> 95) s = s.
Proof. induction 1 as [|c s Hc _ IH]; [done|]. rewrite filter_cons_True by (unfold alnum in Hc; lia). by rewrite IH. Qed.

Lemma from_str_radix_alnum radix s : Forall alnum s -> s <> [] -> from_str_radix radix s = parse_digits radix 0 s.
Proof.
  intros Hs Hn. destruct Hs as [|c s Hc _]; [done|]. assert (c <> 43 /\ c <> 45) as [H1 H2] by (unfold alnum in Hc; lia).
  unfold from_str_radix. repeat (case_match; try done).
Qed.

Lemma format_nonempty n radix v acc : acc <> [] -> format_radix n radix v acc <> [].
Proof.
  revert v acc. induction n as [|n IH]; intros v acc Ha; cbn [format_radix]; [done|]. destruct (_ <? _); [done|by apply IH].
Qed.

(** The seed that a failing case prints reproduces that case. *)
Lemma env_u64_hex env name v : is_u64 v -> env name = Some (lit "0x" ++ format_hex v) -> env_u64 env name = Some v.
Proof.
  intros Hv E. assert (Hf : Forall alnum (format_hex v)) by by apply format_alnum.
  assert (Ha : Forall alnum (lit "0x" ++ format_hex v)).
  { change (lit "0x" ++ format_hex v) with (48 :: 120 :: format_hex v). rewrite !list.Forall_cons. unfold alnum at 1 2. split_and!; [lia..|done]. }
  assert (Hne : format_hex v <> []).
  { change (format_hex v) with (if v <? 16 then [digit (v mod 16)] else format_radix 15 16 (v / 16) [digit (v mod 16)]).
    destruct (v <? 16); [discriminate|by apply format_nonempty]. }
  unfold env_u64. rewrite E. cbn [mbind option_bind]. rewrite trim_alnum, filter_alnum by done.
  rewrite bool_decide_eq_true_2 by done. change (drop 2 (lit "0x" ++ format_hex v)) with (format_hex v).
  rewrite from_str_radix_alnum by done. unfold format_hex. rewrite parse_format; [done|lia|exact Hv|done|lia].
Qed.

(** C39: the fuzz test can only fail by its statistics.  Whatever the environment,
    the seeds, the number of cases, the address of the buffer and the memory around
    it, every assertion of every case holds: a generated board with its noise
    parses back to exactly what it describes, the mutator never panics, and every
    mutated blob is refused or obeys the parser's limits, parsed directly or
    through a pointer.  Each case is counted once.  Only the final thresholds of a
    run of at least 1000 cases are left to chance. *)
Theorem fuzz_never_fails env (outside : Z -> Z) (addr : Z)
  (Houtside : forall a, is_byte (outside a)) (Haddr : 0 <= addr) (Hfits : addr + (MAX_DTB_SIZE + 8) <= U64) :
  let only := env_u64 env (lit "K0_FUZZ_CASE") in
  let n := if bool_decide (is_Some only) then 1 else default DEFAULT_CASES (env_u64 env (lit "K0_FUZZ_ITERS")) in
  exists w st, cases outside addr only (default BASE_SEED (env_u64 env (lit "K0_FUZZ_SEED"))) 0 (Z.to_nat n) Win.new stats_default = Ok (w, st) /\
  (mutated_ok st + mutated_err st = n /\ 0 <= clean_ok st <= n /\ 0 <= pointer_ok st <= n) /\
  match fuzz_parse_with_mutated_boards env outside addr with
  | Ok st' => st' = st
  | Panic => only = None /\ 1000 <= n /\ ~ (n <= clean_ok st * 4 < U64 /\ 0 < mutated_ok st /\ 0 < pointer_ok st)
  | _ => False
  end.
Proof.
  intros only n. unfold fuzz_parse_with_mutated_boards. fold only. fold n. set (base := default BASE_SEED _).
  pose proof (cases_yield outside addr Houtside Haddr Hfits only base 0 (Z.to_nat n) Win.new stats_default new_window_ok) as Hy.
  assert (Hn : 0 <= n).
  { unfold n. destruct (bool_decide _); [lia|]. destruct (env_u64 env (lit "K0_FUZZ_ITERS")) eqn:E; cbn [from_option id];
      [by eapply env_u64_nonneg|unfold DEFAULT_CASES; lia]. }
  clearbody base n.
  destruct (cases outside addr only base 0 (Z.to_nat n) Win.new stats_default) as [[w st]| | |]; try done.
  destruct Hy as [_ Hy]. unfold counts in Hy. cbn in Hy. exists w, st. split; [done|]. split; [lia|]. cbn [rbind snd].
  case_bool_decide as Ho; [|done]. destruct (Z.leb_spec 1000 n); [|done]. cbn [andb]. unfold mul_p, assert.
  destruct (Z.ltb_spec (clean_ok st * 4) U64); cbn [rbind]; [|split_and!; [done|done|lia]].
  destruct (Z.leb_spec n (clean_ok st * 4)); cbn [rbind]; [|split_and!; [done|done|lia]].
  destruct (Z.ltb_spec 0 (mutated_ok st)); cbn [rbind]; [|split_and!; [done|done|lia]].
  destruct (Z.ltb_spec 0 (pointer_ok st)); cbn [rbind]; [done|split_and!; [done|done|lia]].
Qed.

(** Ten cases from a given seed. *)
Definition ten_cases (name : list Z) : option (list Z) :=
  if bool_decide (name = lit "K0_FUZZ_ITERS") then Some (lit " 1_0 ") else
  if bool_decide (name = lit "K0_FUZZ_SEED") then Some (lit "0x6B30_5F44_5442_465A") else None.

Lemma fuzz_never_fails_witness :
  match fuzz_parse_with_mutated_boards ten_cases (fun _ => 0) 0x10000 with
  | Ok st => mutated_ok st + mutated_err st = 10 /\ 0 <= clean_ok st <= 10 /\ 0 <= pointer_ok st <= 10
  | _ => False
  end.
Proof.
  destruct (fuzz_never_fails ten_cases (fun _ => 0) 0x10000
    ltac:(intros a; unfold is_byte; lia) ltac:(lia) ltac:(unfold MAX_DTB_SIZE; lia)) as (w & st & _ & Hst & Hf).
  assert (E1 : env_u64 ten_cases (lit "K0_FUZZ_CASE") = None) by reflexivity.
  assert (E2 : env_u64 ten_cases (lit "K0_FUZZ_ITERS") = Some 10) by reflexivity. rewrite E1, E2 in Hst, Hf. cbn in Hst.
  destruct (fuzz_parse_with_mutated_boards ten_cases (fun _ => 0) 0x10000) as [st'| | |]; [|contradiction| |contradiction].
  - subst st'. exact Hst.
  - destruct Hf as (_ & Hf & _). cbn in Hf. lia.
Defined.
