(* ===== verification/Spawn.v ===== *)
(** * Loading the root task

    crates/k0-task/src/lib.rs [spawn_root]: the verified image is copied into
    contiguous frames of the boot window, its segments are mapped with their
    permissions, then the stack and the read-only bootinfo page.  The state is
    the frame allocator and physical memory; the result is the content of the
    static root TCB and the root table.  Cache maintenance ([Arch.sync_icache]) does
    not change the modelled memory; its address computation is kept. *)

From S2P Require Import Prelude Abi Task Radix Paging User Build.

(** ** Data *)

Definition USER_STACK_TOP : Z := 0x10000000.
Definition USER_STACK_SIZE : Z := 64 * 1024.

Module SegKind.
Inductive t := Text | Ro | Rw.

Definition perm (k : t) : UserPerm.t :=
  match k with Text => UserPerm.TextUser | Ro => UserPerm.RoUser | Rw => UserPerm.RwUser end.
End SegKind.

#[export] Instance SegKind_eq_dec : EqDecision SegKind.t.
Proof. solve_decision. Defined.

Record LoadSeg := mkSeg { s_va : Z; s_memsz : Z; s_kind : SegKind.t }.

Module SpawnError.
Inductive t := BadLayout | Mmu (e : MmuError.t).
End SpawnError.

Abbreviation mem_state := (FrameAlloc * words)%type (only parsing).

(** [?] on a memory-management result. *)
Definition mmu {A} (m : M mem_state MmuError.t A) : M mem_state SpawnError.t A := throw_map SpawnError.Mmu m.

(** ** Copying the image *)

Definition le_word (l : list Z) : Z := foldr (fun b acc => b + 256 * acc) 0 l.

(** [copy_nonoverlapping] to the alias of [a], word by word; the image is a
    whole number of granules. *)
Fixpoint copy_image (n : nat) (a : Z) (img : list Z) (w : words) : words :=
  match n with
  | O => w
  | S n' => copy_image n' (a + 8) (drop 8 img) (<[a := le_word (take 8 img)]> w)
  end.

Section spawn.
Context `{Platform}.

(** The loop over the segments. *)
Fixpoint map_segs (root base image_end entry frames : Z) (segs : list LoadSeg) :
    M mem_state SpawnError.t unit :=
  match segs with
  | [] => ret tt
  | s :: segs' =>
    do! seg_end := lift (ok_or (checked_add (s_va s) (s_memsz s)) SpawnError.BadLayout) in
    if (s_va s <? base) || (image_end <? seg_end) || negb (s_va s mod GRANULE =? 0) || (s_memsz s =? 0)
    then throw SpawnError.BadLayout else
    let mapped := div_ceil (s_memsz s) GRANULE * GRANULE in
    do! a := lift (add_p frames (s_va s - base)) in
    do! _ := mmu (us_map_range root (s_va s) a mapped (SegKind.perm (s_kind s))) in
    if (s_va s <=? entry) && (entry <? seg_end) && negb (bool_decide (s_kind s = SegKind.Text))
    then throw SpawnError.BadLayout else
    map_segs root base image_end entry frames segs'
  end.

Definition spawn_root (image : list Z) (base entry : Z) (segs : list LoadSeg) (bootinfo_pa : Z) :
    M mem_state SpawnError.t (Tcb * Z) :=
  let len := Z.of_nat (length image) in
  if negb (base mod GRANULE =? 0) || negb (len mod GRANULE =? 0) || (len =? 0) || bool_decide (segs = [])
  then throw SpawnError.BadLayout else
  do! image_end := lift (ok_or (checked_add base len) SpawnError.BadLayout) in
  do! frames := mmu (alloc_contig (len / GRANULE)) in
  do! alias := lift (add_p frames KERNEL_VA_OFFSET) in
  do! _ := modS (fun s => (s.1, copy_image (Z.to_nat (len / 8)) frames image s.2)) in
  do! _ := lift (add_p alias len) in
  do! root := mmu us_new in
  do! _ := map_segs root base image_end entry frames segs in
  if negb ((base <=? entry) && (entry <? image_end)) then throw SpawnError.BadLayout else
  let stack_base := USER_STACK_TOP - USER_STACK_SIZE in
  do! stack_frames := mmu (alloc_contig (USER_STACK_SIZE / GRANULE)) in
  do! _ := mmu (us_map_range root stack_base stack_frames USER_STACK_SIZE UserPerm.RwUser) in
  do! _ := mmu (us_map_range root bootinfo.VA bootinfo_pa GRANULE UserPerm.RoUser) in
  ret (mkTcb (mkContext (x zeroed) USER_STACK_TOP entry 0 (tpidr zeroed) (tpidrro zeroed)) root
         (state zero_tcb) (next zero_tcb) (reply_to zero_tcb), root).
End spawn.

(** ** Theory *)

Section theory.
Context `{Platform}.

(** A mapped range: virtual and physical start, length, permission. *)
Record urange := mkU { u_va : Z; u_pa : Z; u_len : Z; u_perm : UserPerm.t }.

(** The descriptor that a list of mapped ranges gives to the page [q]. *)
Fixpoint umap_at (us : list urange) (q : Z) : option Z :=
  match us with
  | [] => None
  | u :: us' =>
    if decide (vpn (u_va u) <= q < vpn (u_va u) + u_len u / GRANULE)
    then Some (Z.lor (u_pa u + (q - vpn (u_va u)) * GRANULE) (UserPerm.attrs (u_perm u)))
    else umap_at us' q
  end.

(** Whole pages of the address space, not the first one. *)
Definition u_placed (u : urange) : Prop :=
  GRANULE <= u_va u /\ u_va u mod GRANULE = 0 /\ u_len u mod GRANULE = 0 /\ 0 < u_len u /\ u_va u + u_len u <= 2 ^ 48.

(** No page is mapped twice. *)
Fixpoint apart (us : list urange) : Prop :=
  match us with
  | [] => True
  | u :: us' => u_placed u /\
    (forall va, vpn (u_va u) <= vpn va < vpn (u_va u) + u_len u / GRANULE -> umap_at us' (vpn va) = None) /\ apart us'
  end.

(** Each range gives its own pages. *)
Lemma umap_at_in us u va :
  apart us -> u ∈ us -> vpn (u_va u) <= vpn va < vpn (u_va u) + u_len u / GRANULE ->
  umap_at us (vpn va) = Some (Z.lor (u_pa u + (vpn va - vpn (u_va u)) * GRANULE) (UserPerm.attrs (u_perm u))).
Proof.
  induction us as [|u' us IH]; [by intros _ []%not_elem_of_nil|]. cbn [apart umap_at].
  intros (_ & Hu' & Hus) [->|Hin]%elem_of_cons Hva; [by rewrite decide_True|].
  case_decide as E; [|by apply IH]. specialize (Hu' va E). rewrite (IH Hus Hin Hva) in Hu'. done.
Qed.

Lemma apart_placed us u : apart us -> u ∈ us -> u_placed u.
Proof.
  induction us as [|u' us IH]; [by intros _ []%not_elem_of_nil|]. intros (Hp & _ & Hus) [->|Hin]%elem_of_cons; [done|by apply IH].
Qed.

Lemma umap_at_out us q :
  (forall u, u ∈ us -> ~ (vpn (u_va u) <= q < vpn (u_va u) + u_len u / GRANULE)) -> umap_at us q = None.
Proof.
  induction us as [|u us IH]; intros Hq; [done|]. cbn [umap_at]. rewrite decide_False by (apply Hq; by left).
  apply IH. intros u' Hin. apply Hq. by right.
Qed.

(** The builder's state while it maps ranges: the translations of [root] are
    exactly [us], and the tables keep clear of the frames [res] handed out. *)
Record progress (root : Z) (us : list urange) (res : list Range) (s : FrameAlloc * words) : Prop := {
  pg_tables : exists dom tag, building dom tag s /\ is_root dom tag root /\
    (forall r t, r ∈ res -> dom t -> t + GRANULE <= start r \/ end_ r <= t);
  pg_res : forall r, r ∈ res -> fa_start s.1 <= start r /\ end_ r <= fa_next s.1;
  pg_maps : forall va, utranslate s.2 root va = umap_at us (vpn va);
  pg_apart : apart us
}.

(** What an operation keeps: the window, and the content of the frames handed out. *)
Definition keeps (res : list Range) (s s' : FrameAlloc * words) : Prop :=
  (fa_start s'.1 = fa_start s.1 /\ fa_end s'.1 = fa_end s.1 /\ fa_next s.1 <= fa_next s'.1) /\
  forall r j, r ∈ res -> start r <= j < end_ r -> s'.2 !! j = s.2 !! j.

Lemma keeps_refl res s : keeps res s s.
Proof. by split_and!. Qed.

Lemma keeps_trans res s s1 s2 : keeps res s s1 -> keeps res s1 s2 -> keeps res s s2.
Proof.
  intros [(? & ? & ?) K1] [(? & ? & ?) K2]. split; [split_and!; [congruence|congruence|lia]|].
  intros r j Hr Hj. rewrite (K2 r j Hr Hj). by apply (K1 r).
Qed.

Lemma keeps_sub res res' s s' : (forall r, r ∈ res' -> r ∈ res) -> keeps res s s' -> keeps res' s s'.
Proof. intros Hs [? K]. split; [done|]. intros r j Hr. apply (K r). auto. Qed.

Lemma progress_map root us res s va a len perm r s' :
  progress root us res s -> 0 <= va -> 0 <= a -> 0 <= len -> a + len <= 2 ^ 48 ->
  us_map_range root va a len perm s = (r, s') ->
  match r with
  | Ok _ => progress root (mkU va a len perm :: us) res s' /\ keeps res s s' /\
      va mod GRANULE = 0 /\ a mod GRANULE = 0 /\ len mod GRANULE = 0 /\ 0 < len /\ GRANULE <= va /\ va + len <= 2 ^ 48 /\
      forall va', vpn va <= vpn va' < vpn va + len / GRANULE -> umap_at us (vpn va') = None
  | Err _ => True
  | _ => False
  end.
Proof.
  intros [(dom & tag & Hb & Hr & Hcl) Hres Hm Hap] Hva Ha Hl Hal E.
  destruct (us_map_range_spec dom tag s root va a len perm Hb Hr Hva Ha Hl Hal) as (r1 & s1 & E1 & Hs).
  rewrite E1 in E. simplify_eq. destruct r as [[]|e| |]; try done.
  destruct Hs as (? & ? & ? & ? & ? & ? & dom' & tag' & B).
  assert (Hcl' : forall r t, r ∈ res -> dom' t -> t + GRANULE <= start r \/ end_ r <= t).
  { intros rg t Hrg Ht. destruct (bt_new _ _ _ _ _ _ _ _ _ _ B t Ht) as [Hd|Hn]; [by apply Hcl|].
    right. destruct (Hres rg Hrg). lia. }
  destruct (bt_window _ _ _ _ _ _ _ _ _ _ B) as (W1 & W2 & W3).
  assert (Hr' : is_root dom' tag' root).
  { destruct Hr as [Hd Hg], (bt_dom _ _ _ _ _ _ _ _ _ _ B root Hd) as [? E2]. split; [done|congruence]. }
  assert (Hfree : forall va', vpn va <= vpn va' < vpn va + len / GRANULE -> umap_at us (vpn va') = None).
  { intros va' Hv. rewrite <- Hm. by apply (bt_free _ _ _ _ _ _ _ _ _ _ B). }
  split_and!; try done.
  - split; [| | |by split_and!].
    + exists dom', tag'. split_and!; [apply B|done|done].
    + intros rg Hrg. destruct (Hres rg Hrg). lia.
    + intros va'. rewrite (bt_trans _ _ _ _ _ _ _ _ _ _ B) by done. cbn [umap_at u_va u_pa u_len u_perm].
      destruct (decide (vpn va <= vpn va' < vpn va + len / GRANULE)).
      * by rewrite decide_True by tauto.
      * rewrite decide_False by tauto. apply Hm.
  - split; [done|]. intros rg j Hrg Hj. destruct (decide (s'.2 !! j = s.2 !! j)) as [|Hne]; [done|].
    destruct (bt_words _ _ _ _ _ _ _ _ _ _ B j Hne) as (t & Ht & Htj).
    destruct (Hcl' rg t Hrg Ht); lia.
Qed.

(** Allocating frames while building. *)
Lemma progress_alloc root us res s n r s' :
  progress root us res s -> 0 <= n -> alloc_contig n s = (r, s') ->
  match r with
  | Ok b => progress root us (mkRange b (b + n * GRANULE) :: res) s' /\ keeps res s s' /\
      b = fa_next s.1 /\ b mod GRANULE = 0 /\ 0 <= b /\ b + n * GRANULE <= fa_end s.1 /\
      (forall j, b <= j < b + n * GRANULE -> s'.2 !! j = None)
  | Err _ => True
  | _ => False
  end.
Proof.
  intros [(dom & tag & Hb & Hr & Hcl) Hres Hm Hap] Hn E. destruct s as [fa w].
  pose proof Hb as (Hf & [Htr Hfr] & Hw). simpl in Hf, Htr, Hw. pose proof granule_bounds as Hg.
  rewrite alloc_contig_spec in E by done. case_decide as Hfit; simplify_eq; [|done].
  destruct Hfit as [Hn0 Hfit]. set (b := fa_next fa) in *.
  pose proof Hf as (F0 & F1 & F2 & F3 & F4). fold b in F1, F4.
  assert (Hlow : forall t, dom t -> t + GRANULE <= b).
  { intros t Ht. pose proof (Hw t Ht) as Htb. destruct (Hfr t Ht) as [_ Ha]. fold b in Htb.
    destruct (Z.lt_ge_cases b (t + GRANULE)); [|lia]. pose proof (multiple_lt GRANULE b t). lia. }
  assert (Hsame : forall t i, dom t -> umem (zero_range b (n * GRANULE) w) t i = umem w t i).
  { intros t i Ht. apply umem_agree. intros j Hj. destruct (decide (zero_range b (n * GRANULE) w !! j = w !! j)) as [|Hne]; [done|].
    apply zero_range_lookup in Hne. specialize (Hlow t Ht). lia. }
  split_and!; simpl; try done; try lia; try nia.
  - split; simpl; [| | |done].
    + exists dom, tag. split_and!; [|done|].
      * split_and!; simpl; [by apply fa_alloc_wf| |].
        -- split; [by apply (tree_agree _ _ _ _ _ _ Htr)|done].
        -- intros t Ht. specialize (Hw t Ht). simpl. fold b in Hw. nia.
      * intros rg t [->|Hrg]%elem_of_cons Ht; simpl; [left; by apply Hlow|by apply Hcl].
    + intros rg [->|Hrg]%elem_of_cons; simpl; [split; [lia|simpl; lia]|]. destruct (Hres rg Hrg) as [Hlo Hle]. simpl in Hlo, Hle. fold b in Hle. simpl. split; [lia|nia].
    + intros va. rewrite <- Hm. destruct Hr as [Hd Hgr]. unfold utranslate.
      apply (leaf_agree user_child 3 dom tag (umem w)); [done|done|done|by rewrite Hgr].
  - split; [simpl; split_and!; [done|done|nia]|]. intros rg j Hrg Hj. simpl. destruct (decide (zero_range b (n * GRANULE) w !! j = w !! j)) as [|Hne]; [done|].
    apply zero_range_lookup in Hne. destruct (Hres rg Hrg) as [_ Hle]. simpl in Hle. fold b in Hle. lia.
  - intros j Hj. unfold zero_range. rewrite map_lookup_filter.
    destruct (w !! j); simpl; [|done]. rewrite option_guard_False; [done|]. simpl. tauto.
Qed.

(** The empty address space. *)
Lemma progress_new res fa w r s' :
  fa_wf fa -> (forall r, r ∈ res -> fa_start fa <= start r /\ end_ r <= fa_next fa) ->
  us_new (fa, w) = (r, s') ->
  match r with
  | Ok c => progress c [] res s' /\ keeps res (fa, w) s'
  | Err _ => True
  | _ => False
  end.
Proof.
  intros Hf Hres E. unfold us_new in E. rewrite fa_alloc_ok in E by done. case_decide as Hfit; simplify_eq; [|done].
  pose proof granule_bounds as Hg. pose proof Hf as (F0 & F1 & F2 & F3 & F4). rewrite Z.mul_1_l.
  set (c := fa_next fa) in *. set (w' := zero_range c GRANULE w).
  assert (Hz : forall i, umem w' c i = 0) by (intros; apply umem_zero_in).
  split.
  - split; simpl; [| | |done].
    + exists (fun t => t = c), (fun _ => (c, [])). split_and!; [|done|].
      * split_and!; simpl.
        -- pose proof (fa_alloc_wf fa 1 Hf) as Hw. rewrite Z.mul_1_l in Hw. apply Hw; lia.
        -- split; [|intros t ->; split; [lia|done]]. split.
           ++ intros t i -> Hn. by rewrite Hz in Hn.
           ++ intros t ->. simpl. lia.
        -- intros t ->. simpl. lia.
      * intros rg t Hrg ->. right. by apply Hres.
    + intros rg Hrg. destruct (Hres rg Hrg). lia.
    + intros va. unfold utranslate, leaf, path. simpl. by rewrite Hz.
  - split; simpl; [split_and!; [done|done|lia]|]. intros rg j Hrg Hj.
    destruct (decide (w' !! j = w !! j)) as [|Hne]; [done|].
    apply zero_range_lookup in Hne. destruct (Hres rg Hrg). lia.
Qed.

(** ** Segments *)

Definition seg_range (base frames : Z) (s : LoadSeg) : urange :=
  mkU (s_va s) (frames + (s_va s - base)) (div_ceil (s_memsz s) GRANULE * GRANULE) (SegKind.perm (s_kind s)).

(** What is checked of a segment. *)
Definition seg_ok (base image_end entry : Z) (s : LoadSeg) : Prop :=
  base <= s_va s /\ s_va s + s_memsz s <= image_end /\ s_va s mod GRANULE = 0 /\ 0 < s_memsz s /\
  (s_va s <= entry < s_va s + s_memsz s -> s_kind s = SegKind.Text).

Lemma div_ceil_round x : 0 <= x -> div_ceil x GRANULE * GRANULE = round_up GRANULE x.
Proof.
  intros Hx. pose proof granule_bounds. unfold div_ceil, round_up.
  pose proof (Z.div_mod (x + (GRANULE - 1)) GRANULE). lia.
Qed.

(** A segment's pages lie in the image. *)
Lemma seg_fits base len s :
  base mod GRANULE = 0 -> len mod GRANULE = 0 -> s_va s mod GRANULE = 0 -> 0 < s_memsz s ->
  s_va s + s_memsz s <= base + len -> s_va s + div_ceil (s_memsz s) GRANULE * GRANULE <= base + len.
Proof.
  intros Hb Hl Hv Hm He. pose proof granule_bounds. rewrite div_ceil_round by lia.
  destruct (round_up_spec GRANULE (s_memsz s)) as [Hr Hrb]; [lia|].
  apply (multiple_lt GRANULE); [lia| | |lia].
  - by rewrite Z.add_mod, Hv, Hr, Z.add_0_l, Z.mod_0_l by lia.
  - by rewrite Z.add_mod, Hb, Hl, Z.add_0_l, Z.mod_0_l by lia.
Qed.

Lemma mmu_res {A} (m : M (FrameAlloc * words) MmuError.t A) s r s' :
  m s = (r, s') -> mmu m s = (map_err SpawnError.Mmu r, s').
Proof. intros E. unfold mmu, throw_map. by rewrite E. Qed.

Lemma map_segs_spec root base len entry frames res segs : forall us s r s',
  base mod GRANULE = 0 -> len mod GRANULE = 0 -> 0 <= base -> 0 <= frames -> frames + len <= 2 ^ 48 ->
  base + len < U64 ->
  Forall (fun s => 0 <= s_va s /\ 0 <= s_memsz s) segs ->
  progress root us res s -> map_segs root base (base + len) entry frames segs s = (r, s') ->
  match r with
  | Ok _ => progress root (rev (seg_range base frames <$> segs) ++ us) res s' /\ keeps res s s' /\
      Forall (seg_ok base (base + len) entry) segs
  | Err _ => True
  | _ => False
  end.
Proof.
  induction segs as [|sg segs IH]; intros us s r s' Hb Hl Hb0 Hf0 Hf48 H64 Hu Hp E.
  { simpl in E. unfold ret in E. simplify_eq. split_and!; [done|apply keeps_refl|constructor]. }
  apply list.Forall_cons in Hu as [[Hva Hms] Hu]. cbn [map_segs] in E. unfold bind at 1, lift at 1 in E.
  unfold checked_add in E. destruct (Z.ltb_spec (s_va sg + s_memsz sg) U64) as [H6|H6]; cbn [ok_or] in E; [|by simplify_eq].
  destruct (_ || _) eqn:Echk; [unfold throw in E; by simplify_eq|].
  rewrite !orb_false_iff, !Z.ltb_ge, negb_false_iff, Z.eqb_eq, Z.eqb_neq in Echk.
  destruct Echk as (((C1 & C2) & C3) & C4).
  assert (Hfit : s_va sg + div_ceil (s_memsz sg) GRANULE * GRANULE <= base + len) by (apply seg_fits; (done || lia)).
  assert (Hdc : 0 <= div_ceil (s_memsz sg) GRANULE * GRANULE).
  { rewrite div_ceil_round by lia. pose proof granule_bounds. destruct (round_up_spec GRANULE (s_memsz sg)); lia. }
  unfold bind at 1, lift at 1 in E. rewrite add_p_ok in E by lia. unfold bind at 1 in E.
  destruct (us_map_range root (s_va sg) (frames + (s_va sg - base)) (div_ceil (s_memsz sg) GRANULE * GRANULE)
    (SegKind.perm (s_kind sg)) s) as [r1 s1] eqn:Em. rewrite (mmu_res _ _ _ _ Em) in E.
  apply (progress_map root us res) in Em; [|done|lia|lia|lia|lia].
  destruct r1 as [[]|e| |]; cbn [map_err] in E; try done; [|by simplify_eq].
  destruct Em as (Hp1 & Hk1 & _). destruct (_ && _ && _) eqn:Een; [unfold throw in E; by simplify_eq|].
  apply (IH _ _ _ _ Hb Hl Hb0 Hf0 Hf48 H64 Hu Hp1) in E. destruct r as [[]|e| |]; try done.
  destruct E as (Hp2 & Hk2 & Hok). split_and!.
  - cbn [fmap list_fmap rev]. by rewrite <- app_assoc.
  - by eapply keeps_trans.
  - constructor; [|done]. split_and!; [done|done|done|lia|]. intros Hen.
    rewrite (proj2 (Z.leb_le _ _)), (proj2 (Z.ltb_lt _ _)) in Een by lia. simpl in Een.
    rewrite negb_false_iff, bool_decide_eq_true in Een. done.
Qed.

(** ** The image *)

Lemma copy_image_out n a img w j :
  j < a \/ a + 8 * Z.of_nat n <= j -> copy_image n a img w !! j = w !! j.
Proof.
  revert a img w. induction n as [|n IH]; intros a img w Hj; [done|]. simpl.
  rewrite IH by lia. apply lookup_insert_ne. lia.
Qed.

Lemma copy_image_in n a img w i :
  (i < n)%nat -> copy_image n a img w !! (a + 8 * Z.of_nat i) = Some (le_word (take 8 (drop (8 * i) img))).
Proof.
  revert a img w i. induction n as [|n IH]; intros a img w i Hi; [lia|]. cbn [copy_image].
  destruct i as [|i].
  - rewrite Z.mul_0_r, Z.add_0_r, copy_image_out by lia. by rewrite lookup_insert_eq.
  - replace (a + 8 * Z.of_nat (S i)) with (a + 8 + 8 * Z.of_nat i) by lia. rewrite IH by lia.
    rewrite drop_drop. do 3 f_equal. f_equal. lia.
Qed.

(** ** The root task *)

(** Everything the root task can reach. *)
Definition spawn_maps (base frames stack bi : Z) (segs : list LoadSeg) : list urange :=
  mkU bootinfo.VA bi GRANULE UserPerm.RoUser ::
  mkU (USER_STACK_TOP - USER_STACK_SIZE) stack USER_STACK_SIZE UserPerm.RwUser ::
  rev (seg_range base frames <$> segs).

Definition spawn_tcb (entry root : Z) : Tcb :=
  mkTcb (mkContext (replicate 31 0) USER_STACK_TOP entry 0 0 0) root Inactive 0 0.

Record spawned (image : list Z) (base entry : Z) (segs : list LoadSeg) (bi : Z) (s : FrameAlloc * words)
    (t : Tcb) (root frames stack : Z) (s' : FrameAlloc * words) : Prop := {
  sp_tcb : t = spawn_tcb entry root;
  sp_progress : progress root (spawn_maps base frames stack bi segs)
    [mkRange stack (stack + USER_STACK_SIZE); mkRange frames (frames + Z.of_nat (length image));
     mkRange bi (bi + GRANULE)] s';
  sp_window : fa_start s'.1 = fa_start s.1 /\ fa_end s'.1 = fa_end s.1 /\ fa_next s.1 <= fa_next s'.1;
  sp_segs : Forall (seg_ok base (base + Z.of_nat (length image)) entry) segs /\
    base <= entry < base + Z.of_nat (length image) /\ base mod GRANULE = 0 /\
    Z.of_nat (length image) mod GRANULE = 0;
  sp_frames : frames mod GRANULE = 0 /\ stack mod GRANULE = 0 /\ fa_next s.1 <= frames /\
    frames + Z.of_nat (length image) <= stack;
  sp_image : forall i, (8 * i < length image)%nat ->
    s'.2 !! (frames + 8 * Z.of_nat i) = Some (le_word (take 8 (drop (8 * i) image)));
  sp_stack : forall j, stack <= j < stack + USER_STACK_SIZE -> s'.2 !! j = None;
  sp_bootinfo : forall j, bi <= j < bi + GRANULE -> s'.2 !! j = s.2 !! j
}.

(** From the allocation of the image to the empty address space. *)
Lemma spawn_image_spec image bi fa w frames s1 :
  let len := Z.of_nat (length image) in
  fa_wf fa -> fa_start fa <= bi -> bi + GRANULE <= fa_next fa -> len mod GRANULE = 0 -> len <> 0 ->
  alloc_contig (len / GRANULE) (fa, w) = (Ok frames, s1) ->
  let w2 := copy_image (Z.to_nat (len / 8)) frames image s1.2 in
  frames = fa_next fa /\ frames mod GRANULE = 0 /\ 0 <= frames /\ frames + len <= fa_end fa /\
  s1.1 = mkFA (fa_start fa) (frames + len) (fa_end fa) /\ fa_wf s1.1 /\
  (forall i, (8 * i < length image)%nat -> w2 !! (frames + 8 * Z.of_nat i) = Some (le_word (take 8 (drop (8 * i) image)))) /\
  (forall j, bi <= j < bi + GRANULE -> w2 !! j = w !! j).
Proof.
  intros len Hf Hb1 Hb2 Hl Hl0 E w2. pose proof granule_bounds as Hg.
  pose proof Hf as (F0 & F1 & F2 & F3 & F4). assert (Elen : len = Z.of_nat (length image)) by done. clearbody len.
  assert (Hdm : len / GRANULE * GRANULE = len) by (pose proof (Z.div_mod len GRANULE); lia).
  assert (Hn : 0 <= len / GRANULE) by (apply Z.div_pos; lia).
  rewrite alloc_contig_spec, Hdm in E by done. case_decide as Hfit; [|done].
  injection E as <- <-. cbn [fst snd] in *.
  assert (H8 : len = 8 * (len / 8)) by (unfold GRANULE in Hl; destruct plat; div_lia).
  assert (0 <= len / 8) by (apply Z.div_pos; lia).
  split_and!; try done; try lia.
  - pose proof (fa_alloc_wf fa (len / GRANULE) Hf Hn) as Hw. rewrite Hdm in Hw. apply Hw; lia.
  - intros i Hi. apply copy_image_in. lia.
  - intros j Hj. unfold w2. rewrite copy_image_out by lia.
    destruct (decide (zero_range (fa_next fa) len w !! j = w !! j)) as [|Hne]; [done|].
    apply zero_range_lookup in Hne. lia.
Qed.

(** The last part: stack and bootinfo page. *)
Lemma spawn_tail_spec root us ir br entry bi s r s' :
  progress root us [ir; br] s -> br = mkRange bi (bi + GRANULE) -> 0 <= bi -> bi + GRANULE <= 2 ^ 48 ->
  (do! stack_frames := mmu (alloc_contig (USER_STACK_SIZE / GRANULE)) in
   do! _ := mmu (us_map_range root (USER_STACK_TOP - USER_STACK_SIZE) stack_frames USER_STACK_SIZE UserPerm.RwUser) in
   do! _ := mmu (us_map_range root bootinfo.VA bi GRANULE UserPerm.RoUser) in
   ret (spawn_tcb entry root, root)) s = (r, s') ->
  match r with
  | Ok (t, root') => t = spawn_tcb entry root /\ root' = root /\ exists stack,
      progress root (mkU bootinfo.VA bi GRANULE UserPerm.RoUser ::
        mkU (USER_STACK_TOP - USER_STACK_SIZE) stack USER_STACK_SIZE UserPerm.RwUser :: us)
        [mkRange stack (stack + USER_STACK_SIZE); ir; br] s' /\
      stack = fa_next s.1 /\ stack mod GRANULE = 0 /\ keeps [ir; br] s s' /\
      forall j, stack <= j < stack + USER_STACK_SIZE -> s'.2 !! j = None
  | Err _ => True
  | _ => False
  end.
Proof.
  intros Hp Hbr Hbi Hbi48 E. pose proof granule_bounds as Hg.
  assert (Hss : USER_STACK_SIZE / GRANULE * GRANULE = USER_STACK_SIZE) by (unfold GRANULE; by destruct plat).
  assert (Hsp : 0 <= USER_STACK_SIZE) by (unfold USER_STACK_SIZE; lia).
  unfold bind at 1 in E. destruct (alloc_contig (USER_STACK_SIZE / GRANULE) s) as [r1 s1] eqn:E1.
  rewrite (mmu_res _ _ _ _ E1) in E. apply (progress_alloc root us [ir; br]) in E1; [|done|by apply Z.div_pos; lia].
  destruct r1 as [stack|e| |]; cbn [map_err] in E; try done; [|by simplify_eq].
  destruct E1 as (Hp1 & Hk1 & Est & Hal & Hs0 & Hend & Hz). rewrite Hss in *.
  assert (fa_end s.1 <= 2 ^ 48) by (destruct (pg_tables _ _ _ _ Hp) as (? & ? & [(_ & _ & ? & _) _] & _); done).
  unfold bind at 1 in E. destruct (us_map_range root (USER_STACK_TOP - USER_STACK_SIZE) stack USER_STACK_SIZE UserPerm.RwUser s1) as [r2 s2] eqn:E2.
  rewrite (mmu_res _ _ _ _ E2) in E. eapply progress_map in E2; [|done|done|lia|lia|lia].
  destruct r2 as [[]|e| |]; cbn [map_err] in E; try done; [|by simplify_eq]. destruct E2 as (Hp2 & Hk2 & _).
  unfold bind at 1 in E. destruct (us_map_range root bootinfo.VA bi GRANULE UserPerm.RoUser s2) as [r3 s3] eqn:E3.
  rewrite (mmu_res _ _ _ _ E3) in E. eapply progress_map in E3; [|done|done|lia|lia|lia].
  destruct r3 as [[]|e| |]; cbn [map_err] in E; try done; [|by simplify_eq]. destruct E3 as (Hp3 & Hk3 & _).
  unfold ret in E. simplify_eq. split_and!; [done|done|]. exists (fa_next s.1).
  pose proof (keeps_trans _ _ _ _ Hk2 Hk3) as Hk23. split_and!; [done|done|done| |].
  - eapply keeps_trans; [exact Hk1|]. eapply keeps_sub; [|exact Hk23]. intros rg Hrg. by apply elem_of_cons; right.
  - intros j Hj. destruct Hk23 as [_ Hk]. rewrite (Hk (mkRange (fa_next s.1) (fa_next s.1 + USER_STACK_SIZE))); [by apply Hz|by left|done].
Qed.

Lemma spawn_root_spec image base entry segs bi fa w r s' :
  fa_wf fa -> fa_end fa < 2 ^ 48 -> fa_start fa <= bi -> bi + GRANULE <= fa_next fa ->
  0 <= base -> Forall (fun s => 0 <= s_va s /\ 0 <= s_memsz s) segs ->
  spawn_root image base entry segs bi (fa, w) = (r, s') ->
  match r with
  | Ok (t, root) => exists frames stack, spawned image base entry segs bi (fa, w) t root frames stack s'
  | Err _ => True
  | _ => False
  end.
Proof.
  intros Hf He Hb1 Hb2 Hb0 Hsegs E. pose proof granule_bounds as Hg. pose proof Hf as (F0 & F1 & F2 & F3 & F4).
  unfold spawn_root in E. set (len := Z.of_nat (length image)) in *.
  destruct (_ || _) eqn:Echk; [unfold throw in E; by simplify_eq|].
  rewrite !orb_false_iff, !negb_false_iff, !Z.eqb_eq, Z.eqb_neq in Echk. destruct Echk as (((C1 & C2) & C3) & _).
  unfold bind at 1, lift at 1, checked_add in E.
  destruct (Z.ltb_spec (base + len) U64) as [H6|H6]; cbn [ok_or] in E; [|by simplify_eq].
  unfold bind at 1 in E. destruct (alloc_contig (len / GRANULE) (fa, w)) as [r1 s1] eqn:E1.
  rewrite (mmu_res _ _ _ _ E1) in E.
  destruct r1 as [frames|e| |]; cbn [map_err] in E;
    [|by simplify_eq|exfalso; rewrite alloc_contig_spec in E1 by (done || apply Z.div_pos; lia); by case_decide..].
  destruct (spawn_image_spec image bi fa w frames s1 Hf Hb1 Hb2 C2 C3 E1)
    as (Hfr & Hfal & Hf0 & Hfend & Hfa1 & Hwf1 & Himg & Hbi).
  assert (Hk : KERNEL_VA_OFFSET + 2 ^ 48 = U64) by reflexivity.
  unfold bind at 1, lift at 1 in E. rewrite add_p_ok in E by lia. unfold bind at 1, modS in E.
  unfold bind at 1, lift at 1 in E. rewrite add_p_ok in E by lia. unfold bind at 1 in E.
  set (w2 := copy_image _ _ _ _) in *. destruct (us_new (s1.1, w2)) as [r2 s2] eqn:E2.
  rewrite (mmu_res _ _ _ _ E2) in E.
  set (ir := mkRange frames (frames + len)). set (br := mkRange bi (bi + GRANULE)).
  apply (progress_new [ir; br]) in E2; [|done|].
  2:{ intros rg [->|[->|[]%not_elem_of_nil]%elem_of_cons]%elem_of_cons; simpl; rewrite Hfa1; simpl; lia. }
  destruct r2 as [root|e| |]; cbn [map_err] in E; try done; [|by simplify_eq]. destruct E2 as [Hp2 Hk2].
  unfold bind at 1 in E. destruct (map_segs root base (base + len) entry frames segs s2) as [r3 s3] eqn:E3.
  apply (map_segs_spec root base len entry frames [ir; br] segs []) in E3; try (done || lia).
  destruct r3 as [[]|e| |]; try done; [|by simplify_eq]. destruct E3 as (Hp3 & Hk3 & Hok). rewrite app_nil_r in Hp3.
  destruct (negb _) eqn:Een; [unfold throw in E; by simplify_eq|].
  rewrite negb_false_iff, andb_true_iff, Z.leb_le, Z.ltb_lt in Een.
  apply (spawn_tail_spec root (rev (seg_range base frames <$> segs)) ir br entry bi) in E; [|done|done|lia|lia].
  destruct r as [[t root']|e| |]; try done. destruct E as (-> & -> & stack & Hp & Est & Hst & Hk4 & Hz).
  pose proof (keeps_trans _ _ _ _ Hk2 (keeps_trans _ _ _ _ Hk3 Hk4)) as [(W1 & W2 & W3) Hkeep].
  pose proof (proj1 Hk2) as (_ & _ & W4). pose proof (proj1 Hk3) as (_ & _ & W5). rewrite Hfa1 in *. simpl in W1, W2, W3, W4.
  exists frames, stack. split; try done; fold len.
  - simpl. split_and!; [done|done|lia].
  - simpl. split_and!; [done|done|lia|lia].
  - intros i Hi. rewrite (Hkeep ir); [by apply Himg|by left|simpl; unfold len; lia].
  - intros j Hj. rewrite (Hkeep br); [by apply Hbi|by right; left|done].
Qed.

(** Where the frames of a mapped range come from. *)
Definition u_ok (u : urange) : Prop :=
  0 <= u_pa u /\ u_pa u mod GRANULE = 0 /\ u_pa u + u_len u <= 2 ^ 48.

Lemma umap_frame us q d :
  Forall u_ok us -> umap_at us q = Some d ->
  exists u f, u ∈ us /\ d = Z.lor f (UserPerm.attrs (u_perm u)) /\ frame_ok f /\
    u_pa u <= f /\ f + GRANULE <= u_pa u + u_len u.
Proof.
  intros Hu. induction Hu as [|u us (H0 & H1 & H2) Hu IH]; [done|]. cbn [umap_at]. pose proof granule_bounds as Hg.
  case_decide as E.
  - intros [= <-]. exists u, (u_pa u + (q - vpn (u_va u)) * GRANULE).
    pose proof (Z.mul_div_le (u_len u) GRANULE).
    split_and!; [by left|done| |nia|nia]. split; [nia|]. by rewrite Z_mod_plus_full.
  - intros Hd. destruct (IH Hd) as (u' & f & Hin & Hf). exists u', f. split; [by right|done].
Qed.

Lemma spawn_maps_ok image base entry segs bi s t root frames stack s' :
  spawned image base entry segs bi s t root frames stack s' -> fa_start s.1 <= bi -> 0 <= fa_start s.1 ->
  bi mod GRANULE = 0 ->
  Forall u_ok (spawn_maps base frames stack bi segs) /\
  forall u, u ∈ spawn_maps base frames stack bi segs -> exists r,
    r ∈ [mkRange stack (stack + USER_STACK_SIZE); mkRange frames (frames + Z.of_nat (length image));
         mkRange bi (bi + GRANULE)] /\ start r <= u_pa u /\ u_pa u + u_len u <= end_ r.
Proof.
  intros Hs Hbi H0 Hbm. destruct Hs as [_ Hp (W1 & W2 & W3) (Hsg & _ & Hbase & Hlm) (Hfm & Hsm & Hfn & Hfs) _ _ _].
  pose proof granule_bounds as Hg.
  assert (Hend : fa_next s'.1 <= 2 ^ 48) by (destruct (pg_tables _ _ _ _ Hp) as (? & ? & [(_ & ? & ? & _) _] & _); lia).
  pose proof (pg_res _ _ _ _ Hp (mkRange stack (stack + USER_STACK_SIZE)) ltac:(by left)) as [R1 R2].
  pose proof (pg_res _ _ _ _ Hp (mkRange frames (frames + Z.of_nat (length image))) ltac:(by right; left)) as [R3 R4].
  pose proof (pg_res _ _ _ _ Hp (mkRange bi (bi + GRANULE)) ltac:(by right; right; left)) as [R5 R6].
  simpl in *.
  assert (Hseg : forall sg, sg ∈ segs -> let u := seg_range base frames sg in
    u_pa u mod GRANULE = 0 /\ frames <= u_pa u /\ u_pa u + u_len u <= frames + Z.of_nat (length image)).
  { intros sg Hin. pose proof (proj1 (list.Forall_forall _ _) Hsg sg Hin) as (S1 & S2 & S3 & S4 & _). simpl.
    pose proof (seg_fits base (Z.of_nat (length image)) sg Hbase Hlm S3 S4 S2). split_and!; [|lia|lia].
    replace (frames + (s_va sg - base)) with (frames + s_va sg - base) by lia.
    by rewrite Zminus_mod, Z.add_mod, Hfm, S3, Hbase, Z.add_0_l, !Z.mod_0_l by lia. }
  split.
  - constructor; [split_and!; simpl; (done || lia)|]. constructor; [split_and!; simpl; (done || lia)|].
    apply Forall_rev, Forall_fmap, list.Forall_forall. intros sg Hin. destruct (Hseg sg Hin) as (? & ? & ?).
    split_and!; [simpl in *; lia|done|lia].
  - intros u [->|[->|Hin]%elem_of_cons]%elem_of_cons.
    + eexists. split; [right; right; left|simpl; lia].
    + eexists. split; [left|simpl; lia].
    + rewrite list_elem_of_In, <- in_rev, <- list_elem_of_In in Hin. apply list_elem_of_fmap in Hin as (sg & -> & Hin).
      destruct (Hseg sg Hin) as (_ & ? & ?). eexists. split; [right; left|done].
Qed.

(** ** Theorem *)

(** C35: a spawned root task has exactly the address space its metadata asks for:
    each segment's pages map the copied image with the segment's permission, the
    stack and the bootinfo page map their frames, every other page, the guard
    below the stack included, is unmapped, and no page is writable and executable
    or executable by the kernel.  The image is in memory, the stack is zero, the
    bootinfo frame is untouched, no page table lies in a frame that is mapped,
    and the context enters EL0 at the entry point, inside a text segment if
    inside any.  Spawning never panics. *)
Theorem spawn_root_exact image base entry segs bi fa w r s' :
  fa_wf fa -> fa_end fa < 2 ^ 48 -> fa_start fa <= bi -> bi + GRANULE <= fa_next fa -> bi mod GRANULE = 0 ->
  0 <= base -> Forall (fun s => 0 <= s_va s /\ 0 <= s_memsz s) segs ->
  spawn_root image base entry segs bi (fa, w) = (r, s') ->
  match r with
  | Ok (t, root) => exists frames stack,
      spawned image base entry segs bi (fa, w) t root frames stack s' /\
      (forall va, utranslate s'.2 root va = umap_at (spawn_maps base frames stack bi segs) (vpn va)) /\
      (forall va d, utranslate s'.2 root va = Some d -> user_safe d)
  | Err _ => True
  | _ => False
  end.
Proof.
  intros Hf He Hb1 Hb2 Hbm Hb0 Hsegs E. pose proof (proj1 Hf) as H0.
  apply spawn_root_spec in E; try done. destruct r as [[t root]|e| |]; try done.
  destruct E as (frames & stack & Hs). exists frames, stack. pose proof (pg_maps _ _ _ _ (sp_progress _ _ _ _ _ _ _ _ _ _ _ Hs)) as Hm.
  split_and!; [done|done|]. intros va d Hd. rewrite Hm in Hd.
  destruct (spawn_maps_ok _ _ _ _ _ _ _ _ _ _ _ Hs Hb1 H0 Hbm) as [Hok _].
  destruct (umap_frame _ _ _ Hok Hd) as (u & f & _ & -> & Hf' & _). by apply user_desc_safe.
Qed.
End theory.

(** ** An instance

    A two-page image, text and data, in a boot window of 128 frames. *)

Module SpawnEx.
#[export] Instance ex_plat : Platform := PlatVirt.

Definition image : list Z := replicate 4096 1 ++ replicate 4096 2.
Definition segs : list LoadSeg := [mkSeg 0x400000 4096 SegKind.Text; mkSeg 0x401000 100 SegKind.Rw].
Definition fa : FrameAlloc := mkFA 0x40300000 0x40301000 0x40380000.
Definition run := spawn_root image 0x400000 0x400010 segs 0x40300000 (fa, ∅).

Lemma run_ok : match run.1 with Ok (t, root) => root = 0x40303000 /\ elr (ctx t) = 0x400010 | _ => False end.
Proof. vm_compute. split; reflexivity. Qed.

Lemma spawn_root_exact_witness : exists t root frames stack,
  run.1 = Ok (t, root) /\ root = 0x40303000 /\ frames mod GRANULE = 0 /\
  forall va, utranslate run.2.2 root va = umap_at (spawn_maps 0x400000 frames stack 0x40300000 segs) (vpn va).
Proof.
  pose proof run_ok as Hok. destruct run as [r s'] eqn:E. simpl in Hok.
  assert (Hf : fa_wf fa) by (split_and!; vm_compute; (reflexivity || discriminate)).
  pose proof (spawn_root_exact image 0x400000 0x400010 segs 0x40300000 fa ∅ r s' Hf) as Hx.
  destruct r as [[t root]|e| |]; [|contradiction..].
  destruct Hx as (frames & stack & Hs & Hm & _).
  - vm_compute. reflexivity.
  - vm_compute. discriminate.
  - vm_compute. discriminate.
  - vm_compute. reflexivity.
  - lia.
  - repeat constructor; simpl; lia.
  - exact E.
  - exists t, root, frames, stack. split; [reflexivity|]. split; [exact (proj1 Hok)|].
    split; [exact (proj1 (sp_frames _ _ _ _ _ _ _ _ _ _ _ Hs))|exact Hm].
Defined.
End SpawnEx.
