(* ===== verification/Boot.v ===== *)
(** * The boot sequence up to the handoff

    kernel/src/main.rs, entry phase 3 of [kernel_main] with its helpers: the
    check of the memory map against the device windows, the choice of the boot
    window, the spawn of the root task, the capability bootstrap, the bootinfo
    page, and the handoff.  The inputs are what the earlier phases established:
    the parsed device tree, the kernel's page tables and the root task image; RAM
    holds arbitrary words.  [boot_good] shows that the system starts in a state
    that satisfies the system invariant, if the declared RAM is within the 48-bit
    range ([ram_addressable]), and that otherwise too it panics only for a boot
    window outside that range. *)

From S2P Require Import Prelude Abi Cap Task Sched Ipc Radix Paging User Build Kernel System Fdt Spawn.

(** ** Devices *)

Section defs.
Context `{Platform, PoolVa}.

Definition UART_BASE : Z := match plat with PlatVirt => 0x09000000 | PlatApple => 0x235200000 end.
Definition GICD_BASE : Z := 0x08000000.
Definition GICD_SIZE : Z := 0x10000.
Definition GICR_BASE : Z := 0x080A0000.
Definition GICR_SIZE : Z := 0x20000.

Definition device_windows : list Range :=
  match plat with
  | PlatVirt => [mkRange UART_BASE (UART_BASE + GRANULE); mkRange GICD_BASE (GICD_BASE + GICD_SIZE);
                 mkRange GICR_BASE (GICR_BASE + GICR_SIZE)]
  | PlatApple => [mkRange UART_BASE (UART_BASE + GRANULE); mkRange 0 0; mkRange 0 0]
  end.

(** Why the boot parks. *)
Inductive boot_fail :=
| DeviceOverlap (m : MemRegion) (dev : Range) | NoWindow | WindowMap (e : MmuError.t) | FrameAllocFailed (e : MmuError.t)
| BootinfoFrame (e : MmuError.t) | TooManySegments | SpawnFailed (e : SpawnError.t) | CapFailed (e : CapError.t).

Abbreviation B := (res boot_fail).

(** The first memory region that reaches into [dev]. *)
Fixpoint overlaps_any (dev : Range) (ms : list MemRegion) : B (option MemRegion) :=
  match ms with
  | [] => Ok None
  | m :: ms' =>
    let? hit := if m_base m <? end_ dev then
                  let? e := add_p (m_base m) (m_size m) in Ok (start dev <? e)
                else Ok false in
    if (hit : bool) then Ok (Some m) else overlaps_any dev ms'
  end.

Fixpoint check_devices (devs : list Range) (ms : list MemRegion) : B unit :=
  match devs with
  | [] => Ok tt
  | dev :: devs' =>
    if end_ dev <=? start dev then check_devices devs' ms else
    let? hit := overlaps_any dev ms in
    match hit with Some m => Err (DeviceOverlap m dev) | None => check_devices devs' ms end
  end.

Definition check_memory_map (info : BootInfo) : B unit := check_devices device_windows (memory info).

(** ** The boot window *)

Definition WINDOW_SIZE : Z := 2 * 1024 * 1024.

Definition align_up (v : Z) : option Z :=
  (fun x => Z.land x (not64 (GRANULE - 1))) <$> checked_add v (GRANULE - 1).

(** One pass over the obstacles. *)
Fixpoint bump (obs : list MemRegion) (end_ start : Z) (bumped : bool) : option (Z * bool) :=
  match obs with
  | [] => Some (start, bumped)
  | r :: obs' =>
    r_end ← checked_add (m_base r) (m_size r);
    if (start <? r_end) && (m_base r <? end_) then
      a ← align_up r_end; bump obs' end_ (Z.max start a) true
    else bump obs' end_ start bumped
  end.

Fixpoint fits_any (start end_ : Z) (ms : list MemRegion) : B bool :=
  match ms with
  | [] => Ok false
  | m :: ms' =>
    let? hit := if m_base m <=? start then
                  let? e := add_p (m_base m) (m_size m) in Ok (end_ <=? e)
                else Ok false in
    if (hit : bool) then Ok true else fits_any start end_ ms'
  end.

(** The least base above [start]. *)
Definition next_base (start : Z) (ms : list MemRegion) : option Z :=
  foldr (fun m acc => if start <? m_base m then
                        match acc with Some b => Some (Z.min (m_base m) b) | None => Some (m_base m) end
                      else acc) None ms.

Definition or_none {A} (o : option A) : B A := ok_or o NoWindow.

Fixpoint pick_loop (fuel : nat) (obs ms : list MemRegion) (start : Z) : B Range :=
  match fuel with
  | O => Err NoWindow
  | S fuel' =>
    let? e := or_none (checked_add start WINDOW_SIZE) in
    let? sb := or_none (bump obs e start false) in
    if (sb.2 : bool) then pick_loop fuel' obs ms sb.1 else
    let? hit := fits_any start e ms in
    if (hit : bool) then Ok (mkRange start e) else
    let? next := or_none (next_base start ms) in
    let? a := or_none (align_up next) in
    pick_loop fuel' obs ms a
  end.

Definition pick_window (info : BootInfo) (image_end : Z) : B Range :=
  let? n := sub_p (dtb_end info) (dtb_start info) in
  let dtb := mkMem (dtb_start info) n in
  let? start := or_none (align_up image_end) in
  pick_loop 64 (dtb :: reserved info) (memory info) start.

(** ** The bootinfo page *)

Definition cap_desc (c : Cap.t) : bootinfo.CapDesc :=
  match c with
  | Cap.Empty => bootinfo.mkCapDesc cap_kind.EMPTY 0 0
  | Cap.RootTcb | Cap.Tcb _ => bootinfo.mkCapDesc cap_kind.TCB 0 0
  | Cap.AddrSpace _ => bootinfo.mkCapDesc cap_kind.ADDR_SPACE 0 0
  | Cap.Console => bootinfo.mkCapDesc cap_kind.CONSOLE 0 0
  | Cap.Untyped base size _ => bootinfo.mkCapDesc cap_kind.UNTYPED base size
  | Cap.Frame _ _ => bootinfo.mkCapDesc cap_kind.FRAME 0 0
  | Cap.PageTable _ _ => bootinfo.mkCapDesc cap_kind.PAGE_TABLE 0 0
  | Cap.Endpoint _ => bootinfo.mkCapDesc cap_kind.ENDPOINT 0 0
  end.

(** The descriptors, three words each, from the physical address [a] on. *)
Fixpoint write_descs (a : Z) (cs : list Cap.t) (w : words) : words :=
  match cs with
  | [] => w
  | c :: cs' =>
    let d := cap_desc c in
    write_descs (a + 24) cs'
      (<[a + 16 := bootinfo.size d]> (<[a + 8 := bootinfo.base d]> (<[a := bootinfo.kind d]> w)))
  end.

Definition write_bootinfo (frame_pa : Z) (cn : CNode) (w : words) : B words :=
  let? _ := add_p frame_pa KERNEL_VA_OFFSET in
  let hdr := bootinfo.mkHeader bootinfo.VERSION GRANULE (Z.of_nat (length (filled cn))) in
  Ok (write_descs (frame_pa + 24) (filled cn)
        (<[frame_pa + 16 := bootinfo.cap_count hdr]> (<[frame_pa + 8 := bootinfo.frame_size hdr]>
           (<[frame_pa := bootinfo.version hdr]> w)))).

(** ** The sequence *)

Record VerifiedRootTask := mkRT {
  rt_image : list Z;
  rt_base : Z;
  rt_entry : Z;
  rt_segments : list LoadSeg
}.

Definition phys (m : MemRegion) : PhysRegion := mkRegion (m_base m) (m_size m).

(** Runs a stateful operation inside the boot sequence. *)
Definition run {S E A} (f : E -> boot_fail) (m : M S E A) (s : S) : B (A * S) :=
  let '(r, s') := m s in let? a := map_err f r in Ok (a, s').

(** Kernel, device tree and window first, then the firmware's regions. *)
Definition boot_reserved (info : BootInfo) (image win : Range) : B (list PhysRegion) :=
  let? k := sub_p (end_ image) (start image) in
  let? d := sub_p (dtb_end info) (dtb_start info) in
  let? n := sub_p (end_ win) (start win) in
  Ok ([mkRegion (start image) k; mkRegion (dtb_start info) d; mkRegion (start win) n] ++
      (phys <$> reserved info)).

(** The tasks at the handoff: the root TCB in its address space. *)
Definition boot_tasks (root_tcb : Z) (t : Tcb) (user_root : Z) : tstate :=
  handoff root_tcb (install_user_ttbr0 user_root
    (mkTstate {[root_tcb := t]} ∅ (mkSched 0 0 0) 0 0)).

Definition boot (info : BootInfo) (image : Range) (rt : VerifiedRootTask) (root_tcb : Z) (p0 : Pool)
    (w0 : words) : B kstate :=
  let? _ := check_memory_map info in
  let? win := pick_window info (end_ image) in
  let? wm := run WindowMap (map_kernel_window win) p0 in
  let? fa := map_err FrameAllocFailed (fa_new win) in
  let? bi := run BootinfoFrame fa_alloc (fa, w0) in
  if 4 <? Z.of_nat (length (rt_segments rt)) then Err TooManySegments else
  let? sp := run SpawnFailed (spawn_root (rt_image rt) (rt_base rt) (rt_entry rt) (rt_segments rt) bi.1) bi.2 in
  let user_root := sp.1.2 in
  let? rsv := boot_reserved info image win in
  let? cn := map_err CapFailed (bootstrap (phys <$> memory info) rsv user_root) in
  let? w := write_bootinfo bi.1 cn sp.2.2 in
  Ok (mkK cn (boot_tasks root_tcb sp.1.1 user_root) wm.2 w []).
End defs.

(** ** Theory *)

Section theory.
Context `{Platform, PoolVa, !PoolVaOk}.

Lemma align_up_Some v a : 0 <= v -> align_up v = Some a -> v <= a /\ a mod GRANULE = 0.
Proof.
  intros Hv E. unfold align_up in E. pose proof granule_bounds. pose proof page_shift_bounds. pose proof granule_pow2 as Hg.
  destruct (checked_add v (GRANULE - 1)) as [y|] eqn:Ey; [|done]. apply checked_add_Some in Ey as [-> Hy].
  simpl in E. rewrite Hg, land_not64_pow2 in E by (rewrite ?Hg in *; unfold is_u64; lia).
  injection E as <-. rewrite <- Hg. fold (round_up GRANULE v). destruct (round_up_spec GRANULE v); [lia|]. split; [lia|done].
Qed.

(** An obstacle apart from [start, end). *)
Definition clear_of (lo hi : Z) (m : MemRegion) : Prop := m_base m + m_size m <= lo \/ hi <= m_base m.

Lemma bump_spec obs e start b s' b' :
  0 <= start -> start mod GRANULE = 0 -> Forall (fun m => 0 <= m_base m /\ 0 <= m_size m) obs ->
  bump obs e start b = Some (s', b') ->
  start <= s' /\ s' mod GRANULE = 0 /\ (b = true -> b' = true) /\
  (b' = false -> s' = start /\ Forall (clear_of start e) obs).
Proof.
  intros Hs Hm Hobs. revert start b Hs Hm. induction Hobs as [|r obs [Hr1 Hr2] Hobs IH]; intros start b Hs Hm E.
  { simpl in E. simplify_eq. split_and!; [lia|done|done|]. intros ->. split; [done|constructor]. }
  simpl in E. destruct (checked_add (m_base r) (m_size r)) as [re|] eqn:Ee; [|done].
  apply checked_add_Some in Ee as [-> _]. simpl in E. destruct (_ && _) eqn:Eh.
  - destruct (align_up (m_base r + m_size r)) as [a|] eqn:Ea; [|done]. simpl in E.
    apply align_up_Some in Ea as [Ha1 Ha2]; [|lia].
    apply IH in E as (I1 & I2 & I3 & I4); [|lia|by destruct (Z.max_spec start a) as [[_ ->]|[_ ->]]].
    specialize (I3 eq_refl). subst b'. split_and!; [lia|done|done|done].
  - apply IH in E as (I1 & I2 & I3 & I4); [|done|done]. split_and!; [done|done|done|].
    intros Hb. destruct (I4 Hb) as [-> Hc]. split; [done|]. constructor; [|done].
    rewrite andb_false_iff, !Z.ltb_ge in Eh. unfold clear_of. tauto.
Qed.

Lemma fits_any_spec start e ms :
  Forall region_ok ms -> exists b, fits_any start e ms = Ok b /\
    (b = true -> Exists (fun m => m_base m <= start /\ e <= m_base m + m_size m) ms).
Proof.
  intros Hms. induction Hms as [|m ms (H1' & H2' & H3') Hms (b & IH & Hb)]; [by exists false|]. simpl.
  destruct (Z.leb_spec (m_base m) start); simpl.
  - rewrite add_p_ok by lia. simpl. destruct (Z.leb_spec e (m_base m + m_size m)).
    + exists true. split; [done|]. intros _. by left.
    + exists b. split; [done|]. intros E. right. auto.
  - exists b. split; [done|]. intros E. right. auto.
Qed.

Lemma next_base_Some start ms b : next_base start ms = Some b -> start < b.
Proof.
  revert b. induction ms as [|m ms IH]; intros b; simpl; [done|].
  destruct (Z.ltb_spec start (m_base m)); [|apply IH]. fold (next_base start ms).
  destruct (next_base start ms) as [b'|]; intros [= <-]; [specialize (IH b' eq_refl)|]; lia.
Qed.

(** What the boot window is: a granule-aligned 2 MiB inside one memory region,
    above [lo] and apart from every obstacle. *)
Record good_window (lo : Z) (obs ms : list MemRegion) (w : Range) : Prop := {
  gw_lo : lo <= start w;
  gw_aligned : start w mod GRANULE = 0;
  gw_size : end_ w = start w + WINDOW_SIZE;
  gw_memory : Exists (fun m => m_base m <= start w /\ end_ w <= m_base m + m_size m) ms;
  gw_clear : Forall (clear_of (start w) (end_ w)) obs
}.

Lemma pick_loop_spec fuel obs ms lo s :
  Forall (fun m => 0 <= m_base m /\ 0 <= m_size m) obs -> Forall region_ok ms ->
  0 <= lo -> lo <= s -> s mod GRANULE = 0 ->
  match pick_loop fuel obs ms s with
  | Ok w => good_window lo obs ms w
  | Err e => e = NoWindow
  | _ => False
  end.
Proof.
  intros Hobs Hms Hlo. revert s. induction fuel as [|fuel IH]; intros s Hs Hm; [done|]. cbn [pick_loop].
  destruct (checked_add s WINDOW_SIZE) as [e|] eqn:Ee; [|done]. apply checked_add_Some in Ee as [-> _]. simpl.
  destruct (bump obs (s + WINDOW_SIZE) s false) as [[s' b]|] eqn:Eb; [|done]. simpl.
  apply bump_spec in Eb as (B1 & B2 & _ & B3); [|lia|done|done].
  destruct b; [apply IH; [lia|done]|]. destruct (B3 eq_refl) as [-> Hc].
  destruct (fits_any_spec s (s + WINDOW_SIZE) ms Hms) as (b & -> & Hb). simpl. destruct b; [by split; auto|].
  destruct (next_base s ms) as [nb|] eqn:En; [|done]. apply next_base_Some in En. simpl.
  destruct (align_up nb) as [a|] eqn:Ea; [|done]. simpl. apply align_up_Some in Ea as [? ?]; [|lia].
  apply IH; [lia|done].
Qed.

Lemma pick_window_spec info image_end :
  Forall region_ok (memory info) -> Forall region_ok (reserved info) ->
  0 <= dtb_start info -> dtb_start info <= dtb_end info -> 0 <= image_end ->
  match pick_window info image_end with
  | Ok w => good_window image_end (mkMem (dtb_start info) (dtb_end info - dtb_start info) :: reserved info) (memory info) w
  | Err e => e = NoWindow
  | _ => False
  end.
Proof.
  intros Hm Hr Hd1 Hd2 Hi. unfold pick_window. rewrite sub_p_ok by done. cbn [rbind].
  destruct (align_up image_end) as [s|] eqn:Es; [|done]. cbn [or_none ok_or rbind]. apply align_up_Some in Es as [? ?]; [|done].
  apply pick_loop_spec; [|done|done|done|done]. constructor; [simpl; lia|].
  eapply list.Forall_impl; [done|]. intros m (? & ? & ?). lia.
Qed.

(** ** Devices *)

Lemma overlaps_any_spec dev ms :
  Forall region_ok ms -> exists hit, overlaps_any dev ms = Ok hit /\
    match hit with
    | Some m => m ∈ ms /\ m_base m < end_ dev /\ start dev < m_base m + m_size m
    | None => Forall (fun m => end_ dev <= m_base m \/ m_base m + m_size m <= start dev) ms
    end.
Proof.
  intros Hms. induction Hms as [|m ms (H1' & H2' & H3') Hms (hit & IH & Hb)]; [by exists None|]. simpl.
  assert (Hrest : end_ dev <= m_base m \/ m_base m + m_size m <= start dev -> exists hit, overlaps_any dev ms = Ok hit /\
    match hit with
    | Some m' => m' ∈ m :: ms /\ m_base m' < end_ dev /\ start dev < m_base m' + m_size m'
    | None => Forall (fun m => end_ dev <= m_base m \/ m_base m + m_size m <= start dev) (m :: ms)
    end).
  { intros Hout. exists hit. split; [done|]. destruct hit as [m'|]; [|by constructor].
    destruct Hb as [? ?]. split; [by right|done]. }
  destruct (Z.ltb_spec (m_base m) (end_ dev)); simpl; [|apply Hrest; lia].
  rewrite add_p_ok by lia. simpl. destruct (Z.ltb_spec (start dev) (m_base m + m_size m)); [|apply Hrest; lia].
  exists (Some m). split; [done|]. split; [by left|lia].
Qed.

(** No memory region reaches into a device window. *)
Definition off_devices (devs : list Range) (ms : list MemRegion) : Prop :=
  Forall (fun dev => start dev < end_ dev ->
    Forall (fun m => end_ dev <= m_base m \/ m_base m + m_size m <= start dev) ms) devs.

Lemma check_devices_spec devs ms :
  Forall region_ok ms ->
  match check_devices devs ms with
  | Ok _ => off_devices devs ms
  | Err e => exists m dev, e = DeviceOverlap m dev /\ m ∈ ms /\ dev ∈ devs /\
      m_base m < end_ dev /\ start dev < m_base m + m_size m
  | _ => False
  end.
Proof.
  intros Hms. induction devs as [|dev devs IH]; [constructor|]. simpl.
  assert (Hrest : (start dev < end_ dev -> Forall (fun m => end_ dev <= m_base m \/ m_base m + m_size m <= start dev) ms) ->
    match check_devices devs ms with
    | Ok _ => off_devices (dev :: devs) ms
    | Err e => exists m d, e = DeviceOverlap m d /\ m ∈ ms /\ d ∈ dev :: devs /\ m_base m < end_ d /\ start d < m_base m + m_size m
    | _ => False
    end).
  { intros Hd. destruct (check_devices devs ms); try done; [by constructor|].
    destruct IH as (m & d & ? & ? & ? & ? & ?). exists m, d. split_and!; try done. by right. }
  destruct (Z.leb_spec (end_ dev) (start dev)); [apply Hrest; lia|].
  destruct (overlaps_any_spec dev ms Hms) as (hit & -> & Hb). simpl. destruct hit as [m|]; [|by apply Hrest].
  destruct Hb as (? & ? & ?). exists m, dev. split_and!; try done. by left.
Qed.

(** ** The bootinfo page *)

Lemma write_descs_out a cs w j :
  j < a \/ a + 24 * Z.of_nat (length cs) <= j -> write_descs a cs w !! j = w !! j.
Proof.
  revert a w. induction cs as [|c cs IH]; intros a w Hj; [done|]. cbn [write_descs length] in *.
  rewrite IH by lia. by rewrite !lookup_insert_ne by lia.
Qed.

(** Reading descriptor [i] of the page back. *)
Lemma write_descs_in a cs w i c :
  cs !! i = Some c ->
  let p := a + 24 * Z.of_nat i in
  let w' := write_descs a cs w in
  w' !! p = Some (bootinfo.kind (cap_desc c)) /\ w' !! (p + 8) = Some (bootinfo.base (cap_desc c)) /\
  w' !! (p + 16) = Some (bootinfo.size (cap_desc c)).
Proof.
  revert a w i. induction cs as [|c0 cs IH]; intros a w i Hi p w'; [done|]. destruct i as [|i]; simpl in Hi.
  - simplify_eq. unfold p, w'. cbn [write_descs]. rewrite Z.mul_0_r, Z.add_0_r, !write_descs_out by lia.
    split_and!; rewrite ?lookup_insert_ne by lia; by rewrite lookup_insert_eq.
  - destruct (IH (a + 24) (<[a + 16 := bootinfo.size (cap_desc c0)]> (<[a + 8 := bootinfo.base (cap_desc c0)]>
      (<[a := bootinfo.kind (cap_desc c0)]> w))) i Hi) as (I1 & I2 & I3).
    unfold p, w'. cbn [write_descs]. replace (a + 24 * Z.of_nat (S i)) with (a + 24 + 24 * Z.of_nat i) by lia. done.
Qed.

Lemma write_bootinfo_spec bi cn w :
  frame_ok bi -> cnode_wf cn ->
  exists w', write_bootinfo bi cn w = Ok w' /\
    forall j, ~ bi <= j < bi + GRANULE -> w' !! j = w !! j.
Proof.
  intros [Hb _] Hw. assert (Hk : KERNEL_VA_OFFSET + 2 ^ 48 = U64) by reflexivity. pose proof granule_bounds.
  unfold write_bootinfo. rewrite add_p_ok by lia. cbn [rbind]. eexists. split; [done|]. intros j Hj.
  rewrite write_descs_out; [by rewrite !lookup_insert_ne by lia|].
  rewrite length_filled by done. destruct Hw as [_ Hu]. unfold CNODE_SLOTS in Hu. lia.
Qed.

(** ** The tasks *)

Definition boot_astate (root_tcb : Z) (t : Tcb) (user_root : Z) : astate :=
  mkA root_tcb [] (fun _ => []) (upd (fun _ => Inactive) root_tcb Running) (fun _ => 0)
    (upd (fun _ => zeroed) root_tcb (ctx t)) (upd (fun _ => 0) root_tcb user_root) user_root.

Lemma boot_tasks_tcb root_tcb entry root p :
  tcb (boot_tasks root_tcb (spawn_tcb entry root) root) p =
    if decide (p = root_tcb) then
      mkTcb (ctx (spawn_tcb entry root)) root Running 0 0
    else zero_tcb.
Proof.
  unfold boot_tasks, handoff, set_current, install_user_ttbr0, set_state, upd_sched, upd_tcb, tcb. simpl.
  destruct (decide (p = root_tcb)) as [->|Hne].
  - by rewrite lookup_insert_eq, lookup_singleton_eq.
  - by rewrite lookup_insert_ne, lookup_singleton_ne by done.
Qed.

Lemma boot_tasks_inv b cn root_tcb entry root :
  b_root_tcb b = root_tcb -> ~ live b cn 0 -> frame_ok root -> Cap.AddrSpace root ∈ filled cn ->
  tasks_inv b cn (boot_tasks root_tcb (spawn_tcb entry root) root)
    (boot_astate root_tcb (spawn_tcb entry root) root).
Proof.
  intros Hb Hl0 Hr Hin. assert (Hlive : live b cn root_tcb) by (left; done).
  set (st := boot_tasks _ _ _). set (a := boot_astate _ _ _).
  assert (Htcb := boot_tasks_tcb root_tcb entry root). fold st in Htcb.
  pose proof (frame_baddr root Hr) as Hba.
  split.
  - split; simpl; try done.
    + by apply queue_nil.
    + intros e. by apply queue_nil.
    + intros p. rewrite Htcb. unfold upd. repeat case_decide; (congruence || done).
    + intros p. rewrite Htcb. by case_decide.
    + intros p. rewrite Htcb. unfold upd. repeat case_decide; (congruence || done).
    + intros p. rewrite Htcb. unfold upd. repeat case_decide; (congruence || done).
    + intros e p Hp. by apply not_elem_of_nil in Hp.
    + intros e1 e2 p Hp. by apply not_elem_of_nil in Hp.
    + intros p. unfold upd. by case_decide.
  - split_and!.
    + split; simpl; try done.
      * intros p. unfold upd. case_decide; split; intros; simplify_eq; done.
      * intros p. unfold upd. case_decide; split; intros Hp; try done; by apply not_elem_of_nil in Hp.
      * constructor.
      * intros p. unfold upd. split; [by case_decide|]. intros [e He]. by apply not_elem_of_nil in He.
      * intros e1 e2 p Hp. by apply not_elem_of_nil in Hp.
      * constructor.
      * intros e p q Hp. by apply not_elem_of_nil in Hp.
      * intros p. unfold upd. by case_decide.
      * intros p. unfold upd. case_decide; [by subst|done].
    + intros h Hh. done.
    + simpl. by rewrite upd_eq.
  - intros p. simpl. unfold upd. case_decide; [|apply zeroed_ok]. simpl.
    destruct zeroed_ok as (? & ? & _). by split_and!.
  - intros p. simpl. unfold upd. by case_decide.
Qed.

(** ** The kernel's address space *)

Lemma kernel_space_window p v n p' :
  kernel_space_inv p -> mapped_range [0; 1] p (root1 p) v n (linear Perm.Rw) p' -> kernel_space_inv p'.
Proof.
  intros (Hp & Hen & Hr1 & Hsafe) (Hi & He & Hr & _ & Ht). split_and!; [done|congruence|congruence|].
  intros root va d Hroot. rewrite Ht by done. case_decide; [|by apply Hsafe].
  intros [= <-]. apply linear_safe.
Qed.

(** ** The state at the handoff *)

(** The memory that user space gets. *)
Definition boot_allowed (info : BootInfo) (rsv : list PhysRegion) (p : Z) : Prop :=
  memory_at (phys <$> memory info) p /\ ~ reserved_at rsv p.

(** The boot frames of the root task: the used part of the window but its tables. *)
Definition boot_board (al dom : Z -> Prop) (fa : FrameAlloc) (root_tcb : Z) : board :=
  mkBoard al dom (fun f => frame_ok f /\ fa_start fa <= f < fa_next fa /\ ~ dom f) root_tcb.

Lemma boot_board_window al dom tag s root_tcb f :
  building dom tag s ->
  b_table (boot_board al dom s.1 root_tcb) f \/ b_frame (boot_board al dom s.1 root_tcb) f ->
  fa_start s.1 <= f /\ f + GRANULE <= fa_end s.1.
Proof.
  intros (Hf & [_ Hfr] & Hw) Hd. pose proof Hf as (F0 & F1 & F2 & F3 & F4). pose proof granule_bounds.
  assert (Hin : f mod GRANULE = 0 /\ fa_start s.1 <= f < fa_next s.1).
  { destruct Hd as [Hd|((_ & ?) & ? & _)]; [|done]. split; [by apply Hfr|by apply Hw]. }
  destruct (Z.lt_ge_cases (fa_next s.1) (f + GRANULE)); [|lia].
  pose proof (multiple_lt GRANULE (fa_next s.1) f). lia.
Qed.

Lemma boot_board_ok al dom tag s root_tcb :
  building dom tag s -> (forall p, al p -> 0 <= p < 2 ^ 48) ->
  (forall p, fa_start s.1 <= p < fa_end s.1 -> ~ al p) ->
  KERNEL_VA_OFFSET <= root_tcb -> ~ al (root_tcb - KERNEL_VA_OFFSET) ->
  board_ok (boot_board al dom s.1 root_tcb).
Proof.
  intros Hbd Hal Hwin Ht1 Ht2. pose proof (boot_board_window al dom tag s root_tcb) as Hgr.
  split; [done| | |done].
  - intros t Ht. split; [by apply Hbd|]. intros p Hp. apply Hwin. destruct (Hgr t Hbd); [by left|lia].
  - intros f Hf. split_and!; [apply Hf|apply Hf|]. intros p Hp. apply Hwin. destruct (Hgr f Hbd); [by right|lia].
Qed.

Lemma boot_spaces al root_tcb dom tag root us (res : list Range) s bi w' cn uts :
  building dom tag s -> is_root dom tag root ->
  (forall r t, r ∈ res -> dom t -> t + GRANULE <= start r \/ end_ r <= t) ->
  (forall r, r ∈ res -> fa_start s.1 <= start r /\ end_ r <= fa_next s.1) ->
  (forall va, utranslate s.2 root va = umap_at us (vpn va)) ->
  Forall u_ok us ->
  (forall u, u ∈ us -> exists r, r ∈ res /\ start r <= u_pa u /\ u_pa u + u_len u <= end_ r) ->
  mkRange bi (bi + GRANULE) ∈ res -> (forall j, ~ bi <= j < bi + GRANULE -> w' !! j = s.2 !! j) ->
  filled cn = fixed_slots root ++ uts -> Forall fresh_untyped uts ->
  spaces_inv (boot_board al dom s.1 root_tcb) cn w' dom tag.
Proof.
  intros (Hf & [Htr Hfr] & Hw) [Hd Hg] Hcl Hres Hm Hus Hin Hbi Hw' Hcn Huts. pose proof granule_bounds.
  assert (Hel : forall c, c ∈ filled cn -> (exists b sz u, c = Cap.Untyped b sz u) \/ c ∈ fixed_slots root).
  { intros c. rewrite Hcn, elem_of_app. intros [Hc|Hc]; [by right|left].
    pose proof (proj1 (list.Forall_forall _ _) Huts c Hc) as Hfu. destruct c; simpl in Hfu; naive_solver. }
  assert (Hno : forall c, c ∈ filled cn ->
    c = Cap.Empty \/ c = Cap.RootTcb \/ c = Cap.AddrSpace root \/ c = Cap.Console \/ exists b sz u, c = Cap.Untyped b sz u).
  { intros c [?|Hc]%Hel; [tauto|]. unfold fixed_slots in Hc. rewrite !elem_of_cons in Hc.
    destruct Hc as [?|[?|[?|[?|[]%not_elem_of_nil]]]]; tauto. }
  assert (Hag : forall t i, dom t -> umem w' t i = umem s.2 t i).
  { intros t i Ht. apply umem_agree. intros j Hj. apply Hw'. intros Hb.
    destruct (Hcl _ t Hbi Ht) as [Hl|Hl]; simpl in Hl; lia. }
  split; simpl.
  - split; [by apply (tree_agree _ _ _ _ _ _ Htr)|done].
  - intros t. split; [by left|]. intros [?|Hc]; [done|].
    apply Hno in Hc as [?|[?|[?|[?|(? & ? & ? & ?)]]]]; done.
  - intros r Hc. apply Hno in Hc as [?|[?|[Heq|[?|(? & ? & ? & ?)]]]]; try done. injection Heq as ->. done.
  - intros t i Hc. apply Hno in Hc as [?|[?|[?|[?|(? & ? & ? & ?)]]]]; done.
  - intros r va d Hc Hd'. apply Hno in Hc as [?|[?|[Heq|[?|(? & ? & ? & ?)]]]]; try done. injection Heq as ->.
    unfold utranslate in Hd'. rewrite (leaf_agree user_child 3 dom tag (umem s.2)) in Hd'; [|done|done|done|by rewrite Hg].
    change (utranslate s.2 root va = Some d) in Hd'. rewrite Hm in Hd'.
    destruct (umap_frame us _ _ Hus Hd') as (u & f & Hu & -> & Hfo & Hf1 & Hf2).
    split; [by apply user_desc_safe|]. left. simpl. rewrite user_desc_addr by done.
    destruct (Hin u Hu) as (rg & Hrg & R1 & R2). destruct (Hres rg Hrg) as [R3 R4].
    split_and!; [done|lia|lia|]. intros Hdf. destruct (Hcl rg f Hrg Hdf); lia.
Qed.

(** What the earlier phases guarantee: the limits of the device-tree parser
    ([Fdt.info_ok]), a kernel image that holds the root TCB, and the kernel's
    address space ([enable_paging]). *)
Record boot_pre (info : BootInfo) (image : Range) (rt : VerifiedRootTask) (root_tcb : Z) (p0 : Pool) : Prop := {
  bp_memory : Forall region_ok (memory info);
  bp_reserved : Forall region_ok (reserved info);
  bp_dtb : 0 <= dtb_start info /\ dtb_start info < dtb_end info /\ dtb_end info < U64;
  bp_image : 0 <= start image /\ start image < end_ image /\ end_ image < U64;
  bp_tcb : start image + KERNEL_VA_OFFSET <= root_tcb < end_ image + KERNEL_VA_OFFSET;
  bp_pool : kernel_space_inv p0;
  bp_task : 0 <= rt_base rt /\ Forall (fun s => 0 <= s_va s /\ 0 <= s_memsz s) (rt_segments rt)
}.

(** All RAM that the device tree declares lies in the 48-bit range that has an
    alias at [KERNEL_VA_OFFSET].  No phase of the kernel checks this: the known
    gap of design/dtb.md (advisory GHSA-hj3f-38h9-hrpj), so it is a hypothesis
    of its own wherever it is needed. *)
Definition ram_addressable (info : BootInfo) : Prop := Forall (fun m => m_base m + m_size m < 2 ^ 48) (memory info).

(** The boot window ends above the 48-bit range. *)
Definition high_window (info : BootInfo) (image : Range) : Prop :=
  exists win, pick_window info (end_ image) = Ok win /\ 2 ^ 48 <= end_ win.

Lemma run_post {S E A} f (m : M S E A) s (P : A * S -> Prop) :
  (forall r s', m s = (r, s') -> match r with Ok a => P (a, s') | Err _ => True | _ => False end) ->
  post (run f m s) P.
Proof. intros Hm. unfold run. destruct (m s) as [r s'] eqn:Em. specialize (Hm r s' eq_refl). by destruct r. Qed.

Lemma map_err_post {E F A} (f : E -> F) (r : res E A) P : post r P -> post (map_err f r) P.
Proof. by destruct r. Qed.

Lemma phys_u64 ms : Forall region_ok ms -> Forall u64_region (phys <$> ms).
Proof.
  intros Hms. apply Forall_fmap. eapply list.Forall_impl; [done|]. intros m (? & ? & ?). split; split; simpl; lia.
Qed.

Lemma bootstrap_post mem rsv root :
  Forall u64_region mem -> Forall u64_region rsv ->
  post (bootstrap mem rsv root) (fun cn => populate mem rsv root empty_cnode = (Ok tt, cn)).
Proof.
  intros Hm Hr. destruct (populate_total mem rsv root Hm Hr) as (r & cn & E & [Hp Ho] & _).
  unfold bootstrap. rewrite E. destruct r as [[]|e| |]; by simpl.
Qed.

Lemma window_map_post win p0 lo obs ms :
  kernel_space_inv p0 -> good_window lo obs ms win -> 0 <= lo -> end_ win <= 2 ^ 48 ->
  post (run WindowMap (map_kernel_window win) p0) (fun x => kernel_space_inv x.2).
Proof.
  intros Hp Hw Hlo He. apply run_post. intros r p' E. pose proof Hp as (Hi & Hen & Hr1 & _).
  assert (Hin : root1 p0 ∈ [0; 1]) by (rewrite Hr1; set_solver).
  destruct (map_kernel_window_spec [0; 1] p0 win Hi Hin) as (r' & p1 & E' & Hr); [pose proof (gw_lo _ _ _ _ Hw); lia|done|].
  rewrite E in E'. simplify_eq. destruct r' as [[]|e| |]; try done.
  destruct Hr as (_ & _ & Hm). simpl. by eapply kernel_space_window.
Qed.

Lemma fa_new_window lo obs ms win :
  good_window lo obs ms win -> fa_new win = Ok (mkFA (start win) (start win) (end_ win)) /\ end_ win mod GRANULE = 0.
Proof.
  intros [_ Ha Hs _ _]. pose proof granule_bounds.
  assert (Hw : WINDOW_SIZE mod GRANULE = 0 /\ 0 < WINDOW_SIZE) by (unfold GRANULE; by destruct plat).
  assert (He : end_ win mod GRANULE = 0) by (rewrite Hs, Z.add_mod, Ha, (proj1 Hw), Z.add_0_l, Z.mod_0_l; lia).
  split; [|done]. unfold fa_new. rewrite Ha, He, (proj2 (Z.leb_gt _ _)) by lia. done.
Qed.

(** The regions kept from user space. *)
Definition boot_rsv (info : BootInfo) (image win : Range) : list PhysRegion :=
  [mkRegion (start image) (end_ image - start image); mkRegion (dtb_start info) (dtb_end info - dtb_start info);
   mkRegion (start win) (end_ win - start win)] ++ (phys <$> reserved info).

Lemma boot_reserved_ok info image win :
  start image <= end_ image -> dtb_start info <= dtb_end info -> start win <= end_ win ->
  boot_reserved info image win = Ok (boot_rsv info image win).
Proof. intros. unfold boot_reserved. by rewrite !sub_p_ok by done. Qed.

Lemma boot_rsv_spec info image win p :
  reserved_at (boot_rsv info image win) p <->
  start image <= p < end_ image \/ dtb_start info <= p < dtb_end info \/ start win <= p < end_ win \/
  Exists (fun m => m_base m <= p < m_base m + m_size m) (reserved info).
Proof.
  unfold reserved_at, boot_rsv. cbn [app]. rewrite !Exists_cons, Exists_fmap. unfold in_region at 1 2 3. simpl.
  rewrite !Zplus_minus. done.
Qed.

(** The board that the sequence sets up: the window and the memory given out. *)
Record laid_out (info : BootInfo) (image : Range) (root_tcb : Z) (win : Range) (b : board) : Prop := {
  lo_window : good_window (end_ image) (mkMem (dtb_start info) (dtb_end info - dtb_start info) :: reserved info)
                (memory info) win;
  lo_devices : off_devices device_windows (memory info);
  lo_board : board_ok b;
  lo_tcb : b_root_tcb b = root_tcb;
  lo_allowed : forall p, b_allowed b p <-> boot_allowed info (boot_rsv info image win) p;
  lo_frames : forall f, b_table b f \/ b_frame b f -> start win <= f /\ f + GRANULE <= end_ win
}.

(** The state that the sequence hands over. *)
Definition booted (info : BootInfo) (image : Range) (root_tcb : Z) (k : kstate) : Prop :=
  exists win b, laid_out info image root_tcb win b /\ kinv b k /\ current (sched (k_tasks k)) = root_tcb.

(** What the root task can reach: its segments, its stack and the bootinfo page. *)
Definition root_space (rt : VerifiedRootTask) (k : kstate) : Prop := exists frames stack bi,
  let us := spawn_maps (rt_base rt) frames stack bi (rt_segments rt) in
  let len := Z.of_nat (length (rt_image rt)) in
  (forall va, utranslate (k_words k) (ttbr0 (k_tasks k)) va = umap_at us (vpn va)) /\
  apart us /\ Forall u_ok us /\ Forall (seg_ok (rt_base rt) (rt_base rt + len) (rt_entry rt)) (rt_segments rt) /\
  rt_base rt mod GRANULE = 0 /\ len mod GRANULE = 0.

(** A write to the frames handed out leaves the translations alone. *)
Lemma progress_write root us res s r w' :
  progress root us res s -> r ∈ res -> (forall j, ~ start r <= j < end_ r -> w' !! j = s.2 !! j) ->
  forall va, utranslate w' root va = umap_at us (vpn va).
Proof.
  intros [(dom & tag & (_ & [Htr _] & _) & [Hd Hg] & Hcl) _ Hm _] Hr Hw va. rewrite <- Hm. unfold utranslate.
  apply (leaf_agree user_child 3 dom tag (umem s.2)); [done| |done|by rewrite Hg].
  intros t i Ht. apply umem_agree. intros j Hj. apply Hw. destruct (Hcl _ t Hr Ht); lia.
Qed.

Lemma boot_final info image rt root_tcb p0 win p1 fa1 w1 bi t root frames stack s' :
  boot_pre info image rt root_tcb p0 -> off_devices device_windows (memory info) ->
  good_window (end_ image) (mkMem (dtb_start info) (dtb_end info - dtb_start info) :: reserved info) (memory info) win ->
  kernel_space_inv p1 -> fa_start fa1 = start win -> fa_end fa1 = end_ win -> fa_start fa1 <= bi ->
  frame_ok bi ->
  spawned (rt_image rt) (rt_base rt) (rt_entry rt) (rt_segments rt) bi (fa1, w1) t root frames stack s' ->
  post (let? rsv := boot_reserved info image win in
        let? cn := map_err CapFailed (bootstrap (phys <$> memory info) rsv root) in
        let? w := write_bootinfo bi cn s'.2 in
        Ok (mkK cn (boot_tasks root_tcb t root) p1 w []))
    (fun k => (root_space rt k /\ kernel_space_inv (k_pool k)) /\ (ram_addressable info -> booted info image root_tcb k)).
Proof.
  intros Hpre Hdev Hwin Hp1 Hfs Hfe Hbi Hbf Hsp.
  destruct Hpre as [Hm Hrsv (D0 & D1 & D2) (I0 & I1 & I2) Htcb Hpool (Hb0 & Hsegs)].
  pose proof (gw_lo _ _ _ _ Hwin) as Hlo. pose proof (gw_size _ _ _ _ Hwin) as Hsz.
  assert (Hws : 0 < WINDOW_SIZE) by done.
  rewrite boot_reserved_ok by lia. cbn [rbind].
  assert (Hu : Forall u64_region (boot_rsv info image win)).
  { assert (end_ win < U64).
    { destruct (proj1 (list.Exists_exists _ _) (gw_memory _ _ _ _ Hwin)) as (m & Hin & _ & He).
      pose proof (proj1 (list.Forall_forall _ _) Hm m Hin) as (? & ? & ?). lia. }
    apply Forall_app. split; [repeat constructor; simpl; lia|by apply phys_u64]. }
  eapply post_bind; [apply map_err_post, bootstrap_post; [by apply phys_u64|done]|]. intros cn Hpop.
  pose proof (populate_inv GRANULE _ _ _ _ (phys_u64 _ Hm) Hu Hpop) as Hci.
  destruct (populate_ok _ _ _ _ (phys_u64 _ Hm) Hu Hpop) as (Hcw & uts & Hcf & Huts & _).
  destruct (write_bootinfo_spec bi cn s'.2 Hbf Hcw) as (w' & -> & Hw'). cbn [rbind post].
  pose proof (sp_progress _ _ _ _ _ _ _ _ _ _ _ Hsp) as Hpg. pose proof Hpg as [(dom & tag & Hbd & Hroot & Hcl) Hres Hmaps Hap].
  destruct (sp_window _ _ _ _ _ _ _ _ _ _ _ Hsp) as (W1 & W2 & W3). cbn [fst] in *.
  assert (H0s : 0 <= fa_start fa1) by lia.
  destruct (spawn_maps_ok _ _ _ _ _ _ _ _ _ _ _ Hsp Hbi H0s (proj2 Hbf)) as [Hok Hprov].
  split; [split; [|done]; exists frames, stack, bi; destruct (sp_segs _ _ _ _ _ _ _ _ _ _ _ Hsp) as (? & _ & ? & ?);
          split_and!; try done; eapply progress_write; [exact Hpg|by right; right; left|exact Hw']|intros Hm48].
  set (al := boot_allowed info (boot_rsv info image win)).
  assert (Hrs : forall p, al p -> ~ (start image <= p < end_ image) /\ ~ (start win <= p < end_ win)).
  { intros p [_ Hnr]. rewrite boot_rsv_spec in Hnr. tauto. }
  exists win, (boot_board al dom s'.1 root_tcb).
  assert (Hbo : board_ok (boot_board al dom s'.1 root_tcb)).
  { eapply boot_board_ok; [done| | | |].
    - intros p [Hmem _]. unfold memory_at in Hmem. apply list.Exists_exists in Hmem as (pr & Hin & Hr).
      apply list_elem_of_fmap in Hin as (m & -> & Hin).
      pose proof (proj1 (list.Forall_forall _ _) Hm m Hin) as (? & _). pose proof (proj1 (list.Forall_forall _ _) Hm48 m Hin) as Hm'.
      unfold in_region in Hr. simpl in *. lia.
    - intros p Hp Ha. destruct (Hrs p Ha) as [_ Hn]. apply Hn. lia.
    - lia.
    - intros Ha. destruct (Hrs _ Ha) as [Hn _]. apply Hn. lia. }
  assert (Hin : Cap.AddrSpace root ∈ filled cn) by (rewrite Hcf; apply elem_of_app; left; by right; right; left).
  split; [split; try done|split; [split_and!; [done| |done|]|done]].
  - intros f Hf. apply (boot_board_window al dom tag s' root_tcb f Hbd) in Hf. lia.
  - exists (boot_astate root_tcb (spawn_tcb (rt_entry rt) root) root). cbn [k_tasks k_cnode].
    rewrite (sp_tcb _ _ _ _ _ _ _ _ _ _ _ Hsp). apply boot_tasks_inv; [done|by apply not_live_0| |done].
    destruct Hroot as [Hd _]. destruct Hbd as (_ & [_ Hfr] & _). by apply Hfr.
  - exists dom, tag. cbn [k_words k_cnode]. eapply boot_spaces; try done. by right; right; left.
Qed.

Lemma boot_spec info image rt root_tcb p0 w0 :
  boot_pre info image rt root_tcb p0 -> ~ high_window info image ->
  match boot info image rt root_tcb p0 w0 with
  | Ok k => (root_space rt k /\ kernel_space_inv (k_pool k)) /\ (ram_addressable info -> booted info image root_tcb k)
  | Err _ => True
  | _ => False
  end.
Proof.
  intros Hpre Hlow. pose proof Hpre as [Hm Hrsv (D0 & D1 & D2) (I0 & I1 & I2) _ Hpool (Hb0 & Hsegs)].
  change (post (boot info image rt root_tcb p0 w0)
    (fun k => (root_space rt k /\ kernel_space_inv (k_pool k)) /\ (ram_addressable info -> booted info image root_tcb k))). unfold boot.
  pose proof (check_devices_spec device_windows (memory info) Hm) as Hdev. unfold check_memory_map.
  destruct (check_devices device_windows (memory info)) as [[]|e| |]; try done. cbn [rbind].
  assert (D1' : dtb_start info <= dtb_end info) by lia. assert (I2' : 0 <= end_ image) by lia.
  pose proof (pick_window_spec info (end_ image) Hm Hrsv D0 D1' I2') as Hwin.
  destruct (pick_window info (end_ image)) as [win|e| |] eqn:Epw; try done. cbn [rbind].
  assert (Hw48 : end_ win < 2 ^ 48).
  { destruct (Z.lt_ge_cases (end_ win) (2 ^ 48)); [done|]. destruct Hlow. by exists win. }
  pose proof (gw_lo _ _ _ _ Hwin) as Hlo. pose proof (gw_aligned _ _ _ _ Hwin) as Hal. pose proof granule_bounds as Hg.
  eapply post_bind; [eapply window_map_post; [done|done|lia|lia]|]. intros [u p1] Hp1. cbn [snd] in Hp1 |- *.
  destruct (fa_new_window _ _ _ _ Hwin) as [-> Hend]. cbn [map_err rbind].
  set (fa0 := mkFA (start win) (start win) (end_ win)).
  assert (Hwf : fa_wf fa0).
  { split_and!; simpl; try done; try lia. pose proof (gw_size _ _ _ _ Hwin). unfold WINDOW_SIZE in *. lia. }
  unfold run at 1. rewrite fa_alloc_ok by done. case_decide as Hfit; [|done]. cbn [map_err rbind fst snd].
  rewrite Z.mul_1_l. set (fa1 := mkFA _ _ _). set (w1 := zero_range _ _ _).
  destruct (4 <? _); [done|].
  assert (Hwf1 : fa_wf fa1) by (pose proof (fa_alloc_wf fa0 1 Hwf) as Hx; rewrite Z.mul_1_l in Hx; apply Hx; lia).
  eapply post_bind.
  { apply (run_post _ _ _ (fun x => exists frames stack, spawned (rt_image rt) (rt_base rt) (rt_entry rt)
      (rt_segments rt) (start win) (fa1, w1) x.1.1 x.1.2 frames stack x.2)).
    intros r s' E. apply (spawn_root_spec _ _ _ _ _ fa1 w1 r s') in E; try done; simpl; try lia.
    by destruct r as [[t root]|e| |]. }
  intros [[t root] s'] (frames & stack & Hsp). cbn [fst snd] in *.
  assert (Hbf : frame_ok (start win)) by (split; [simpl in Hfit; lia|done]).
  apply (boot_final info image rt root_tcb p0 win p1 fa1 w1 (start win) t root frames stack s'); (done || (simpl; lia)).
Qed.

#[global] Instance high_window_dec info image : Decision (high_window info image).
Proof.
  unfold high_window. destruct (pick_window info (end_ image)) as [win|e| |].
  - destruct (decide (2 ^ 48 <= end_ win)); [left; by exists win|right; intros (w & [= ->] & ?); done].
  - right. by intros (w & ? & _).
  - right. by intros (w & ? & _).
  - right. by intros (w & ? & _).
Defined.

(** The window lies in a memory region. *)
Lemma addressable_low info image rt root_tcb p0 :
  boot_pre info image rt root_tcb p0 -> ram_addressable info -> ~ high_window info image.
Proof.
  intros [Hm Hrsv (D0 & D1 & D2) (I0 & I1 & I2) _ _ _] H48 (win & E & Hw).
  assert (D1' : dtb_start info <= dtb_end info) by lia. assert (I2' : 0 <= end_ image) by lia.
  pose proof (pick_window_spec info (end_ image) Hm Hrsv D0 D1' I2') as Hwin. rewrite E in Hwin.
  destruct (proj1 (list.Exists_exists _ _) (gw_memory _ _ _ _ Hwin)) as (m & Hin & _ & He).
  assert (m_base m + m_size m < 2 ^ 48) by exact (proj1 (list.Forall_forall _ _) H48 m Hin). lia.
Qed.

Lemma boot_addressable info image rt root_tcb p0 w0 :
  boot_pre info image rt root_tcb p0 -> ram_addressable info ->
  match boot info image rt root_tcb p0 w0 with
  | Ok k => booted info image root_tcb k /\ root_space rt k
  | Err _ => True
  | _ => False
  end.
Proof.
  intros Hpre H48. pose proof (boot_spec info image rt root_tcb p0 w0 Hpre (addressable_low _ _ _ _ _ Hpre H48)) as Hb.
  destruct boot; [|exact Hb..]. split; [by apply Hb|apply Hb].
Qed.

(** A window that starts above the 48-bit range has no alias. *)
Lemma high_window_panics p win :
  enabled p = true -> start win < end_ win -> start win mod GRANULE = 0 -> end_ win mod GRANULE = 0 ->
  2 ^ 48 <= start win < U64 -> map_kernel_window win p = (Panic, p).
Proof.
  intros Hen Hlt Hs He Hh. unfold map_kernel_window. rewrite Hs, He, (proj2 (Z.leb_gt _ _)) by lia. cbn [orb negb Z.eqb].
  unfold bind, getS, lift. rewrite Hen. cbn [negb]. unfold add_p.
  assert (Hk : KERNEL_VA_OFFSET + 2 ^ 48 = U64) by reflexivity.
  rewrite (proj2 (Z.ltb_ge _ _)) by lia. done.
Qed.

(** The console messages of the boot sequence are not part of the state. *)
Lemma boot_console info image rt root_tcb p0 w0 k :
  boot info image rt root_tcb p0 w0 = Ok k -> k_con k = [].
Proof.
  unfold boot. intros E. repeat (apply rbind_Ok in E as (? & _ & E); cbv beta in E).
  destruct (4 <? _); [done|]. repeat (apply rbind_Ok in E as (? & _ & E); cbv beta in E). by injection E as <-.
Qed.

(** ** Theorems *)

(** C10: the boot sequence ends in a good state.  From a device tree within the
    parser's limits and the kernel's address space, with arbitrary RAM contents,
    it parks with an error, hands over, or panics; it panics only if the boot
    window lies above the 48-bit range, which no phase checks.  When all declared
    RAM is in that range, the state handed over satisfies the system invariant,
    with exactly the memory that the device tree describes, minus kernel image,
    device tree, boot window and firmware regions, given out as untyped memory
    and no device window in it, and the root task reaches its segments, its stack
    and the bootinfo page and nothing else. *)
Theorem boot_good info image rt root_tcb p0 w0 :
  boot_pre info image rt root_tcb p0 ->
  match boot info image rt root_tcb p0 w0 with
  | Ok k => ram_addressable info -> booted info image root_tcb k /\ root_space rt k
  | Err _ => True
  | _ => high_window info image
  end.
Proof.
  intros Hpre. destruct (decide (high_window info image)) as [Hh|Hl].
  - pose proof (addressable_low info image rt root_tcb p0 Hpre). destruct boot; [tauto|done..].
  - pose proof (boot_spec info image rt root_tcb p0 w0 Hpre Hl). destruct boot; [tauto|done|contradiction..].
Qed.

(** the boot window is safe.  Whatever the device tree claims, a chosen
    window is 2 MiB of granule-aligned memory inside a single memory region, above
    the kernel image, and apart from the device tree and every reserved region;
    the search stops after at most 64 rounds and never panics, and its only
    failure is that there is no window. *)
Lemma pick_window_safe info image_end :
  Forall region_ok (memory info) -> Forall region_ok (reserved info) ->
  0 <= dtb_start info -> dtb_start info <= dtb_end info -> 0 <= image_end ->
  match pick_window info image_end with
  | Ok w =>
      image_end <= start w /\ start w mod GRANULE = 0 /\ end_ w = start w + 2 * 1024 * 1024 /\
      (exists m, m ∈ memory info /\ m_base m <= start w /\ end_ w <= m_base m + m_size m) /\
      (dtb_end info <= start w \/ end_ w <= dtb_start info) /\
      forall r, r ∈ reserved info -> m_base r + m_size r <= start w \/ end_ w <= m_base r
  | Err e => e = NoWindow
  | _ => False
  end.
Proof.
  intros Hm Hr Hd1 Hd2 Hi. pose proof (pick_window_spec info image_end Hm Hr Hd1 Hd2 Hi) as Hp.
  destruct (pick_window info image_end) as [w|e| |]; try done. destruct Hp as [G1 G2 G3 G4 G5].
  apply list.Forall_cons in G5 as [G5 G6]. split_and!; [done|done|done| | |].
  - by apply list.Exists_exists in G4.
  - unfold clear_of in G5. simpl in G5. lia.
  - intros r Hin. exact (proj1 (list.Forall_forall _ _) G6 r Hin).
Qed.

(** The bootinfo page tells the root task its capabilities: the header holds
    the version, the granule size and the number of capabilities; descriptor [i]
    has the kind of slot [i], with base and size for untyped memory only and zero
    for everything else, so no kernel address leaks; and nothing outside the
    frame is written. *)
Lemma bootinfo_exact bi cn w :
  frame_ok bi -> cnode_wf cn ->
  exists w', write_bootinfo bi cn w = Ok w' /\
    w' !! bi = Some bootinfo.VERSION /\ w' !! (bi + 8) = Some GRANULE /\ w' !! (bi + 16) = Some (Cap.used cn) /\
    (forall i c, filled cn !! i = Some c ->
       let p := bi + 24 + 24 * Z.of_nat i in
       p + 24 <= bi + GRANULE /\
       w' !! p = Some (bootinfo.kind (cap_desc c)) /\
       w' !! (p + 8) = Some (match c with Cap.Untyped b _ _ => b | _ => 0 end) /\
       w' !! (p + 16) = Some (match c with Cap.Untyped _ s _ => s | _ => 0 end)) /\
    forall j, ~ bi <= j < bi + GRANULE -> w' !! j = w !! j.
Proof.
  intros Hb Hw. destruct (write_bootinfo_spec bi cn w Hb Hw) as (w' & E & Hout). exists w'. split; [done|].
  pose proof (length_filled cn Hw) as Hlen. pose proof granule_bounds. pose proof Hw as [_ Hu]. unfold CNODE_SLOTS in Hu.
  unfold write_bootinfo in E. assert (Hk : KERNEL_VA_OFFSET + 2 ^ 48 = U64) by reflexivity. destruct Hb as [Hb _].
  rewrite add_p_ok in E by lia. cbn [rbind] in E. injection E as <-. split_and!; [| | | |done].
  - rewrite write_descs_out by lia. rewrite !lookup_insert_ne by lia. by rewrite lookup_insert_eq.
  - rewrite write_descs_out by lia. rewrite !lookup_insert_ne by lia. by rewrite lookup_insert_eq.
  - rewrite write_descs_out by lia. rewrite lookup_insert_eq. simpl. f_equal. lia.
  - intros i c Hi p. pose proof (lookup_lt_Some _ _ _ Hi). split; [unfold p; lia|].
    match goal with |- context [write_descs ?a ?cs ?w] => destruct (write_descs_in a cs w i c Hi) as (I1 & I2 & I3) end.
    unfold p. rewrite I1, I2, I3. by destruct c.
Qed.
End theory.

(** ** An instance: the board of the device-tree example *)

Module BootEx.
Import PagingEx.

Definition image : Range := mkRange 0x40080000 0x40280000.
Definition root_tcb : Z := 0xFFFF000040210000.
Definition rt : VerifiedRootTask := mkRT SpawnEx.image 0x400000 0x400010 SpawnEx.segs.

Lemma pool_safe : kernel_space_inv pool.
Proof.
  destruct pool_ok as (P1 & P2 & P3). split_and!; [done..|].
  destruct (enable_paging_ok 0 layout _ _ _ _ layout_ok run_eq) as (_ & Hex & _).
  intros root va d Hr Hd. rewrite (Hex root va Hr) in Hd.
  destruct (seg_at _ _); [|done]. injection Hd as <-. apply linear_safe.
Qed.

Lemma pre : boot_pre ex_info image rt root_tcb pool.
Proof.
  split; [repeat constructor; simpl; lia|repeat constructor; simpl; lia|simpl; lia|simpl; lia|
    vm_compute; split; [discriminate|reflexivity]|exact pool_safe|].
  split; [simpl; lia|]. repeat constructor; simpl; lia.
Qed.

Lemma low : ram_addressable ex_info.
Proof. repeat constructor; simpl; lia. Qed.

#[local] Abbreviation out := (boot ex_info image rt root_tcb pool ∅).

Lemma out_ok : match out with Ok k => filled (k_cnode k) !! 4%nat = Some (Cap.Untyped 0x40001000 0x7F000 0) | _ => False end.
Proof. vm_compute. reflexivity. Qed.

Lemma boot_good_witness : exists k, out = Ok k /\ booted ex_info image root_tcb k /\ root_space rt k.
Proof.
  pose proof out_ok as Ho. pose proof (boot_good ex_info image rt root_tcb pool ∅ pre) as Hb.
  destruct out as [k|e| |]; [|contradiction..]. exists k. split; [reflexivity|exact (Hb low)].
Defined.

Lemma pick_window_safe_witness :
  pick_window ex_info 0x40280000 = Ok (mkRange 0x40280000 0x40480000) /\ 0x40280000 mod GRANULE = 0.
Proof.
  assert (E : pick_window ex_info 0x40280000 = Ok (mkRange 0x40280000 0x40480000)) by (vm_compute; reflexivity).
  split; [exact E|].
  pose proof (pick_window_safe ex_info 0x40280000 (bp_memory _ _ _ _ _ pre) (bp_reserved _ _ _ _ _ pre)) as Hp.
  rewrite E in Hp. destruct Hp as (_ & Ha & _); [simpl; lia|simpl; lia|lia|exact Ha].
Defined.

Lemma bootinfo_exact_witness : exists w', write_bootinfo 0x40280000 ex_cnode ∅ = Ok w' /\ w' !! 0x40280000 = Some 1.
Proof.
  destruct (bootinfo_exact 0x40280000 ex_cnode ∅) as (w' & E & Hv & _).
  - split; [lia|vm_compute; reflexivity].
  - exact (ci_wf _ _ _ ex_caps_inv).
  - exists w'. split; [exact E|exact Hv].
Defined.
End BootEx.
