(* ===== verification/Image.v ===== *)
(** * The root-task image

    crates/k0-boot/build.rs, the host-side conversion of the root-task ELF into
    the flat image and segment table that the kernel embeds; src/roottask.rs
    [verify_root_task], the integrity check at boot; src/entropy.rs
    [derive_pac_keys].  SHA-256 comes from the sha2 crate; the code uses it through
    the interface [Hash], relies on [HashOk], and Sha256.v shows that the crate
    provides both.  A failed [assert!] of the build script is an [Err] that names
    it; [Panic] is left for what no assertion covers: an overflow, an index out of
    range.  [build] maps the bytes of the ELF to the constants of the generated Rust
    file; running cargo, reading the ELF and printing that file are in Scripts.v. *)

From Stdlib Require Import String Sorting.Sorted Sorting.Permutation.
From S2P Require Import Prelude Abi Task Radix Paging User Build Fdt Spawn Boot.

#[local] Close Scope string_scope.
#[local] Open Scope Z_scope.

(** ** The ELF file *)

Definition SEG_ALIGN : Z := 16 * 1024.
Definition MAX_FLAT_SIZE : Z := 1024 * 1024.

Definition ABC_DIGEST : list Z :=
  [0xba; 0x78; 0x16; 0xbf; 0x8f; 0x01; 0xcf; 0xea; 0x41; 0x41; 0x40; 0xde; 0x5d; 0xae; 0x22;
   0x23; 0xb0; 0x03; 0x61; 0xa3; 0x96; 0x17; 0x7a; 0x9c; 0xb4; 0x10; 0xff; 0x61; 0xf2; 0x00;
   0x15; 0xad].
Definition EMPTY_DIGEST : list Z :=
  [0xe3; 0xb0; 0xc4; 0x42; 0x98; 0xfc; 0x1c; 0x14; 0x9a; 0xfb; 0xf4; 0xc8; 0x99; 0x6f; 0xb9;
   0x24; 0x27; 0xae; 0x41; 0xe4; 0x64; 0x9b; 0x93; 0x4c; 0xa4; 0x95; 0x99; 0x1b; 0x78; 0x52;
   0xb8; 0x55].

Record ElfSeg := mkElf { vaddr : Z; offset : Z; filesz : Z; memsz : Z; flags : Z }.

(** The assertions of the build script. *)
Module Violation.
Inductive t :=
| Sha2Broken | HeaderCut | BadMagic | NotElf64 | NotLittleEndian | NotAArch64 | NotExec | BadPhentsize
| PhdrsCut | FileszOverMemsz | DataCut | AddrOverflow | NoSegment | TooManySegments | BaseMisaligned
| SegMisaligned | Overlap | WritableExecutable | EntryOutside | TooBig | CargoFailed.
End Violation.

Abbreviation R := (res Violation.t).

Definition require (b : bool) (v : Violation.t) : R unit := if b then Ok tt else Err v.

(** [from_le_bytes(b[off..off + n])]. *)
Definition le (n : Z) (b : list Z) (off : Z) : R Z :=
  let? e := add_p off n in
  match get_range b off e with Some s => Ok (le_word s) | None => Panic end.

Definition le16 := le 2.
Definition le32 := le 4.
Definition le64 := le 8.

(** [b[i]]. *)
Definition byte_at (b : list Z) (i : Z) : R Z := match get b i with Some v => Ok v | None => Panic end.

Definition parse_phdr (elf : list Z) (p : Z) : R ElfSeg :=
  let? o := add_p p 4 in let? flags := le32 elf o in
  let? o := add_p p 8 in let? offset := le64 elf o in
  let? o := add_p p 16 in let? vaddr := le64 elf o in
  let? o := add_p p 32 in let? filesz := le64 elf o in
  let? o := add_p p 40 in let? memsz := le64 elf o in
  let? _ := require (filesz <=? memsz) Violation.FileszOverMemsz in
  let? _ := require (match checked_add offset filesz with Some e => e <=? Z.of_nat (length elf) | None => false end)
              Violation.DataCut in
  let? _ := require (bool_decide (is_Some (checked_add vaddr memsz))) Violation.AddrOverflow in
  Ok (mkElf vaddr offset filesz memsz flags).

(** The loop over the [n] program headers from the [i]-th on. *)
Fixpoint parse_phdrs (n : nat) (elf : list Z) (phoff phentsize i : Z) (segs : list ElfSeg) : R (list ElfSeg) :=
  match n with
  | O => Ok segs
  | S n' =>
    let? d := mul_p i phentsize in
    let? p := add_p phoff d in
    let? ty := le32 elf p in
    if negb (ty =? 1) then parse_phdrs n' elf phoff phentsize (i + 1) segs else
    let? seg := parse_phdr elf p in
    parse_phdrs n' elf phoff phentsize (i + 1) (if 0 <? memsz seg then segs ++ [seg] else segs)
  end.

(** [sort_by_key(|s| s.vaddr)]: a stable sort. *)
Fixpoint insert_seg (s : ElfSeg) (l : list ElfSeg) : list ElfSeg :=
  match l with
  | [] => [s]
  | h :: l' => if vaddr s <=? vaddr h then s :: h :: l' else h :: insert_seg s l'
  end.
Definition sort_segs (l : list ElfSeg) : list ElfSeg := foldr insert_seg [] l.

Definition parse_elf (elf : list Z) : R (Z * list ElfSeg) :=
  let? _ := require (64 <=? Z.of_nat (length elf)) Violation.HeaderCut in
  let? magic := match get_range elf 0 4 with Some m => Ok m | None => Panic end in
  let? _ := require (bool_decide (magic = 0x7f :: lit "ELF")) Violation.BadMagic in
  let? class := byte_at elf 4 in
  let? _ := require (class =? 2) Violation.NotElf64 in
  let? data := byte_at elf 5 in
  let? _ := require (data =? 1) Violation.NotLittleEndian in
  let? machine := le16 elf 18 in
  let? _ := require (machine =? 183) Violation.NotAArch64 in
  let? ty := le16 elf 16 in
  let? _ := require (ty =? 2) Violation.NotExec in
  let? entry := le64 elf 24 in
  let? phoff := le64 elf 32 in
  let? phentsize := le16 elf 54 in
  let? phnum := le16 elf 56 in
  let? _ := require (phentsize =? 56) Violation.BadPhentsize in
  let? table := mul_p phentsize phnum in
  let? _ := require (match checked_add phoff table with Some e => e <=? Z.of_nat (length elf) | None => false end)
              Violation.PhdrsCut in
  let? segs := parse_phdrs (Z.to_nat phnum) elf phoff phentsize 0 [] in
  Ok (entry, sort_segs segs).

(** ** Flattening *)

(** The layout loop: [prev_end] and [entry_in_text] at its end. *)
Fixpoint check_layout (entry : Z) (segs : list ElfSeg) (prev_end : Z) (entry_in_text : bool) : R (Z * bool) :=
  match segs with
  | [] => Ok (prev_end, entry_in_text)
  | s :: segs' =>
    let? _ := require (vaddr s mod SEG_ALIGN =? 0) Violation.SegMisaligned in
    let? _ := require (prev_end <=? vaddr s) Violation.Overlap in
    let? e := add_p (vaddr s) (memsz s) in
    let? _ := require (negb (Z.land (flags s) 3 =? 3)) Violation.WritableExecutable in
    let hit := negb (Z.land (flags s) 1 =? 0) && (vaddr s <=? entry) && (entry <? e) in
    check_layout entry segs' e (entry_in_text || hit)
  end.

(** [flat[dst..dst + filesz].copy_from_slice(&elf[src..src + filesz])]. *)
Definition copy_seg (elf : list Z) (base : Z) (flat : list Z) (s : ElfSeg) : R (list Z) :=
  let? dst := sub_p (vaddr s) base in
  let? dst_end := add_p dst (filesz s) in
  let? src_end := add_p (offset s) (filesz s) in
  match get_range flat dst dst_end, get_range elf (offset s) src_end with
  | Some _, Some src => Ok (take (Z.to_nat dst) flat ++ src ++ drop (Z.to_nat dst_end) flat)
  | _, _ => Panic
  end.

Fixpoint copy_segs (elf : list Z) (base : Z) (flat : list Z) (segs : list ElfSeg) : R (list Z) :=
  match segs with
  | [] => Ok flat
  | s :: segs' => let? flat' := copy_seg elf base flat s in copy_segs elf base flat' segs'
  end.

Definition seg_kind (s : ElfSeg) : SegKind.t :=
  if negb (Z.land (flags s) 1 =? 0) then SegKind.Text
  else if negb (Z.land (flags s) 2 =? 0) then SegKind.Rw else SegKind.Ro.

Definition rt_segment (s : ElfSeg) : LoadSeg := mkSeg (vaddr s) (memsz s) (seg_kind s).

(** The constants of the generated file. *)
Record Generated := mkGen {
  ROOT_TASK_IMAGE : list Z;
  ROOT_TASK_SHA256 : list Z;
  ROOT_TASK_BASE : Z;
  ROOT_TASK_ENTRY : Z;
  ROOT_TASK_SEGMENTS : list LoadSeg
}.

(** The hash as the code uses it: [Sha256::new], [update], [finalize].  What it
    relies on, for messages whose length in bits fits 64 bits: the pieces of a
    message can be given one by one, and a digest is 32 bytes. *)
Class Hash := {
  hasher : Type;
  hash_new : hasher;
  hash_update : hasher -> list Z -> hasher;
  hash_finalize : hasher -> list Z
}.

(** [Sha256::digest]. *)
Definition digest `{Hash} (m : list Z) : list Z := hash_finalize (hash_update hash_new m).

Class HashOk `{Hash} : Prop := {
  hash_stream ms : Z.of_nat (length (mjoin ms)) < 2 ^ 61 ->
    hash_finalize (foldl hash_update hash_new ms) = digest (mjoin ms);
  hash_length m : Z.of_nat (length m) < 2 ^ 61 -> length (digest m) = 32%nat;
  hash_bytes m : Z.of_nat (length m) < 2 ^ 61 -> Forall is_byte (digest m)
}.

Definition flatten `{Hash} (elf : list Z) : R Generated :=
  let? es := parse_elf elf in
  let '(entry, segs) := es in
  match segs with
  | [] => Err Violation.NoSegment
  | s0 :: _ =>
    let? _ := require (Z.of_nat (length segs) <=? 4) Violation.TooManySegments in
    let base := vaddr s0 in
    let? _ := require (base mod SEG_ALIGN =? 0) Violation.BaseMisaligned in
    let? pe := check_layout entry segs base false in
    let? _ := require pe.2 Violation.EntryOutside in
    let? top := mul_p (div_ceil pe.1 SEG_ALIGN) SEG_ALIGN in
    let? span := sub_p top base in
    let? _ := require (span <=? MAX_FLAT_SIZE) Violation.TooBig in
    let? flat := copy_segs elf base (replicate (Z.to_nat span) 0) segs in
    Ok (mkGen flat (digest flat) base entry (rt_segment <$> segs))
  end.

Definition build `{Hash} (elf : list Z) : R Generated :=
  let? _ := require (bool_decide (digest (lit "abc") = ABC_DIGEST)) Violation.Sha2Broken in
  let? _ := require (bool_decide (digest [] = EMPTY_DIGEST)) Violation.Sha2Broken in
  flatten elf.

(** ** The integrity check *)

Module VerifyError.
Inductive t := HashMismatch.
End VerifyError.

Definition verify_root_task `{Hash} (g : Generated) : res VerifyError.t VerifiedRootTask :=
  let hash := digest (ROOT_TASK_IMAGE g) in
  if negb (bool_decide (hash = ROOT_TASK_SHA256 g)) then Err VerifyError.HashMismatch else
  Ok (mkRT (ROOT_TASK_IMAGE g) (ROOT_TASK_BASE g) (ROOT_TASK_ENTRY g) (ROOT_TASK_SEGMENTS g)).

(** ** Boot keys *)

(** [to_le_bytes] of [n] bytes. *)
Fixpoint le_bytes (n : nat) (v : Z) : list Z :=
  match n with O => [] | S n' => v mod 256 :: le_bytes n' (v / 256) end.

(** What one block of [derive_pac_keys] feeds the hash, call by call. *)
Definition key_parts (counter : Z) (dtb_entropy : list Z) (extra : list Z) : list (list Z) :=
  [lit "k0-pac-boot-key-v1"; [counter]; le_bytes 8 (Z.of_nat (length dtb_entropy)); dtb_entropy] ++ (le_bytes 8 <$> extra).

Definition key_message (counter : Z) (dtb_entropy extra : list Z) : list Z := mjoin (key_parts counter dtb_entropy extra).

(** [block.chunks_exact(8)] into [keys[i..]]. *)
Fixpoint take_chunks (n : nat) (block : list Z) (keys : list Z) (i : Z) : list Z * Z :=
  match n with
  | O => (keys, i)
  | S n' =>
    if i =? 10 then (keys, i)
    else take_chunks n' (drop 8 block) (set keys i (le_word (take 8 block))) (i + 1)
  end.

Fixpoint derive_loop (fuel : nat) `{Hash} (dtb_entropy extra keys : list Z) (i counter : Z) :
    res Empty_set (list Z) :=
  match fuel with
  | O => OutOfFuel
  | S fuel' =>
    if negb (i <? 10) then Ok keys else
    let block := hash_finalize (foldl hash_update hash_new (key_parts counter dtb_entropy extra)) in
    let '(keys', i') := take_chunks (length block / 8) block keys i in
    if 255 <? counter + 1 then Panic else
    derive_loop fuel' dtb_entropy extra keys' i' (counter + 1)
  end.

Definition derive_pac_keys `{Hash} (dtb_entropy extra : list Z) : res Empty_set (list Z) :=
  derive_loop 11 dtb_entropy extra (replicate 10 0) 0 0.

(** ** Specification *)

(** The little-endian number of [n] bytes at [off]. *)
Definition word (n off : Z) (elf : list Z) : Z := le_word (take (Z.to_nat n) (drop (Z.to_nat off) elf)).

Definition phdr_at (elf : list Z) (p : Z) : ElfSeg :=
  mkElf (word 8 (p + 16) elf) (word 8 (p + 8) elf) (word 8 (p + 32) elf) (word 8 (p + 40) elf) (word 4 (p + 4) elf).

(** The PT_LOAD headers among the [n] headers from the [i]-th on. *)
Fixpoint load_headers (n : nat) (elf : list Z) (phoff i : Z) : list ElfSeg :=
  match n with
  | O => []
  | S n' =>
    let p := phoff + i * 56 in
    (if word 4 p elf =? 1 then [phdr_at elf p] else []) ++ load_headers n' elf phoff (i + 1)
  end.

Definition headers (elf : list Z) : list ElfSeg := load_headers (Z.to_nat (word 2 56 elf)) elf (word 8 32 elf) 0.

(** The segments of the image: the non-empty PT_LOAD segments by address. *)
Definition segments (elf : list Z) : list ElfSeg := sort_segs (filter (fun s => 0 < memsz s) (headers elf)).

Definition seg_end (s : ElfSeg) : Z := vaddr s + memsz s.

Definition seg_sound (elf : list Z) (s : ElfSeg) : Prop :=
  filesz s <= memsz s /\ offset s + filesz s <= Z.of_nat (length elf) /\ seg_end s < U64.

(** A static little-endian AArch64 ELF64 executable with its headers in place. *)
Definition elf_ok (elf : list Z) : Prop :=
  64 <= Z.of_nat (length elf) /\ take 4 elf = 0x7f :: lit "ELF" /\ get elf 4 = Some 2 /\ get elf 5 = Some 1 /\
  word 2 18 elf = 183 /\ word 2 16 elf = 2 /\ word 2 54 elf = 56 /\
  word 8 32 elf + 56 * word 2 56 elf <= Z.of_nat (length elf) /\ Forall (seg_sound elf) (headers elf).

(** Each segment starts after the one before it ends. *)
Fixpoint in_order (lo : Z) (segs : list ElfSeg) : Prop :=
  match segs with [] => True | s :: segs' => lo <= vaddr s /\ in_order (seg_end s) segs' end.

Definition last_end (lo : Z) (segs : list ElfSeg) : Z := foldl (fun _ s => seg_end s) lo segs.

Definition is_exec (s : ElfSeg) : Prop := Z.testbit (flags s) 0 = true.
Definition is_writable (s : ElfSeg) : Prop := Z.testbit (flags s) 1 = true.

Definition base_of (segs : list ElfSeg) : Z := match segs with s :: _ => vaddr s | [] => 0 end.

(** The end of the image, rounded up to the alignment. *)
Definition top_of (segs : list ElfSeg) : Z := round_up SEG_ALIGN (last_end (base_of segs) segs).

(** What the build accepts. *)
Record accepted (elf : list Z) : Prop := {
  ac_elf : elf_ok elf;
  ac_count : (1 <= length (segments elf) <= 4)%nat;
  ac_aligned : Forall (fun s => vaddr s mod SEG_ALIGN = 0) (segments elf);
  ac_order : in_order (base_of (segments elf)) (segments elf);
  ac_wx : Forall (fun s => ~ (is_exec s /\ is_writable s)) (segments elf);
  ac_entry : Exists (fun s => is_exec s /\ vaddr s <= word 8 24 elf < seg_end s) (segments elf);
  ac_size : top_of (segments elf) - base_of (segments elf) <= MAX_FLAT_SIZE
}.

(** The flat image: the file's bytes where a segment has them, zero elsewhere. *)
Definition is_image (elf flat : list Z) (base : Z) (segs : list ElfSeg) : Prop :=
  (forall s i, s ∈ segs -> 0 <= i < filesz s -> get flat (vaddr s - base + i) = get elf (offset s + i)) /\
  (forall a, 0 <= a < Z.of_nat (length flat) ->
     Forall (fun s => ~ (vaddr s <= base + a < vaddr s + filesz s)) segs -> get flat a = Some 0).

(** ** Theory *)

(** The code succeeds with [Q] exactly if [P] holds, fails with an error
    otherwise, and panics only under [T]. *)
Definition decides {A} (T : Prop) (r : R A) (P : Prop) (Q : A -> Prop) : Prop :=
  match r with Ok a => P /\ Q a | Err _ => ~ P | Panic => T | OutOfFuel => False end.

Lemma decides_require {A} T b v (k : R A) (B P : Prop) Q :
  (b = true <-> B) -> (B -> decides T k P Q) -> decides T (let? _ := require b v in k) (B /\ P) Q.
Proof.
  intros Hb Hk. destruct b; simpl; [|intros [HB _]; by apply Hb in HB].
  specialize (Hk (proj1 Hb eq_refl)). pose proof (proj1 Hb eq_refl). destruct k; simpl in *; tauto.
Qed.

Lemma decides_bind {A C} T (r : R A) (k : A -> R C) P P' (Q : A -> Prop) Q' :
  decides T r P Q -> (forall a, P -> Q a -> decides T (k a) P' Q') -> decides T (rbind r k) (P /\ P') Q'.
Proof. destruct r as [a| | |]; simpl; try tauto. intros [? ?] Hk. specialize (Hk a). destruct (k a); simpl in *; tauto. Qed.

Lemma decides_iff {A} T (r : R A) (P P' : Prop) Q : (P <-> P') -> decides T r P Q -> decides T r P' Q.
Proof. destruct r; simpl; tauto. Qed.

Lemma decides_False {A} T (r : R A) P Q : decides False r P Q -> decides T r P Q.
Proof. by destruct r. Qed.

Lemma le_word_bound l : Forall is_byte l -> 0 <= le_word l < 256 ^ Z.of_nat (length l).
Proof.
  induction 1 as [|b l [H1 H2] Hl IH]; [done|]. change (le_word (b :: l)) with (b + 256 * le_word l).
  cbn [length]. rewrite Nat2Z.inj_succ, Z.pow_succ_r by lia. lia.
Qed.

Lemma checked_le a b n :
  n < U64 -> match checked_add a b with Some e => e <=? n | None => false end = true <-> a + b <= n.
Proof. intros Hn. unfold checked_add. destruct (Z.ltb_spec (a + b) U64); [apply Z.leb_le|]. split; [done|lia]. Qed.

Section parse.
Context (elf : list Z) (Hbytes : Forall is_byte elf).
Let len := Z.of_nat (length elf).
Context (Hlen : len < 2 ^ 63).

Lemma word_bound n off : 0 <= n -> 0 <= word n off elf < 256 ^ n.
Proof.
  intros Hn. unfold word. set (l := take _ _).
  assert (Hl : Forall is_byte l) by by apply Forall_take, Forall_drop.
  pose proof (le_word_bound l Hl) as Hw.
  assert (256 ^ Z.of_nat (length l) <= 256 ^ n); [|lia]. apply Z.pow_le_mono_r; [lia|].
  unfold l. rewrite length_take. lia.
Qed.

Lemma le_ok n off : 0 <= n -> 0 <= off -> off + n <= len -> le n elf off = Ok (word n off elf).
Proof.
  intros Hn Ho Hl. unfold le, word. rewrite add_p_ok by lia. simpl. unfold get_range.
  rewrite (proj2 (Z.leb_le 0 off)), (proj2 (Z.leb_le off (off + n))) by lia. fold len.
  rewrite (proj2 (Z.leb_le (off + n) len)) by lia. simpl. do 3 f_equal. lia.
Qed.

Lemma parse_phdr_spec p :
  0 <= p -> p + 56 <= len -> decides False (parse_phdr elf p) (seg_sound elf (phdr_at elf p)) (eq (phdr_at elf p)).
Proof.
  intros Hp Hl. unfold parse_phdr, le32, le64.
  pose proof (word_bound 8 (p + 8)). pose proof (word_bound 8 (p + 32)). pose proof (word_bound 8 (p + 16)).
  pose proof (word_bound 8 (p + 40)).
  do 5 (rewrite add_p_ok by lia; cbn [rbind]; rewrite le_ok by lia; cbn [rbind]).
  unfold seg_sound. apply decides_require; [by rewrite Z.leb_le|]. intros _.
  apply decides_require; [apply checked_le; lia|]. intros _. apply (decides_iff _ _ (seg_end (phdr_at elf p) < U64 /\ True)); [tauto|].
  apply decides_require; [|done]. rewrite bool_decide_eq_true, <- not_eq_None_Some, checked_add_None.
  unfold seg_end. simpl. lia.
Qed.

Lemma parse_phdrs_spec n phoff i acc :
  0 <= phoff -> 0 <= i -> phoff + (i + Z.of_nat n) * 56 <= len ->
  decides False (parse_phdrs n elf phoff 56 i acc) (Forall (seg_sound elf) (load_headers n elf phoff i))
    (eq (acc ++ filter (fun s => 0 < memsz s) (load_headers n elf phoff i))).
Proof.
  revert i acc. induction n as [|n IH]; intros i acc Hp Hi Hl; cbn [parse_phdrs load_headers].
  { split; [constructor|by rewrite app_nil_r]. }
  rewrite mul_p_ok by lia. cbn [rbind]. rewrite add_p_ok by lia. cbn [rbind]. unfold le32.
  rewrite le_ok by lia. cbn [rbind]. destruct (word 4 (phoff + i * 56) elf =? 1); cbn [negb app].
  2:{ apply IH; lia. }
  eapply decides_iff; [symmetry; apply list.Forall_cons|]. eapply decides_bind; [apply parse_phdr_spec; lia|]. intros a _ <-.
  set (s := phdr_at _ _).
  replace (acc ++ filter _ _) with ((if 0 <? memsz s then acc ++ [s] else acc) ++
    filter (fun s => 0 < memsz s) (load_headers n elf phoff (i + 1))); [apply IH; lia|].
  rewrite filter_cons. destruct (Z.ltb_spec 0 (memsz s)); [rewrite decide_True by done|rewrite decide_False by lia; done].
  by rewrite <- app_assoc.
Qed.

Lemma get_head i : 0 <= i < len -> exists v, byte_at elf i = Ok v /\ get elf i = Some v.
Proof. intros Hi. unfold byte_at. destruct (get_in_range elf i Hi) as [v ->]. eauto. Qed.

Lemma parse_elf_spec : decides False (parse_elf elf) (elf_ok elf) (eq (word 8 24 elf, segments elf)).
Proof.
  unfold parse_elf, elf_ok. apply decides_require; [by rewrite Z.leb_le|]. intros H64.
  assert (E4 : get_range elf 0 4 = Some (take 4 elf)).
  { unfold get_range. fold len in H64 |- *. rewrite (proj2 (Z.leb_le 4 len)) by lia. done. }
  rewrite E4. cbn [rbind]. apply decides_require; [apply bool_decide_eq_true|]. intros _.
  destruct (get_head 4) as (c & -> & ->); [lia|]. cbn [rbind].
  apply decides_require; [rewrite Z.eqb_eq; naive_solver|]. intros _.
  destruct (get_head 5) as (d & -> & ->); [lia|]. cbn [rbind].
  apply decides_require; [rewrite Z.eqb_eq; naive_solver|]. intros _.
  unfold le16, le64. rewrite le_ok by lia. cbn [rbind]. apply decides_require; [apply Z.eqb_eq|]. intros _.
  rewrite le_ok by lia. cbn [rbind]. apply decides_require; [apply Z.eqb_eq|]. intros _.
  do 4 (rewrite le_ok by lia; cbn [rbind]). apply decides_require; [apply Z.eqb_eq|]. intros ->.
  pose proof (word_bound 2 56 ltac:(lia)) as Hn. pose proof (word_bound 8 32 ltac:(lia)) as Ho. pow_consts.
  rewrite mul_p_ok by lia. cbn [rbind]. apply decides_require; [apply checked_le; lia|].
  intros Ht. fold len in Ht. apply (decides_iff _ _ (Forall (seg_sound elf) (headers elf) /\ True)); [tauto|].
  eapply decides_bind; [apply parse_phdrs_spec; lia|]. intros a _ <-. split; [done|]. done.
Qed.
End parse.

(** The sort. *)

Definition by_addr (s t : ElfSeg) : Prop := vaddr s <= vaddr t.

Lemma insert_seg_perm s l : Permutation (s :: l) (insert_seg s l).
Proof.
  induction l as [|h l IH]; simpl; [done|]. destruct (_ <=? _); [done|]. rewrite Permutation_swap. by constructor.
Qed.

Lemma sort_segs_perm l : Permutation l (sort_segs l).
Proof. induction l as [|s l IH]; simpl; [done|]. rewrite <- insert_seg_perm. by constructor. Qed.

Lemma insert_seg_sorted s l : StronglySorted by_addr l -> StronglySorted by_addr (insert_seg s l).
Proof.
  induction 1 as [|h l Hl IH Hh]; simpl; [repeat constructor|]. destruct (Z.leb_spec (vaddr s) (vaddr h)).
  - constructor; [by constructor|]. constructor; [done|]. eapply list.Forall_impl; [exact Hh|].
    unfold by_addr. intros; lia.
  - constructor; [done|]. rewrite <- insert_seg_perm. constructor; [unfold by_addr; lia|done].
Qed.

Lemma sort_segs_sorted l : StronglySorted by_addr (sort_segs l).
Proof. induction l; simpl; [constructor|by apply insert_seg_sorted]. Qed.

(** The layout. *)

Lemma land_bit0 f : negb (Z.land f 1 =? 0) = Z.testbit f 0.
Proof.
  change 1 with (Z.ones 1). rewrite Z.land_ones by lia. pose proof (Z.testbit_spec' f 0 ltac:(lia)) as Hb.
  rewrite Z.div_1_r in Hb. change (2 ^ 1) with 2. rewrite <- Hb. by destruct (Z.testbit f 0).
Qed.

Lemma land_bit1 f : negb (Z.land f 2 =? 0) = Z.testbit f 1.
Proof.
  assert (E : Z.land f 2 = if Z.testbit f 1 then 2 else 0).
  { apply Z.bits_inj'. intros n Hn. rewrite Z.land_spec. change 2 with (2 ^ 1) at 1. rewrite Z.pow2_bits_eqb by lia.
    destruct (Z.eqb_spec 1 n) as [<-|Hne]; [by destruct (Z.testbit f 1)|]. rewrite andb_false_r.
    destruct (Z.testbit f 1); [|by rewrite Z.bits_0]. change 2 with (2 ^ 1). rewrite Z.pow2_bits_eqb by lia.
    by rewrite (proj2 (Z.eqb_neq _ _)). }
  rewrite E. by destruct (Z.testbit f 1).
Qed.

Lemma land_bits f : negb (Z.land f 3 =? 3) = negb (Z.testbit f 0 && Z.testbit f 1).
Proof.
  change (Z.land f 3) with (Z.land f (Z.ones 2)). rewrite Z.land_ones by lia.
  pose proof (Z.testbit_spec' f 0 ltac:(lia)) as H0. pose proof (Z.testbit_spec' f 1 ltac:(lia)) as H1.
  rewrite Z.div_1_r in H0. change (2 ^ 1) with 2 in *. change (2 ^ 2) with 4.
  destruct (Z.testbit f 0), (Z.testbit f 1); simpl in *; destruct (Z.eqb_spec (f mod 4) 3); try done; exfalso; div_lia.
Qed.

Lemma check_layout_spec entry segs lo acc :
  Forall (fun s => seg_end s < U64) segs ->
  decides False (check_layout entry segs lo acc)
    (Forall (fun s => vaddr s mod SEG_ALIGN = 0) segs /\ in_order lo segs /\
     Forall (fun s => ~ (is_exec s /\ is_writable s)) segs)
    (fun pe => pe.1 = last_end lo segs /\
       (pe.2 = true <-> acc = true \/ Exists (fun s => is_exec s /\ vaddr s <= entry < seg_end s) segs)).
Proof.
  intros Hs. revert lo acc. induction Hs as [|s segs He Hs IH]; intros lo acc; cbn [check_layout in_order].
  { split; [by split_and!; [constructor|done|constructor]|]. split; [done|]. rewrite Exists_nil. simpl. tauto. }
  unfold seg_end in *. rewrite add_p_ok by done. rewrite land_bits, land_bit0. cbn [rbind].
  set (hit := _ && (entry <? _)). specialize (IH (vaddr s + memsz s) (acc || hit)).
  assert (Hhit : hit = true <-> is_exec s /\ vaddr s <= entry < vaddr s + memsz s).
  { unfold hit, is_exec. rewrite !andb_true_iff, Z.leb_le, Z.ltb_lt. tauto. }
  eapply decides_iff with (P := vaddr s mod SEG_ALIGN = 0 /\ lo <= vaddr s /\ ~ (is_exec s /\ is_writable s) /\ _).
  2:{ apply decides_require; [apply Z.eqb_eq|intros _]. apply decides_require; [apply Z.leb_le|intros _].
      apply decides_require; [unfold is_exec, is_writable; rewrite negb_true_iff, <- not_true_iff_false, andb_true_iff; done|intros _].
      destruct (check_layout _ _ _ _) as [pe| | |]; [|exact IH..]. destruct IH as (IH1 & IH2 & IH3).
      split; [exact IH1|]. split; [exact IH2|]. rewrite IH3, orb_true_iff, Hhit, Exists_cons. tauto. }
  rewrite !list.Forall_cons. tauto.
Qed.

(** Copying. *)

Lemma get_splice (flat src : list Z) d a :
  0 <= d -> d + Z.of_nat (length src) <= Z.of_nat (length flat) ->
  get (take (Z.to_nat d) flat ++ src ++ drop (Z.to_nat (d + Z.of_nat (length src))) flat) a =
  if decide (d <= a < d + Z.of_nat (length src)) then get src (a - d) else get flat a.
Proof.
  intros Hd Hl. assert (Hlen : forall (l : list Z) v, 0 <= a -> l !! Z.to_nat a = v -> get l a = v).
  { intros l v Ha <-. unfold get. destruct (Z.ltb_spec a (Z.of_nat (length l))); rewrite (proj2 (Z.leb_le 0 a)) by done; [done|].
    simpl. symmetry. apply lookup_ge_None_2. lia. }
  destruct (Z.lt_ge_cases a 0) as [Ha|Ha].
  { rewrite decide_False by lia. unfold get. rewrite (proj2 (Z.leb_gt 0 a)) by done. done. }
  assert (Ht : length (take (Z.to_nat d) flat) = Z.to_nat d) by (rewrite length_take; lia).
  apply Hlen; [done|]. case_decide as Hin.
  - rewrite lookup_app_r, Ht, lookup_app_l by lia. unfold get.
    rewrite (proj2 (Z.leb_le 0 (a - d))), (proj2 (Z.ltb_lt (a - d) _)) by lia. simpl. f_equal. lia.
  - destruct (Z.lt_ge_cases a d).
    + rewrite lookup_app_l, lookup_take_lt by lia. symmetry. by apply Hlen.
    + rewrite lookup_app_r, Ht, lookup_app_r, lookup_drop by lia. symmetry. apply Hlen; [done|]. f_equal. lia.
Qed.

Lemma copy_seg_spec elf base flat s :
  Z.of_nat (length elf) < U64 -> Z.of_nat (length flat) < U64 -> base <= vaddr s -> 0 <= offset s -> 0 <= filesz s ->
  vaddr s - base + filesz s <= Z.of_nat (length flat) -> offset s + filesz s <= Z.of_nat (length elf) ->
  exists flat', copy_seg elf base flat s = Ok flat' /\ length flat' = length flat /\
    forall a, get flat' a = if decide (vaddr s <= base + a < vaddr s + filesz s)
                            then get elf (offset s + (base + a - vaddr s)) else get flat a.
Proof.
  intros He Hf Hb Ho Hz Hd Hs. unfold copy_seg. rewrite sub_p_ok, !add_p_ok by lia. cbn [rbind].
  rewrite add_p_ok by lia. cbn [rbind].
  destruct (get_range flat _ _) as [old|] eqn:E1.
  2:{ unfold get_range in E1. destruct (_ && _) eqn:E; [done|]. bool_to_prop. lia. }
  destruct (get_range elf _ _) as [src|] eqn:E2; unfold get_range in E2; destruct (_ && _) eqn:E; try done.
  2:{ bool_to_prop. lia. }
  injection E2 as <-. set (src := take _ (drop (Z.to_nat (offset s)) elf)). eexists. split; [reflexivity|].
  assert (Hl : Z.of_nat (length src) = filesz s) by (unfold src; rewrite length_take, length_drop; lia).
  rewrite <- Hl. split.
  { rewrite !length_app, length_take, length_drop. lia. }
  intros a. rewrite get_splice by lia. rewrite Hl. repeat case_decide; try lia; [|done].
  unfold get. fold src. rewrite Hl.
  rewrite (proj2 (Z.leb_le 0 (a - _))), (proj2 (Z.ltb_lt (a - _) _)) by lia.
  rewrite (proj2 (Z.leb_le 0 (offset s + _))), (proj2 (Z.ltb_lt (offset s + _) _)) by lia. simpl.
  unfold src. rewrite lookup_take_lt, lookup_drop by lia. f_equal. lia.
Qed.

(** A segment that lies where the image has room and the file has its bytes. *)
Definition seg_fits (elf : list Z) (base n : Z) (s : ElfSeg) : Prop :=
  base <= vaddr s /\ 0 <= offset s /\ 0 <= filesz s <= memsz s /\ seg_end s - base <= n /\
  offset s + filesz s <= Z.of_nat (length elf).

Lemma in_order_above lo segs s : in_order lo segs -> Forall (fun s => 0 <= memsz s) segs -> s ∈ segs -> lo <= vaddr s.
Proof.
  intros Ho Hm Hin. revert lo Ho. induction Hm as [|t segs Ht Hm IH]; intros lo Ho; [by apply not_elem_of_nil in Hin|].
  destruct Ho as [Ho1 Ho2]. apply elem_of_cons in Hin as [->|Hin]; [done|]. specialize (IH Hin _ Ho2). unfold seg_end in IH. lia.
Qed.

Lemma copy_segs_spec elf base flat segs lo :
  Z.of_nat (length elf) < U64 -> Z.of_nat (length flat) < U64 -> in_order lo segs ->
  Forall (seg_fits elf base (Z.of_nat (length flat))) segs ->
  exists flat', copy_segs elf base flat segs = Ok flat' /\ length flat' = length flat /\
    (forall s i, s ∈ segs -> 0 <= i < filesz s -> get flat' (vaddr s - base + i) = get elf (offset s + i)) /\
    (forall a, Forall (fun s => ~ (vaddr s <= base + a < vaddr s + filesz s)) segs -> get flat' a = get flat a).
Proof.
  intros He. revert lo flat. induction segs as [|s segs IH]; intros lo flat Hf Ho Hs; cbn [copy_segs].
  { exists flat. split_and!; try done. intros s i Hin. by apply not_elem_of_nil in Hin. }
  apply list.Forall_cons in Hs as [(F1 & F2 & F3 & F4 & F5) Hs]. destruct Ho as [Ho1 Ho2].
  destruct (copy_seg_spec elf base flat s) as (flat1 & -> & L1 & G1); try (unfold seg_end in *; lia). cbn [rbind].
  destruct (IH (seg_end s) flat1) as (flat' & -> & L2 & G2 & G3); [lia|done|by rewrite L1|].
  exists flat'. split_and!; [done|lia| |].
  - intros t i [->|Hin]%elem_of_cons Hi; [|by apply G2]. rewrite G3, G1.
    + rewrite decide_True by lia. f_equal. lia.
    + apply list.Forall_forall. intros u Hu.
      assert (Hm : Forall (fun s => 0 <= memsz s) segs).
      { eapply list.Forall_impl; [exact Hs|]. intros v (_ & _ & ? & _). lia. }
      pose proof (in_order_above _ _ u Ho2 Hm Hu) as Hab. unfold seg_end in Hab. lia.
  - intros a [Ha1 Ha2]%list.Forall_cons. rewrite G3 by done. rewrite G1. by rewrite decide_False.
Qed.

(** The end of the image. *)

Lemma last_end_spec segs lo :
  in_order lo segs -> Forall (fun s => 0 <= memsz s) segs ->
  lo <= last_end lo segs /\ Forall (fun s => seg_end s <= last_end lo segs) segs /\
  (segs <> [] -> Exists (fun s => seg_end s = last_end lo segs) segs).
Proof.
  intros Ho Hm. revert lo Ho. induction Hm as [|s segs Hs Hm IH]; intros lo Ho; [by split_and!; [simpl; lia|constructor|]|].
  destruct Ho as [Ho1 Ho2]. destruct (IH _ Ho2) as (IH1 & IH2 & IH3). change (last_end lo (s :: segs)) with (last_end (seg_end s) segs).
  unfold seg_end in *. split_and!; [lia|by constructor; [lia|]|]. intros _.
  destruct (decide (segs = [])) as [->|Hne]; [by left|right; auto].
Qed.

Lemma div_ceil_mul g x : 0 < g -> div_ceil x g * g = round_up g x.
Proof. intros Hg. unfold div_ceil, round_up. pose proof (Z.div_mod (x + (g - 1)) g). lia. Qed.

Section flat.
Context (elf : list Z) (Hbytes : Forall is_byte elf) (Hlen : Z.of_nat (length elf) < 2 ^ 63).

Lemma load_headers_nonneg n phoff i :
  Forall (fun s => 0 <= vaddr s /\ 0 <= offset s /\ 0 <= filesz s) (load_headers n elf phoff i).
Proof.
  revert i. induction n as [|n IH]; intros i; cbn [load_headers]; [constructor|].
  apply Forall_app. split; [|apply IH]. case_match; constructor; [|constructor].
  cbn. split_and!; apply word_bound; done || lia.
Qed.

Lemma segments_sound :
  elf_ok elf -> Forall (fun s => seg_sound elf s /\ 0 < memsz s /\ 0 <= vaddr s /\ 0 <= offset s /\ 0 <= filesz s) (segments elf).
Proof.
  intros (_ & _ & _ & _ & _ & _ & _ & _ & Hs). unfold segments. rewrite <- sort_segs_perm.
  apply list.Forall_forall. intros s [Hm Hin]%list_elem_of_filter.
  pose proof (proj1 (list.Forall_forall _ _) Hs s Hin).
  pose proof (proj1 (list.Forall_forall _ _) (load_headers_nonneg _ _ _) s Hin) as (? & ? & ?). done.
Qed.

(** What the build produces.  An entry of the segment table is judged by what the
    kernel makes of it: where it maps the segment, and whether user mode can write
    and execute the pages that it maps for this kind. *)
Definition el0_executable (d : Z) : bool := negb (Z.testbit d 54).

Definition seg_matches (s : ElfSeg) (l : LoadSeg) : Prop :=
  let d := UserPerm.attrs (SegKind.perm (s_kind l)) in
  s_va l = vaddr s /\ s_memsz l = memsz s /\ el0_accessible d = true /\
  (el0_writable d = true <-> is_writable s) /\ (el0_executable d = true <-> is_exec s).

Record flattened `{Hash} (g : Generated) : Prop := {
  fl_base : ROOT_TASK_BASE g = base_of (segments elf);
  fl_entry : ROOT_TASK_ENTRY g = word 8 24 elf;
  fl_segs : Forall2 seg_matches (segments elf) (ROOT_TASK_SEGMENTS g);
  fl_len : Z.of_nat (length (ROOT_TASK_IMAGE g)) = top_of (segments elf) - base_of (segments elf);
  fl_image : is_image elf (ROOT_TASK_IMAGE g) (base_of (segments elf)) (segments elf);
  fl_top : top_of (segments elf) < U64;
  fl_hash : ROOT_TASK_SHA256 g = digest (ROOT_TASK_IMAGE g)
}.

Lemma seg_matches_kind s : ~ (is_exec s /\ is_writable s) -> seg_matches s (rt_segment s).
Proof.
  unfold seg_matches, is_exec, is_writable, rt_segment, seg_kind. cbn [s_va s_memsz s_kind]. rewrite land_bit0, land_bit1. intros Hwx.
  destruct (Z.testbit (flags s) 0), (Z.testbit (flags s) 1); [by destruct Hwx|..];
    (split; [done|]; split; [done|]; split; [done|]); split; split; vm_compute; congruence.
Qed.

Lemma seg_matches_unique s l : seg_matches s l -> l = rt_segment s.
Proof.
  unfold seg_matches, is_exec, is_writable, rt_segment, seg_kind. rewrite land_bit0, land_bit1. destruct l as [va sz kd]. cbn [s_va s_memsz s_kind].
  intros (-> & -> & _ & Hw & Hx). f_equal. revert Hw Hx.
  destruct (Z.testbit (flags s) 0), (Z.testbit (flags s) 1), kd; vm_compute; intros [W1 W2] [X1 X2];
    first [reflexivity|discriminate (W1 eq_refl)|discriminate (W2 eq_refl)|discriminate (X1 eq_refl)|discriminate (X2 eq_refl)].
Qed.

Lemma flattened_segs `{Hash} g : flattened g -> ROOT_TASK_SEGMENTS g = rt_segment <$> segments elf.
Proof.
  intros [_ _ Fs _ _ _ _]. induction Fs as [|s l segs ls Hm _ IH]; [done|]. cbn [fmap list_fmap]. rewrite IH. f_equal. by apply seg_matches_unique.
Qed.

Lemma copy_flat segs base :
  Forall (fun s => seg_sound elf s /\ 0 < memsz s /\ 0 <= vaddr s /\ 0 <= offset s /\ 0 <= filesz s) segs ->
  in_order base segs -> 0 <= base -> let n := round_up SEG_ALIGN (last_end base segs) - base in
  n <= MAX_FLAT_SIZE ->
  exists flat, copy_segs elf base (replicate (Z.to_nat n) 0) segs = Ok flat /\ Z.of_nat (length flat) = n /\
    is_image elf flat base segs.
Proof.
  intros Hs Ho Hb n Hn.
  assert (Hm : Forall (fun s => 0 <= memsz s) segs).
  { eapply list.Forall_impl; [exact Hs|]. simpl. intros s Hx. lia. }
  destruct (last_end_spec _ _ Ho Hm) as (L1 & L2 & _). destruct (round_up_spec SEG_ALIGN (last_end base segs)) as [_ R2]; [done|].
  assert (Hn0 : 0 <= n) by lia. change MAX_FLAT_SIZE with (2 ^ 20) in Hn. change SEG_ALIGN with (2 ^ 14) in *.
  destruct (copy_segs_spec elf base (replicate (Z.to_nat n) 0) segs base) as (flat & -> & Lf & G1 & G2).
  - lia.
  - rewrite length_replicate. lia.
  - done.
  - apply list.Forall_forall. intros s Hin. pose proof (in_order_above _ _ s Ho Hm Hin).
    pose proof (proj1 (list.Forall_forall _ _) Hs s Hin) as ((? & ? & _) & ? & ? & ? & ?).
    pose proof (proj1 (list.Forall_forall _ _) L2 s Hin). rewrite length_replicate.
    unfold seg_fits. simpl in *. split_and!; lia.
  - rewrite length_replicate in Lf. exists flat. split_and!; [done|lia|]. split; [done|]. intros a Ha Hno.
    rewrite G2 by done. apply get_Some. split; [lia|]. apply lookup_replicate_2. lia.
Qed.

Lemma flatten_spec `{Hash} :
  decides (Exists (fun s => U64 - SEG_ALIGN < seg_end s) (segments elf)) (flatten elf)
    (accepted elf) flattened.
Proof.
  unfold flatten. pose proof (parse_elf_spec elf Hbytes Hlen) as Hp.
  destruct (parse_elf elf) as [a|v| |]; [|intros Ha; by apply Hp, ac_elf|done..]. destruct Hp as [Hok <-]. cbn [rbind].
  pose proof (segments_sound Hok) as Hs. destruct (segments elf) as [|s0 rest] eqn:Eseg.
  { intros Ha. pose proof (ac_count _ Ha) as Hc. rewrite Eseg in Hc. simpl in Hc. lia. }
  set (segs := s0 :: rest) in *. assert (Hv0 : 0 <= vaddr s0) by (apply list.Forall_cons in Hs; tauto).
  eapply decides_iff with (P := Z.of_nat (length segs) <= 4 /\ vaddr s0 mod SEG_ALIGN = 0 /\
    (Forall (fun s => vaddr s mod SEG_ALIGN = 0) segs /\ in_order (vaddr s0) segs /\
     Forall (fun s => ~ (is_exec s /\ is_writable s)) segs) /\
    Exists (fun s => is_exec s /\ vaddr s <= word 8 24 elf < seg_end s) segs /\
    top_of segs - vaddr s0 <= MAX_FLAT_SIZE /\ True).
  { split.
    - intros (C1 & _ & (C3 & C4 & C5) & C6 & C7 & _). split; rewrite ?Eseg; try done. fold segs. simpl in *. lia.
    - intros [C1 C2 C3 C4 C5 C6 C7]. rewrite Eseg in C2, C3, C4, C5, C6, C7. simpl in C4, C7. split_and!; try done; [simpl in *; lia|].
      by apply list.Forall_cons in C3 as []. }
  apply decides_require; [apply Z.leb_le|intros _]. apply decides_require; [apply Z.eqb_eq|intros _].
  eapply decides_bind; [apply decides_False, check_layout_spec|].
  { eapply list.Forall_impl; [exact Hs|]. intros s [(_ & _ & He) _]. exact He. }
  intros [pe b] (C3 & C4 & C5) [E1 E2]. cbn [fst snd] in *. subst pe.
  apply decides_require; [rewrite E2; split; [by intros [|]|by right]|intros _].
  assert (Hm : Forall (fun s => 0 <= memsz s) segs).
  { eapply list.Forall_impl; [exact Hs|]. simpl. intros s Hx. lia. }
  destruct (last_end_spec _ _ C4 Hm) as (L1 & L2 & L3). specialize (L3 ltac:(done)).
  destruct (round_up_spec SEG_ALIGN (last_end (vaddr s0) segs)) as [_ R2]; [done|].
  unfold mul_p. rewrite div_ceil_mul by done. destruct (Z.ltb_spec (round_up SEG_ALIGN (last_end (vaddr s0) segs)) U64).
  2:{ simpl. rewrite list.Exists_exists in *. destruct L3 as (s & Hin & Hx). exists s. split; [done|lia]. }
  cbn [rbind]. rewrite sub_p_ok by lia. cbn [rbind].
  apply decides_require; [apply Z.leb_le|intros Hsz].
  destruct (copy_flat segs (vaddr s0) Hs C4 Hv0 Hsz) as (flat & -> & Lf & Him). cbn [rbind].
  split; [done|]. split; rewrite ?Eseg; try done. fold segs. apply Forall2_fmap_r, Forall_Forall2_diag.
  eapply list.Forall_impl; [exact C5|]. apply seg_matches_kind.
Qed.
End flat.

(** ** The image and the kernel *)

Lemma in_order_unique lo segs s t a :
  in_order lo segs -> Forall (fun s => 0 <= memsz s) segs -> s ∈ segs -> t ∈ segs ->
  vaddr s <= a < seg_end s -> vaddr t <= a < seg_end t -> s = t.
Proof.
  intros Ho Hm Hs Ht Ha Hb. revert lo Ho Hs Ht. induction Hm as [|u segs Hu Hm IH]; intros lo Ho Hs Ht;
    [by apply not_elem_of_nil in Hs|]. destruct Ho as [_ Ho].
  apply elem_of_cons in Hs as [->|Hs]; apply elem_of_cons in Ht as [->|Ht]; [done| | |by eapply IH].
  - pose proof (in_order_above _ _ t Ho Hm Ht). lia.
  - pose proof (in_order_above _ _ s Ho Hm Hs). lia.
Qed.

Section spawn.
Context `{Platform}.

Lemma seg_align_granule a : a mod SEG_ALIGN = 0 -> a mod GRANULE = 0.
Proof. unfold GRANULE. intros Ha. destruct plat; unfold SEG_ALIGN in *; div_lia. Qed.

(** A segment that [map_segs] has no objection to. *)
Definition layout_ok (base image_end entry : Z) (s : LoadSeg) : Prop :=
  s_va s + s_memsz s < U64 /\ base <= s_va s /\ s_va s + s_memsz s <= image_end /\ s_va s mod GRANULE = 0 /\
  s_memsz s <> 0 /\ (s_va s <= entry < s_va s + s_memsz s -> s_kind s = SegKind.Text).

Lemma mmu_not_layout {A} (m : M mem_state MmuError.t A) {B} (k : A -> M mem_state SpawnError.t B) s :
  (forall a s1, (k a s1).1 <> Err SpawnError.BadLayout) -> (bind (mmu m) k s).1 <> Err SpawnError.BadLayout.
Proof. intros Hk. unfold bind, mmu, throw_map. by destruct (m s) as [[a|e| |] s1]; simpl. Qed.

Lemma map_segs_layout root base image_end entry frames segs s :
  Forall (layout_ok base image_end entry) segs ->
  (map_segs root base image_end entry frames segs s).1 <> Err SpawnError.BadLayout.
Proof.
  intros Hs. revert s. induction Hs as [|sg segs (L1 & L2 & L3 & L4 & L5 & L6) Hs IH]; intros s; cbn [map_segs]; [done|].
  unfold checked_add. rewrite (proj2 (Z.ltb_lt _ _) L1). cbn [ok_or]. unfold bind at 1, lift at 1.
  rewrite (proj2 (Z.ltb_ge _ _) L2), (proj2 (Z.ltb_ge _ _) L3), (proj2 (Z.eqb_eq _ _) L4), (proj2 (Z.eqb_neq _ _) L5).
  cbn [orb negb]. unfold bind at 1, lift at 1. unfold add_p. destruct (_ <? U64); [|done].
  apply mmu_not_layout. intros [] s1.
  destruct (_ && _) eqn:Eb; [|apply IH]. bool_to_prop. by rewrite bool_decide_eq_true_2 in * by tauto.
Qed.

Lemma spawn_root_layout image base entry segs bi s :
  base mod GRANULE = 0 -> Z.of_nat (length image) mod GRANULE = 0 -> 0 < Z.of_nat (length image) -> segs <> [] ->
  base + Z.of_nat (length image) < U64 -> base <= entry < base + Z.of_nat (length image) ->
  Forall (layout_ok base (base + Z.of_nat (length image)) entry) segs ->
  (spawn_root image base entry segs bi s).1 <> Err SpawnError.BadLayout.
Proof.
  intros H1 H2 H3 H4 H5 H6 Hs. unfold spawn_root. rewrite H1, H2, (proj2 (Z.eqb_neq (Z.of_nat _) 0)) by lia.
  rewrite bool_decide_eq_false_2 by done. cbn [Z.eqb negb orb]. unfold checked_add.
  rewrite (proj2 (Z.ltb_lt _ _) H5). unfold bind at 1, lift at 1. cbn [ok_or].
  apply mmu_not_layout. intros frames s1.
  unfold bind at 1, lift at 1, add_p. destruct (_ <? U64); [|done]. unfold bind at 1, modS. unfold bind at 1, lift at 1.
  destruct (_ <? U64); [|done]. apply mmu_not_layout.
  intros root s3. unfold bind at 1. pose proof (map_segs_layout root base _ entry frames segs s3 Hs) as Hm.
  destruct (map_segs _ _ _ _ _ _ _) as [[[]|e| |] s4]; simpl in Hm |- *; try done; [|congruence].
  rewrite (proj2 (Z.leb_le _ _)), (proj2 (Z.ltb_lt _ _)) by lia. cbn [andb negb].
  apply mmu_not_layout. intros stack s6.
  apply mmu_not_layout. intros [] s8.
  apply mmu_not_layout. done.
Qed.
End spawn.

(** ** The boot keys *)

Lemma length_le_bytes n v : length (le_bytes n v) = n.
Proof. revert v. induction n as [|n IH]; intros v; simpl; [done|]. by rewrite IH. Qed.

Lemma le_bytes_bytes n v : Forall is_byte (le_bytes n v).
Proof.
  revert v. induction n as [|n IH]; intros v; simpl; constructor; [|apply IH]. unfold is_byte. apply Z.mod_pos_bound. lia.
Qed.

Lemma le_word_bytes n v : le_word (le_bytes n v) = v mod 256 ^ Z.of_nat n.
Proof.
  revert v. induction n as [|n IH]; intros v; [by rewrite Z.mod_1_r|].
  cbn [le_bytes]. change (le_word (?b :: ?l)) with (b + 256 * le_word l). rewrite IH.
  rewrite Nat2Z.inj_succ, Z.pow_succ_r by lia. rewrite Z.rem_mul_r by lia. lia.
Qed.

Lemma le_bytes_inj v v' : is_u64 v -> is_u64 v' -> le_bytes 8 v = le_bytes 8 v' -> v = v'.
Proof.
  unfold is_u64. intros Hv Hv' E. apply (f_equal le_word) in E. rewrite !le_word_bytes in E. 
  change (256 ^ Z.of_nat 8) with U64 in E. by rewrite !Z.mod_small in E.
Qed.

Lemma words_inj xs ys :
  Forall is_u64 xs -> Forall is_u64 ys -> mjoin (le_bytes 8 <$> xs) = mjoin (le_bytes 8 <$> ys) -> xs = ys.
Proof.
  intros Hx. revert ys. induction Hx as [|x xs Hx0 Hx IH]; intros ys Hy E; destruct Hy as [|y ys Hy0 Hy]; try done.
  cbn [fmap list_fmap mjoin list_join] in E. apply app_inj_1 in E as [E1 E2]; [|by rewrite !length_le_bytes].
  f_equal; [by apply le_bytes_inj|by apply IH].
Qed.

Lemma key_message_app c e x :
  key_message c e x = lit "k0-pac-boot-key-v1" ++ [c] ++ le_bytes 8 (Z.of_nat (length e)) ++ e ++ mjoin (le_bytes 8 <$> x).
Proof. reflexivity. Qed.

Lemma length_mjoin {A} k (bs : list (list A)) : Forall (fun b => length b = k) bs -> length (mjoin bs) = (k * length bs)%nat.
Proof.
  induction 1 as [|b bs Hb Hbs IH]; [cbn; lia|]. change (mjoin (b :: bs)) with (b ++ mjoin bs). cbn [length]. rewrite length_app. lia.
Qed.

Lemma length_key_message c e x : length (key_message c e x) = (27 + length e + 8 * length x)%nat.
Proof.
  rewrite key_message_app, !length_app, length_le_bytes, (length_mjoin 8), length_fmap.
  - change (length (lit "k0-pac-boot-key-v1")) with 18%nat. change (length [c]) with 1%nat. lia.
  - apply Forall_fmap, Forall_true. intros w. apply length_le_bytes.
Qed.

Lemma key_message_inj c c' e e' x x' :
  is_u64 (Z.of_nat (length e)) -> is_u64 (Z.of_nat (length e')) -> Forall is_u64 x -> Forall is_u64 x' ->
  key_message c e x = key_message c' e' x' -> c = c' /\ e = e' /\ x = x'.
Proof.
  intros He He' Hx Hx' E. rewrite !key_message_app in E. apply app_inv_head in E. apply app_inj_1 in E as [Ec E]; [|done]. injection Ec as ->.
  apply app_inj_1 in E as [El E]; [|by rewrite !length_le_bytes]. apply le_bytes_inj in El; [|done..].
  apply app_inj_1 in E as [-> E]; [|lia]. split_and!; [done|done|]. by apply words_inj.
Qed.

(** ** Theorems *)

(** C28: the build script accepts exactly the static AArch64 executables whose
    load segments are aligned, disjoint, never writable and executable, contain
    the entry point in executable code and fit the size limit, unless a segment
    ends in the last 16 KiB of the address space: rounding its end up may then
    overflow, and the script panics even on an executable that it would accept
    elsewhere.  An accepted file's image holds the file's bytes at their addresses
    and zeros elsewhere; the segment table lists the load segments by address,
    each with a kind whose pages the kernel makes writable at EL0 if and only if
    the ELF flags say so, and executable if and only if they say so; and the hash
    is the image's.  Anything else fails an assertion. *)
Theorem build_exact `{Hash} elf :
  Forall is_byte elf -> Z.of_nat (length elf) < 2 ^ 63 ->
  digest (lit "abc") = ABC_DIGEST -> digest [] = EMPTY_DIGEST ->
  Permutation (filter (fun s => 0 < memsz s) (headers elf)) (segments elf) /\
  match build elf with
  | Ok g => accepted elf /\ flattened elf g
  | Err _ => ~ accepted elf
  | Panic => Exists (fun s => U64 - SEG_ALIGN < seg_end s) (segments elf)
  | OutOfFuel => False
  end.
Proof.
  intros Hb Hl H1 H2. split; [apply sort_segs_perm|]. unfold build.
  rewrite !bool_decide_eq_true_2 by done. exact (flatten_spec elf Hb Hl).
Qed.

Section built.
Context `{Platform} (elf : list Z) (Hbytes : Forall is_byte elf).

Lemma built_layout `{Hash} g :
  accepted elf -> flattened elf g ->
  let base := ROOT_TASK_BASE g in let len := Z.of_nat (length (ROOT_TASK_IMAGE g)) in
  base mod GRANULE = 0 /\ len mod GRANULE = 0 /\ 0 < len /\ ROOT_TASK_SEGMENTS g <> [] /\ base + len < U64 /\
  base <= ROOT_TASK_ENTRY g < base + len /\
  Forall (layout_ok base (base + len) (ROOT_TASK_ENTRY g)) (ROOT_TASK_SEGMENTS g).
Proof.
  intros [Hok Hc Ha Ho Hwx He Hsz] Hfl. pose proof (flattened_segs elf g Hfl) as Fs. destruct Hfl as [Fb Fe _ Fl _ Ft _]. intros base len. subst base len. rewrite Fb, Fe, Fs, Fl.
  replace (base_of _ + (_ - _)) with (top_of (segments elf)) by lia.
  pose proof (segments_sound elf Hbytes Hok) as Hs. set (segs := segments elf) in *.
  assert (Hm : Forall (fun s => 0 <= memsz s) segs).
  { eapply list.Forall_impl; [exact Hs|]. simpl. intros s Hx. lia. }
  destruct (last_end_spec _ _ Ho Hm) as (L1 & L2 & _).
  destruct (round_up_spec SEG_ALIGN (last_end (base_of segs) segs)) as [R1 R2]; [done|]. fold (top_of segs) in *.
  apply list.Exists_exists in He as (t & Ht & Hx & Hen).
  pose proof (in_order_above _ _ t Ho Hm Ht) as Habove.
  rewrite list.Forall_forall in Hs, Ha, L2. pose proof (L2 t Ht) as Htop. simpl in Htop.
  assert (Hb : base_of segs mod SEG_ALIGN = 0).
  { destruct segs as [|s0 rest]; [done|]. apply Ha. by left. }
  split_and!; [by apply seg_align_granule| |lia| |done|lia|lia|].
  - apply seg_align_granule. rewrite Zminus_mod, R1, Hb. done.
  - intros E. apply fmap_nil_inv in E. by rewrite E in Ht; apply not_elem_of_nil in Ht.
  - apply Forall_fmap, list.Forall_forall. intros s Hin. pose proof (Hs s Hin) as ((_ & _ & ?) & ? & _).
    pose proof (L2 s Hin) as Hle. simpl in Hle. unfold layout_ok, seg_end in *. simpl.
    split_and!; [done|by eapply in_order_above|lia|by apply seg_align_granule, Ha|lia|].
    intros Hin2. rewrite (in_order_unique _ _ s t _ Ho Hm Hin Ht Hin2 Hen).
    unfold seg_kind. by rewrite land_bit0, Hx.
Qed.
End built.

(** What the boot sequence relies on in the build's output. *)
Definition gen_ok (g : Generated) : Prop :=
  0 <= ROOT_TASK_BASE g /\ Forall (fun s => 0 <= s_va s /\ 0 <= s_memsz s) (ROOT_TASK_SEGMENTS g) /\
  Exists (fun s => s_kind s = SegKind.Text) (ROOT_TASK_SEGMENTS g).

Lemma build_gen_ok `{Hash} elf g :
  Forall is_byte elf -> Z.of_nat (length elf) < 2 ^ 63 -> build elf = Ok g -> gen_ok g.
Proof.
  intros Hb Hl E. unfold build in E. apply rbind_Ok in E as (_ & _ & E). apply rbind_Ok in E as (_ & _ & E).
  pose proof (flatten_spec elf Hb Hl) as Hf. rewrite E in Hf.
  destruct Hf as [[Hok _ _ Ho _ He _] Hfl]. pose proof (flattened_segs elf g Hfl) as Fs. destruct Hfl as [Fb _ _ _ _ _ _]. pose proof (segments_sound elf Hb Hok) as Hs.
  unfold gen_ok. rewrite Fb, Fs. split_and!.
  - unfold base_of. destruct Hs as [|s segs Hx _]; [done|]. simpl. lia.
  - apply Forall_fmap. eapply list.Forall_impl; [exact Hs|]. intros s Hx. simpl in *. lia.
  - apply Exists_fmap. apply list.Exists_exists in He as (t & Ht & Hx & _). apply list.Exists_exists. exists t.
    split; [done|]. simpl. unfold seg_kind. by rewrite land_bit0, Hx.
Qed.

Lemma derive_words `{HashOk} dtb_entropy extra :
  Z.of_nat (27 + length dtb_entropy + 8 * length extra) < 2 ^ 61 ->
  exists keys, derive_pac_keys dtb_entropy extra = Ok keys /\ length keys = 10%nat /\
    forall k, 0 <= k < 10 -> get keys k =
      Some (le_word (take 8 (drop (Z.to_nat (8 * (k mod 4))) (digest (key_message (k / 4) dtb_entropy extra))))).
Proof.
  intros Hlen.
  assert (Hb : forall c, hash_finalize (foldl hash_update hash_new (key_parts c dtb_entropy extra)) =
    digest (key_message c dtb_entropy extra) /\ length (digest (key_message c dtb_entropy extra)) = 32%nat).
  { intros c. pose proof (length_key_message c dtb_entropy extra) as Hk.
    split; [apply hash_stream|apply hash_length]; fold (key_message c dtb_entropy extra); rewrite Hk; done. }
  unfold derive_pac_keys.
  do 3 (cbn -[key_parts key_message digest foldl le_word take drop Nat.div]; rewrite (proj1 (Hb _)), (proj2 (Hb _));
        change (32 / 8)%nat with 4%nat).
  cbn -[key_parts key_message digest le_word take drop]. rewrite !drop_drop.
  eexists. split; [reflexivity|]. split; [done|]. intros k Hk.
  assert (Hc : k ∈ [0; 1; 2; 3; 4; 5; 6; 7; 8; 9]).
  { rewrite !elem_of_cons. lia. }
  repeat (apply elem_of_cons in Hc as [->|Hc]; [reflexivity|]). by apply not_elem_of_nil in Hc.
Qed.

(** C31: what the build produces the kernel loads: the integrity check accepts it
    and hands over exactly its image and segments, of which there are at most
    four, and the spawn of the root task never rejects its layout, whatever the
    platform and the state of memory. *)
Theorem built_image_loads `{Platform, Hash} elf g bi s :
  Forall is_byte elf -> Z.of_nat (length elf) < 2 ^ 63 -> build elf = Ok g ->
  exists rt, verify_root_task g = Ok rt /\ (length (rt_segments rt) <= 4)%nat /\
    rt = mkRT (ROOT_TASK_IMAGE g) (ROOT_TASK_BASE g) (ROOT_TASK_ENTRY g) (ROOT_TASK_SEGMENTS g) /\
    (spawn_root (rt_image rt) (rt_base rt) (rt_entry rt) (rt_segments rt) bi s).1 <> Err SpawnError.BadLayout.
Proof.
  intros Hb Hl E. unfold build in E. apply rbind_Ok in E as (_ & _ & E). apply rbind_Ok in E as (_ & _ & E).
  pose proof (flatten_spec elf Hb Hl) as Hf. rewrite E in Hf. destruct Hf as [Hacc Hfl].
  eexists. split; [|split; [|split; [done|]]].
  - unfold verify_root_task. by rewrite bool_decide_eq_true_2 by (symmetry; apply (fl_hash _ _ Hfl)).
  - simpl. rewrite (flattened_segs _ _ Hfl), length_fmap. apply (ac_count _ Hacc).
  - simpl. destruct (built_layout elf Hb g Hacc Hfl) as (? & ? & ? & ? & ? & ? & ?).
    by apply spawn_root_layout.
Qed.

(** Key derivation terminates and is the counter-mode expansion: word [k] is
    the [k mod 4]-th word of the hash of block [k / 4], which is given to the hash
    piece by piece, and no two different counters, seeds or extra words are hashed as the same message. *)
Lemma derive_pac_keys_exact `{HashOk} dtb_entropy extra :
  Z.of_nat (27 + length dtb_entropy + 8 * length extra) < 2 ^ 61 -> Forall is_u64 extra ->
  (exists keys, derive_pac_keys dtb_entropy extra = Ok keys /\ length keys = 10%nat /\
     forall k, 0 <= k < 10 -> get keys k =
       Some (le_word (take 8 (drop (Z.to_nat (8 * (k mod 4))) (digest (key_message (k / 4) dtb_entropy extra)))))) /\
  (forall c c' e' x', is_u64 (Z.of_nat (length e')) -> Forall is_u64 x' ->
     key_message c dtb_entropy extra = key_message c' e' x' -> c = c' /\ dtb_entropy = e' /\ extra = x').
Proof.
  intros Hl Hx. split; [by apply derive_words|]. intros c c' e' x' He' Hx'. apply key_message_inj; [|done..]. unfold is_u64. lia.
Qed.

Lemma all_bytes l : forallb (fun b => (0 <=? b) && (b <? 256)) l = true -> Forall is_byte l.
Proof.
  intros Hb. rewrite forallb_forall in Hb. apply list.Forall_forall. intros b Hin%list_elem_of_In%Hb.
  apply andb_true_iff in Hin as [?%Z.leb_le ?%Z.ltb_lt]. done.
Qed.

(** ** An instance

    A small executable: a text segment, a data segment with zero-initialised
    memory behind it, and a header that is not loaded. *)

Module ImageEx.
#[export] Instance ex_plat : Platform := PlatVirt.

(** A hash of the right length that agrees with SHA-256 on its test vectors. *)
Definition test_digest (m : list Z) : list Z :=
  if bool_decide (m = lit "abc") then ABC_DIGEST else if bool_decide (m = []) then EMPTY_DIGEST else
  take 32 (le_bytes 8 (Z.of_nat (length m)) ++ replicate 32 0).

#[export] Instance test_hash : Hash := {|
  hasher := list Z; hash_new := []; hash_update h m := h ++ m; hash_finalize := test_digest
|}.

#[export] Instance test_hash_ok : HashOk.
Proof.
  split; [|intros m _; unfold digest; simpl; unfold test_digest; by repeat case_match|].
  2:{ intros m _. unfold digest. simpl. unfold test_digest. repeat case_match; [by apply all_bytes..|].
      apply Forall_take, Forall_app. split; [apply le_bytes_bytes|]. by apply Forall_replicate. }
  intros ms _. cbn [hash_finalize hash_update hash_new test_hash digest]. f_equal. simpl.
  assert (Hf : forall h, foldl app h ms = h ++ mjoin ms); [|apply (Hf [])].
  induction ms as [|m ms IH]; intros h; [by rewrite app_nil_r|]. cbn [foldl]. rewrite IH. by rewrite <- app_assoc.
Qed.

Definition header : list Z :=
  (0x7f :: lit "ELF") ++ [2; 1] ++ replicate 10 0 ++ le_bytes 2 2 ++ le_bytes 2 183 ++ replicate 4 0 ++
  le_bytes 8 0x400004 ++ le_bytes 8 64 ++ replicate 14 0 ++ le_bytes 2 56 ++ le_bytes 2 3 ++ replicate 6 0.

Definition phdr (ty flags off va filesz memsz : Z) : list Z :=
  le_bytes 4 ty ++ le_bytes 4 flags ++ le_bytes 8 off ++ le_bytes 8 va ++ le_bytes 8 va ++
  le_bytes 8 filesz ++ le_bytes 8 memsz ++ le_bytes 8 0x4000.

Definition elf : list Z :=
  header ++ phdr 1 6 240 0x404000 4 64 ++ phdr 4 0 0 0 0 0 ++ phdr 1 5 232 0x400000 8 8 ++
  [1; 2; 3; 4; 5; 6; 7; 8] ++ [9; 10; 11; 12].

Lemma elf_bytes : Forall is_byte elf /\ Z.of_nat (length elf) < 2 ^ 63.
Proof. split; [apply all_bytes|]; by vm_compute. Qed.

Definition get_or_empty (r : R Generated) : Generated :=
  match r with Ok g => g | _ => mkGen [] [] 0 0 [] end.
Definition g : Generated := get_or_empty (build elf).

Lemma builds : match build elf with Ok _ => true | _ => false end = true.
Proof. by vm_compute. Qed.

Lemma built : build elf = Ok g.
Proof. pose proof builds as Hb. unfold g. by destruct (build elf). Qed.

Lemma build_exact_witness : accepted elf /\ flattened elf g.
Proof.
  destruct elf_bytes as [Hb Hl].
  pose proof (build_exact elf Hb Hl eq_refl eq_refl) as [_ Hx]. by rewrite built in Hx.
Defined.

Lemma built_image_loads_witness :
  exists rt, verify_root_task g = Ok rt /\ (length (rt_segments rt) <= 4)%nat /\
    rt = mkRT (ROOT_TASK_IMAGE g) (ROOT_TASK_BASE g) (ROOT_TASK_ENTRY g) (ROOT_TASK_SEGMENTS g) /\
    (spawn_root (rt_image rt) (rt_base rt) (rt_entry rt) (rt_segments rt) 0x40300000 (SpawnEx.fa, ∅)).1
      <> Err SpawnError.BadLayout.
Proof.
  exact (built_image_loads elf g 0x40300000 (SpawnEx.fa, ∅) (proj1 elf_bytes) (proj2 elf_bytes) built).
Defined.

Lemma derive_pac_keys_exact_witness :
  exists keys, derive_pac_keys [1; 2; 3] [5; 7] = Ok keys /\ length keys = 10%nat.
Proof.
  destruct (derive_pac_keys_exact [1; 2; 3] [5; 7]) as [(keys & H1 & H2 & _) _].
  - by vm_compute.
  - by repeat constructor.
  - by exists keys.
Defined.
End ImageEx.
