(* ===== verification/Sha256.v ===== *)
(** * SHA-256

    The vendored crates behind [Sha256::digest] and [Sha256::new], [update] and
    [finalize]: vendor/sha2 (consts.rs, sha256/soft.rs, core_api.rs), the block
    buffer of vendor/block-buffer, and the wrapper of vendor/digest that joins
    them.  soft.rs is the back end of the kernel's target; it works on vectors of
    four words in the manner of the processor instructions, two rounds at a time.

    The reference is the standard, FIPS 180-4: one round at a time on eight
    working variables, one word of the message schedule at a time, and padding of
    the whole message.  [sha256_exact] shows that hashing a message in any pieces
    gives the standard's digest, and never panics, for every message whose length
    in bits fits 64 bits; so the crates are an instance of what the boot code
    expects of its hash ([Hash] and [HashOk] of Image.v). *)

From Stdlib Require Import String.
From S2P Require Import Prelude Fdt Image.

#[local] Close Scope string_scope.

#[local] Open Scope Z_scope.

(** ** Words *)

Definition wrapping_add (a b : Z) : Z := (a + b) mod U32.
Definition rotate_right (v n : Z) : Z := Z.lor (Z.shiftr v n) (Z.shiftl v (32 - n) mod U32).

(** ** consts.rs *)

(** The source's rows of eight. *)
Definition K32 : list Z := mjoin
  [[0x428a2f98; 0x71374491; 0xb5c0fbcf; 0xe9b5dba5; 0x3956c25b; 0x59f111f1; 0x923f82a4; 0xab1c5ed5];
   [0xd807aa98; 0x12835b01; 0x243185be; 0x550c7dc3; 0x72be5d74; 0x80deb1fe; 0x9bdc06a7; 0xc19bf174];
   [0xe49b69c1; 0xefbe4786; 0x0fc19dc6; 0x240ca1cc; 0x2de92c6f; 0x4a7484aa; 0x5cb0a9dc; 0x76f988da];
   [0x983e5152; 0xa831c66d; 0xb00327c8; 0xbf597fc7; 0xc6e00bf3; 0xd5a79147; 0x06ca6351; 0x14292967];
   [0x27b70a85; 0x2e1b2138; 0x4d2c6dfc; 0x53380d13; 0x650a7354; 0x766a0abb; 0x81c2c92e; 0x92722c85];
   [0xa2bfe8a1; 0xa81a664b; 0xc24b8b70; 0xc76c51a3; 0xd192e819; 0xd6990624; 0xf40e3585; 0x106aa070];
   [0x19a4c116; 0x1e376c08; 0x2748774c; 0x34b0bcb5; 0x391c0cb3; 0x4ed8aa4a; 0x5b9cca4f; 0x682e6ff3];
   [0x748f82ee; 0x78a5636f; 0x84c87814; 0x8cc70208; 0x90befffa; 0xa4506ceb; 0xbef9a3f7; 0xc67178f2]].

Definition H256_256 : list Z :=
  [0x6a09e667; 0xbb67ae85; 0x3c6ef372; 0xa54ff53a; 0x510e527f; 0x9b05688c; 0x1f83d9ab; 0x5be0cd19].

(** [[u32; 4]]. *)
Definition vec : Type := Z * Z * Z * Z.

Definition K (i : nat) : Z := nth i K32 0.

Definition K32X4 : list vec :=
  [(K 3, K 2, K 1, K 0); (K 7, K 6, K 5, K 4);
   (K 11, K 10, K 9, K 8); (K 15, K 14, K 13, K 12);
   (K 19, K 18, K 17, K 16); (K 23, K 22, K 21, K 20);
   (K 27, K 26, K 25, K 24); (K 31, K 30, K 29, K 28);
   (K 35, K 34, K 33, K 32); (K 39, K 38, K 37, K 36);
   (K 43, K 42, K 41, K 40); (K 47, K 46, K 45, K 44);
   (K 51, K 50, K 49, K 48); (K 55, K 54, K 53, K 52);
   (K 59, K 58, K 57, K 56); (K 63, K 62, K 61, K 60)].

(** ** soft.rs *)

Definition map4 (f : Z -> Z) (v : vec) : vec := let '(a, b, c, d) := v in (f a, f b, f c, f d).
Definition zip4 (f : Z -> Z -> Z) (v w : vec) : vec :=
  let '(a, b, c, d) := v in let '(a', b', c', d') := w in (f a a', f b b', f c c', f d d').

(** The names are the source's: its [shl] shifts right and its [shr] left. *)
Definition shl (v : vec) (o : Z) : vec := map4 (fun x => Z.shiftr x o) v.
Definition shr (v : vec) (o : Z) : vec := map4 (fun x => Z.shiftl x o mod U32) v.
Definition or (a b : vec) : vec := zip4 Z.lor a b.
Definition xor (a b : vec) : vec := zip4 Z.lxor a b.
Definition add (a b : vec) : vec := zip4 wrapping_add a b.

Definition sha256load (v2 v3 : vec) : vec :=
  let '(a, b, c, _) := v2 in let '(_, _, _, d) := v3 in (d, a, b, c).

Definition sha256swap (v0 : vec) : vec := let '(a, b, c, d) := v0 in (c, d, a, b).

Definition sigma0x4 (x : vec) : vec :=
  let t1 := or (shl x 7) (shr x 25) in
  let t2 := or (shl x 18) (shr x 14) in
  let t3 := shl x 3 in
  xor (xor t1 t2) t3.

Definition sha256msg1 (v0 v1 : vec) : vec := add v0 (sigma0x4 (sha256load v0 v1)).

Definition sigma1 (a : Z) : Z := Z.lxor (Z.lxor (rotate_right a 17) (rotate_right a 19)) (Z.shiftr a 10).

Definition sha256msg2 (v4 v3 : vec) : vec :=
  let '(x3, x2, x1, x0) := v4 in
  let '(w15, w14, _, _) := v3 in
  let w16 := wrapping_add x0 (sigma1 w14) in
  let w17 := wrapping_add x1 (sigma1 w15) in
  let w18 := wrapping_add x2 (sigma1 w16) in
  let w19 := wrapping_add x3 (sigma1 w17) in
  (w19, w18, w17, w16).

Definition big_sigma0 (a : Z) : Z := Z.lxor (Z.lxor (rotate_right a 2) (rotate_right a 13)) (rotate_right a 22).
Definition big_sigma1 (a : Z) : Z := Z.lxor (Z.lxor (rotate_right a 6) (rotate_right a 11)) (rotate_right a 25).
Definition bool3ary_202 (a b c : Z) : Z := Z.lxor c (Z.land a (Z.lxor b c)).
Definition bool3ary_232 (a b c : Z) : Z := Z.lxor (Z.lxor (Z.land a b) (Z.land a c)) (Z.land b c).

Definition sha256_digest_round_x2 (cdgh abef wk : vec) : vec :=
  let '(_, _, wk1, wk0) := wk in
  let '(a0, b0, e0, f0) := abef in
  let '(c0, d0, g0, h0) := cdgh in
  let x0 := wrapping_add (wrapping_add (wrapping_add (big_sigma1 e0) (bool3ary_202 e0 f0 g0)) wk0) h0 in
  let y0 := wrapping_add (big_sigma0 a0) (bool3ary_232 a0 b0 c0) in
  let '(a1, b1, c1, d1, e1, f1, g1, h1) := (wrapping_add x0 y0, a0, b0, c0, wrapping_add x0 d0, e0, f0, g0) in
  let x1 := wrapping_add (wrapping_add (wrapping_add (big_sigma1 e1) (bool3ary_202 e1 f1 g1)) wk1) h1 in
  let y1 := wrapping_add (big_sigma0 a1) (bool3ary_232 a1 b1 c1) in
  let '(a2, b2, e2, f2) := (wrapping_add x1 y1, a1, wrapping_add x1 d1, e1) in
  (a2, b2, e2, f2).

Definition schedule (v0 v1 v2 v3 : vec) : vec :=
  let t1 := sha256msg1 v0 v1 in
  let t2 := sha256load v2 v3 in
  let t3 := add t1 t2 in
  sha256msg2 t3 v3.

(** The macro [rounds4!]: the new [abef] and [cdgh]. *)
Definition rounds4 (abef cdgh rest : vec) (i : nat) : vec * vec :=
  let t1 := add rest (nth i K32X4 (0, 0, 0, 0)) in
  let cdgh := sha256_digest_round_x2 cdgh abef t1 in
  let t2 := sha256swap t1 in
  let abef := sha256_digest_round_x2 abef cdgh t2 in
  (abef, cdgh).

(** The macro [schedule_rounds4!], with the vector that it writes. *)
Definition schedule_rounds4 (abef cdgh w0 w1 w2 w3 : vec) (i : nat) : vec * vec * vec :=
  let w4 := schedule w0 w1 w2 w3 in
  (rounds4 abef cdgh w4 i, w4).

Definition sha256_digest_block_u32 (state block : list Z) : list Z :=
  let s i := nth i state 0 in
  let b i := nth i block 0 in
  let abef := (s 0%nat, s 1%nat, s 4%nat, s 5%nat) in
  let cdgh := (s 2%nat, s 3%nat, s 6%nat, s 7%nat) in
  let w0 := (b 3%nat, b 2%nat, b 1%nat, b 0%nat) in
  let w1 := (b 7%nat, b 6%nat, b 5%nat, b 4%nat) in
  let w2 := (b 11%nat, b 10%nat, b 9%nat, b 8%nat) in
  let w3 := (b 15%nat, b 14%nat, b 13%nat, b 12%nat) in
  let '(abef, cdgh) := rounds4 abef cdgh w0 0 in
  let '(abef, cdgh) := rounds4 abef cdgh w1 1 in
  let '(abef, cdgh) := rounds4 abef cdgh w2 2 in
  let '(abef, cdgh) := rounds4 abef cdgh w3 3 in
  let '(abef, cdgh, w4) := schedule_rounds4 abef cdgh w0 w1 w2 w3 4 in
  let '(abef, cdgh, w0) := schedule_rounds4 abef cdgh w1 w2 w3 w4 5 in
  let '(abef, cdgh, w1) := schedule_rounds4 abef cdgh w2 w3 w4 w0 6 in
  let '(abef, cdgh, w2) := schedule_rounds4 abef cdgh w3 w4 w0 w1 7 in
  let '(abef, cdgh, w3) := schedule_rounds4 abef cdgh w4 w0 w1 w2 8 in
  let '(abef, cdgh, w4) := schedule_rounds4 abef cdgh w0 w1 w2 w3 9 in
  let '(abef, cdgh, w0) := schedule_rounds4 abef cdgh w1 w2 w3 w4 10 in
  let '(abef, cdgh, w1) := schedule_rounds4 abef cdgh w2 w3 w4 w0 11 in
  let '(abef, cdgh, w2) := schedule_rounds4 abef cdgh w3 w4 w0 w1 12 in
  let '(abef, cdgh, w3) := schedule_rounds4 abef cdgh w4 w0 w1 w2 13 in
  let '(abef, cdgh, w4) := schedule_rounds4 abef cdgh w0 w1 w2 w3 14 in
  let '(abef, cdgh, w0) := schedule_rounds4 abef cdgh w1 w2 w3 w4 15 in
  let '(a, b, e, f) := abef in
  let '(c, d, g, h) := cdgh in
  [wrapping_add (s 0%nat) a; wrapping_add (s 1%nat) b; wrapping_add (s 2%nat) c; wrapping_add (s 3%nat) d;
   wrapping_add (s 4%nat) e; wrapping_add (s 5%nat) f; wrapping_add (s 6%nat) g; wrapping_add (s 7%nat) h].

(** [chunks_exact]: [n] pieces of [k] elements. *)
Fixpoint chunks (k n : nat) (l : list Z) : list (list Z) :=
  match n with O => [] | S n' => take k l :: chunks k n' (drop k l) end.

Definition compress (state : list Z) (blocks : list (list Z)) : list Z :=
  foldl (fun st block => sha256_digest_block_u32 st (be_val <$> chunks 4 16 block)) state blocks.

(** ** core_api.rs and the block buffer *)

Record Sha256VarCore := mkCore { core_state : list Z; block_len : Z }.
Record BlockBuffer := mkBuf { buffer : list Z; buf_pos : nat }.

(** The hasher: [CoreWrapper]. *)
Record Sha256 := mkSha { core : Sha256VarCore; buf : BlockBuffer }.

Abbreviation H := (res Empty_set).

Definition new : Sha256 := mkSha (mkCore H256_256 0) (mkBuf (replicate 64 0) 0).

Definition update_blocks (c : Sha256VarCore) (blocks : list (list Z)) : H Sha256VarCore :=
  let? n := add_p (block_len c) (Z.of_nat (length blocks)) in
  Ok (mkCore (compress (core_state c) blocks) n).

(** [copy_from_slice] into the buffer from [i] on. *)
Definition overwrite (b : list Z) (i : nat) (l : list Z) : list Z := take i b ++ l ++ drop (i + length l) b.

(** Completing a begun block, and the blocks and the leftover behind it. *)
Definition fill_block (c : Sha256VarCore) (b : BlockBuffer) (input : list Z) : H (Sha256VarCore * list Z * list Z) :=
  if (buf_pos b =? 0)%nat then Ok (c, buffer b, input) else
  let rem := (64 - buf_pos b)%nat in
  let b1 := overwrite (buffer b) (buf_pos b) (take rem input) in
  let? c1 := update_blocks c [b1] in
  Ok (c1, b1, drop rem input).

Definition split_rest (c : Sha256VarCore) (b : list Z) (input : list Z) : H Sha256 :=
  let nb := (length input / 64)%nat in
  let? c1 := if (nb =? 0)%nat then Ok c else update_blocks c (chunks 64 nb input) in
  let leftover := drop (nb * 64) input in
  Ok (mkSha c1 (mkBuf (overwrite b 0 leftover) (length leftover))).

Definition digest_blocks (c : Sha256VarCore) (b : BlockBuffer) (input : list Z) : H Sha256 :=
  let pos := buf_pos b in
  let n := length input in
  if (n <? 64 - pos)%nat then Ok (mkSha c (mkBuf (overwrite (buffer b) pos input) (pos + n))) else
  let? r := fill_block c b input in
  let '(c1, b1, input1) := r in
  split_rest c1 b1 input1.

Definition update (h : Sha256) (data : list Z) : H Sha256 := digest_blocks (core h) (buf h) data.

(** [digest_pad], with the blocks that it compresses. *)
Definition digest_pad (b : BlockBuffer) (delim : Z) (suffix : list Z) : list (list Z) :=
  let pos := buf_pos b in
  let b1 := take pos (buffer b) ++ [delim] ++ replicate (64 - (pos + 1)) 0 in
  let n := (64 - length suffix)%nat in
  if (64 - pos - 1 <? length suffix)%nat then [b1; overwrite (replicate 64 0) n suffix]
  else [overwrite b1 n suffix].

Definition finalize (h : Sha256) : H (list Z) :=
  let? len := mul_p 64 (block_len (core h)) in
  let? sum := add_p (Z.of_nat (buf_pos (buf h))) len in
  let? bit_len := mul_p 8 sum in
  let state := foldl (fun st b => compress st [b]) (core_state (core h)) (digest_pad (buf h) 0x80 (be_bytes 8 bit_len)) in
  Ok (mjoin (be_bytes 4 <$> state)).

(** ** The standard *)

Module Fips.

Definition ch (x y z : Z) : Z := Z.lxor (Z.land x y) (Z.land (Z.lnot x) z).
Definition maj (x y z : Z) : Z := Z.lxor (Z.lxor (Z.land x y) (Z.land x z)) (Z.land y z).
Definition Sigma0 (x : Z) : Z := Z.lxor (Z.lxor (rotate_right x 2) (rotate_right x 13)) (rotate_right x 22).
Definition Sigma1 (x : Z) : Z := Z.lxor (Z.lxor (rotate_right x 6) (rotate_right x 11)) (rotate_right x 25).
Definition ssig0 (x : Z) : Z := Z.lxor (Z.lxor (rotate_right x 7) (rotate_right x 18)) (Z.shiftr x 3).
Definition ssig1 (x : Z) : Z := Z.lxor (Z.lxor (rotate_right x 17) (rotate_right x 19)) (Z.shiftr x 10).

(** The working variables a to h. *)
Definition vars : Type := Z * Z * Z * Z * Z * Z * Z * Z.

Definition round (s : vars) (kw : Z * Z) : vars :=
  let '(a, b, c, d, e, f, g, h) := s in
  let t1 := (h + Sigma1 e + ch e f g + kw.1 + kw.2) mod U32 in
  let t2 := (Sigma0 a + maj a b c) mod U32 in
  ((t1 + t2) mod U32, a, b, c, (d + t1) mod U32, e, f, g).

(** The message schedule behind its first 16 words: [n] words after a window of
    sixteen. *)
Fixpoint expand (n : nat) (w : list Z) : list Z :=
  match n with
  | O => []
  | S n' =>
    let x := (ssig1 (nth 14 w 0) + nth 9 w 0 + ssig0 (nth 1 w 0) + nth 0 w 0) mod U32 in
    x :: expand n' (drop 1 w ++ [x])
  end.

Definition block (state words : list Z) : list Z :=
  match state with
  | [a; b; c; d; e; f; g; h] =>
    let '(a', b', c', d', e', f', g', h') :=
      foldl round (a, b, c, d, e, f, g, h) (zip K32 (words ++ expand 48 words)) in
    [(a + a') mod U32; (b + b') mod U32; (c + c') mod U32; (d + d') mod U32;
     (e + e') mod U32; (f + f') mod U32; (g + g') mod U32; (h + h') mod U32]
  | _ => []
  end.

(** The message with its padding: a one bit, zeros, and the length in bits. *)
Definition padded (m : list Z) : list Z :=
  let l := Z.of_nat (length m) in
  m ++ [0x80] ++ replicate (Z.to_nat ((55 - l) mod 64)) 0 ++ be_bytes 8 (8 * l).

Definition sha256 (m : list Z) : list Z :=
  let p := padded m in
  mjoin (be_bytes 4 <$>
    foldl (fun st b => block st (be_val <$> chunks 4 16 b)) H256_256 (chunks 64 (length p / 64) p)).

End Fips.

(** ** One block *)

Lemma wadd_comm a b : wrapping_add a b = wrapping_add b a.
Proof. unfold wrapping_add. by rewrite Z.add_comm. Qed.

(** Sums modulo 2^32 in any order. *)
Ltac sum32 := unfold wrapping_add; Z.to_euclidean_division_equations; lia.

Lemma ch_eq x y z : bool3ary_202 x y z = Fips.ch x y z.
Proof.
  unfold bool3ary_202, Fips.ch. apply Z.bits_inj'. intros i Hi. rewrite !Z.lxor_spec, !Z.land_spec, Z.lxor_spec, Z.lnot_spec by done.
  by destruct (Z.testbit x i), (Z.testbit y i), (Z.testbit z i).
Qed.

(** The new word of the schedule, as soft.rs adds it up. *)
Lemma next_eq x0 x1 x9 x14 :
  wrapping_add (wrapping_add (wrapping_add x0 (Fips.ssig0 x1)) x9) (sigma1 x14) =
  (Fips.ssig1 x14 + x9 + Fips.ssig0 x1 + x0) mod U32.
Proof. change (Fips.ssig1 x14) with (sigma1 x14). sum32. Qed.

Lemma schedule_eq x0 x1 x2 x3 x4 x5 x6 x7 x8 x9 x10 x11 x12 x13 x14 x15 :
  match Fips.expand 4 [x0; x1; x2; x3; x4; x5; x6; x7; x8; x9; x10; x11; x12; x13; x14; x15] with
  | [y0; y1; y2; y3] => schedule (x3, x2, x1, x0) (x7, x6, x5, x4) (x11, x10, x9, x8) (x15, x14, x13, x12) = (y3, y2, y1, y0)
  | _ => False
  end.
Proof.
  cbn -[Z.modulo Z.add Fips.ssig0 Fips.ssig1]. rewrite <- !next_eq. reflexivity.
Qed.

(** [abef] and [cdgh] of the working variables. *)
Definition pack (s : Fips.vars) : vec * vec :=
  let '(a, b, c, d, e, f, g, h) := s in ((a, b, e, f), (c, d, g, h)).

Lemma t1_eq e f g h k w :
  wrapping_add (wrapping_add (wrapping_add (big_sigma1 e) (bool3ary_202 e f g)) (wrapping_add w k)) h =
  (h + Fips.Sigma1 e + Fips.ch e f g + k + w) mod U32.
Proof. rewrite ch_eq. change (Fips.Sigma1 e) with (big_sigma1 e). sum32. Qed.

Lemma round_x2_eq a b c d e f g h k0 w0 k1 w1 x y :
  let s := Fips.round (Fips.round (a, b, c, d, e, f, g, h) (k0, w0)) (k1, w1) in
  (sha256_digest_round_x2 (c, d, g, h) (a, b, e, f) (x, y, wrapping_add w1 k1, wrapping_add w0 k0), (a, b, e, f)) = pack s.
Proof.
  cbn -[Z.modulo Z.add Fips.Sigma0 Fips.Sigma1 Fips.ch Fips.maj wrapping_add bool3ary_202 big_sigma1].
  rewrite !t1_eq. change (Fips.maj) with bool3ary_232. change (Fips.Sigma0) with big_sigma0.
  unfold wrapping_add. by rewrite (Z.add_comm d), (Z.add_comm c).
Qed.

Lemma K32X4_nth i : (i < 16)%nat -> nth i K32X4 (0, 0, 0, 0) = (K (4 * i + 3), K (4 * i + 2), K (4 * i + 1), K (4 * i)).
Proof. intros Hi. do 16 (destruct i as [|i]; [reflexivity|]). lia. Qed.

Lemma K32_drop i :
  (i < 16)%nat -> drop (4 * i) K32 = K (4 * i) :: K (4 * i + 1) :: K (4 * i + 2) :: K (4 * i + 3) :: drop (4 * S i) K32.
Proof. intros Hi. do 16 (destruct i as [|i]; [reflexivity|]). lia. Qed.

Definition steps4 {A} (f : A -> Z * Z -> A) (s : A) (i : nat) (w0 w1 w2 w3 : Z) : A :=
  foldl f s [(K (4 * i), w0); (K (4 * i + 1), w1); (K (4 * i + 2), w2); (K (4 * i + 3), w3)].

Lemma rounds4_eq s i w0 w1 w2 w3 :
  (i < 16)%nat -> rounds4 (pack s).1 (pack s).2 (w3, w2, w1, w0) i = pack (steps4 Fips.round s i w0 w1 w2 w3).
Proof.
  intros Hi. unfold rounds4, steps4. rewrite (K32X4_nth i Hi). cbn [foldl].
  set (s2 := Fips.round (Fips.round s (K (4 * i), w0)) (K (4 * i + 1), w1)).
  destruct s as [[[[[[[a b] c] d] e] f] g] h]. cbn [pack fst snd add zip4].
  pose proof (round_x2_eq a b c d e f g h (K (4 * i)) w0 (K (4 * i + 1)) w1 (wrapping_add w3 (K (4 * i + 3)))
    (wrapping_add w2 (K (4 * i + 2)))) as E. cbv zeta in E. fold s2 in E.
  destruct s2 as [[[[[[[a2 b2] c2] d2] e2] f2] g2] h2]. cbn [pack] in E. rewrite !pair_eq in E. destruct E as (E1 & ((-> & ->) & ->) & ->).
  rewrite E1. cbn [sha256swap].
  exact (round_x2_eq a2 b2 c2 d2 e2 f2 g2 h2 (K (4 * i + 2)) w2 (K (4 * i + 3)) w3 _ _).
Qed.

(** The repetition of [schedule_rounds4!]. *)
Fixpoint quads (n i : nat) (st : vec * vec) (v0 v1 v2 v3 : vec) : vec * vec :=
  match n with
  | O => st
  | S n' =>
    let '(abef, cdgh, v4) := schedule_rounds4 st.1 st.2 v0 v1 v2 v3 i in quads n' (S i) (abef, cdgh) v1 v2 v3 v4
  end.

Lemma quads_eq n : forall i s x0 x1 x2 x3 x4 x5 x6 x7 x8 x9 x10 x11 x12 x13 x14 x15, (i + n <= 16)%nat ->
  quads n i (pack s) (x3, x2, x1, x0) (x7, x6, x5, x4) (x11, x10, x9, x8) (x15, x14, x13, x12) =
  pack (foldl Fips.round s (zip (drop (4 * i) K32)
    (Fips.expand (4 * n) [x0; x1; x2; x3; x4; x5; x6; x7; x8; x9; x10; x11; x12; x13; x14; x15]))).
Proof.
  induction n as [|n IH]; intros i s x0 x1 x2 x3 x4 x5 x6 x7 x8 x9 x10 x11 x12 x13 x14 x15 Hi.
  { change (4 * 0)%nat with 0%nat. cbn [quads Fips.expand]. by rewrite zip_with_nil_r. }
  pose proof (schedule_eq x0 x1 x2 x3 x4 x5 x6 x7 x8 x9 x10 x11 x12 x13 x14 x15) as E.
  replace (4 * S n)%nat with (S (S (S (S (4 * n))))) by lia. rewrite K32_drop by lia. cbn [quads].
  cbn [Fips.expand nth drop app] in *. unfold schedule_rounds4. cbv zeta. rewrite E, (rounds4_eq s i) by lia.
  rewrite (surjective_pairing (pack (steps4 _ _ _ _ _ _ _))). cbn [fst snd zip zip_with foldl]. rewrite <- surjective_pairing.
  rewrite IH by lia. reflexivity.
Qed.

Lemma foldl_first16 {A} (f : A -> Z * Z -> A) (s : A) x0 x1 x2 x3 x4 x5 x6 x7 x8 x9 x10 x11 x12 x13 x14 x15 l :
  foldl f s (zip K32 ([x0; x1; x2; x3; x4; x5; x6; x7; x8; x9; x10; x11; x12; x13; x14; x15] ++ l)) =
  foldl f (steps4 f (steps4 f (steps4 f (steps4 f s 0 x0 x1 x2 x3) 1 x4 x5 x6 x7) 2 x8 x9 x10 x11) 3 x12 x13 x14 x15)
    (zip (drop 16 K32) l).
Proof. reflexivity. Qed.

(** The result of a block from the last [abef] and [cdgh]. *)
Definition added (state : list Z) (r : vec * vec) : list Z :=
  let '((a, b, e, f), (c, d, g, h)) := r in zip_with wrapping_add state [a; b; c; d; e; f; g; h].

Lemma block_quads a b c d e f g h x0 x1 x2 x3 x4 x5 x6 x7 x8 x9 x10 x11 x12 x13 x14 x15 :
  let v0 := (x3, x2, x1, x0) in let v1 := (x7, x6, x5, x4) in
  let v2 := (x11, x10, x9, x8) in let v3 := (x15, x14, x13, x12) in
  sha256_digest_block_u32 [a; b; c; d; e; f; g; h] [x0; x1; x2; x3; x4; x5; x6; x7; x8; x9; x10; x11; x12; x13; x14; x15] =
  let r0 := rounds4 (a, b, e, f) (c, d, g, h) v0 0 in
  let r1 := rounds4 r0.1 r0.2 v1 1 in
  let r2 := rounds4 r1.1 r1.2 v2 2 in
  let r3 := rounds4 r2.1 r2.2 v3 3 in
  added [a; b; c; d; e; f; g; h] (quads 12 4 r3 v0 v1 v2 v3).
Proof.
  cbv zeta. unfold sha256_digest_block_u32. cbn [nth quads].
  do 4 (destruct (rounds4 _ _ _ _) as [? ?]; cbn [fst snd]).
  do 12 (destruct (schedule_rounds4 _ _ _ _ _ _ _) as [[? ?] ?]; cbn [fst snd]).
  repeat match goal with v : vec |- _ => destruct v as [[[? ?] ?] ?] end. reflexivity.
Qed.

Lemma block_eq state words :
  length state = 8%nat -> length words = 16%nat -> sha256_digest_block_u32 state words = Fips.block state words.
Proof.
  intros Hs Hw. destruct state as [|a [|b [|c [|d [|e [|f [|g [|h [|]]]]]]]]]; try discriminate Hs.
  destruct words as [|x0 [|x1 [|x2 [|x3 [|x4 [|x5 [|x6 [|x7 [|x8 [|x9 [|x10 [|x11 [|x12 [|x13 [|x14 [|x15 [|]]]]]]]]]]]]]]]]];
    try discriminate Hw.
  rewrite block_quads. cbv zeta. set (s := (a, b, c, d, e, f, g, h)).
  change (a, b, e, f) with (pack s).1. change (c, d, g, h) with (pack s).2.
  rewrite !rounds4_eq, quads_eq by lia. unfold Fips.block. rewrite foldl_first16.
  change (4 * 12)%nat with 48%nat. change (4 * 4)%nat with 16%nat. fold s.
  destruct (foldl Fips.round _ _) as [[[[[[[a' b'] c'] d'] e'] f'] g'] h']. reflexivity.
Qed.

(** ** Streams of blocks *)

Lemma chunks_app k a b l : chunks k (a + b) l = chunks k a l ++ chunks k b (drop (k * a) l).
Proof.
  revert l. induction a as [|a IH]; intros l; cbn [plus chunks app].
  - by rewrite Nat.mul_0_r.
  - rewrite IH, drop_drop. by replace (k * S a)%nat with (k + k * a)%nat by lia.
Qed.

Lemma chunks_prefix k n f r : (k * n <= length f)%nat -> chunks k n (f ++ r) = chunks k n f.
Proof.
  revert f. induction n as [|n IH]; intros f Hf; [done|]. cbn [chunks]. f_equal.
  - rewrite take_app_le by lia. done.
  - rewrite drop_app_le by lia. apply IH. rewrite length_drop. lia.
Qed.

Lemma chunks_join k a b f g : length f = (k * a)%nat -> chunks k (a + b) (f ++ g) = chunks k a f ++ chunks k b g.
Proof. intros Hf. by rewrite chunks_app, chunks_prefix, <- Hf, drop_app_length by lia. Qed.

Lemma length_chunks k n l : length (chunks k n l) = n.
Proof. revert l. induction n as [|n IH]; intros l; [done|]. cbn [chunks length]. by rewrite IH. Qed.

Definition fblock (st : list Z) (b : list Z) : list Z := Fips.block st (be_val <$> chunks 4 16 b).

Lemma length_fblock st b : length st = 8%nat -> length (fblock st b) = 8%nat.
Proof.
  intros Hs. destruct st as [|? [|? [|? [|? [|? [|? [|? [|? [|]]]]]]]]]; try discriminate Hs. unfold fblock, Fips.block.
  by destruct (foldl Fips.round _ _) as [[[[[[[? ?] ?] ?] ?] ?] ?] ?].
Qed.

Lemma compress_eq st bs : length st = 8%nat -> compress st bs = foldl fblock st bs /\ length (foldl fblock st bs) = 8%nat.
Proof.
  revert st. induction bs as [|b bs IH]; intros st Hs; [done|]. unfold compress in *. cbn [foldl].
  rewrite block_eq; [|done|by rewrite length_fmap, length_chunks]. apply IH. by apply length_fblock.
Qed.

(** The state after whole blocks. *)
Definition absorb (bs : list (list Z)) : list Z := foldl fblock H256_256 bs.

Lemma length_absorb bs : length (absorb bs) = 8%nat.
Proof. by apply compress_eq. Qed.

Lemma compress_absorb bs bs' : compress (absorb bs) bs' = absorb (bs ++ bs').
Proof. rewrite (proj1 (compress_eq _ _ (length_absorb bs))). unfold absorb. by rewrite foldl_app. Qed.

(** A core that took in the [q] blocks of [f]. *)
Record took (c : Sha256VarCore) (q : nat) (f : list Z) : Prop := {
  tk_length : length f = (64 * q)%nat;
  tk_count : block_len c = Z.of_nat q;
  tk_state : core_state c = absorb (chunks 64 q f)
}.

Lemma update_blocks_took c q f n g :
  took c q f -> length g = (64 * n)%nat -> Z.of_nat (q + n) < U64 -> exists c',
  update_blocks c (chunks 64 n g) = Ok c' /\ took c' (q + n) (f ++ g).
Proof.
  intros [Hl Hc Hs] Hg Hq. unfold update_blocks. rewrite length_chunks, Hc, add_p_ok by lia. cbn [rbind]. eexists. split; [done|].
  split; cbn [block_len core_state]; [rewrite length_app; lia|lia|]. by rewrite Hs, compress_absorb, chunks_join.
Qed.

(** A hasher that was given [m]: whole blocks in the core, the rest in the buffer. *)
Record given (h : Sha256) (m : list Z) : Prop := {
  gv_split : exists q f rest, m = f ++ rest /\ took (core h) q f /\ (length rest < 64)%nat /\
    buf_pos (buf h) = length rest /\ take (length rest) (buffer (buf h)) = rest;
  gv_buffer : length (buffer (buf h)) = 64%nat
}.

Lemma new_given : given new [].
Proof. split; [|done]. exists 0%nat, [], []. split_and!; try done. cbn. lia. Qed.

Lemma length_overwrite b i l : (i + length l <= length b)%nat -> length (overwrite b i l) = length b.
Proof. intros Hi. unfold overwrite. rewrite !length_app, length_take, length_drop. lia. Qed.

Lemma take_overwrite b i l : (i + length l <= length b)%nat -> take (i + length l) (overwrite b i l) = take i b ++ l.
Proof.
  intros Hi. unfold overwrite. rewrite app_assoc, take_app_length'; [done|]. rewrite length_app, length_take. lia.
Qed.

Section update.
Context (c : Sha256VarCore) (q : nat) (f : list Z) (Ht : took c q f).

Lemma fill_block_took b rest input :
  length (buffer b) = 64%nat -> buf_pos b = length rest -> take (length rest) (buffer b) = rest ->
  (length rest < 64)%nat -> (64 - length rest <= length input)%nat -> Z.of_nat (q + 1) < U64 ->
  exists c1 b1 input1 q1 f1, fill_block c b input = Ok (c1, b1, input1) /\ took c1 q1 f1 /\ length b1 = 64%nat /\
    (f ++ rest) ++ input = f1 ++ input1.
Proof.
  intros Hb Hp Hr Hlt Hle Hq. unfold fill_block. rewrite Hp. destruct (Nat.eqb_spec (length rest) 0) as [E|E].
  { apply nil_length_inv in E. subst rest. exists c, (buffer b), input, q, f. by rewrite app_nil_r. }
  set (r := (64 - length rest)%nat). set (l := take r input). set (b1 := overwrite (buffer b) (length rest) l).
  assert (Hl : length l = r) by (unfold l; rewrite length_take; lia).
  assert (Hb1 : b1 = rest ++ l).
  { rewrite <- (firstn_all2 (n := length rest + length l) b1) by (unfold b1; rewrite length_overwrite; lia).
    unfold b1. by rewrite take_overwrite, Hr by lia. }
  assert (Hlen : length b1 = 64%nat) by (rewrite Hb1, length_app; lia).
  destruct (update_blocks_took c q f 1 b1 Ht) as (c1 & Hu & Ht1); [lia|done|].
  assert (Hc1 : chunks 64 1 b1 = [b1]) by (cbn [chunks]; by rewrite firstn_all2 by lia).
  rewrite Hc1 in Hu. exists c1, b1, (drop r input), (q + 1)%nat, (f ++ b1). cbv zeta. rewrite Hu. cbn [rbind].
  split_and!; [done|done|done|]. rewrite Hb1, <- !app_assoc. do 2 f_equal. symmetry. apply take_drop.
Qed.

Lemma split_rest_given b input :
  length b = 64%nat -> Z.of_nat (q + length input) < U64 ->
  exists h, split_rest c b input = Ok h /\ given h (f ++ input).
Proof.
  intros Hb Hq. unfold split_rest. set (nb := (length input / 64)%nat). set (rest := drop (nb * 64) input).
  pose proof (Nat.div_mod (length input) 64 ltac:(lia)) as Hdm. pose proof (Nat.mod_upper_bound (length input) 64 ltac:(lia)) as Hmb.
  fold nb in Hdm. assert (Hrest : length rest = (length input - nb * 64)%nat) by apply length_drop.
  assert (Hu : exists c1, (if (nb =? 0)%nat then Ok c else update_blocks c (chunks 64 nb input)) = Ok (E := Empty_set) c1 /\
    took c1 (q + nb) (f ++ take (nb * 64) input)).
  { destruct (Nat.eqb_spec nb 0) as [->|E]; [exists c; by rewrite Nat.add_0_r, app_nil_r|].
    pose proof (chunks_prefix 64 nb (take (nb * 64) input) (drop (nb * 64) input)) as Hp. rewrite take_drop in Hp.
    rewrite Hp by (rewrite length_take; lia). apply update_blocks_took; [done|rewrite length_take; lia|lia]. }
  destruct Hu as (c1 & -> & Ht1). cbn [rbind]. eexists. split; [done|]. split; cbn [core buf buffer buf_pos].
  - exists (q + nb)%nat, (f ++ take (nb * 64) input), rest.
    split_and!; [rewrite <- app_assoc; f_equal; symmetry; apply take_drop|done|lia|done|]. apply (take_overwrite b 0 rest). lia.
  - by rewrite length_overwrite by lia.
Qed.
End update.

Lemma update_given h m data :
  given h m -> Z.of_nat (length (m ++ data)) < 2 ^ 61 -> exists h', update h data = Ok h' /\ given h' (m ++ data).
Proof.
  intros [(q & f & rest & -> & Ht & Hlt & Hp & Hr) Hb] Hn. pose proof (tk_length _ _ _ Ht) as Hf. rewrite !length_app in Hn.
  unfold update, digest_blocks. rewrite Hp. destruct (Nat.ltb_spec (length data) (64 - length rest)) as [Hs|Hs].
  { eexists. split; [done|]. split; cbn [core buf buffer buf_pos].
    - exists q, f, (rest ++ data). rewrite length_app, take_overwrite, Hr, app_assoc by lia. split_and!; try done; lia.
    - by rewrite length_overwrite by lia. }
  destruct (fill_block_took _ q f Ht (buf h) rest data) as (c1 & b1 & input1 & q1 & f1 & -> & Ht1 & Hb1 & E); [done..|lia|].
  cbn [rbind]. rewrite E. apply (split_rest_given c1 q1 f1); [done..|].
  assert (Hlen : length (f1 ++ input1) = (length f + length rest + length data)%nat) by (rewrite <- E, !length_app; lia).
  rewrite length_app in Hlen. pose proof (tk_length _ _ _ Ht1). lia.
Qed.

(** ** The end of the message *)

Lemma chunks_mjoin k bs : Forall (fun b => length b = k) bs -> chunks k (length bs) (mjoin bs) = bs.
Proof.
  induction 1 as [|b bs Hb Hbs IH]; [done|]. cbn [length chunks]. change (mjoin (b :: bs)) with (b ++ mjoin bs).
  by rewrite take_app_length', drop_app_length', IH.
Qed.

Definition pad_zeros (l : nat) : nat := Z.to_nat ((55 - Z.of_nat l) mod 64).

Lemma digest_pad_blocks b rest suffix :
  take (length rest) (buffer b) = rest -> buf_pos b = length rest -> (length rest < 64)%nat -> length suffix = 8%nat ->
  Forall (fun x => length x = 64%nat) (digest_pad b 0x80 suffix) /\
  mjoin (digest_pad b 0x80 suffix) = rest ++ [0x80] ++ replicate (pad_zeros (length rest)) 0 ++ suffix.
Proof.
  intros Hr Hp Hlt Hs. unfold digest_pad. rewrite Hp, Hr, Hs. set (p := length rest) in *.
  destruct (Nat.ltb_spec (64 - p - 1) 8) as [Hc|Hc].
  - assert (Hk : pad_zeros p = (64 - (p + 1) + 56)%nat) by (unfold pad_zeros; div_lia).
    assert (Ho : overwrite (replicate 64 0) (64 - 8) suffix = replicate 56 0 ++ suffix).
    { unfold overwrite. rewrite Hs. cbn [take drop replicate app]. by rewrite app_nil_r. }
    rewrite Ho. split.
    + repeat constructor; rewrite !length_app, ?length_replicate; cbn; lia.
    + cbn [mjoin list_join]. by rewrite Hk, replicate_add, app_nil_r, <- !app_assoc.
  - assert (Hk : pad_zeros p = (55 - p)%nat) by (unfold pad_zeros; div_lia).
    set (b1 := rest ++ [0x80] ++ replicate (64 - (p + 1)) 0).
    assert (Hb1 : b1 = (rest ++ [0x80] ++ replicate (55 - p) 0) ++ replicate 8 0).
    { unfold b1. replace (64 - (p + 1))%nat with (55 - p + 8)%nat by lia. by rewrite replicate_add, <- !app_assoc. }
    assert (Hl : length (rest ++ [0x80] ++ replicate (55 - p) 0) = 56%nat) by (rewrite !length_app, length_replicate; cbn; lia).
    assert (Ho : overwrite b1 (64 - 8) suffix = rest ++ [0x80] ++ replicate (55 - p) 0 ++ suffix).
    { unfold overwrite. rewrite Hs, Hb1. rewrite take_app_length' by (rewrite Hl; lia).
      rewrite drop_ge by (rewrite length_app, Hl, length_replicate; lia). by rewrite app_nil_r, <- !app_assoc. }
    rewrite Ho, Hk. split; [|cbn [mjoin list_join]; by rewrite app_nil_r].
    repeat constructor. rewrite app_assoc, app_assoc, length_app, <- app_assoc, Hl. lia.
Qed.

Lemma finalize_given h m :
  given h m -> Z.of_nat (length m) < 2 ^ 61 -> finalize h = Ok (Fips.sha256 m).
Proof.
  intros [(q & f & rest & -> & Ht & Hlt & Hp & Hr) Hb] Hn. destruct Ht as [Hf Hc Hs]. rewrite length_app in Hn.
  unfold finalize. rewrite Hc, Hp. rewrite mul_p_ok by lia. cbn [rbind]. rewrite add_p_ok by lia. cbn [rbind].
  rewrite mul_p_ok by lia. cbn [rbind]. f_equal. unfold Fips.sha256.
  assert (Hl : Z.of_nat (length rest) + 64 * Z.of_nat q = Z.of_nat (length (f ++ rest))) by (rewrite length_app; lia). rewrite Hl.
  set (suffix := be_bytes 8 (8 * Z.of_nat (length (f ++ rest)))).
  destruct (digest_pad_blocks (buf h) rest suffix Hr Hp Hlt (length_be_bytes 8 _)) as [Hall Hjoin].
  set (bs := digest_pad (buf h) 0x80 suffix) in *.
  assert (Hpad : Fips.padded (f ++ rest) = f ++ mjoin bs).
  { rewrite Hjoin. unfold Fips.padded. fold suffix. rewrite <- app_assoc. do 4 f_equal. unfold pad_zeros. f_equal.
    rewrite length_app, Hf. div_lia. }
  rewrite Hpad, length_app, (length_mjoin 64 bs Hall), Hf.
  replace ((64 * q + 64 * length bs) / 64)%nat with (q + length bs)%nat by (rewrite <- Nat.mul_add_distr_l, Nat.mul_comm, Nat.div_mul; lia).
  rewrite chunks_join, chunks_mjoin, Hs by done.
  change (foldl _ (absorb (chunks 64 q f)) bs) with (compress (absorb (chunks 64 q f)) bs). by rewrite compress_absorb.
Qed.

(** ** Theorems *)

(** A message in pieces. *)
Fixpoint stream (h : Sha256) (ms : list (list Z)) : H Sha256 :=
  match ms with [] => Ok h | m :: ms' => let? h' := update h m in stream h' ms' end.

Lemma stream_given ms : forall h m,
  given h m -> Z.of_nat (length (m ++ mjoin ms)) < 2 ^ 61 -> exists h', stream h ms = Ok h' /\ given h' (m ++ mjoin ms).
Proof.
  induction ms as [|d ms IH]; intros h m Hg Hn; [exists h; by rewrite app_nil_r|].
  change (mjoin (d :: ms)) with (d ++ mjoin ms) in *. rewrite app_assoc in *. cbn [stream].
  destruct (update_given h m d Hg) as (h1 & -> & Hg1); [rewrite length_app in Hn; lia|]. cbn [rbind]. by apply IH.
Qed.

Lemma stream_digest ms :
  Z.of_nat (length (mjoin ms)) < 2 ^ 61 -> (let? h := stream new ms in finalize h) = Ok (Fips.sha256 (mjoin ms)).
Proof.
  intros Hn. destruct (stream_given ms new [] new_given Hn) as (h & -> & Hg). cbn [rbind]. by apply finalize_given.
Qed.

Lemma length_sha256 m : length (Fips.sha256 m) = 32%nat.
Proof.
  unfold Fips.sha256. rewrite (length_mjoin 4), length_fmap.
  - by rewrite (length_absorb _).
  - apply Forall_fmap, Forall_true. intros w. apply length_be_bytes.
Qed.

Lemma sha256_bytes m : Forall is_byte (Fips.sha256 m).
Proof.
  unfold Fips.sha256. apply Forall_join, Forall_fmap, Forall_true. intros w. apply be_bytes_byte.
Qed.

(** C27: the hash is SHA-256.  Given in any pieces, a message shorter than 2^61 bytes
    is hashed without a panic to exactly the digest of the standard, 32 bytes long:
    the vectorised rounds and schedule of soft.rs are the standard's rounds, the
    block buffer neither loses, repeats nor reorders a byte, and the padding is the
    standard's. *)
Theorem sha256_exact ms :
  Z.of_nat (length (mjoin ms)) < 2 ^ 61 ->
  (let? h := stream new ms in finalize h) = Ok (Fips.sha256 (mjoin ms)) /\
  (let? h := update new (mjoin ms) in finalize h) = Ok (Fips.sha256 (mjoin ms)) /\ length (Fips.sha256 (mjoin ms)) = 32%nat.
Proof.
  intros Hn. split_and!; [by apply stream_digest| |apply length_sha256].
  assert (E : mjoin [mjoin ms] = mjoin ms) by apply app_nil_r. pose proof (stream_digest [mjoin ms]) as Hs. rewrite E in Hs.
  rewrite <- Hs by done. cbn [stream]. by destruct (update new (mjoin ms)).
Qed.

(** ** The hash of the boot code *)

Definition res_value {A} (d : A) (r : H A) : A := match r with Ok x => x | _ => d end.

#[export] Instance sha256_hash : Hash := {|
  hasher := Sha256; hash_new := new; hash_update h m := res_value h (update h m); hash_finalize h := res_value [] (finalize h)
|}.

Lemma hash_stream_eq ms : forall h h', stream h ms = Ok h' -> foldl hash_update h ms = h'.
Proof.
  induction ms as [|m ms IH]; intros h h' E; [by injection E|]. cbn [stream foldl] in *. apply rbind_Ok in E as (h1 & E1 & E).
  apply IH. cbn [hash_update sha256_hash]. by rewrite E1.
Qed.

Lemma hash_pieces ms :
  Z.of_nat (length (mjoin ms)) < 2 ^ 61 -> hash_finalize (foldl hash_update hash_new ms) = Fips.sha256 (mjoin ms).
Proof.
  intros Hn. pose proof (stream_digest ms Hn) as E. apply rbind_Ok in E as (h & Eh & Ef).
  change (hash_finalize (foldl hash_update (new : hasher) ms) = Fips.sha256 (mjoin ms)).
  rewrite (hash_stream_eq ms new h Eh). cbn [hash_finalize sha256_hash]. by rewrite Ef.
Qed.

Lemma digest_sha256 m : Z.of_nat (length m) < 2 ^ 61 -> digest m = Fips.sha256 m.
Proof.
  intros Hn. assert (E : mjoin [m] = m) by apply app_nil_r. pose proof (hash_pieces [m]) as Hp. rewrite E in Hp. by apply Hp.
Qed.

#[export] Instance sha256_hash_ok : HashOk.
Proof.
  split; [intros ms Hn; by rewrite hash_pieces, digest_sha256|..]; intros m Hn; rewrite digest_sha256 by done;
    [apply length_sha256|apply sha256_bytes].
Qed.

(** The test vectors of build.rs. *)
Lemma sha256_vectors : digest (lit "abc") = ABC_DIGEST /\ digest [] = EMPTY_DIGEST.
Proof. split; vm_compute; reflexivity. Qed.

(** The known answers of entropy/tests.rs, which were computed independently of the
    code: the key derivation of Image.v over this hash gives them. *)
Definition EMPTY_KAT : list Z :=
  [0x729a8df330f987be; 0xf9679c17f56bd421; 0x781823605f29f7dd; 0x7e60bdc4094a542f; 0x84e38a22bc72814f;
   0x91e093e2aa9040f8; 0x23a0eb5c8e9a62f4; 0x3f5d79bc5cdaf469; 0xbbe8714fac117bc3; 0x0456b946f38f631b].

Definition VIRT_KAT : list Z :=
  [0x58f5c30365904bec; 0x6714cdf3e92de4f7; 0x8ba0a935b534e3f3; 0xafb35b34380140d0; 0xc1cd2500e171a98c;
   0xc7b24c0d8e9a7664; 0x4d57df02cf8e42fb; 0x583aa4201a5c76c7; 0x98e1cb7eda9d72ca; 0x15caa266234dadaf].

Lemma derivation_matches_independent_known_answers :
  derive_pac_keys [] [] = Ok EMPTY_KAT /\ derive_pac_keys (seqZ 0 40) [0x01234567; 0] = Ok VIRT_KAT.
Proof. split; vm_compute; reflexivity. Qed.

Lemma sha256_exact_witness :
  (let? h := stream new [lit "a"; []; lit "bc"] in finalize h) = Ok (Fips.sha256 (lit "abc")) /\
  (let? h := update new (lit "abc") in finalize h) = Ok (Fips.sha256 (lit "abc")) /\ length (Fips.sha256 (lit "abc")) = 32%nat.
Proof. exact (sha256_exact [lit "a"; []; lit "bc"] eq_refl). Defined.
