(* ===== verification/Arch.v ===== *)
(** * The processor, the interrupt controller and the console

    crates/k0-arch: earlycon.rs, vectors.rs, hardening.rs, irq.rs, [sync_icache]
    of usermode.rs, and [switch_on] of crates/k0-mm/src/paging.rs.  The code reads
    and writes system registers and device registers.  The hardware behind them
    is arbitrary: an instance of [Hw] says what each access returns and how it
    changes the hardware's state.  Every access is recorded in [log], in program
    order, so the theorems say which registers the code touches, with which
    values and in which order, whatever the hardware answers.

    The two waits of the interrupt controller are bounded by [POLL_LIMIT] and run
    on exactly that fuel.  The wait for the UART is not bounded by the code; it
    runs on [fuel], and the theorems that need the console assume that the UART
    becomes ready within it. *)

From Stdlib Require Import String.
From S2P Require Import Prelude Abi Cap Task Sched Radix Paging User Kernel Fdt FdtBuild Spawn Boot.

#[local] Close Scope string_scope.
#[local] Open Scope Z_scope.

(** ** The hardware *)

Module SysReg.
Inductive t :=
| VBAR_EL1 | ESR_EL1 | ELR_EL1 | FAR_EL1 | SPSR_EL1 | SCTLR_EL1 | MAIR_EL1 | TCR_EL1 | TTBR0_EL1 | TTBR1_EL1
| CNTKCTL_EL1 | MDSCR_EL1 | PMUSERENR_EL0 | CTR_EL0
| ID_AA64DFR0_EL1 | ID_AA64ISAR0_EL1 | ID_AA64ISAR1_EL1 | ID_AA64PFR1_EL1 | ID_AA64MMFR0_EL1 | ID_AA64MMFR1_EL1
| APIAKeyLo_EL1 | APIAKeyHi_EL1 | APIBKeyLo_EL1 | APIBKeyHi_EL1
| APDAKeyLo_EL1 | APDAKeyHi_EL1 | APDBKeyLo_EL1 | APDBKeyHi_EL1 | APGAKeyLo_EL1 | APGAKeyHi_EL1
| ICC_SRE_EL1 | ICC_PMR_EL1 | ICC_IGRPEN1_EL1 | ICC_IAR1_EL1 | ICC_EOIR1_EL1
| CNTFRQ_EL0 | CNTPCT_EL0 | CNTP_TVAL_EL0 | CNTP_CTL_EL0.
End SysReg.
Import SysReg.

#[export] Instance SysReg_eq_dec : EqDecision SysReg.t.
Proof. solve_decision. Defined.

(** One access of the code, with the value read or written. *)
Inductive event :=
| Mrs (r : SysReg.t) (v : Z)
| Msr (r : SysReg.t) (v : Z)
| Rndr (v : Z) (ok : bool)
| Rd (a v : Z)
| Wr (a v : Z)
| DaifClr (imm : Z)
| DaifSet (imm : Z)
| SetPan
| Isb
| Dsb
| DcCvau (va : Z)
| IcIvau (va : Z)
| IcIallu
| TlbiVmalle1.

(** What the code can read; a read may have effects (acknowledging an interrupt,
    drawing a random number).  [hw_do] is the effect of every other access. *)
Class Hw (D : Type) := {
  hw_mrs : SysReg.t -> D -> Z * D;
  hw_rndr : D -> Z * bool * D;
  hw_read32 : Z -> D -> Z * D;
  hw_do : event -> D -> D
}.

(** The hardware, the log, and the two statics: the console's base address and
    the tick counter. *)
Record arch (D : Type) := mkArch { hw : D; log : list event; BASE : Z; TICKS : Z }.
Arguments mkArch {D}.
Arguments hw {D}.
Arguments log {D}.
Arguments BASE {D}.
Arguments TICKS {D}.

Module IrqError.
Inductive t := GicRwpTimeout | GicWakeTimeout.
End IrqError.

(** [Stopped]: an endless [wfe] loop.  [Irq e]: the error of [irq::init]. *)
Inductive stop := Stopped | Irq (e : IrqError.t).

Section arch.
Context `{Platform} {D : Type} `{!Hw D} (fuel : nat).

Abbreviation A := (M (arch D) stop).

Definition emit (e : event) (d : D) (s : arch D) : arch D := mkArch d (log s ++ [e]) (BASE s) (TICKS s).

Definition mrs (r : SysReg.t) : A Z := fun s => let '(v, d) := hw_mrs r (hw s) in (Ok v, emit (Mrs r v) d s).
Definition read32 (a : Z) : A Z := fun s => let '(v, d) := hw_read32 a (hw s) in (Ok v, emit (Rd a v) d s).
Definition mrs_rndr : A (Z * bool) := fun s =>
  let '(v, ok, d) := hw_rndr (hw s) in (Ok (v, ok), emit (Rndr v ok) d s).
Definition act (e : event) : A unit := fun s => (Ok tt, emit e (hw_do e (hw s)) s).
Definition msr (r : SysReg.t) (v : Z) : A unit := act (Msr r v).
Definition write32 (a v : Z) : A unit := act (Wr a v).

(** The instructions of one asm block. *)
Fixpoint acts (es : list event) : A unit :=
  match es with [] => ret tt | e :: es' => do! _ := act e in acts es' end.

(** [loop { wfe }]. *)
Definition wfe_loop {X} : A X := throw Stopped.

(** ** Console *)

Definition MMIO_BASE : Z := UART_BASE.

(** [FR] and [TXFF] of the PL011, [UTRSTAT] and [TX_EMPTY] of the S5L UART. *)
Definition UART_STATUS : Z := match plat with PlatVirt => 0x018 | PlatApple => 0x010 end.
Definition UART_DATA : Z := match plat with PlatVirt => 0x000 | PlatApple => 0x020 end.
Definition uart_busy (v : Z) : bool :=
  match plat with
  | PlatVirt => negb (Z.land v (Z.shiftl 1 5) =? 0)
  | PlatApple => Z.land v (Z.shiftl 1 1) =? 0
  end.

Definition use_higher_half : A unit := fun s =>
  match add_p MMIO_BASE KERNEL_VA_OFFSET with
  | Ok b => (Ok tt, mkArch (hw s) (log s) b (TICKS s))
  | Err e => (Err e, s)
  | Panic => (Panic, s)
  | OutOfFuel => (OutOfFuel, s)
  end.

Fixpoint uart_wait (n : nat) (a : Z) : A unit :=
  match n with
  | O => fun s => (OutOfFuel, s)
  | S n' => do! v := read32 a in if uart_busy v then uart_wait n' a else ret tt
  end.

Definition putb (b : Z) : A unit :=
  do! s := getS in
  let base := BASE s in
  do! st := lift (add_p base UART_STATUS) in
  do! _ := uart_wait fuel st in
  do! dr := lift (add_p base UART_DATA) in
  write32 dr b.

Definition put_byte (b : Z) : A unit :=
  do! _ := if b =? 10 then putb 13 else ret tt in putb b.

(** [put_str], and [write_str] of the [fmt::Write] instance. *)
Fixpoint put_str (l : list Z) : A unit :=
  match l with [] => ret tt | b :: l' => do! _ := put_byte b in put_str l' end.

(** The digits of [put_hex], from the [n]-th lowest on. *)
Fixpoint put_digits (n : nat) (v : Z) : A unit :=
  match n with
  | O => ret tt
  | S i =>
    let d := Z.land (Z.shiftr v (Z.of_nat i * 4)) 0xF in
    let c := if d <? 10 then 48 + d else 97 + d - 10 in
    do! _ := putb c in put_digits i v
  end.

Definition put_hex (v : Z) : A unit := do! _ := put_str (lit "0x") in put_digits 16 v.

(** ** Vectors *)

Definition install (vectors : Z) : A unit := acts [Msr VBAR_EL1 vectors; Isb].

Definition kind_name (kind : Z) : list Z :=
  match kind with
  | 0 => lit "sync-sp0" | 1 => lit "irq-sp0" | 2 => lit "fiq-sp0" | 3 => lit "serror-sp0"
  | 4 => lit "sync-spx" | 5 => lit "irq-spx" | 6 => lit "fiq-spx" | 7 => lit "serror-spx"
  | 8 => lit "sync-a64" | 9 => lit "irq-a64" | 10 => lit "fiq-a64" | 11 => lit "serror-a64"
  | 12 => lit "sync-a32" | 13 => lit "irq-a32" | 14 => lit "fiq-a32" | 15 => lit "serror-a32"
  | _ => lit "?"
  end.

Definition ec_name (ec : Z) : list Z :=
  if ec =? 0x00 then lit "unknown" else if ec =? 0x01 then lit "wfx" else
  if ec =? 0x07 then lit "fp-simd" else if ec =? 0x0E then lit "illegal-state" else
  if ec =? 0x15 then lit "svc64" else if ec =? 0x18 then lit "sysreg" else
  if ec =? 0x20 then lit "iabort-lower" else if ec =? 0x21 then lit "iabort" else
  if ec =? 0x22 then lit "pc-align" else if ec =? 0x24 then lit "dabort-lower" else
  if ec =? 0x25 then lit "dabort" else if ec =? 0x26 then lit "sp-align" else
  if ec =? 0x2F then lit "serror" else if (0x30 <=? ec) && (ec <=? 0x34) then lit "debug" else
  if ec =? 0x3C then lit "brk" else lit "?".

Definition exception_fatal (kind : Z) : A unit :=
  do! esr := mrs ESR_EL1 in
  do! elr := mrs ELR_EL1 in
  do! far := mrs FAR_EL1 in
  do! spsr := mrs SPSR_EL1 in
  let ec := Z.land (Z.shiftr esr 26) 0x3F in
  do! _ := put_str (lit "k0: EXCEPTION ") in
  do! _ := put_str (kind_name kind) in
  do! _ := put_str (10 :: lit "k0: esr = ") in
  do! _ := put_hex esr in
  do! _ := put_str (lit " ec ") in
  do! _ := put_str (ec_name ec) in
  do! _ := put_str (10 :: lit "k0: elr = ") in
  do! _ := put_hex elr in
  do! _ := put_str (lit " far = ") in
  do! _ := put_hex far in
  do! _ := put_str (lit " spsr = ") in
  do! _ := put_hex spsr in
  do! _ := put_str [10] in
  wfe_loop.

(** ** Hardening *)

Record Hardening := mkHard { pac : bool; bti : bool; pan : bool; pan2 : bool }.

(** [(v >> sh) & 0xF]: a field of an ID register. *)
Definition field (v sh : Z) : Z := Z.land (Z.shiftr v sh) 0xF.

Definition normalize_el0_exposure : A unit :=
  do! _ := acts [Msr CNTKCTL_EL1 0; Msr MDSCR_EL1 0] in
  do! dfr0 := mrs ID_AA64DFR0_EL1 in
  let pmuver := field dfr0 8 in
  do! _ := if negb (pmuver =? 0) && negb (pmuver =? 0xF) then msr PMUSERENR_EL0 0 else ret tt in
  act Isb.

Definition rndr : A (option Z) :=
  do! isar0 := mrs ID_AA64ISAR0_EL1 in
  if field isar0 60 =? 0 then ret None else
  do! r := mrs_rndr in
  ret (if (r.2 : bool) then Some r.1 else None).

Definition key (keys : list Z) (i : Z) : Z := default 0 (get keys i).

Definition enable (pac_keys : list Z) : A Hardening :=
  do! isar1 := mrs ID_AA64ISAR1_EL1 in
  do! pfr1 := mrs ID_AA64PFR1_EL1 in
  do! mmfr1 := mrs ID_AA64MMFR1_EL1 in
  let pac_addr := negb (field isar1 4 =? 0) || negb (field isar1 8 =? 0) in
  let pac_generic := negb (field isar1 24 =? 0) || negb (field isar1 28 =? 0) in
  let bti := negb (Z.land pfr1 0xF =? 0) in
  let pan_level := field mmfr1 20 in
  let pan := 1 <=? pan_level in
  let pan2 := 2 <=? pan_level in
  do! _ := normalize_el0_exposure in
  do! _ :=
    if pac_addr then
      do! _ := acts [Msr APIAKeyLo_EL1 (key pac_keys 0); Msr APIAKeyHi_EL1 (key pac_keys 1);
                     Msr APIBKeyLo_EL1 (key pac_keys 2); Msr APIBKeyHi_EL1 (key pac_keys 3);
                     Msr APDAKeyLo_EL1 (key pac_keys 4); Msr APDAKeyHi_EL1 (key pac_keys 5);
                     Msr APDBKeyLo_EL1 (key pac_keys 6); Msr APDBKeyHi_EL1 (key pac_keys 7)] in
      do! _ := if pac_generic then
                 acts [Msr APGAKeyLo_EL1 (key pac_keys 8); Msr APGAKeyHi_EL1 (key pac_keys 9)]
               else ret tt in
      do! sctlr := mrs SCTLR_EL1 in
      acts [Msr SCTLR_EL1 (Z.lor sctlr (Z.lor (Z.lor (Z.lor (Z.shiftl 1 31) (Z.shiftl 1 30)) (Z.shiftl 1 27))
                                              (Z.shiftl 1 13))); Isb]
    else ret tt in
  do! _ :=
    if pan then
      do! sctlr := mrs SCTLR_EL1 in
      acts [Msr SCTLR_EL1 (Z.land sctlr (not64 (Z.shiftl 1 23))); Isb; SetPan]
    else ret tt in
  ret (mkHard pac_addr bti pan pan2).

(** [switch_on] of the kernel's paging code. *)
Definition switch_on (ttbr0 ttbr1 tcr : Z) : A unit :=
  do! sctlr := mrs SCTLR_EL1 in
  acts [Msr MAIR_EL1 MAIR; Msr TCR_EL1 tcr; Msr TTBR0_EL1 ttbr0; Msr TTBR1_EL1 ttbr1; Dsb; TlbiVmalle1; IcIallu; Dsb;
        Isb; Msr SCTLR_EL1 (Z.lor sctlr (Z.lor (Z.lor (Z.lor SCTLR_M SCTLR_C) SCTLR_I) SCTLR_WXN)); Isb].

(** ** Caches *)

(** One pass over the lines of [p, end). *)
Fixpoint lines (n : nat) (op : Z -> event) (p line end_ : Z) : A unit :=
  match n with
  | O => fun s => (OutOfFuel, s)
  | S n' =>
    if p <? end_ then
      do! _ := act (op p) in
      do! p' := lift (add_p p line) in
      lines n' op p' line end_
    else ret tt
  end.

(** A line has at least four bytes, so a pass takes at most [len / 4 + 2] lines. *)
Definition sync_icache (va len : Z) : A unit :=
  do! ctr := mrs CTR_EL0 in
  let d_line := Z.shiftl 4 (field ctr 16) in
  let i_line := Z.shiftl 4 (Z.land ctr 0xF) in
  do! e := lift (add_p va len) in
  let n := Z.to_nat (len / 4 + 3) in
  do! _ := lines n DcCvau (Z.land va (not64 (d_line - 1))) d_line e in
  do! _ := act Dsb in
  do! _ := lines n IcIvau (Z.land va (not64 (i_line - 1))) i_line e in
  acts [Dsb; Isb].

(** ** Interrupts *)

Definition TIMER_INTID : Z := 30.
Definition GICD_CTLR : Z := GICD_BASE + KERNEL_VA_OFFSET.
Definition GICR_WAKER : Z := GICR_BASE + KERNEL_VA_OFFSET + 0x14.
Definition SGI_BASE : Z := GICR_BASE + KERNEL_VA_OFFSET + 0x10000.
Definition GICR_IGROUPR0 : Z := SGI_BASE + 0x80.
Definition GICR_ISENABLER0 : Z := SGI_BASE + 0x100.
Definition POLL_LIMIT : Z := 1000000.

(** [while read32(a) & mask != 0 { n += 1; if n > POLL_LIMIT { return Err(e) } }]. *)
Fixpoint poll (k : nat) (a mask : Z) (e : IrqError.t) (n : Z) : A unit :=
  match k with
  | O => fun s => (OutOfFuel, s)
  | S k' =>
    do! v := read32 a in
    if Z.land v mask =? 0 then ret tt else
    let n := n + 1 in
    if POLL_LIMIT <? n then throw (Irq e) else poll k' a mask e n
  end.

Definition gic_init : A unit :=
  let k := Z.to_nat (POLL_LIMIT + 1) in
  do! _ := write32 GICD_CTLR (Z.lor (Z.shiftl 1 4) (Z.shiftl 1 1)) in
  do! _ := poll k GICD_CTLR (Z.shiftl 1 31) IrqError.GicRwpTimeout 0 in
  do! w := read32 GICR_WAKER in
  let waker := Z.land w (U32 - 1 - Z.shiftl 1 1) in
  do! _ := write32 GICR_WAKER waker in
  do! _ := poll k GICR_WAKER (Z.shiftl 1 2) IrqError.GicWakeTimeout 0 in
  do! _ := write32 GICR_IGROUPR0 0xFFFFFFFF in
  do! _ := write32 GICR_ISENABLER0 (Z.shiftl 1 TIMER_INTID) in
  do! sre := mrs ICC_SRE_EL1 in
  acts [Msr ICC_SRE_EL1 (Z.lor sre 1); Isb; Msr ICC_PMR_EL1 0xFF; Msr ICC_IGRPEN1_EL1 1; Isb].

Definition ack : A Z := mrs ICC_IAR1_EL1.
Definition eoi (iar : Z) : A unit := msr ICC_EOIR1_EL1 iar.
Definition timer_freq : A Z := mrs CNTFRQ_EL0.
Definition timer_arm (interval : Z) : A unit := acts [Msr CNTP_TVAL_EL0 interval; Msr CNTP_CTL_EL0 1].
Definition timer_pending : A bool :=
  do! ctl := mrs CNTP_CTL_EL0 in ret (negb (Z.land ctl (Z.shiftl 1 2) =? 0)).

(** [TICKS.fetch_add(1) + 1]: the atomic wraps, the sum is checked. *)
Definition next_tick : A Z := fun s =>
  let old := TICKS s in
  (add_p old 1, mkArch (hw s) (log s) (BASE s) ((old + 1) mod U64)).

Definition timer_tick : A unit :=
  do! n := next_tick in
  do! _ := put_str (lit "k0: tick " ++ format_dec n ++ [10]) in
  do! f := timer_freq in
  timer_arm f.

Definition irq_init : A unit :=
  match plat with
  | PlatVirt =>
    do! _ := gic_init in
    do! f := timer_freq in
    do! _ := timer_arm f in
    act (DaifClr 6)
  | PlatApple =>
    do! f := timer_freq in
    do! _ := timer_arm f in
    act (DaifClr 5)
  end.

Definition unexpected {X} (kind : list Z) (id : Z) : A X :=
  do! _ := act (DaifSet 0xF) in
  do! _ := put_str (lit "k0: UNEXPECTED " ++ kind ++ lit " intid=" ++ format_dec id ++ [10]) in
  wfe_loop.

(** [panic]: [debug] is a build with debug assertions, [info] the text of the
    panic's message and location. *)
Definition panic_handler (debug : bool) (info : list Z) : A unit :=
  do! _ := act (DaifSet 0xF) in
  do! _ := if debug then put_str (lit "k0: PANIC " ++ info ++ [10]) else ret tt in
  wfe_loop.

Definition dispatch_irq : A bool :=
  match plat with
  | PlatVirt =>
    do! iar := ack in
    let id := Z.land iar 0xFFFFFF in
    if id =? TIMER_INTID then
      do! _ := timer_tick in
      do! _ := eoi iar in
      ret true
    else if (1020 <=? id) && (id <=? 1023) then ret false
    else unexpected (lit "irq") id
  | PlatApple => unexpected (lit "irq") 0
  end.

Definition dispatch_fiq : A bool :=
  match plat with
  | PlatApple =>
    do! p := timer_pending in
    if (p : bool) then do! _ := timer_tick in ret true else unexpected (lit "fiq") 0
  | PlatVirt => unexpected (lit "fiq") 0
  end.

Definition irq_current : A unit := do! _ := dispatch_irq in ret tt.
Definition fiq_current : A unit := do! _ := dispatch_fiq in ret tt.

(** ** Interrupts taken from EL0: the kernel's preemption policy *)

Definition on_arch {X} (m : A X) : M (arch D * kstate) stop X := fun s =>
  let '(r, a) := m s.1 in (r, (a, s.2)).
Definition on_kernel {X} (m : M kstate halt X) : M (arch D * kstate) stop X := fun s =>
  let '(r, k) := m s.2 in (map_err (fun _ => Stopped) r, (s.1, k)).

Definition irq_lower : M (arch D * kstate) stop unit :=
  do! t := on_arch dispatch_irq in if (t : bool) then on_kernel k0_preempt else ret tt.
Definition fiq_lower : M (arch D * kstate) stop unit :=
  do! t := on_arch dispatch_fiq in if (t : bool) then on_kernel k0_preempt else ret tt.
End arch.

(** ** Theory *)

Section theory.
Context `{Platform} {D : Type} `{!Hw D}.

Abbreviation A := (M (arch D) stop).

(** Whatever the hardware: [m] leaves the statics, ends with [Q] or stops with
    [R], in terms of the accesses it made; it never panics or runs out of fuel. *)
Definition does {X} (base : Z) (m : A X) (Q : X -> list event -> Prop) (R : stop -> list event -> Prop) : Prop :=
  forall s, BASE s = base -> exists evs,
    BASE (m s).2 = base /\ TICKS (m s).2 = TICKS s /\ log (m s).2 = log s ++ evs /\
    match (m s).1 with Ok x => Q x evs | Err e => R e evs | _ => False end.

Definition never (e : stop) (evs : list event) : Prop := False.

Lemma does_bind {X Y} base (m : A X) (k : X -> A Y) Q R Q' R' :
  does base m Q R -> (forall e evs, R e evs -> R' e evs) ->
  (forall x evs, Q x evs ->
     does base (k x) (fun y evs' => Q' y (evs ++ evs')) (fun e evs' => R' e (evs ++ evs'))) ->
  does base (bind m k) Q' R'.
Proof.
  intros Hm HR Hk s Hs. destruct (Hm s Hs) as (evs & Hb & Ht & Hl & Hx). unfold bind.
  destruct (m s) as [[x|e| |] s1]; simpl in *; try done; [|by exists evs; auto].
  destruct (Hk x evs Hx s1 Hb) as (evs' & Hb' & Ht' & Hl' & Hx'). exists (evs ++ evs').
  split_and!; [done|congruence|by rewrite Hl', Hl, app_assoc|done].
Qed.

Lemma does_ret {X} base (x : X) (Q : X -> list event -> Prop) R : Q x [] -> does base (ret x) Q R.
Proof. intros HQ s Hs. exists []. simpl. by rewrite app_nil_r. Qed.

Lemma does_throw {X} base e (Q : X -> list event -> Prop) (R : stop -> list event -> Prop) :
  R e [] -> does base (throw e) Q R.
Proof. intros HR s Hs. exists []. simpl. by rewrite app_nil_r. Qed.

Lemma does_mrs base r (Q : Z -> list event -> Prop) R : (forall v, Q v [Mrs r v]) -> does base (mrs r) Q R.
Proof. intros HQ s Hs. unfold mrs. destruct (hw_mrs r (hw s)) as [v d]. exists [Mrs r v]. by simpl. Qed.

Lemma does_read32 base a (Q : Z -> list event -> Prop) R : (forall v, Q v [Rd a v]) -> does base (read32 a) Q R.
Proof. intros HQ s Hs. unfold read32. destruct (hw_read32 a (hw s)) as [v d]. exists [Rd a v]. by simpl. Qed.

Lemma does_rndr base (Q : Z * bool -> list event -> Prop) R : (forall v ok, Q (v, ok) [Rndr v ok]) -> does base mrs_rndr Q R.
Proof. intros HQ s Hs. unfold mrs_rndr. destruct (hw_rndr (hw s)) as [[v ok] d]. exists [Rndr v ok]. by simpl. Qed.

Lemma does_act base e (Q : unit -> list event -> Prop) R : Q tt [e] -> does base (act e) Q R.
Proof. intros HQ s Hs. exists [e]. by simpl. Qed.

Lemma does_acts base es (Q : unit -> list event -> Prop) R : Q tt es -> does base (acts es) Q R.
Proof.
  revert Q R. induction es as [|e es IH]; intros Q R HQ; cbn [acts]; [by apply does_ret|].
  eapply (does_bind _ _ _ (fun _ evs => evs = [e]) never); [by apply does_act|by intros ? ? []|].
  intros [] evs ->. by apply IH.
Qed.

Lemma does_mono {X} base (m : A X) (Q Q' : X -> list event -> Prop) (R R' : stop -> list event -> Prop) :
  does base m Q R -> (forall x evs, Q x evs -> Q' x evs) -> (forall e evs, R e evs -> R' e evs) -> does base m Q' R'.
Proof.
  intros Hm HQ HR s Hs. destruct (Hm s Hs) as (evs & Hb & Ht & Hl & Hx). exists evs. split_and!; try done.
  destruct (m s) as [[]]; simpl in *; auto.
Qed.

(** The accesses of a straight-line computation, one at a time. *)

Section steps.
Context {Y : Type} (base : Z) (Q : Y -> list event -> Prop) (R : stop -> list event -> Prop).

Lemma does_mrs_then r (k : Z -> A Y) :
  (forall v, does base (k v) (fun y evs => Q y (Mrs r v :: evs)) (fun e evs => R e (Mrs r v :: evs))) ->
  does base (bind (mrs r) k) Q R.
Proof.
  intros Hk. eapply (does_bind _ _ _ (fun v evs => evs = [Mrs r v]) never); [by apply does_mrs|by intros ? ? []|].
  intros v evs ->. apply Hk.
Qed.

Lemma does_read_then a (k : Z -> A Y) :
  (forall v, does base (k v) (fun y evs => Q y (Rd a v :: evs)) (fun e evs => R e (Rd a v :: evs))) ->
  does base (bind (read32 a) k) Q R.
Proof.
  intros Hk. eapply (does_bind _ _ _ (fun v evs => evs = [Rd a v]) never); [by apply does_read32|by intros ? ? []|].
  intros v evs ->. apply Hk.
Qed.

Lemma does_act_then ev (k : unit -> A Y) :
  does base (k tt) (fun y evs => Q y (ev :: evs)) (fun e evs => R e (ev :: evs)) -> does base (bind (act ev) k) Q R.
Proof.
  intros Hk. eapply (does_bind _ _ _ (fun _ evs => evs = [ev]) never); [by apply does_act|by intros ? ? []|].
  intros [] evs ->. apply Hk.
Qed.

Lemma does_acts_then es (k : unit -> A Y) :
  does base (k tt) (fun y evs => Q y (es ++ evs)) (fun e evs => R e (es ++ evs)) -> does base (bind (acts es) k) Q R.
Proof.
  intros Hk. eapply (does_bind _ _ _ (fun _ evs => evs = es) never); [by apply does_acts|by intros ? ? []|].
  intros [] evs ->. apply Hk.
Qed.

Lemma does_ret_then {X} (x : X) (k : X -> A Y) : does base (k x) Q R -> does base (bind (ret x) k) Q R.
Proof. done. Qed.
End steps.
End theory.

Ltac step :=
  lazymatch goal with
  | |- does _ (bind (mrs _) _) _ _ => apply does_mrs_then; intros ?
  | |- does _ (bind (read32 _) _) _ _ => apply does_read_then; intros ?
  | |- does _ (bind (act _) _) _ _ => apply does_act_then
  | |- does _ (bind (msr _ _) _) _ _ => apply does_act_then
  | |- does _ (bind (write32 _ _) _) _ _ => apply does_act_then
  | |- does _ (bind (acts _) _) _ _ => apply does_acts_then
  | |- does _ (bind (ret _) _) _ _ => apply does_ret_then
  | |- does _ (mrs _) _ _ => apply does_mrs; intros ?
  | |- does _ (act _) _ _ => apply does_act
  | |- does _ (acts _) _ _ => apply does_acts
  | |- does _ (ret _) _ _ => apply does_ret
  | |- does _ (throw _) _ _ => apply does_throw
  | |- does _ wfe_loop _ _ => apply does_throw
  end.

(** ** The console *)

Section console.
Context `{Platform} {D : Type} `{!Hw D} (fuel : nat) (base : Z).
Context (Hbase : base = MMIO_BASE \/ base = MMIO_BASE + KERNEL_VA_OFFSET).

(** The UART reports itself ready within [n] reads of its status. *)
Fixpoint becomes_ready (n : nat) (d : D) : bool :=
  match n with
  | O => false
  | S n' => let '(v, d') := hw_read32 (base + UART_STATUS) d in if uart_busy v then becomes_ready n' d' else true
  end.

(** The bytes that a sequence of accesses sends. *)
Definition sends (e : event) : option Z :=
  match e with Wr a v => if a =? base + UART_DATA then Some v else None | _ => None end.
Definition tx (evs : list event) : list Z := omap sends evs.

(** The accesses that are not the console's. *)
Definition is_uart (e : event) : bool :=
  match e with
  | Wr a _ => a =? base + UART_DATA
  | Rd a _ => a =? base + UART_STATUS
  | _ => false
  end.
Definition other (evs : list event) : list event := filter (fun e => is_uart e = false) evs.

Lemma tx_app e1 e2 : tx (e1 ++ e2) = tx e1 ++ tx e2.
Proof. apply omap_app. Qed.

Lemma other_app e1 e2 : other (e1 ++ e2) = other e1 ++ other e2.
Proof. apply list.filter_app. Qed.

(** Only console accesses, sending [l]. *)
Definition says (l : list Z) (evs : list event) : Prop := tx evs = l /\ other evs = [].

Lemma says_app l1 l2 e1 e2 : says l1 e1 -> says l2 e2 -> says (l1 ++ l2) (e1 ++ e2).
Proof. intros [T1 O1] [T2 O2]. split; [by rewrite tx_app, T1, T2|by rewrite other_app, O1, O2]. Qed.

Context (Hready : forall d, becomes_ready fuel d = true).

Lemma uart_wait_does n s :
  becomes_ready n (hw s) = true -> exists d evs,
    uart_wait n (base + UART_STATUS) s = (Ok tt, mkArch d (log s ++ evs) (BASE s) (TICKS s)) /\ says [] evs.
Proof.
  revert s. induction n as [|n IH]; intros s Hr; [done|]. cbn [uart_wait becomes_ready] in *.
  unfold bind at 1, read32. destruct (hw_read32 (base + UART_STATUS) (hw s)) as [v d].
  assert (Hs : says [] [Rd (base + UART_STATUS) v]).
  { split; [done|]. unfold other. rewrite filter_cons, decide_False; [done|]. simpl. by rewrite Z.eqb_refl. }
  destruct (uart_busy v).
  - destruct (IH (emit (Rd (base + UART_STATUS) v) d s) Hr) as (d' & evs & -> & Hx).
    exists d', (Rd (base + UART_STATUS) v :: evs). simpl. split; [by rewrite <- app_assoc|]. by apply (says_app [] []) with (e1 := [_]).
  - by exists d, [Rd (base + UART_STATUS) v].
Qed.

Lemma base_bound : 0 <= base + UART_STATUS < U64 /\ 0 <= base + UART_DATA < U64.
Proof.
  destruct Hbase as [-> | ->]; unfold MMIO_BASE, UART_BASE, UART_STATUS, UART_DATA; destruct plat; by vm_compute.
Qed.

Lemma putb_does b : does base (putb fuel b) (fun _ => says [b]) never.
Proof.
  intros s Hs. destruct (uart_wait_does fuel s (Hready _)) as (d & evs & E & Hx).
  set (e := Wr (base + UART_DATA) b). set (s' := mkArch d (log s ++ evs) (BASE s) (TICKS s)) in E.
  assert (Ep : putb fuel b s = (Ok tt, emit e (hw_do e d) s')).
  { unfold putb, bind at 1, getS. rewrite Hs. unfold bind at 1, lift at 1. rewrite add_p_ok by apply base_bound.
    unfold bind at 1. rewrite E. unfold bind, lift. by rewrite add_p_ok by apply base_bound. }
  rewrite Ep. exists (evs ++ [e]). simpl. split_and!; [done|done|by rewrite app_assoc|].
  apply (says_app [] [b]); [done|]. unfold says, tx, other. simpl. rewrite Z.eqb_refl. split; [done|].
  rewrite filter_cons, decide_False; [done|]. simpl. by rewrite Z.eqb_refl.
Qed.

(** A newline is sent as carriage return and newline. *)
Definition crlf (b : Z) : list Z := if b =? 10 then [13; 10] else [b].

Lemma put_byte_does b : does base (put_byte fuel b) (fun _ => says (crlf b)) never.
Proof.
  unfold put_byte, crlf. destruct (b =? 10) eqn:E.
  - apply Z.eqb_eq in E as ->. eapply does_bind; [apply putb_does|by intros ? ? []|]. intros [] evs Hx.
    eapply does_mono; [apply putb_does| |by intros ? ? []]. intros [] evs' Hy. by apply (says_app [13] [10]).
  - step. apply putb_does.
Qed.

Lemma put_str_does l : does base (put_str fuel l) (fun _ => says (l ≫= crlf)) never.
Proof.
  induction l as [|b l IH]; cbn [put_str]; [by step|]. eapply does_bind; [apply put_byte_does|by intros ? ? []|].
  intros [] evs Hx. eapply does_mono; [apply IH| |by intros ? ? []]. intros [] evs' Hy. rewrite bind_cons. by apply says_app.
Qed.

Lemma put_str_then {Y} l (k : unit -> M (arch D) stop Y) Q R :
  (forall evs, says (l ≫= crlf) evs -> does base (k tt) (fun y evs' => Q y (evs ++ evs')) (fun e evs' => R e (evs ++ evs'))) ->
  does base (bind (put_str fuel l) k) Q R.
Proof. intros Hk. eapply does_bind; [apply put_str_does|by intros ? ? []|]. intros [] evs Hx. by apply Hk. Qed.

(** The lower-case hexadecimal digits of [v], [n] of them. *)
Fixpoint hex_digits (n : nat) (v : Z) : list Z :=
  match n with O => [] | S n' => hex_digits n' (v / 16) ++ [digit (v mod 16)] end.

Lemma hex_digits_cons n v : hex_digits (S n) v = digit ((v / 16 ^ Z.of_nat n) mod 16) :: hex_digits n v.
Proof.
  revert v. induction n as [|n IH]; intros v; [by rewrite Z.div_1_r|].
  change (hex_digits (S (S n)) v) with (hex_digits (S n) (v / 16) ++ [digit (v mod 16)]). rewrite IH. simpl.
  do 2 f_equal. rewrite Z.div_div, Nat2Z.inj_succ, Z.pow_succ_r by lia. done.
Qed.

Lemma put_digits_does n v : does base (put_digits fuel n v) (fun _ => says (hex_digits n v)) never.
Proof.
  induction n as [|n IH]; cbn [put_digits]; [by step|].
  set (d := Z.land _ _). assert (Ed : d = (v / 16 ^ Z.of_nat n) mod 16).
  { unfold d. change 0xF with (Z.ones 4). rewrite Z.land_ones, Z.shiftr_div_pow2 by lia.
    rewrite Z.mul_comm, Z.pow_mul_r by lia. done. }
  eapply does_bind; [apply putb_does|by intros ? ? []|]. intros [] evs Hx.
  eapply does_mono; [apply IH| |by intros ? ? []]. intros [] evs' Hy. rewrite hex_digits_cons.
  replace (digit _) with (if d <? 10 then 48 + d else 97 + d - 10); [by apply (says_app [_])|].
  rewrite <- Ed. unfold digit. destruct (_ <? _); lia.
Qed.

(** What [put_hex] prints. *)
Definition hex16 (v : Z) : list Z := lit "0x" ++ hex_digits 16 v.

Lemma put_hex_does v : does base (put_hex fuel v) (fun _ => says (hex16 v)) never.
Proof.
  unfold put_hex. apply put_str_then. intros evs Hx. eapply does_mono; [apply put_digits_does| |by intros ? ? []].
  intros [] evs' Hy. by apply says_app.
Qed.

Lemma put_hex_then {Y} v (k : unit -> M (arch D) stop Y) Q R :
  (forall evs, says (hex16 v) evs -> does base (k tt) (fun y evs' => Q y (evs ++ evs')) (fun e evs' => R e (evs ++ evs'))) ->
  does base (bind (put_hex fuel v) k) Q R.
Proof. intros Hk. eapply does_bind; [apply put_hex_does|by intros ? ? []|]. intros [] evs Hx. by apply Hk. Qed.
End console.

(** The number that hexadecimal digits denote. *)
Definition hex_value (l : list Z) : Z := foldl (fun acc c => acc * 16 + digit_value c) 0 l.

Lemma hex_value_digits n v : 0 <= v < 16 ^ Z.of_nat n -> hex_value (hex_digits n v) = v.
Proof.
  revert v. induction n as [|n IH]; intros v Hv; [change (16 ^ Z.of_nat 0) with 1 in Hv; simpl; unfold hex_value; simpl; lia|].
  rewrite Nat2Z.inj_succ, Z.pow_succ_r in Hv by lia. cbn [hex_digits]. unfold hex_value. rewrite foldl_snoc.
  fold (hex_value (hex_digits n (v / 16))). rewrite IH by (split; [apply Z.div_pos; lia|apply Z.div_lt_upper_bound; lia]).
  rewrite digit_value_digit by (apply Z.mod_pos_bound; lia). pose proof (Z.div_mod v 16). lia.
Qed.

(** Collects what was printed. *)
Ltac said :=
  repeat match goal with H : says _ _ _ |- _ => destruct H as [?T ?O] end;
  rewrite ?other_app, ?tx_app;
  repeat match goal with T : tx _ _ = _ |- _ => rewrite T; clear T end;
  repeat match goal with O : other _ _ = _ |- _ => rewrite O; clear O end;
  rewrite ?app_nil_r.

(** ** Theorems *)

Lemma crlf_lit l : Forall (fun b => b <> 10) l -> l ≫= crlf = l.
Proof.
  induction 1 as [|b l Hb Hl IH]; [done|]. rewrite bind_cons, IH. unfold crlf. by rewrite (proj2 (Z.eqb_neq b 10)).
Qed.

Lemma kind_name_crlf kind : kind_name kind ≫= crlf = kind_name kind.
Proof. unfold kind_name. repeat case_match; reflexivity. Qed.

Lemma ec_name_crlf ec : ec_name ec ≫= crlf = ec_name ec.
Proof. unfold ec_name. repeat (destruct (_ =? _); [reflexivity|]). by repeat case_match. Qed.

Section theorems.
Context `{Platform} {D : Type} `{!Hw D}.

(** The report of the fatal handler. *)
Definition fatal_text (kind esr elr far spsr : Z) : list Z :=
  lit "k0: EXCEPTION " ++ kind_name kind ++ [13; 10] ++
  lit "k0: esr = " ++ hex16 esr ++ lit " ec " ++ ec_name (Z.land (Z.shiftr esr 26) 0x3F) ++ [13; 10] ++
  lit "k0: elr = " ++ hex16 elr ++ lit " far = " ++ hex16 far ++ lit " spsr = " ++ hex16 spsr ++ [13; 10].

Lemma exception_fatal_does fuel base kind :
  base = MMIO_BASE \/ base = MMIO_BASE + KERNEL_VA_OFFSET ->
  (forall d, becomes_ready base fuel d = true) ->
  does base (exception_fatal fuel kind) (fun _ _ => False) (fun e evs => e = Stopped /\
    exists esr elr far spsr, other base evs = [Mrs ESR_EL1 esr; Mrs ELR_EL1 elr; Mrs FAR_EL1 far; Mrs SPSR_EL1 spsr] /\
      tx base evs = fatal_text kind esr elr far spsr).
Proof.
  intros Hb Hr. unfold exception_fatal. step. rename v into esr. step. rename v into elr.
  step. rename v into far. step. rename v into spsr.
  repeat (first [apply put_str_then; [done..|] | apply put_hex_then; [done..|]]; intros ? ?).
  step. split; [done|]. exists esr, elr, far, spsr.
  change (Mrs ESR_EL1 esr :: ?a :: ?b :: ?c :: ?l) with ([Mrs ESR_EL1 esr; a; b; c] ++ l).
  said. split; [done|]. by rewrite kind_name_crlf, ec_name_crlf.
Qed.

(** *** Interrupt set-up *)

(** [a] was read until [mask] was clear, at most [POLL_LIMIT] times in vain. *)
Definition polled (a mask : Z) (evs : list event) : Prop :=
  exists busy v, evs = (Rd a <$> busy) ++ [Rd a v] /\ Forall (fun b => Z.land b mask <> 0) busy /\
    Z.land v mask = 0 /\ Z.of_nat (length busy) <= POLL_LIMIT.

(** [a] was read one time more than [POLL_LIMIT], never with [mask] clear. *)
Definition gave_up (a mask : Z) (evs : list event) : Prop :=
  exists busy, evs = Rd a <$> busy /\ Forall (fun b => Z.land b mask <> 0) busy /\
    Z.of_nat (length busy) = POLL_LIMIT + 1.

Lemma poll_does base k a mask e n :
  0 <= n <= POLL_LIMIT -> Z.of_nat k = POLL_LIMIT + 1 - n ->
  does base (poll (D := D) k a mask e n)
    (fun _ evs => exists busy v, evs = (Rd a <$> busy) ++ [Rd a v] /\ Forall (fun b => Z.land b mask <> 0) busy /\
       Z.land v mask = 0 /\ n + Z.of_nat (length busy) <= POLL_LIMIT)
    (fun e' evs => e' = Irq e /\ exists busy, evs = Rd a <$> busy /\ Forall (fun b => Z.land b mask <> 0) busy /\
       n + Z.of_nat (length busy) = POLL_LIMIT + 1).
Proof.
  revert n. induction k as [|k IH]; intros n Hn Hk; [lia|]. cbn [poll]. step.
  destruct (Z.eqb_spec (Z.land v mask) 0) as [E|E].
  - step. exists [], v. split_and!; [done|constructor|done|simpl; lia].
  - destruct (Z.ltb_spec POLL_LIMIT (n + 1)).
    + step. split; [done|]. exists [v]. split_and!; [done|by constructor|simpl; lia].
    + eapply does_mono; [apply (IH (n + 1)); lia| |].
      * intros _ evs (busy & v' & -> & Hb & Hv & Hl). exists (v :: busy), v'.
        split_and!; [done|by constructor|done|simpl; lia].
      * intros e' evs (-> & busy & -> & Hb & Hl). split; [done|]. exists (v :: busy).
        split_and!; [done|by constructor|simpl; lia].
Qed.

Lemma poll_then {Y} base a mask e (k : unit -> M (arch D) stop Y) Q R :
  (forall evs, gave_up a mask evs -> R (Irq e) evs) ->
  (forall evs, polled a mask evs -> does base (k tt) (fun y evs' => Q y (evs ++ evs')) (fun e evs' => R e (evs ++ evs'))) ->
  does base (bind (poll (Z.to_nat (POLL_LIMIT + 1)) a mask e 0) k) Q R.
Proof.
  intros HR Hk. eapply does_bind; [apply poll_does; [done|by rewrite Z2Nat.id]| |].
  - intros e' evs (-> & busy & Hx). apply HR. by exists busy.
  - intros [] evs (busy & v & Hx). apply Hk. by exists busy, v.
Qed.

(** What the interrupt controller is told: affinity routing and group 1 on, the
    redistributor awake, the timer's interrupt and no other enabled. *)
Definition gic_configured (evs : list event) : Prop :=
  exists p1 w p2 sre,
    evs = [Wr GICD_CTLR 0x12] ++ p1 ++ [Rd GICR_WAKER w; Wr GICR_WAKER (Z.land w 0xFFFFFFFD)] ++ p2 ++
          [Wr GICR_IGROUPR0 0xFFFFFFFF; Wr GICR_ISENABLER0 (2 ^ TIMER_INTID);
           Mrs ICC_SRE_EL1 sre; Msr ICC_SRE_EL1 (Z.lor sre 1); Isb; Msr ICC_PMR_EL1 0xFF; Msr ICC_IGRPEN1_EL1 1; Isb] /\
    polled GICD_CTLR (2 ^ 31) p1 /\ polled GICR_WAKER (2 ^ 2) p2.

(** The two ways it can fail. *)
Definition gic_failed (e : IrqError.t) (evs : list event) : Prop :=
  match e with
  | IrqError.GicRwpTimeout => exists p1, evs = [Wr GICD_CTLR 0x12] ++ p1 /\ gave_up GICD_CTLR (2 ^ 31) p1
  | IrqError.GicWakeTimeout => exists p1 w p2,
      evs = [Wr GICD_CTLR 0x12] ++ p1 ++ [Rd GICR_WAKER w; Wr GICR_WAKER (Z.land w 0xFFFFFFFD)] ++ p2 /\
      polled GICD_CTLR (2 ^ 31) p1 /\ gave_up GICR_WAKER (2 ^ 2) p2
  end.

Lemma gic_init_does base :
  does (D := D) base gic_init (fun _ => gic_configured)
    (fun e evs => match e with Irq e => gic_failed e evs | Stopped => False end).
Proof.
  unfold gic_init. step. apply poll_then; [intros p1 Hp; by exists p1|]. intros p1 Hp1. step. step.
  apply poll_then.
  { intros p2 Hp2. exists p1, v, p2. split_and!; try done. }
  intros p2 Hp2. step. step. step. step. exists p1, v, p2, v0. split_and!; try done.
Qed.

Lemma irq_init_does base :
  does (D := D) base irq_init
    (fun _ evs => exists pre f, (match plat with PlatVirt => gic_configured pre | PlatApple => pre = [] end) /\
       evs = pre ++ [Mrs CNTFRQ_EL0 f; Msr CNTP_TVAL_EL0 f; Msr CNTP_CTL_EL0 1;
                     DaifClr (match plat with PlatVirt => 6 | PlatApple => 5 end)])
    (fun e evs => match e with Irq e => plat = PlatVirt /\ gic_failed e evs | Stopped => False end).
Proof.
  unfold irq_init. destruct plat.
  - eapply does_bind; [apply gic_init_does|by intros [] evs|]. intros [] pre Hg. unfold timer_freq, timer_arm.
    step. step. step. by exists pre, v.
  - unfold timer_freq, timer_arm. step. step. step. by exists [], v.
Qed.

(** *** Interrupt dispatch *)

Lemma format_dec_lf v : 0 <= v -> Forall (fun b => b <> 10) (format_dec v).
Proof.
  assert (Hf : forall n v acc, 0 <= v -> Forall (fun b => b <> 10) acc -> Forall (fun b => b <> 10) (format_radix n 10 v acc)).
  { induction n as [|n IH]; intros v' acc Hv Ha; [done|]. cbn [format_radix].
    assert (Forall (fun b => b <> 10) (digit (v' mod 10) :: acc)).
    { constructor; [|done]. unfold digit. pose proof (Z.mod_pos_bound v' 10). destruct (_ <? _); lia. }
    destruct (_ <? _); [done|]. apply IH; [by apply Z.div_pos; lia|done]. }
  intros Hv. by apply Hf.
Qed.

Definition tick_text (n : Z) : list Z := lit "k0: tick " ++ format_dec n ++ [13; 10].
Definition stop_text (kind : list Z) (id : Z) : list Z :=
  lit "k0: UNEXPECTED " ++ kind ++ lit " intid=" ++ format_dec id ++ [13; 10].

Definition panic_text (debug : bool) (info : list Z) : list Z :=
  if debug then lit "k0: PANIC " ++ (info ≫= crlf) ++ [13; 10] else [].

(** The ways an interrupt from EL0 can go, with the accesses that recognise it
    and those that complete it. *)
Definition ticked (before after : list event) (s : arch D) (k : kstate)
    (out : res stop unit * (arch D * kstate)) : Prop :=
  exists evs f, log out.2.1 = log s ++ evs /\ TICKS out.2.1 = TICKS s + 1 /\ BASE out.2.1 = BASE s /\
    other (BASE s) evs = before ++ [Mrs CNTFRQ_EL0 f; Msr CNTP_TVAL_EL0 f; Msr CNTP_CTL_EL0 1] ++ after /\
    tx (BASE s) evs = tick_text (TICKS s + 1) /\
    out.1 = Ok tt /\ out.2.2 = set_tasks (rotate (k_tasks k)) k.

Definition ignored (before : list event) (s : arch D) (k : kstate)
    (out : res stop unit * (arch D * kstate)) : Prop :=
  out.1 = Ok tt /\ log out.2.1 = log s ++ before /\ TICKS out.2.1 = TICKS s /\ BASE out.2.1 = BASE s /\ out.2.2 = k.

Definition halted (before kind : list event) (text : list Z) (s : arch D) (k : kstate)
    (out : res stop unit * (arch D * kstate)) : Prop :=
  exists evs, out.1 = Err Stopped /\ log out.2.1 = log s ++ evs /\ out.2.2 = k /\
    other (BASE s) evs = before ++ kind /\ tx (BASE s) evs = text.

Section dispatch.
Context (fuel : nat) (base : Z).
Context (Hbase : base = MMIO_BASE \/ base = MMIO_BASE + KERNEL_VA_OFFSET).
Context (Hready : forall d, becomes_ready base fuel d = true).

Lemma timer_tick_spec s :
  BASE s = base -> 0 <= TICKS s -> TICKS s + 1 < U64 -> exists s' evs f,
    timer_tick fuel s = (Ok tt, s') /\ log s' = log s ++ evs /\ TICKS s' = TICKS s + 1 /\ BASE s' = base /\
    other base evs = [Mrs CNTFRQ_EL0 f; Msr CNTP_TVAL_EL0 f; Msr CNTP_CTL_EL0 1] /\
    tx base evs = tick_text (TICKS s + 1).
Proof.
  intros Hs H0 Ht. set (n := TICKS s + 1) in *. set (s1 := mkArch (hw s) (log s) (BASE s) n).
  assert (Hd : does base (do! _ := put_str fuel (lit "k0: tick " ++ format_dec n ++ [10]) in
                          do! f := timer_freq in timer_arm f)
    (fun _ evs => exists f, other base evs = [Mrs CNTFRQ_EL0 f; Msr CNTP_TVAL_EL0 f; Msr CNTP_CTL_EL0 1] /\
       tx base evs = tick_text n) never).
  { apply put_str_then; [done..|]. intros evs Hx. unfold timer_freq, timer_arm. step. step. exists v. said.
    split; [done|]. unfold tick_text. rewrite !bind_app. by rewrite (crlf_lit (format_dec n)) by (apply format_dec_lf; lia). }
  destruct (Hd s1 Hs) as (evs & Hb & Htk & Hl & Hx).
  assert (E : timer_tick fuel s = (do! _ := put_str fuel (lit "k0: tick " ++ format_dec n ++ [10]) in
                                   do! f := timer_freq in timer_arm f) s1).
  { unfold timer_tick, bind at 1, next_tick. rewrite add_p_ok by done. by rewrite Z.mod_small by lia. }
  rewrite E. destruct (bind _ _ s1) as [[[]|e| |] s']; simpl in *; try done. destruct Hx as (f & Ho & Htx).
  by exists s', evs, f.
Qed.

Lemma unexpected_does {X} kind id :
  0 <= id -> Forall (fun b => b <> 10) kind ->
  does base (unexpected (X := X) fuel kind id) (fun _ _ => False)
    (fun e evs => e = Stopped /\ other base evs = [DaifSet 0xF] /\ tx base evs = stop_text kind id).
Proof.
  intros Hid Hk. unfold unexpected. step. apply put_str_then; [done..|]. intros evs Hx. step. split; [done|].
  change (DaifSet 15 :: ?l) with ([DaifSet 15] ++ l). said. split; [done|].
  rewrite !bind_app, (crlf_lit kind), (crlf_lit (format_dec id)) by (done || by apply format_dec_lf). done.
Qed.

Lemma panic_does debug info :
  does base (panic_handler fuel debug info) (fun _ _ => False)
    (fun e evs => e = Stopped /\ other base evs = [DaifSet 0xF] /\ tx base evs = panic_text debug info).
Proof.
  unfold panic_handler. step. destruct debug; [|by do 2 step].
  apply put_str_then; [done..|]. intros evs Hx. step. split; [done|].
  change (DaifSet 15 :: ?l) with ([DaifSet 15] ++ l). said. split; [done|]. unfold panic_text. by rewrite !bind_app.
Qed.

Lemma unexpected_halts before kind id s k s1 :
  0 <= id -> Forall (fun b => b <> 10) kind -> BASE s = base -> BASE s1 = base -> log s1 = log s ++ before ->
  other base before = before -> tx base before = [] ->
  halted before [DaifSet 0xF] (stop_text kind id) s k
    ((do! t := on_arch (unexpected fuel kind id) in if (t : bool) then on_kernel k0_preempt else ret tt) (s1, k)).
Proof.
  intros Hid Hk Hs Hs1 Hl Ho Ht. destruct (unexpected_does (X := bool) kind id Hid Hk s1 Hs1) as (evs & Hb & Htk & Hl' & Hx).
  unfold bind, on_arch. simpl. destruct (unexpected fuel kind id s1) as [[]  s']; simpl in *; try done.
  destruct Hx as (-> & Hx1 & Hx2). exists (before ++ evs). simpl. rewrite Hs. split_and!; try done.
  - by rewrite Hl', Hl, app_assoc.
  - by rewrite other_app, Ho, Hx1.
  - by rewrite tx_app, Ht, Hx2.
Qed.

(** The timer's path: tick, the access that completes it, preemption. *)
Lemma tick_preempts before after (k2 : M (arch D) stop unit) s k s1 :
  BASE s = base -> BASE s1 = base -> TICKS s1 = TICKS s -> 0 <= TICKS s -> TICKS s + 1 < U64 ->
  log s1 = log s ++ before -> other base before = before -> tx base before = [] ->
  does base k2 (fun _ evs => evs = after) never -> other base after = after -> tx base after = [] ->
  ticked before after s k
    ((do! t := on_arch (do! _ := timer_tick fuel in do! _ := k2 in ret true) in
      if (t : bool) then on_kernel k0_preempt else ret tt) (s1, k)).
Proof.
  intros Hs Hs1 Ht1 H0 Ht Hl Ho Hx Hk2 Hoa Hxa.
  destruct (timer_tick_spec s1 Hs1) as (s2 & evs & f & E2 & L2 & T2 & B2 & O2 & X2); [lia..|].
  destruct (Hk2 s2 B2) as (evs3 & B3 & T3 & L3 & Hr). destruct (k2 s2) as [r3 s3] eqn:E3. simpl in *.
  destruct r3 as [[]|e| |]; try done. subst evs3.
  assert (E : on_arch (do! _ := timer_tick fuel in do! _ := k2 in ret true) (s1, k) = (Ok true, (s3, k))).
  { unfold on_arch, bind. simpl. by rewrite E2, E3. }
  unfold bind at 1. rewrite E. exists (before ++ evs ++ after), f. simpl. rewrite Hs.
  split_and!; [by rewrite L3, L2, Hl, !app_assoc|lia|done| | |done|done].
  - by rewrite !other_app, Ho, O2, Hoa.
  - by rewrite !tx_app, Hx, X2, Hxa, app_nil_r, Ht1.
Qed.
End dispatch.
End theorems.

(** *** Caches *)

Section caches.
Context `{Platform} {D : Type} `{!Hw D}.

(** The lines [qs] cover [p, e) and start in it. *)
Definition cover (p e line : Z) (qs : list Z) : Prop :=
  (forall a, p <= a < e -> exists q, q ∈ qs /\ q <= a < q + line) /\
  Forall (fun q => p <= q < e /\ (q - p) mod line = 0) qs.

Lemma lines_does base n op p line e :
  0 < line -> e + line <= U64 -> 1 <= Z.of_nat n -> e - p <= (Z.of_nat n - 1) * line ->
  does (D := D) base (lines n op p line e) (fun _ evs => exists qs, evs = op <$> qs /\ cover p e line qs) never.
Proof.
  intros Hl He. revert p. induction n as [|n IH]; intros p Hn Hp; [lia|]. cbn [lines].
  destruct (Z.ltb_spec p e) as [Hpe|Hpe].
  - step. eapply (does_bind _ _ _ (fun v evs => v = p + line /\ evs = []) never); [|by intros ? ? []|].
    { intros s Hs. unfold lift. rewrite add_p_ok by lia. exists []. simpl. by rewrite app_nil_r. }
    intros p' evs [-> ->]. assert (1 <= Z.of_nat n) by nia.
    eapply does_mono; [apply IH; nia| |by intros ? ? []].
    intros [] evs (qs & -> & Hc & Hq). exists (p :: qs). split; [done|]. split.
    + intros a Ha. destruct (Z.lt_ge_cases a (p + line)); [exists p; split; [by left|lia]|].
      destruct (Hc a ltac:(lia)) as (q & Hin & Hx). exists q. split; [by right|done].
    + constructor; [split; [lia|]; by rewrite Z.sub_diag, Z.mod_0_l by lia|].
      eapply list.Forall_impl; [exact Hq|]. intros q [Hx1 Hx2]. split; [lia|].
      replace (q - p) with (q - (p + line) + 1 * line) by lia. by rewrite Z.mod_add by lia.
  - step. exists []. split; [done|]. split; [intros; lia|constructor].
Qed.

(** The line size of the field [f] of CTR_EL0. *)
Lemma line_bounds f : 0 <= f < 16 -> let line := Z.shiftl 4 f in 4 <= line <= 2 ^ 17 /\ line = 2 ^ (f + 2).
Proof.
  intros Hf line. unfold line. rewrite Z.shiftl_mul_pow2 by lia. change 4 with (2 ^ 2). rewrite <- Z.pow_add_r by lia.
  rewrite (Z.add_comm 2 f). split; [|done]. split; apply Z.pow_le_mono_r; lia.
Qed.

Lemma field_bound v sh : 0 <= field v sh < 16.
Proof. unfold field. change 0xF with (Z.ones 4). rewrite Z.land_ones by lia. by apply Z.mod_pos_bound. Qed.

Lemma sync_icache_does base va len :
  0 <= va -> 0 <= len -> va + len + 2 ^ 17 <= U64 ->
  does (D := D) base (sync_icache va len)
    (fun _ evs => exists ctr ds ics, let d_line := 2 ^ (field ctr 16 + 2) in let i_line := 2 ^ (field ctr 0 + 2) in
       evs = Mrs CTR_EL0 ctr :: (DcCvau <$> ds) ++ [Dsb] ++ (IcIvau <$> ics) ++ [Dsb; Isb] /\
       cover (va - va mod d_line) (va + len) d_line ds /\ cover (va - va mod i_line) (va + len) i_line ics) never.
Proof.
  intros Hva Hlen He. unfold sync_icache. step. rename v into ctr.
  replace (Z.land ctr 0xF) with (field ctr 0) by (unfold field; by rewrite Z.shiftr_0_r).
  assert (Hpass : forall op f, 0 <= f < 16 -> does (D := D) base
    (lines (Z.to_nat (len / 4 + 3)) op (Z.land va (not64 (Z.shiftl 4 f - 1))) (Z.shiftl 4 f) (va + len))
    (fun _ evs => exists qs, evs = op <$> qs /\ cover (va - va mod 2 ^ (f + 2)) (va + len) (2 ^ (f + 2)) qs) never).
  { intros op f Hf. destruct (line_bounds f Hf) as [Hb El]. rewrite El in *. rewrite land_not64_pow2 by (unfold is_u64; lia).
    set (line := 2 ^ (f + 2)) in *. pose proof (Z.mod_pos_bound va line). pose proof (Z.div_mod len 4).
    pose proof (Z.mod_pos_bound len 4). pose proof (Z.div_pos len 4).
    assert (len / 4 * 4 <= len / 4 * line) by (apply Z.mul_le_mono_nonneg_l; lia).
    apply lines_does; rewrite ?Z2Nat.id by lia; lia. }
  eapply (does_bind _ _ _ (fun v evs => v = va + len /\ evs = []) never); [|by intros ? ? []|].
  { intros s Hs. unfold lift. rewrite add_p_ok by lia. exists []. simpl. by rewrite app_nil_r. }
  intros e evs [-> ->]. eapply does_bind; [apply Hpass, field_bound|by intros ? ? []|].
  intros [] evs (ds & -> & Hd). step. eapply does_bind; [apply Hpass, field_bound|by intros ? ? []|].
  intros [] evs (ics & -> & Hi). step. exists ctr, ds, ics. done.
Qed.
End caches.

(** *** Hardening *)

(** The value of a register after a sequence of accesses. *)
Fixpoint value (r : SysReg.t) (cur : option Z) (evs : list event) : option Z :=
  match evs with
  | [] => cur
  | Msr r' v :: evs' => value r (if decide (r' = r) then Some v else cur) evs'
  | _ :: evs' => value r cur evs'
  end.

(** Every read of [r] returns what was last written to it. *)
Fixpoint reads_back (r : SysReg.t) (cur : Z) (evs : list event) : Prop :=
  match evs with
  | [] => True
  | Msr r' v :: evs' => reads_back r (if decide (r' = r) then v else cur) evs'
  | Mrs r' v :: evs' => (r' = r -> v = cur) /\ reads_back r cur evs'
  | _ :: evs' => reads_back r cur evs'
  end.

Definition has_pmu (dfr0 : Z) : bool := negb (field dfr0 8 =? 0) && negb (field dfr0 8 =? 0xF).
Definition has_pac (isar1 : Z) : bool := negb (field isar1 4 =? 0) || negb (field isar1 8 =? 0).
Definition has_generic (isar1 : Z) : bool := negb (field isar1 24 =? 0) || negb (field isar1 28 =? 0).

Definition key_regs : list SysReg.t :=
  [APIAKeyLo_EL1; APIAKeyHi_EL1; APIBKeyLo_EL1; APIBKeyHi_EL1; APDAKeyLo_EL1; APDAKeyHi_EL1; APDBKeyLo_EL1; APDBKeyHi_EL1].

(** The registers that may be written, given the ID registers. *)
Definition available (isar1 dfr0 : Z) (r : SysReg.t) : bool :=
  match r with
  | CNTKCTL_EL1 | MDSCR_EL1 | SCTLR_EL1 => true
  | PMUSERENR_EL0 => has_pmu dfr0
  | APGAKeyLo_EL1 | APGAKeyHi_EL1 => has_pac isar1 && has_generic isar1
  | _ => bool_decide (r ∈ key_regs) && has_pac isar1
  end.

Definition EN_BITS : Z := 2 ^ 31 + 2 ^ 30 + 2 ^ 27 + 2 ^ 13.
Definition SPAN_BIT : Z := 2 ^ 23.

Definition sctlr_with (pac pan : bool) (v : Z) : Z :=
  let v := if pac then Z.lor v EN_BITS else v in
  if pan then Z.land v (not64 SPAN_BIT) else v.

Definition key_writes (keys : list Z) (generic : bool) : list event :=
  (imap (fun i r => Msr r (key keys (Z.of_nat i))) key_regs) ++
  (if generic then [Msr APGAKeyLo_EL1 (key keys 8); Msr APGAKeyHi_EL1 (key keys 9)] else []).

(** The accesses of [enable]. *)
Definition enable_events (keys : list Z) (isar1 pfr1 mmfr1 dfr0 v1 v2 : Z) : list event :=
  [Mrs ID_AA64ISAR1_EL1 isar1; Mrs ID_AA64PFR1_EL1 pfr1; Mrs ID_AA64MMFR1_EL1 mmfr1; Msr CNTKCTL_EL1 0; Msr MDSCR_EL1 0;
   Mrs ID_AA64DFR0_EL1 dfr0] ++ (if has_pmu dfr0 then [Msr PMUSERENR_EL0 0] else []) ++ [Isb] ++
  (if has_pac isar1 then
     key_writes keys (has_generic isar1) ++ [Mrs SCTLR_EL1 v1; Msr SCTLR_EL1 (Z.lor v1 EN_BITS); Isb] else []) ++
  (if 1 <=? field mmfr1 20 then [Mrs SCTLR_EL1 v2; Msr SCTLR_EL1 (Z.land v2 (not64 SPAN_BIT)); Isb; SetPan] else []).

Section hardening.
Context `{Platform} {D : Type} `{!Hw D}.

Lemma enable_does base keys :
  does (D := D) base (enable keys) (fun h evs => exists isar1 pfr1 mmfr1 dfr0 v1 v2,
    evs = enable_events keys isar1 pfr1 mmfr1 dfr0 v1 v2 /\
    h = mkHard (has_pac isar1) (negb (Z.land pfr1 0xF =? 0)) (1 <=? field mmfr1 20) (2 <=? field mmfr1 20)) never.
Proof.
  unfold enable. step. rename v into isar1. step. rename v into pfr1. step. rename v into mmfr1.
  fold (has_pac isar1) (has_generic isar1).
  eapply (does_bind _ _ _ (fun _ evs => exists dfr0, evs = [Msr CNTKCTL_EL1 0; Msr MDSCR_EL1 0; Mrs ID_AA64DFR0_EL1 dfr0] ++
    (if has_pmu dfr0 then [Msr PMUSERENR_EL0 0] else []) ++ [Isb]) never); [|by intros ? ? []|].
  { unfold normalize_el0_exposure. step. step. rename v into dfr0. fold (has_pmu dfr0).
    destruct (has_pmu dfr0) eqn:E; step; step; exists dfr0; by rewrite E. }
  intros [] evs (dfr0 & ->).
  eapply (does_bind _ _ _ (fun _ evs => exists v1, evs = if has_pac isar1 then
     key_writes keys (has_generic isar1) ++ [Mrs SCTLR_EL1 v1; Msr SCTLR_EL1 (Z.lor v1 EN_BITS); Isb] else []) never); [|by intros ? ? []|].
  { destruct (has_pac isar1); [|step; by exists 0]. step. destruct (has_generic isar1); step; step; step; by exists v. }
  intros [] evs (v1 & ->).
  eapply (does_bind _ _ _ (fun _ evs => exists v2, evs = if 1 <=? field mmfr1 20 then
     [Mrs SCTLR_EL1 v2; Msr SCTLR_EL1 (Z.land v2 (not64 SPAN_BIT)); Isb; SetPan] else []) never); [|by intros ? ? []|].
  { destruct (1 <=? field mmfr1 20); [|step; by exists 0]. step. step. by exists v. }
  intros [] evs (v2 & ->). step. exists isar1, pfr1, mmfr1, dfr0, v1, v2. split; [|done].
  unfold enable_events. by rewrite app_nil_r, <- !app_assoc.
Qed.

Lemma enable_events_available keys isar1 pfr1 mmfr1 dfr0 v1 v2 r v :
  Msr r v ∈ enable_events keys isar1 pfr1 mmfr1 dfr0 v1 v2 -> available isar1 dfr0 r = true.
Proof.
  assert (Hall : forallb (fun e => match e with Msr r _ => available isar1 dfr0 r | _ => true end)
    (enable_events keys isar1 pfr1 mmfr1 dfr0 v1 v2) = true).
  { unfold enable_events, available.
    by destruct (has_pmu dfr0), (has_pac isar1), (has_generic isar1), (1 <=? field mmfr1 20). }
  rewrite forallb_forall in Hall. intros Hin%list_elem_of_In. exact (Hall _ Hin).
Qed.

Lemma enable_events_pan keys isar1 pfr1 mmfr1 dfr0 v1 v2 :
  existsb (fun e => match e with SetPan => true | _ => false end) (enable_events keys isar1 pfr1 mmfr1 dfr0 v1 v2) =
  (1 <=? field mmfr1 20).
Proof.
  unfold enable_events.
  by destruct (has_pmu dfr0), (has_pac isar1), (has_generic isar1), (1 <=? field mmfr1 20).
Qed.

Lemma enable_events_closed keys isar1 pfr1 mmfr1 dfr0 v1 v2 :
  let evs := enable_events keys isar1 pfr1 mmfr1 dfr0 v1 v2 in
  value CNTKCTL_EL1 None evs = Some 0 /\ value MDSCR_EL1 None evs = Some 0 /\
  (has_pmu dfr0 = true -> value PMUSERENR_EL0 None evs = Some 0).
Proof.
  unfold enable_events.
  by destruct (has_pmu dfr0), (has_pac isar1), (has_generic isar1), (1 <=? field mmfr1 20).
Qed.

Lemma enable_events_sctlr keys isar1 pfr1 mmfr1 dfr0 v1 v2 v :
  let evs := enable_events keys isar1 pfr1 mmfr1 dfr0 v1 v2 in
  reads_back SCTLR_EL1 v evs -> value SCTLR_EL1 (Some v) evs = Some (sctlr_with (has_pac isar1) (1 <=? field mmfr1 20) v).
Proof.
  unfold enable_events, sctlr_with, key_writes. generalize EN_BITS (not64 SPAN_BIT) (key keys). intros en span ks.
  destruct (has_pmu dfr0), (has_pac isar1), (has_generic isar1), (1 <=? field mmfr1 20); simpl; intros Hx;
    repeat match goal with Hx : _ /\ _ |- _ => destruct Hx end;
    repeat match goal with Hx : SCTLR_EL1 = SCTLR_EL1 -> _ |- _ => specialize (Hx eq_refl) end; by subst.
Qed.

(** The keys are in place before authentication is switched on. *)
Lemma enable_events_keys keys isar1 pfr1 mmfr1 dfr0 v1 v2 :
  has_pac isar1 = true -> exists pre post,
    enable_events keys isar1 pfr1 mmfr1 dfr0 v1 v2 = pre ++ Msr SCTLR_EL1 (Z.lor v1 EN_BITS) :: post /\
    (forall i r, key_regs !! i = Some r -> value r None pre = Some (key keys (Z.of_nat i))) /\
    (has_generic isar1 = true -> value APGAKeyLo_EL1 None pre = Some (key keys 8) /\
                                 value APGAKeyHi_EL1 None pre = Some (key keys 9)) /\
    value SCTLR_EL1 None pre = None.
Proof.
  intros Hp. unfold enable_events. rewrite Hp.
  set (hd := _ :: _). set (pm := if has_pmu dfr0 then _ else _). set (pn := if 1 <=? _ then _ else _).
  exists (hd ++ pm ++ [Isb] ++ key_writes keys (has_generic isar1) ++ [Mrs SCTLR_EL1 v1]), (Isb :: pn).
  split; [by rewrite <- !app_assoc|]. unfold hd, pm.
  split_and!.
  - intros i r Hi. do 8 (destruct i as [|i]; [injection Hi as <-; by destruct (has_pmu dfr0), (has_generic isar1)|]). done.
  - intros ->. by destruct (has_pmu dfr0).
  - by destruct (has_pmu dfr0), (has_generic isar1).
Qed.
End hardening.

(** ** Theorems *)

Lemma land_bit2 v : negb (Z.land v (Z.shiftl 1 2) =? 0) = Z.testbit v 2.
Proof.
  change (Z.shiftl 1 2) with (2 ^ 2). destruct (Z.testbit v 2) eqn:E.
  - apply negb_true_iff, Z.eqb_neq. intros Hz. apply (f_equal (fun z => Z.testbit z 2)) in Hz.
    rewrite Z.land_spec, E in Hz. done.
  - apply negb_false_iff, Z.eqb_eq, Z.bits_inj'. intros n Hn. rewrite Z.land_spec, Z.pow2_bits_eqb, Z.bits_0 by lia.
    destruct (Z.eqb_spec 2 n) as [<-|]; [by rewrite E|by rewrite andb_false_r].
Qed.

Section results.
Context `{Platform} {D : Type} `{!Hw D}.

Lemma on_arch_mrs {X Y} r (F : Z -> M (arch D) stop X) (G : X -> M (arch D * kstate) stop Y) s k v d :
  hw_mrs r (hw s) = (v, d) ->
  (do! t := on_arch (bind (mrs r) F) in G t) (s, k) = (do! t := on_arch (F v) in G t) (emit (Mrs r v) d s, k).
Proof. intros E. unfold bind, on_arch, mrs. simpl. by rewrite E. Qed.

Lemma on_arch_mrs2 {X Y Z'} r (f : Z -> Z') (F : Z' -> M (arch D) stop X) (G : X -> M (arch D * kstate) stop Y) s k v d :
  hw_mrs r (hw s) = (v, d) ->
  (do! t := on_arch (do! b := (do! v := mrs r in ret (f v)) in F b) in G t) (s, k) =
  (do! t := on_arch (F (f v)) in G t) (emit (Mrs r v) d s, k).
Proof. intros E. unfold bind, on_arch, mrs, ret. simpl. by rewrite E. Qed.

(** C40: an unexpected exception in the kernel is reported and stops the machine:
    the handler prints the vector, the exception class and the four syndrome
    registers, which can be read back from the text, touches nothing but those
    registers and the console, and never returns.  A Rust panic masks every
    exception first; a debug build then prints exactly the message, a release build
    prints nothing; and it never returns either. *)
Theorem fatal_report fuel kind (s : arch D) :
  BASE s = MMIO_BASE \/ BASE s = MMIO_BASE + KERNEL_VA_OFFSET ->
  (forall d, becomes_ready (BASE s) fuel d = true) ->
  (exists evs esr elr far spsr,
     (exception_fatal fuel kind s).1 = Err Stopped /\ log (exception_fatal fuel kind s).2 = log s ++ evs /\
     other (BASE s) evs = [Mrs ESR_EL1 esr; Mrs ELR_EL1 elr; Mrs FAR_EL1 far; Mrs SPSR_EL1 spsr] /\
     tx (BASE s) evs = fatal_text kind esr elr far spsr) /\
  (forall v, is_u64 v -> hex_value (drop 2 (hex16 v)) = v) /\
  forall debug info, exists evs,
    (panic_handler fuel debug info s).1 = Err Stopped /\ log (panic_handler fuel debug info s).2 = log s ++ evs /\
    other (BASE s) evs = [DaifSet 0xF] /\ tx (BASE s) evs = panic_text debug info.
Proof.
  intros Hb Hr. split_and!.
  - destruct (exception_fatal_does fuel (BASE s) kind Hb Hr s eq_refl) as (evs & _ & _ & Hl & Hx).
    destruct (exception_fatal fuel kind s) as [[]]; simpl in *; try done.
    destruct Hx as (-> & esr & elr & far & spsr & Ho & Ht). by exists evs, esr, elr, far, spsr.
  - intros v Hv. change (drop 2 (hex16 v)) with (hex_digits 16 v). by apply hex_value_digits.
  - intros debug info. destruct (panic_does fuel (BASE s) Hb Hr debug info s eq_refl) as (evs & _ & _ & Hl & Hx).
    destruct (panic_handler fuel debug info s) as [[]]; simpl in *; try done. destruct Hx as (-> & Ho & Ht). by exists evs.
Qed.

(** C33: setting up interrupts ends whatever the hardware answers.  On success the
    controller is configured as intended with the timer's interrupt as the only
    one enabled, the timer is armed, and only then are interrupts unmasked.  On
    failure the controller kept its status bit set for more than [POLL_LIMIT]
    reads, and neither the timer nor the interrupt mask was touched. *)
Theorem irq_init_exact (s : arch D) : exists evs,
  log (irq_init s).2 = log s ++ evs /\
  match (irq_init s).1 with
  | Ok _ => exists pre f,
      (match plat with PlatVirt => gic_configured pre | PlatApple => pre = [] end) /\
      evs = pre ++ [Mrs CNTFRQ_EL0 f; Msr CNTP_TVAL_EL0 f; Msr CNTP_CTL_EL0 1;
                    DaifClr (match plat with PlatVirt => 6 | PlatApple => 5 end)]
  | Err (Irq e) => plat = PlatVirt /\ gic_failed e evs
  | _ => False
  end.
Proof.
  destruct (irq_init_does (BASE s) s eq_refl) as (evs & _ & _ & Hl & Hx). exists evs. split; [done|].
  destruct (irq_init s) as [[[]|[|e]| |] s']; simpl in *; done.
Qed.

(** C32: an interrupt taken from user mode preempts the task exactly if it is the
    timer's: the tick is counted, printed and re-armed, the interrupt completed,
    and the kernel rotates the ready queue.  A spurious interrupt changes
    nothing, and any other interrupt masks everything and stops the machine. *)
Theorem interrupt_exact fuel (s : arch D) (k : kstate) :
  BASE s = MMIO_BASE \/ BASE s = MMIO_BASE + KERNEL_VA_OFFSET ->
  (forall d, becomes_ready (BASE s) fuel d = true) -> 0 <= TICKS s -> TICKS s + 1 < U64 ->
  match plat with
  | PlatVirt =>
    (exists iar, let id := Z.land iar 0xFFFFFF in
       let before := [Mrs ICC_IAR1_EL1 iar] in let out := irq_lower fuel (s, k) in
       if decide (id = TIMER_INTID) then ticked before [Msr ICC_EOIR1_EL1 iar] s k out
       else if decide (1020 <= id <= 1023) then ignored before s k out
       else halted before [DaifSet 0xF] (stop_text (lit "irq") id) s k out) /\
    halted [] [DaifSet 0xF] (stop_text (lit "fiq") 0) s k (fiq_lower fuel (s, k))
  | PlatApple =>
    (exists ctl, let before := [Mrs CNTP_CTL_EL0 ctl] in let out := fiq_lower fuel (s, k) in
       if Z.testbit ctl 2 then ticked before [] s k out
       else halted before [DaifSet 0xF] (stop_text (lit "fiq") 0) s k out) /\
    halted [] [DaifSet 0xF] (stop_text (lit "irq") 0) s k (irq_lower fuel (s, k))
  end.
Proof.
  intros Hb Hr H0 Ht. unfold irq_lower, fiq_lower, dispatch_irq, dispatch_fiq, ack. destruct plat eqn:Ep.
  - split.
    + destruct (hw_mrs ICC_IAR1_EL1 (hw s)) as [iar d] eqn:Em. exists iar. cbv zeta.
      erewrite on_arch_mrs by exact Em. set (s1 := emit _ _ _). case_decide as E.
      * rewrite (proj2 (Z.eqb_eq _ _) E). apply (tick_preempts fuel (BASE s)); try done. unfold eoi, msr. by step.
      * rewrite (proj2 (Z.eqb_neq _ _) E). case_decide as E2.
        -- rewrite (proj2 (Z.leb_le _ _)), (proj2 (Z.leb_le _ 1023)) by lia. done.
        -- replace (_ && _) with false by (symmetry; rewrite andb_false_iff, !Z.leb_gt; lia).
           apply (unexpected_halts fuel (BASE s)); try done; [apply Z.land_nonneg; right; lia|by repeat constructor].
    + apply (unexpected_halts fuel (BASE s)); try done; [by repeat constructor|by rewrite app_nil_r].
  - split.
    + destruct (hw_mrs CNTP_CTL_EL0 (hw s)) as [ctl d] eqn:Em. exists ctl. cbv zeta. unfold timer_pending.
      erewrite on_arch_mrs2 by exact Em. set (s1 := emit _ _ _).
      rewrite land_bit2. destruct (Z.testbit ctl 2).
      * pose proof (tick_preempts fuel (BASE s) Hb Hr [Mrs CNTP_CTL_EL0 ctl] [] (ret tt) s k s1) as Htp.
        apply Htp; try done. by step.
      * apply (unexpected_halts fuel (BASE s)); try done. by repeat constructor.
    + apply (unexpected_halts fuel (BASE s)); try done; [by repeat constructor|by rewrite app_nil_r].
Qed.

(** Hardening respects the processor's ID registers and takes effect: only
    registers that exist are written, PAN is set exactly if the processor has it,
    the EL0 views of timer, debug and performance registers are closed, every
    authentication key is in place before authentication is enabled, and SCTLR
    ends with exactly the intended bits changed, if it reads back what is written. *)
Lemma enable_exact keys (s : arch D) : exists isar1 pfr1 mmfr1 dfr0 evs,
  let has_pan := 1 <=? field mmfr1 20 in
  (enable keys s).1 = Ok (mkHard (has_pac isar1) (negb (Z.land pfr1 0xF =? 0)) has_pan (2 <=? field mmfr1 20)) /\
  log (enable keys s).2 = log s ++ evs /\
  (forall r v, Msr r v ∈ evs -> available isar1 dfr0 r = true) /\
  existsb (fun e => match e with SetPan => true | _ => false end) evs = has_pan /\
  (value CNTKCTL_EL1 None evs = Some 0 /\ value MDSCR_EL1 None evs = Some 0 /\
   (has_pmu dfr0 = true -> value PMUSERENR_EL0 None evs = Some 0)) /\
  (has_pac isar1 = true -> exists pre v post, evs = pre ++ Msr SCTLR_EL1 (Z.lor v EN_BITS) :: post /\
     (forall i r, key_regs !! i = Some r -> value r None pre = Some (key keys (Z.of_nat i))) /\
     (has_generic isar1 = true -> value APGAKeyLo_EL1 None pre = Some (key keys 8) /\
                                  value APGAKeyHi_EL1 None pre = Some (key keys 9)) /\
     value SCTLR_EL1 None pre = None) /\
  (forall v, reads_back SCTLR_EL1 v evs ->
     value SCTLR_EL1 (Some v) evs = Some (sctlr_with (has_pac isar1) has_pan v)).
Proof.
  destruct (enable_does (BASE s) keys s eq_refl) as (evs & _ & _ & Hl & Hx).
  destruct (enable keys s) as [[h|e| |] s']; cbn [fst snd] in *; [|destruct Hx..].
  destruct Hx as (isar1 & pfr1 & mmfr1 & dfr0 & v1 & v2 & -> & ->). exists isar1, pfr1, mmfr1, dfr0, (enable_events keys isar1 pfr1 mmfr1 dfr0 v1 v2).
  split; [reflexivity|].
  split; [exact Hl|]. split; [|split; [apply enable_events_pan|split; [apply enable_events_closed|split]]].
  - intros r v. apply enable_events_available.
  - intros Hp. destruct (enable_events_keys keys isar1 pfr1 mmfr1 dfr0 v1 v2 Hp) as (pre & post & Hx). by exists pre, v1, post.
  - intros v. apply enable_events_sctlr.
Qed.

(** After new code was written, every byte of it is in a data-cache line that
    was cleaned and in an instruction-cache line that was invalidated, all
    cleaning before a barrier before all invalidation, for every line size the
    processor can report. *)
Lemma sync_icache_covers va len (s : arch D) :
  0 <= va -> 0 <= len -> va + len + 2 ^ 17 <= U64 ->
  exists ctr ds ics evs, (sync_icache va len s).1 = Ok tt /\ log (sync_icache va len s).2 = log s ++ evs /\
    evs = Mrs CTR_EL0 ctr :: (DcCvau <$> ds) ++ [Dsb] ++ (IcIvau <$> ics) ++ [Dsb; Isb] /\
    forall a, va <= a < va + len ->
      (exists p, p ∈ ds /\ p <= a < p + 2 ^ (field ctr 16 + 2)) /\ (exists p, p ∈ ics /\ p <= a < p + 2 ^ (field ctr 0 + 2)).
Proof.
  intros Hva Hlen He. destruct (sync_icache_does (D := D) (BASE s) va len Hva Hlen He s eq_refl) as (evs & _ & _ & Hl & Hx).
  destruct (sync_icache va len s) as [[[]|e| |] s']; simpl in *; try done.
  destruct Hx as (ctr & ds & ics & -> & [Hd _] & [Hi _]). exists ctr, ds, ics. eexists. split_and!; [done|done|done|].
  assert (Hm : forall f, 0 <= f -> 0 <= va mod 2 ^ (f + 2)) by (intros; apply Z.mod_pos_bound, Z.pow_pos_nonneg; lia).
  pose proof (Hm _ (proj1 (field_bound ctr 16))). pose proof (Hm _ (proj1 (field_bound ctr 0))).
  intros a Ha. split; [apply Hd; lia|apply Hi; lia].
Qed.
End results.

(** ** An instance

    Hardware that answers every read with the same value: no feature, a ready
    UART, a timer interrupt pending. *)

Module ArchEx.
#[export] Instance ex_plat : Platform := PlatVirt.

#[export] Instance still : Hw unit := {
  hw_mrs r d := (match r with ICC_IAR1_EL1 => 30 | CTR_EL0 => 0x84448004 | _ => 0 end, d);
  hw_rndr d := (0, false, d);
  hw_read32 _ d := (0, d);
  hw_do _ d := d
}.

Definition s0 : arch unit := mkArch tt [] MMIO_BASE 0.

Lemma fatal_report_witness : (exception_fatal 1 4 s0).1 = Err Stopped /\ hex_value (drop 2 (hex16 0x96000045)) = 0x96000045.
Proof.
  destruct (fatal_report 1 4 s0) as [(evs & esr & elr & far & spsr & Hx & _) [Hv _]]; [by left|by intros []|].
  split; [exact Hx|]. exact (Hv 0x96000045 ltac:(by split; vm_compute)).
Defined.

Definition k0 : kstate := mkK Cap.empty_cnode (mkTstate ∅ ∅ (mkSched 0 0 0) 0 0) initial_pool ∅ [].

Lemma interrupt_exact_witness : halted [] [DaifSet 0xF] (stop_text (lit "fiq") 0) s0 k0 (fiq_lower 1 (s0, k0)).
Proof.
  exact (proj2 (interrupt_exact 1 s0 k0 (or_introl eq_refl) (fun d => eq_refl) ltac:(by vm_compute) ltac:(by vm_compute))).
Defined.

Lemma sync_icache_covers_witness : (sync_icache 0xFFFF000040300004 100 s0).1 = Ok tt.
Proof. by destruct (sync_icache_covers 0xFFFF000040300004 100 s0) as (? & ? & ? & ? & ? & _). Defined.
End ArchEx.
