(* ===== verification/Asm.v ===== *)
(** * The assembly: first instructions and exception vectors

    kernel/src/arch/aarch64/boot.S, from the bootloader's jump to [kernel_init];
    crates/k0-arch/src/vectors.S, the vector table with the paths that save and
    restore registers; and [enter_user] of crates/k0-arch/src/usermode.rs.  The
    code is a list of instructions and labels, line by line, and [run] executes it
    on a processor state: general registers, stack pointer, system registers, the
    compare flags, and memory as 64-bit words at their addresses.  Addresses wrap
    at 64 bits.  [sym] gives the addresses that the linker assigns.

    A call of Rust code ends a run with the state at the call; the theorems about
    the return paths take the state after the call as it comes, with what the
    calling convention guarantees as hypotheses.  [wfe] ends a run: all its uses
    are endless waits. *)

From Stdlib Require Import String.
From S2P Require Import Prelude Task.

#[local] Open Scope Z_scope.

(** ** Instructions *)

Module Sr.
Inductive t :=
| SP_EL0 | ELR_EL1 | SPSR_EL1 | TPIDR_EL0 | TPIDRRO_EL0 | SCTLR_EL1 | CPACR_EL1 | MPIDR_EL1 | CurrentEL | DAIF
| ID_AA64ISAR1_EL1 | HCR_EL2 | CNTHCTL_EL2 | CNTVOFF_EL2 | CPTR_EL2 | HSTR_EL2 | MDCR_EL2 | SPSR_EL2 | ELR_EL2.
End Sr.
Import Sr.

Definition sr_code (r : Sr.t) : Z :=
  match r with
  | SP_EL0 => 0 | ELR_EL1 => 1 | SPSR_EL1 => 2 | TPIDR_EL0 => 3 | TPIDRRO_EL0 => 4 | SCTLR_EL1 => 5 | CPACR_EL1 => 6
  | MPIDR_EL1 => 7 | CurrentEL => 8 | DAIF => 9 | ID_AA64ISAR1_EL1 => 10 | HCR_EL2 => 11 | CNTHCTL_EL2 => 12
  | CNTVOFF_EL2 => 13 | CPTR_EL2 => 14 | HSTR_EL2 => 15 | MDCR_EL2 => 16 | SPSR_EL2 => 17 | ELR_EL2 => 18
  end.

#[global] Instance sr_eq_dec : EqDecision Sr.t.
Proof. solve_decision. Defined.

(** The base register of an access. *)
Inductive base := R (n : Z) | Sp.

Inductive ins :=
| MovI (rd v : Z) | MovR (rd rn : Z) | MovSp (rn : Z) | Movk (rd v sh : Z)
| AddSp (v : Z) | SubSp (v : Z)
| Adrp (rd : Z) (f : string) | AddLo (rd rn : Z) (f : string) | LdrLo (rd rn : Z) (f : string) | Adr (rd : Z) (f : string)
| AndR (rd rn rm : Z) | AndI (rd rn v : Z) | OrrI (rd rn v : Z) | LsrI (rd rn sh : Z)
| Stp (a b : Z) (rn : base) (off : Z) | Ldp (a b : Z) (rn : base) (off : Z)
| Str (a : Z) (rn : base) (off : Z) | Ldr (a : Z) (rn : base) (off : Z)
| StpPost (a b : Z) (rn : base) (off : Z) | LdpPost (a b : Z) (rn : base) (off : Z)
| Mrs (rd : Z) (r : Sr.t) | Msr (r : Sr.t) (rn : Z) | DaifSet (v : Z)
| CmpI (rn v : Z) | CmpR (rn rm : Z) | TstI (rn v : Z) | Isb
| B (l : string) | Beq (l : string) | Bne (l : string) | Bhs (l : string) | Cbz (rn : Z) (l : string)
| Bl (f : string) | Blr (rn : Z) | Eret | Wfe.

(** Register 31 is [xzr]. *)
Definition xzr : Z := 31.

(** A line of the source. *)
Inductive item := L (l : string) | I (i : ins).

(** ** boot.S *)

Definition _start : list item := [
  L "_start";
  I (B "phase0_entry")].

Definition phase0_entry : list item := [
  L "phase0_entry";
  I (DaifSet 0xf);
  I (Mrs 1 MPIDR_EL1);
  I (MovI 2 0xffff);
  I (Movk 2 0x00ff 16);
  I (Movk 2 0x00ff 32);
  I (AndR 1 1 2);
  I (Cbz 1 "1");
  L "0";
  I Wfe;
  I (B "0");
  L "1";
  I (Mrs 1 CurrentEL);
  I (LsrI 1 1 2);
  I (CmpI 1 1);
  I (Beq "el1_entry");
  I (CmpI 1 2);
  I (Bne "0")].

Definition el2_to_el1 : list item := [
  L "el2_to_el1";
  I (MovR 1 xzr);
  I (OrrI 1 1 (Z.shiftl 1 31));
  I (OrrI 1 1 (Z.shiftl 1 29));
  I (Mrs 2 ID_AA64ISAR1_EL1);
  I (TstI 2 0xFF0);
  I (Beq "5");
  I (OrrI 1 1 (Z.shiftl 3 40));
  L "5";
  I (Msr HCR_EL2 1);
  I (Mrs 1 CNTHCTL_EL2);
  I (OrrI 1 1 3);
  I (Msr CNTHCTL_EL2 1);
  I (Msr CNTVOFF_EL2 xzr);
  I (MovI 1 0x33ff);
  I (Msr CPTR_EL2 1);
  I (Msr HSTR_EL2 xzr);
  I (Mrs 1 MDCR_EL2);
  I (AndI 1 1 0x1f);
  I (Msr MDCR_EL2 1);
  I (MovI 1 0x3c5);
  I (Msr SPSR_EL2 1);
  I (Adr 1 "el1_entry");
  I (Msr ELR_EL2 1);
  I Eret].

Definition el1_entry : list item := [
  L "el1_entry";
  I (MovI 1 0x30d00818);
  I (Msr SCTLR_EL1 1);
  I (Msr CPACR_EL1 xzr);
  I Isb;
  I (Adrp 1 "__boot_stack_top");
  I (AddLo 1 1 "__boot_stack_top");
  I (MovSp 1);
  I (Adrp 1 "__bss_start");
  I (AddLo 1 1 "__bss_start");
  I (Adrp 2 "__bss_end");
  I (AddLo 2 2 "__bss_end");
  L "2";
  I (CmpR 1 2);
  I (Bhs "3");
  I (StpPost xzr xzr (R 1) 16);
  I (B "2");
  L "3";
  I (Bl "kernel_init");
  L "4";
  I Wfe;
  I (B "4")].

Definition boot_code : list item := _start ++ phase0_entry ++ el2_to_el1 ++ el1_entry.

(** ** vectors.S *)

Definition FATAL_ENTRY (idx : Z) : list item := [
  I (MovI 0 idx);
  I (B "__exc_fatal_entry")].

Definition LOWER_ENTRY (handler : string) : list item := [
  I (SubSp 16);
  I (Stp 0 1 Sp 0);
  I (Adrp 0 handler);
  I (AddLo 0 0 handler);
  I (B "__lower_common")].

Definition IRQ_ENTRY (handler : string) : list item := [
  I (SubSp 176);
  I (Stp 0 1 Sp 0);
  I (Stp 2 3 Sp 16);
  I (Stp 4 5 Sp 32);
  I (Stp 6 7 Sp 48);
  I (Stp 8 9 Sp 64);
  I (Stp 10 11 Sp 80);
  I (Stp 12 13 Sp 96);
  I (Stp 14 15 Sp 112);
  I (Stp 16 17 Sp 128);
  I (Stp 18 29 Sp 144);
  I (Str 30 Sp 160);
  I (Bl handler);
  I (B "__exc_restore")].

(** The sixteen slots of the table. *)
Definition vectors : list (list item) := [
  FATAL_ENTRY 0;
  FATAL_ENTRY 1;
  FATAL_ENTRY 2;
  FATAL_ENTRY 3;
  FATAL_ENTRY 4;
  IRQ_ENTRY "irq_current";
  IRQ_ENTRY "fiq_current";
  FATAL_ENTRY 7;
  LOWER_ENTRY "el0_sync";
  LOWER_ENTRY "irq_lower";
  LOWER_ENTRY "fiq_lower";
  FATAL_ENTRY 11;
  FATAL_ENTRY 12;
  FATAL_ENTRY 13;
  FATAL_ENTRY 14;
  FATAL_ENTRY 15].

Definition exc_restore : list item := [
  L "__exc_restore";
  I (Ldp 0 1 Sp 0);
  I (Ldp 2 3 Sp 16);
  I (Ldp 4 5 Sp 32);
  I (Ldp 6 7 Sp 48);
  I (Ldp 8 9 Sp 64);
  I (Ldp 10 11 Sp 80);
  I (Ldp 12 13 Sp 96);
  I (Ldp 14 15 Sp 112);
  I (Ldp 16 17 Sp 128);
  I (Ldp 18 29 Sp 144);
  I (Ldr 30 Sp 160);
  I (AddSp 176);
  I Eret].

Definition exc_fatal_entry : list item := [
  L "__exc_fatal_entry";
  I (Adrp 1 "__exc_stack_top");
  I (AddLo 1 1 "__exc_stack_top");
  I (MovSp 1);
  I (Bl "exception_fatal");
  L "0";
  I Wfe;
  I (B "0")].

Definition lower_common : list item := [
  L "__lower_common";
  I (Adrp 1 "__current_context");
  I (LdrLo 1 1 "__current_context");
  I (Stp 2 3 (R 1) 16);
  I (Stp 4 5 (R 1) 32);
  I (Stp 6 7 (R 1) 48);
  I (Stp 8 9 (R 1) 64);
  I (Stp 10 11 (R 1) 80);
  I (Stp 12 13 (R 1) 96);
  I (Stp 14 15 (R 1) 112);
  I (Stp 16 17 (R 1) 128);
  I (Stp 18 19 (R 1) 144);
  I (Stp 20 21 (R 1) 160);
  I (Stp 22 23 (R 1) 176);
  I (Stp 24 25 (R 1) 192);
  I (Stp 26 27 (R 1) 208);
  I (Stp 28 29 (R 1) 224);
  I (Str 30 (R 1) 240);
  I (LdpPost 2 3 Sp 16);
  I (Stp 2 3 (R 1) 0);
  I (Mrs 2 SP_EL0);
  I (Mrs 3 ELR_EL1);
  I (Stp 2 3 (R 1) 248);
  I (Mrs 2 SPSR_EL1);
  I (Str 2 (R 1) 264);
  I (Mrs 2 TPIDR_EL0);
  I (Mrs 3 TPIDRRO_EL0);
  I (Stp 2 3 (R 1) 272);
  I (MovR 9 0);
  I (MovR 0 1);
  I (Blr 9)].

Definition user_restore : list item := [
  L "__user_restore";
  I (Adrp 0 "__current_context");
  I (LdrLo 0 0 "__current_context");
  I (Ldp 2 3 (R 0) 248);
  I (Msr SP_EL0 2);
  I (Msr ELR_EL1 3);
  I (Ldr 2 (R 0) 264);
  I (Msr SPSR_EL1 2);
  I (Ldp 2 3 (R 0) 272);
  I (Msr TPIDR_EL0 2);
  I (Msr TPIDRRO_EL0 3);
  I (Ldp 2 3 (R 0) 16);
  I (Ldp 4 5 (R 0) 32);
  I (Ldp 6 7 (R 0) 48);
  I (Ldp 8 9 (R 0) 64);
  I (Ldp 10 11 (R 0) 80);
  I (Ldp 12 13 (R 0) 96);
  I (Ldp 14 15 (R 0) 112);
  I (Ldp 16 17 (R 0) 128);
  I (Ldp 18 19 (R 0) 144);
  I (Ldp 20 21 (R 0) 160);
  I (Ldp 22 23 (R 0) 176);
  I (Ldp 24 25 (R 0) 192);
  I (Ldp 26 27 (R 0) 208);
  I (Ldp 28 29 (R 0) 224);
  I (Ldr 30 (R 0) 240);
  I (Ldp 0 1 (R 0) 0);
  I Eret].

Definition vector_code : list item :=
  mjoin vectors ++ exc_restore ++ exc_fatal_entry ++ lower_common ++ user_restore.

(** ** usermode.rs *)

Definition enter_user : list item := [
  I (Adrp 0 "__boot_stack_top");
  I (AddLo 0 0 "__boot_stack_top");
  I (MovSp 0);
  I (B "__user_restore")].

(** ** The processor *)

Record cpu := mkCpu {
  X : Z -> Z;
  SP : Z;
  SR : Sr.t -> Z;
  ZF : bool;
  CF : bool;
  MEM : Z -> Z
}.

Definition upd_x (f : Z -> Z) (k v : Z) : Z -> Z := fun j => if j =? k then v else f j.
Definition upd_sr (f : Sr.t -> Z) (k : Sr.t) (v : Z) : Sr.t -> Z := fun j => if sr_code j =? sr_code k then v else f j.

Definition get (r : Z) (s : cpu) : Z := if r =? xzr then 0 else X s r.
Definition set (r v : Z) (s : cpu) : cpu :=
  if r =? xzr then s else mkCpu (upd_x (X s) r v) (SP s) (SR s) (ZF s) (CF s) (MEM s).
Definition set_sp (v : Z) (s : cpu) : cpu := mkCpu (X s) v (SR s) (ZF s) (CF s) (MEM s).
Definition set_sr (r : Sr.t) (v : Z) (s : cpu) : cpu := mkCpu (X s) (SP s) (upd_sr (SR s) r v) (ZF s) (CF s) (MEM s).
Definition set_flags (z c : bool) (s : cpu) : cpu := mkCpu (X s) (SP s) (SR s) z c (MEM s).

(** 64-bit addition. *)
Definition ea (a off : Z) : Z := (a + off) mod U64.

Definition addr (b : base) (s : cpu) : Z := match b with R n => X s n | Sp => SP s end.
Definition set_addr (b : base) (v : Z) (s : cpu) : cpu := match b with R n => set n v s | Sp => set_sp v s end.

(** A store to the word at [a]. *)
Definition wr (m : Z -> Z) (a v : Z) : Z -> Z := fun j => if j =? a then v else m j.
Definition store (a v : Z) (s : cpu) : cpu := mkCpu (X s) (SP s) (SR s) (ZF s) (CF s) (wr (MEM s) a v).

Section machine.
Context (sym : string -> Z).

Definition page (f : string) : Z := sym f - sym f mod 4096.
Definition lo12 (f : string) : Z := sym f mod 4096.

(** Every instruction but the control flow. *)
Definition exec (s : cpu) (i : ins) : cpu :=
  match i with
  | MovI rd v => set rd v s
  | MovR rd rn => set rd (get rn s) s
  | MovSp rn => set_sp (get rn s) s
  | Movk rd v sh => set rd (Z.lor (Z.land (get rd s) (not64 (Z.shiftl 0xffff sh))) (Z.shiftl v sh)) s
  | AddSp v => set_sp (ea (SP s) v) s
  | SubSp v => set_sp (ea (SP s) (- v)) s
  | Adrp rd f => set rd (page f) s
  | AddLo rd rn f => set rd (ea (get rn s) (lo12 f)) s
  | LdrLo rd rn f => set rd (MEM s (ea (get rn s) (lo12 f))) s
  | Adr rd f => set rd (sym f) s
  | AndR rd rn rm => set rd (Z.land (get rn s) (get rm s)) s
  | AndI rd rn v => set rd (Z.land (get rn s) v) s
  | OrrI rd rn v => set rd (Z.lor (get rn s) v) s
  | LsrI rd rn sh => set rd (Z.shiftr (get rn s) sh) s
  | Stp a b rn off => let p := addr rn s in store (ea p (off + 8)) (get b s) (store (ea p off) (get a s) s)
  | Str a rn off => store (ea (addr rn s) off) (get a s) s
  | Ldp a b rn off => let p := addr rn s in set b (MEM s (ea p (off + 8))) (set a (MEM s (ea p off)) s)
  | Ldr a rn off => set a (MEM s (ea (addr rn s) off)) s
  | StpPost a b rn off =>
    let p := addr rn s in set_addr rn (ea p off) (store (ea p 8) (get b s) (store (ea p 0) (get a s) s))
  | LdpPost a b rn off =>
    let p := addr rn s in set_addr rn (ea p off) (set b (MEM s (ea p 8)) (set a (MEM s (ea p 0)) s))
  | Mrs rd r => set rd (SR s r) s
  | Msr r rn => set_sr r (get rn s) s
  | DaifSet v => set_sr DAIF (Z.lor (SR s DAIF) (Z.shiftl v 6)) s
  | CmpI rn v => set_flags (get rn s =? v) (v <=? get rn s) s
  | CmpR rn rm => set_flags (get rn s =? get rm s) (get rm s <=? get rn s) s
  | TstI rn v => set_flags (Z.land (get rn s) v =? 0) false s
  | _ => s
  end.

(** How a run ends. *)
Inductive outcome :=
| Called (f : string) (s : cpu) (rest : list item)
| CalledAt (a : Z) (s : cpu) (rest : list item)
| Returned (s : cpu)
| Parked (s : cpu)
| Stuck
| Unfinished.

(** The code from a label on. *)
Fixpoint goto (prog : list item) (l : string) : list item :=
  match prog with
  | [] => []
  | L l' :: k => if String.eqb l l' then k else goto k l
  | _ :: k => goto k l
  end.

(** [lr] is the address behind a call. *)
Context (lr : Z) (prog : list item).

Fixpoint run (n : nat) (k : list item) (s : cpu) : outcome :=
  match n with
  | O => Unfinished
  | S n' =>
    match k with
    | [] => Stuck
    | L _ :: k' => run n' k' s
    | I i :: k' =>
      match i with
      | B l => run n' (goto prog l) s
      | Beq l => run n' (if ZF s then goto prog l else k') s
      | Bne l => run n' (if ZF s then k' else goto prog l) s
      | Bhs l => run n' (if CF s then goto prog l else k') s
      | Cbz rn l => run n' (if get rn s =? 0 then goto prog l else k') s
      | Bl f => Called f (set 30 lr s) k'
      | Blr rn => CalledAt (get rn s) (set 30 lr s) k'
      | Eret => Returned s
      | Wfe => Parked s
      | _ => run n' k' (exec s i)
      end
    end
  end.

(** [eret] at EL2: the target exception level and masks come from SPSR_EL2. *)
Definition eret_el2 (s : cpu) : cpu :=
  set_sr CurrentEL (Z.land (SR s SPSR_EL2) 0xC) (set_sr DAIF (Z.land (SR s SPSR_EL2) 0x3C0) s).

(** boot.S from the bootloader's jump: an [eret] goes on at [el1_entry] if that is
    the address in ELR_EL2. *)
Definition boot_run (n : nat) (s : cpu) : outcome :=
  match run n (goto prog "_start") s with
  | Returned s1 =>
    if SR s1 ELR_EL2 =? sym "el1_entry" then run n (goto prog "el1_entry") (eret_el2 s1) else Stuck
  | o => o
  end.
End machine.

(** ** Theory *)

Definition straight (i : ins) : bool :=
  match i with B _ | Beq _ | Bne _ | Bhs _ | Cbz _ _ | Bl _ | Blr _ | Eret | Wfe => false | _ => true end.

Lemma run_block sym lr prog blk n k s :
  forallb straight blk = true ->
  run sym lr prog (length blk + n) ((I <$> blk) ++ k) s = run sym lr prog n k (foldl (exec sym) s blk).
Proof.
  revert s. induction blk as [|i blk IH]; intros s Hs; [done|]. cbn [forallb] in Hs. apply andb_true_iff in Hs as [Hi Hs].
  cbn [fmap list_fmap app length plus foldl]. rewrite <- IH by done. destruct i; done.
Qed.

Lemma run_label sym lr prog n l k s : run sym lr prog (S n) (L l :: k) s = run sym lr prog n k s.
Proof. reflexivity. Qed.

Lemma ea_ok a off : 0 <= a + off < U64 -> ea a off = a + off.
Proof. intros Ha. unfold ea. by apply Z.mod_small. Qed.

Lemma page_lo12 sym f : is_u64 (sym f) -> ea (page sym f) (lo12 sym f) = sym f.
Proof. intros Hf. unfold is_u64 in Hf. unfold page, lo12. rewrite ea_ok; lia. Qed.

Fixpoint stores (l : list (Z * Z)) (m : Z -> Z) : Z -> Z :=
  match l with [] => m | (a, v) :: l' => stores l' (wr m a v) end.

Lemma stores_out l m a : a ∉ l.*1 -> stores l m a = m a.
Proof.
  revert m. induction l as [|[b v] l IH]; intros m Ha; [done|]. cbn in Ha. apply not_elem_of_cons in Ha as [Hne Ha].
  cbn [stores]. rewrite IH by done. unfold wr. by rewrite (proj2 (Z.eqb_neq _ _)).
Qed.

Lemma stores_in l m a v : NoDup l.*1 -> (a, v) ∈ l -> stores l m a = v.
Proof.
  revert m. induction l as [|[b w] l IH]; intros m Hn Hin; [by apply not_elem_of_nil in Hin|].
  cbn in Hn. apply list.NoDup_cons in Hn as [Hb Hn]. cbn [stores]. apply elem_of_cons in Hin as [[= -> ->]|Hin]; [|by apply IH].
  rewrite stores_out by done. unfold wr. by rewrite Z.eqb_refl.
Qed.

(** The registers of a task, and a context in memory. *)
Definition user_regs (s : cpu) : Context :=
  mkContext ((fun i => X s (Z.of_nat i)) <$> seq 0 31) (SR s SP_EL0) (SR s ELR_EL1) (SR s SPSR_EL1) (SR s TPIDR_EL0)
    (SR s TPIDRRO_EL0).
Definition context_at (m : Z -> Z) (p : Z) : Context :=
  mkContext ((fun i => m (p + 8 * Z.of_nat i)) <$> seq 0 31) (m (p + 248)) (m (p + 256)) (m (p + 264)) (m (p + 272))
    (m (p + 280)).

Section vectors.
Context (sym : string -> Z) (lr : Z).

Definition cc : Z := sym "__current_context".

(** The straight-line instructions of a piece of code. *)
Definition straight_ins (k : list item) : list ins :=
  omap (fun it => match it with I i => if straight i then Some i else None | L _ => None end) k.

Lemma restore_spec (s : cpu) :
  is_u64 cc -> 0 <= MEM s cc -> MEM s cc + 288 <= U64 -> exists s',
  run sym lr vector_code 40 (goto vector_code "__user_restore") s = Returned s' /\
  user_regs s' = context_at (MEM s) (MEM s cc) /\ MEM s' = MEM s /\ SP s' = SP s.
Proof.
  intros Hc Hp0 Hp1. exists (foldl (exec sym) s (straight_ins user_restore)).
  split; [exact (run_block sym lr vector_code (straight_ins user_restore) 13 [I Eret] s eq_refl)|].
  split; [|by destruct s]. destruct s as [x0 sp0 sr zf cf m]. cbn [MEM] in *. unfold cc in *.
  lazy -[ea page lo12 Z.add]. rewrite page_lo12 by done. rewrite !ea_ok by lia. reflexivity.
Qed.

(** Saving up to the original x0 and x1, and the rest. *)
Definition lower_entry (h : string) : list ins := straight_ins (LOWER_ENTRY h) ++ take 17 (straight_ins lower_common).
Definition lower_rest : list ins := drop 17 (straight_ins lower_common).

Lemma lower_run h s :
  run sym lr vector_code 60 (LOWER_ENTRY h) s =
  let s' := foldl (exec sym) s (lower_entry h ++ lower_rest) in CalledAt (get 9 s') (set 30 lr s') user_restore.
Proof.
  etransitivity; [exact (run_block sym lr vector_code (straight_ins (LOWER_ENTRY h)) 56 [I (B "__lower_common")] s eq_refl)|].
  etransitivity; [exact (run_block sym lr vector_code (straight_ins lower_common) 25 (I (Blr 9) :: user_restore) _ eq_refl)|].
  cbn [run]. rewrite <- foldl_app. reflexivity.
Qed.

(** What a trap relies on: a context in memory, apart from the two words that the
    entry takes from the kernel stack, and a pointer to it apart from them too. *)
Record trap_ok (s : cpu) : Prop := {
  to_pointer : is_u64 cc;
  to_context : 0 <= MEM s cc /\ MEM s cc + 288 <= U64;
  to_stack : 16 <= SP s < U64;
  to_apart : MEM s cc + 288 <= SP s - 16 \/ SP s <= MEM s cc;
  to_pointer_apart : cc + 8 <= SP s - 16 \/ SP s <= cc
}.

Lemma word_ne m a b v : b <> a -> wr m a v b = m b.
Proof. intros Hne. unfold wr. by rewrite (proj2 (Z.eqb_neq _ _)). Qed.

Lemma word_eq m a v : wr m a v a = v.
Proof. unfold wr. by rewrite Z.eqb_refl. Qed.

(** Where the words of a context are, in the order in which they are saved. *)
Definition offsets : list Z := (fun i => 8 * Z.of_nat i) <$> (seq 2 29 ++ [0%nat; 1%nat; 31%nat; 32%nat; 33%nat; 34%nat; 35%nat]).

Definition saved_words (s : cpu) : list Z :=
  ((fun i => X s (Z.of_nat i)) <$> (seq 2 29 ++ [0%nat; 1%nat])) ++
  [SR s SP_EL0; SR s ELR_EL1; SR s SPSR_EL1; SR s TPIDR_EL0; SR s TPIDRRO_EL0].

Lemma save_memory h s :
  trap_ok s -> let p := MEM s cc in
  MEM (foldl (exec sym) s (lower_entry h ++ lower_rest)) =
  stores (zip ([SP s - 16; SP s - 8] ++ ((fun o => p + o) <$> offsets)) ([X s 0; X s 1] ++ saved_words s)) (MEM s).
Proof.
  intros [Hc [Hp0 Hp1] Hs Ha Hpa] p. unfold p. clear p. destruct s as [x0 sp0 sr zf cf m]. cbn [MEM SP] in *.
  unfold cc in *. set (c := sym "__current_context") in *.
  assert (Hread : forall v w, wr (wr m (ea (ea sp0 (-16)) 0) v) (ea (ea sp0 (-16)) (0 + 8)) w c = m c).
  { intros v w. rewrite !ea_ok by (rewrite ?ea_ok; lia). by rewrite !word_ne by lia. }
  assert (Hsp : ea (ea sp0 (-16)) 0 = sp0 - 16 /\ ea (ea sp0 (-16)) 8 = sp0 - 8) by (rewrite !ea_ok; rewrite ?ea_ok; lia).
  destruct Hsp as [Hsp0 Hsp8].
  lazy -[ea page lo12 Z.add wr Z.sub]. rewrite !page_lo12 by done. fold c. rewrite !Hread.
  change (0 + 8) with 8. rewrite Hsp0, Hsp8. rewrite !ea_ok by lia.
  rewrite !(word_ne _ _ (sp0 - 16)) by lia. rewrite !(word_ne _ _ (sp0 - 8)) by lia. rewrite !word_eq. reflexivity.
Qed.

Lemma offsets_ok : NoDup offsets /\ Forall (fun o => 0 <= o <= 280) offsets /\ length offsets = 36%nat.
Proof. split_and!; [by apply (bool_decide_unpack _); vm_compute|by apply (bool_decide_unpack _); vm_compute|done]. Qed.

Lemma save_addresses s :
  trap_ok s -> NoDup ([SP s - 16; SP s - 8] ++ ((fun o => MEM s cc + o) <$> offsets)).
Proof.
  intros [_ _ _ Ha _]. destruct offsets_ok as (Hn & Hb & _). rewrite list.Forall_forall in Hb.
  assert (Hout : forall a, a = SP s - 16 \/ a = SP s - 8 -> a ∉ (fun o => MEM s cc + o) <$> offsets).
  { intros a Hx Hin. apply list_elem_of_fmap in Hin as (o & -> & Ho). specialize (Hb o Ho). lia. }
  cbn [app]. rewrite !list.NoDup_cons, not_elem_of_cons. split_and!; [lia|apply Hout; by left|apply Hout; by right|].
  apply NoDup_fmap_2; [|done]. intros o o' E. lia.
Qed.

Lemma save_context h s :
  trap_ok s -> context_at (MEM (foldl (exec sym) s (lower_entry h ++ lower_rest))) (MEM s cc) = user_regs s.
Proof.
  intros Ht. rewrite (save_memory h s Ht). pose proof (save_addresses s Ht) as Hn. cbv zeta.
  set (p := MEM s cc) in *. set (l := zip _ _).
  assert (Hn' : NoDup l.*1) by (unfold l; rewrite fst_zip by done; exact Hn).
  assert (Hin : forall i a v, l !! i = Some (a, v) -> stores l (MEM s) a = v).
  { intros i a v E. apply stores_in; [done|]. by eapply list_elem_of_lookup_2. }
  assert (Hx : forall i, (i < 31)%nat -> stores l (MEM s) (p + 8 * Z.of_nat i) = X s (Z.of_nat i)).
  { intros i Hi. apply (Hin (if decide (i < 2)%nat then 31 + i else i)%nat).
    do 31 (destruct i as [|i]; [reflexivity|]). lia. }
  unfold context_at, user_regs. f_equal;
    [|by apply (Hin 33%nat)|by apply (Hin 34%nat)|by apply (Hin 35%nat)|by apply (Hin 36%nat)|by apply (Hin 37%nat)].
  apply list_fmap_ext. intros j i Hj. apply lookup_seq in Hj as [-> Hj]. by apply Hx.
Qed.

Lemma save_frame h s a :
  trap_ok s -> a < MEM s cc \/ MEM s cc + 288 <= a -> a < SP s - 16 \/ SP s <= a ->
  MEM (foldl (exec sym) s (lower_entry h ++ lower_rest)) a = MEM s a.
Proof.
  intros Ht Hc Hs. rewrite (save_memory h s Ht). cbv zeta. apply stores_out. rewrite fst_zip by done.
  destruct offsets_ok as (_ & Hb & _). rewrite list.Forall_forall in Hb.
  cbn [app]. rewrite !not_elem_of_cons. split_and!; [lia|lia|]. intros Hin. apply list_elem_of_fmap in Hin as (o & -> & Ho).
  specialize (Hb o Ho). lia.
Qed.

Lemma save_regs h s :
  trap_ok s -> is_u64 (sym h) -> let s1 := foldl (exec sym) s (lower_entry h ++ lower_rest) in
  get 9 s1 = sym h /\ X s1 0 = MEM s cc /\ SP s1 = SP s /\ SR s1 = SR s.
Proof.
  intros [Hc [Hp0 Hp1] Hs Ha Hpa] Hh s1. unfold s1. clear s1. destruct s as [x0 sp0 sr zf cf m]. cbn [MEM SP SR] in *.
  unfold cc in *. set (c := sym "__current_context") in *.
  lazy -[ea page lo12 Z.add wr Z.sub]. rewrite !page_lo12 by done. fold c. rewrite !ea_ok by (rewrite ?ea_ok; lia).
  rewrite !word_ne by lia. split_and!; [done|done|lia|done].
Qed.

Lemma lower_save h s :
  trap_ok s -> is_u64 (sym h) -> exists s',
  run sym lr vector_code 60 (LOWER_ENTRY h) s = CalledAt (sym h) (set 30 lr s') user_restore /\
  X s' 0 = MEM s cc /\ SP s' = SP s /\ SR s' = SR s /\ context_at (MEM s') (MEM s cc) = user_regs s /\
  forall a, a < MEM s cc \/ MEM s cc + 288 <= a -> a < SP s - 16 \/ SP s <= a -> MEM s' a = MEM s a.
Proof.
  intros Ht Hh. exists (foldl (exec sym) s (lower_entry h ++ lower_rest)).
  destruct (save_regs h s Ht Hh) as (E9 & E0 & Esp & Esr). split_and!; [|done|done|done|by apply save_context|by intros a; apply save_frame].
  rewrite lower_run. cbv zeta. by rewrite E9.
Qed.

(** *** Interrupts taken in the kernel *)

(** The registers that a call may change, in the order in which they are saved. *)
Definition caller_saved : list Z := [0; 1; 2; 3; 4; 5; 6; 7; 8; 9; 10; 11; 12; 13; 14; 15; 16; 17; 18; 29; 30].

Definition irq_frame (s : cpu) : list (Z * Z) :=
  zip ((fun i => SP s - 176 + 8 * Z.of_nat i) <$> seq 0 21) (X s <$> caller_saved).

Lemma irq_save h s :
  176 <= SP s < U64 -> exists s1,
  run sym lr vector_code 40 (IRQ_ENTRY h) s = Called h s1 [I (B "__exc_restore")] /\
  SP s1 = SP s - 176 /\ SR s1 = SR s /\ MEM s1 = stores (irq_frame s) (MEM s) /\
  (forall i, 0 <= i < 30 -> X s1 i = X s i).
Proof.
  intros Hs. exists (set 30 lr (foldl (exec sym) s (straight_ins (IRQ_ENTRY h)))).
  split; [exact (run_block sym lr vector_code (straight_ins (IRQ_ENTRY h)) 28 [I (Bl h); I (B "__exc_restore")] s eq_refl)|].
  destruct s as [x0 sp0 sr zf cf m]. cbn [MEM SP SR] in *. split_and!.
  - lazy -[ea Z.add Z.sub]. rewrite ea_ok; lia.
  - done.
  - lazy -[ea Z.add Z.sub wr]. rewrite !ea_ok by (rewrite ?ea_ok; lia). reflexivity.
  - intros i Hi. change (upd_x x0 30 lr i = x0 i). unfold upd_x. by rewrite (proj2 (Z.eqb_neq i 30)) by lia.
Qed.

Lemma irq_restore s :
  0 <= SP s -> SP s + 176 < U64 -> exists s',
  run sym lr vector_code 40 [I (B "__exc_restore")] s = Returned s' /\ SP s' = SP s + 176 /\ MEM s' = MEM s /\ SR s' = SR s /\
  (forall i r, caller_saved !! i = Some r -> X s' r = MEM s (SP s + 8 * Z.of_nat i)) /\
  (forall r, 19 <= r <= 28 -> X s' r = X s r).
Proof.
  intros Hs0 Hs1. exists (foldl (exec sym) s (straight_ins exc_restore)).
  split; [exact (run_block sym lr vector_code (straight_ins exc_restore) 27 [I Eret] s eq_refl)|].
  destruct s as [x0 sp0 sr zf cf m]. cbn [MEM SP SR] in *. split_and!; [lazy -[ea Z.add]; by rewrite ea_ok by lia|done|done| |].
  - intros i r Hi. do 21 (destruct i as [|i]; [injection Hi as <-; lazy -[ea Z.add]; by rewrite ea_ok by lia|]). done.
  - intros r Hr. assert (Hin : r ∈ [19; 20; 21; 22; 23; 24; 25; 26; 27; 28]) by (rewrite !elem_of_cons; lia).
    repeat (apply elem_of_cons in Hin as [->|Hin]; [reflexivity|]). by apply not_elem_of_nil in Hin.
Qed.

Lemma irq_frame_out s a : a < SP s - 176 \/ SP s <= a -> a ∉ (irq_frame s).*1.
Proof.
  intros Ha Hin. unfold irq_frame in Hin. rewrite fst_zip in Hin by done. apply list_elem_of_fmap in Hin as (i & -> & Hi).
  apply elem_of_seq in Hi. lia.
Qed.

Lemma irq_frame_in s i r :
  caller_saved !! i = Some r -> stores (irq_frame s) (MEM s) (SP s - 176 + 8 * Z.of_nat i) = X s r.
Proof.
  intros Hi. apply stores_in.
  - unfold irq_frame. rewrite fst_zip by done. apply NoDup_fmap_2; [intros j j' E; lia|apply NoDup_seq].
  - apply (list_elem_of_lookup_2 _ i). unfold irq_frame. apply lookup_zip_Some. rewrite !list_lookup_fmap, Hi. split; [|done].
    by rewrite lookup_seq_lt by (apply lookup_lt_Some in Hi; exact Hi).
Qed.

Lemma caller_saved_in r :
  0 <= r <= 30 -> ~ 19 <= r <= 28 -> exists i, caller_saved !! i = Some r /\ (i < 21)%nat.
Proof.
  intros Hr Hk. assert (Hin : r ∈ caller_saved) by (unfold caller_saved; rewrite !elem_of_cons; lia).
  apply list_elem_of_lookup in Hin as (i & Hi). exists i. split; [done|]. by apply lookup_lt_Some in Hi.
Qed.

Lemma fatal_run i s :
  is_u64 (sym "__exc_stack_top") -> exists s1 rest,
  run sym lr vector_code 20 (FATAL_ENTRY i) s = Called "exception_fatal" s1 rest /\
  X s1 0 = i /\ SP s1 = sym "__exc_stack_top" /\ MEM s1 = MEM s /\ SR s1 = SR s /\
  forall s2, run sym lr vector_code 20 rest s2 = Parked s2.
Proof.
  intros Hs. set (s1 := foldl (exec sym) s (straight_ins (FATAL_ENTRY i ++ exc_fatal_entry))).
  exists (set 30 lr s1), (drop 5 exc_fatal_entry ++ lower_common ++ user_restore). split; [reflexivity|].
  destruct s. split_and!; try done. etransitivity; [|by apply page_lo12]. done.
Qed.

Lemma restore_run s2 :
  is_u64 cc -> 0 <= MEM s2 cc -> MEM s2 cc + 288 <= U64 -> exists s3,
  run sym lr vector_code 41 user_restore s2 = Returned s3 /\ user_regs s3 = context_at (MEM s2) (MEM s2 cc) /\
  MEM s3 = MEM s2 /\ SP s3 = SP s2.
Proof.
  intros Hc H0 H1. destruct (restore_spec s2) as (s3 & Hr3 & Hu); [done..|]. exists s3. split; [|done]. rewrite <- Hr3.
  exact (run_label sym lr vector_code 40 "__user_restore" (drop 1 user_restore) s2).
Qed.

(** A trap from user mode and the way back.  A lower vector calls its handler
    with the pointer to the current task's context in x0, on the kernel stack as it
    was, and the context holds exactly the task's registers: x0 to x30, SP_EL0,
    ELR_EL1, SPSR_EL1 and both thread pointers; apart from it, memory changed at
    most in the two stack words below SP.  Whatever state the handler returns in,
    the code behind the call returns to user mode with exactly the registers of the
    context that __current_context then points to, so a handler that moves the
    pointer switches tasks; memory and the stack stay as the handler left them. *)
Lemma trap_roundtrip h s :
  trap_ok s -> is_u64 (sym h) -> exists s1,
  run sym lr vector_code 60 (LOWER_ENTRY h) s = CalledAt (sym h) s1 user_restore /\
  X s1 0 = MEM s cc /\ SP s1 = SP s /\ SR s1 = SR s /\ context_at (MEM s1) (MEM s cc) = user_regs s /\
  (forall a, a < MEM s cc \/ MEM s cc + 288 <= a -> a < SP s - 16 \/ SP s <= a -> MEM s1 a = MEM s a) /\
  forall s2, 0 <= MEM s2 cc -> MEM s2 cc + 288 <= U64 -> exists s3,
  run sym lr vector_code 41 user_restore s2 = Returned s3 /\ user_regs s3 = context_at (MEM s2) (MEM s2 cc) /\
  MEM s3 = MEM s2 /\ SP s3 = SP s2.
Proof.
  intros Ht Hh. pose proof (to_pointer s Ht) as Hc. destruct (lower_save h s Ht Hh) as (s' & Hr & E0 & Esp & Esr & Hcx & Hf).
  exists (set 30 lr s'). split_and!; [exact Hr|exact E0|exact Esp|exact Esr|exact Hcx|exact Hf|]. intros s2 H0 H1.
  by apply restore_run.
Qed.

(** [enter_user], the end of the boot: the kernel stack is rewound to its top,
    memory is untouched, and user mode starts with exactly the registers of the
    current context. *)
Lemma enter_user_exact s :
  is_u64 cc -> is_u64 (sym "__boot_stack_top") -> 0 <= MEM s cc -> MEM s cc + 288 <= U64 -> exists s',
  run sym lr vector_code 44 enter_user s = Returned s' /\ user_regs s' = context_at (MEM s) (MEM s cc) /\
  MEM s' = MEM s /\ SP s' = sym "__boot_stack_top".
Proof.
  intros Hc Hb H0 H1. set (s1 := foldl (exec sym) s (straight_ins enter_user)).
  assert (Hm : MEM s1 = MEM s /\ SP s1 = sym "__boot_stack_top").
  { destruct s. split; [done|]. etransitivity; [|by apply page_lo12]. done. }
  destruct Hm as [Hm Hsp]. destruct (restore_spec s1) as (s' & Hr & Hu & Hm' & Hsp'); [done|by rewrite Hm..|].
  exists s'. rewrite Hu, Hm', Hsp', Hm. split_and!; [|done..]. rewrite <- Hr.
  exact (run_block sym lr vector_code (straight_ins enter_user) 41 [I (B "__user_restore")] s eq_refl).
Qed.

(** C25: an interrupt in the kernel is transparent.  The two vectors for it call
    their handler on the kernel stack with 21 registers saved below the old stack
    pointer, memory outside these 176 bytes unchanged.  If the handler returns as
    the calling convention says (stack pointer, x19 to x28 and the frame as they
    were), the interrupted code goes on with every register from x0 to x30 and the
    stack pointer as at the interrupt. *)
Theorem irq_transparent h s :
  176 <= SP s < U64 -> exists s1,
  run sym lr vector_code 40 (IRQ_ENTRY h) s = Called h s1 [I (B "__exc_restore")] /\ SP s1 = SP s - 176 /\ SR s1 = SR s /\
  (forall a, a < SP s - 176 \/ SP s <= a -> MEM s1 a = MEM s a) /\
  forall s2, SP s2 = SP s1 -> (forall r, 19 <= r <= 28 -> X s2 r = X s1 r) ->
  (forall a, SP s - 176 <= a < SP s -> MEM s2 a = MEM s1 a) -> exists s3,
  run sym lr vector_code 40 [I (B "__exc_restore")] s2 = Returned s3 /\ SP s3 = SP s /\ MEM s3 = MEM s2 /\ SR s3 = SR s2 /\
  forall r, 0 <= r <= 30 -> X s3 r = X s r.
Proof.
  intros Hs. destruct (irq_save h s Hs) as (s1 & Hr & Hsp & Hsr & Hm & Hx). exists s1. split_and!; [done..| |].
  - intros a Ha. rewrite Hm. apply stores_out. by apply irq_frame_out.
  - intros s2 Hsp2 Hx2 Hm2. destruct (irq_restore s2) as (s3 & Hr3 & Hsp3 & Hm3 & Hsr3 & Hc & Hk); [lia..|]. exists s3.
    split_and!; [done|lia|done|done|]. intros r Hr'. destruct (decide (19 <= r <= 28)) as [H19|H19].
    { rewrite Hk, Hx2, Hx by lia. done. }
    destruct (caller_saved_in r) as (i & Hi & Hlt); [lia..|]. rewrite (Hc i r Hi), Hsp2, Hsp, Hm2 by lia. rewrite Hm.
    by apply irq_frame_in.
Qed.

(** C26: the vector table has its sixteen slots of at most 32 instructions: interrupts
    in the kernel at 5 and 6, traps from 64-bit user mode at 8, 9 and 10, and at
    every other index [i] the path to [exception_fatal (i)], which takes a stack of
    its own and reads no memory, so it works with any stack pointer; memory and
    system registers are as at the exception, and if the handler came back the core
    would wait for ever. *)
Theorem vector_table :
  is_u64 (sym "__exc_stack_top") -> length vectors = 16%nat /\
  forall i slot, vectors !! i = Some slot -> (length slot <= 32)%nat /\
  (i = 5%nat /\ slot = IRQ_ENTRY "irq_current" \/ i = 6%nat /\ slot = IRQ_ENTRY "fiq_current" \/
   i = 8%nat /\ slot = LOWER_ENTRY "el0_sync" \/ i = 9%nat /\ slot = LOWER_ENTRY "irq_lower" \/
   i = 10%nat /\ slot = LOWER_ENTRY "fiq_lower" \/
   (i ∉ [5; 6; 8; 9; 10]%nat) /\ forall s, exists s1 rest, run sym lr vector_code 20 slot s = Called "exception_fatal" s1 rest /\
     X s1 0 = Z.of_nat i /\ SP s1 = sym "__exc_stack_top" /\ MEM s1 = MEM s /\ SR s1 = SR s /\
     forall s2, run sym lr vector_code 20 rest s2 = Parked s2).
Proof.
  intros Hs. split; [done|]. intros i slot Hi. destruct (decide (i ∈ [5; 6; 8; 9; 10]%nat)) as [Hin|Hout].
  { repeat (apply elem_of_cons in Hin as [->|Hin]; [injection Hi as <-; split; [cbn; lia|tauto]|]). by apply not_elem_of_nil in Hin. }
  assert (E : slot = FATAL_ENTRY (Z.of_nat i)).
  { do 16 (destruct i as [|i]; [injection Hi as <-; reflexivity || (exfalso; apply Hout; set_solver)|]). done. }
  subst slot. split; [cbn; lia|]. do 5 right. split; [done|]. intros s. by apply fatal_run.
Qed.
End vectors.

(** *** boot.S *)

Section boot.
Context (sym : string -> Z) (lr : Z).

#[local] Abbreviation go := (run sym lr boot_code).

Definition finished (o : outcome) : Prop := o <> Unfinished.

Lemma run_mono n m k s : finished (go n k s) -> go (n + m) k s = go n k s.
Proof.
  revert k s. induction n as [|n IH]; intros k s Hf; [done|]. cbn [plus run] in *.
  destruct k as [|[l|i] k]; [done|by apply IH|]. destruct i; done || by apply IH.
Qed.

(** The affinity fields of MPIDR_EL1. *)
Definition affinity (s : cpu) : Z := Z.land (SR s MPIDR_EL1) 0xFF00FFFFFF.

(** A system register is, or is not, one of a given list. *)
Ltac sr_list := apply (bool_decide_unpack _); vm_compute; reflexivity.

(** Everything but the scratch registers, the flags and the named registers. *)
Definition keeps_but (rs : list Sr.t) (s s' : cpu) : Prop :=
  X s' 0 = X s 0 /\ MEM s' = MEM s /\ forall r, r ∉ rs -> SR s' r = SR s r.

Lemma run_b n l k s : go (S n) (I (B l) :: k) s = go n (goto boot_code l) s.
Proof. reflexivity. Qed.
Lemma run_cbz n r l k s : go (S n) (I (Cbz r l) :: k) s = go n (if get r s =? 0 then goto boot_code l else k) s.
Proof. reflexivity. Qed.
Lemma run_beq n l k s : go (S n) (I (Beq l) :: k) s = go n (if ZF s then goto boot_code l else k) s.
Proof. reflexivity. Qed.
Lemma run_bne n l k s : go (S n) (I (Bne l) :: k) s = go n (if ZF s then k else goto boot_code l) s.
Proof. reflexivity. Qed.
Lemma run_bhs n l k s : go (S n) (I (Bhs l) :: k) s = go n (if CF s then goto boot_code l else k) s.
Proof. reflexivity. Qed.

Lemma phase0 s : exists s1,
  keeps_but [DAIF] s s1 /\ SR s1 DAIF = Z.lor (SR s DAIF) 0x3C0 /\
  (affinity s <> 0 -> go 21 (goto boot_code "_start") s = Parked s1) /\
  (affinity s = 0 -> forall n, go (8 + n) (goto boot_code "_start") s = go n (goto boot_code "1") s1).
Proof.
  set (blk := take 6 (straight_ins phase0_entry)). set (s1 := foldl (exec sym) s blk). exists s1.
  assert (Hget : get 1 s1 = affinity s) by by destruct s. set (rest := drop 8 phase0_entry ++ el2_to_el1 ++ el1_entry).
  split_and!.
  - destruct s as [x0 sp0 sr zf cf m]. split_and!; [done|done|]. intros r Hr. destruct r; try done. by destruct Hr; left.
  - by destruct s.
  - intros Ha. etransitivity; [exact (run_b 20 "phase0_entry" (phase0_entry ++ el2_to_el1 ++ el1_entry) s)|].
    etransitivity; [exact (run_block sym lr boot_code blk 14 (I (Cbz 1 "1") :: rest) s eq_refl)|].
    rewrite run_cbz. fold s1. rewrite Hget, (proj2 (Z.eqb_neq _ _)) by done. reflexivity.
  - intros Ha n. etransitivity; [exact (run_b (7 + n) "phase0_entry" (phase0_entry ++ el2_to_el1 ++ el1_entry) s)|].
    etransitivity; [exact (run_block sym lr boot_code blk (S n) (I (Cbz 1 "1") :: rest) s eq_refl)|].
    rewrite run_cbz. fold s1. by rewrite Hget, (proj2 (Z.eqb_eq _ _)).
Qed.

(** The level in CurrentEL, and where it leads. *)
Definition el (s : cpu) : Z := Z.shiftr (SR s CurrentEL) 2.

Lemma level s :
  (el s = 1 -> exists s1, keeps_but [] s s1 /\ forall n, go (4 + n) (goto boot_code "1") s = go n (goto boot_code "el1_entry") s1) /\
  (el s = 2 -> exists s1, keeps_but [] s s1 /\ forall n, go (7 + n) (goto boot_code "1") s = go n (drop 1 el2_to_el1 ++ el1_entry) s1) /\
  (el s <> 1 -> el s <> 2 -> exists s1, keeps_but [] s s1 /\ go 10 (goto boot_code "1") s = Parked s1).
Proof.
  set (blk := [Mrs 1 CurrentEL; LsrI 1 1 2; CmpI 1 1]). set (s1 := foldl (exec sym) s blk).
  set (s2 := exec sym s1 (CmpI 1 2)).
  set (tl := I (CmpI 1 2) :: I (Bne "0") :: el2_to_el1 ++ el1_entry).
  assert (Hrun : forall n, go (4 + n) (goto boot_code "1") s = go n (if ZF s1 then goto boot_code "el1_entry" else tl) s1).
  { intros n. etransitivity; [exact (run_block sym lr boot_code blk (S n) (I (Beq "el1_entry") :: tl) s eq_refl)|]. by rewrite run_beq. }
  assert (Htl : forall n, go (2 + n) tl s1 = go n (if ZF s2 then el2_to_el1 ++ el1_entry else goto boot_code "0") s2).
  { intros n. etransitivity; [exact (run_block sym lr boot_code [CmpI 1 2] (S n) (I (Bne "0") :: el2_to_el1 ++ el1_entry) s1 eq_refl)|].
    by rewrite run_bne. }
  assert (Hz1 : ZF s1 = (el s =? 1)) by by destruct s. assert (Hz2 : ZF s2 = (el s =? 2)) by by destruct s.
  split_and!.
  - intros E. exists s1. split; [by destruct s|]. intros n. by rewrite Hrun, Hz1, E.
  - intros E. exists s2. split; [by destruct s|]. intros n. change (7 + n)%nat with (4 + (2 + S n))%nat.
    rewrite Hrun, Hz1, E, Htl, Hz2, E. exact (run_label sym lr boot_code n "el2_to_el1" (drop 1 el2_to_el1 ++ el1_entry) s2).
  - intros E1 E2. exists s2. split; [by destruct s|]. change 10%nat with (4 + (2 + 4))%nat.
    by rewrite Hrun, Hz1, (proj2 (Z.eqb_neq _ _) E1), Htl, Hz2, (proj2 (Z.eqb_neq _ _) E2).
Qed.

(** The registers of EL2 that the drop to EL1 sets. *)
Definition el2_regs : list Sr.t := [HCR_EL2; CNTHCTL_EL2; CNTVOFF_EL2; CPTR_EL2; HSTR_EL2; MDCR_EL2; SPSR_EL2; ELR_EL2].

Definition hcr (s : cpu) : Z :=
  Z.shiftl 1 31 + Z.shiftl 1 29 + (if Z.land (SR s ID_AA64ISAR1_EL1) 0xFF0 =? 0 then 0 else Z.shiftl 3 40).

Definition dropped (s s1 : cpu) : Prop :=
  SR s1 HCR_EL2 = hcr s /\ SR s1 CNTHCTL_EL2 = Z.lor (SR s CNTHCTL_EL2) 3 /\ SR s1 CNTVOFF_EL2 = 0 /\
  SR s1 CPTR_EL2 = 0x33ff /\ SR s1 HSTR_EL2 = 0 /\ SR s1 MDCR_EL2 = Z.land (SR s MDCR_EL2) 0x1f /\
  SR s1 SPSR_EL2 = 0x3c5 /\ SR s1 ELR_EL2 = sym "el1_entry".

Lemma el2_drop s : exists s1,
  go 29 (drop 1 el2_to_el1 ++ el1_entry) s = Returned s1 /\ keeps_but el2_regs s s1 /\ dropped s s1.
Proof.
  set (b1 := take 5 (straight_ins el2_to_el1)). set (b2 := drop 6 (straight_ins el2_to_el1)).
  set (o := OrrI 1 1 (Z.shiftl 3 40)). set (s1 := foldl (exec sym) s b1).
  set (s2 := foldl (exec sym) s1 (if ZF s1 then b2 else o :: b2)).
  assert (Hz : ZF s1 = (Z.land (SR s ID_AA64ISAR1_EL1) 0xFF0 =? 0)) by by destruct s.
  exists s2. split_and!.
  - etransitivity; [exact (run_block sym lr boot_code b1 24 (I (Beq "5") :: drop 7 el2_to_el1 ++ el1_entry) s eq_refl)|].
    rewrite run_beq. fold s1. unfold s2. destruct (ZF s1).
    + exact (run_block sym lr boot_code b2 8 (I Eret :: el1_entry) s1 eq_refl).
    + etransitivity; [exact (run_block sym lr boot_code [o] 22 (L "5" :: (I <$> b2) ++ I Eret :: el1_entry) s1 eq_refl)|].
      exact (run_block sym lr boot_code b2 6 (I Eret :: el1_entry) (exec sym s1 o) eq_refl).
  - unfold s2. destruct (ZF s1); destruct s; split_and!; try done; intros r Hr; destruct r; try done; exfalso; apply Hr;
      repeat (done || constructor).
  - unfold dropped, hcr. rewrite <- Hz. unfold s2. destruct (ZF s1); destruct s; split_and!; done.
Qed.

(** Memory with the words of [lo, hi) zero. *)
Definition zeroed (lo hi : Z) (m : Z -> Z) : Z -> Z :=
  fun w => if (lo <=? w) && (w <? hi) && ((w - lo) mod 8 =? 0) then 0 else m w.

Lemma zeroed_step lo hi m w :
  lo + 16 <= hi -> zeroed (lo + 16) hi (wr (wr m lo 0) (lo + 8) 0) w = zeroed lo hi m w.
Proof.
  intros Hlo. unfold zeroed, wr. pose proof (Z.div_mod (w - lo) 8 ltac:(lia)) as E.
  pose proof (Z.mod_pos_bound (w - lo) 8 ltac:(lia)). replace ((w - (lo + 16)) mod 8) with ((w - lo) mod 8).
  2:{ replace (w - (lo + 16)) with (w - lo + (-2) * 8) by lia. by rewrite Z_mod_plus_full. }
  repeat case_match; try done; rewrite ?andb_true_iff, ?andb_false_iff in *; lia.
Qed.

Lemma bss_loop k s :
  X s 1 + 16 * Z.of_nat k = X s 2 -> 0 <= X s 1 -> X s 2 < U64 -> exists s',
  go (4 * k + 3) (goto boot_code "2") s = Called "kernel_init" (set 30 lr s') [L "4"; I Wfe; I (B "4")] /\
  X s' 0 = X s 0 /\ SP s' = SP s /\ SR s' = SR s /\ forall w, MEM s' w = zeroed (X s 1) (X s 2) (MEM s) w.
Proof.
  revert s. induction k as [|k IH]; intros s Hk H0 H1; set (s1 := exec sym s (CmpR 1 2));
    assert (Hc : CF s1 = (X s 2 <=? X s 1)) by done.
  - exists s1. split; [|split_and!; try done].
    + change (go 2 (I (Bhs "3") :: drop 15 el1_entry) s1 = Called "kernel_init" (set 30 lr s1) [L "4"; I Wfe; I (B "4")]).
      rewrite run_bhs, Hc, (proj2 (Z.leb_le _ _)) by lia. done.
    + intros w. unfold zeroed. case_match; [|done]. rewrite !andb_true_iff in *. lia.
  - set (s2 := exec sym s1 (StpPost xzr xzr (R 1) 16)). replace (4 * S k + 3)%nat with (2 + (2 + (4 * k + 3)))%nat by lia.
    change (go (2 + (2 + (4 * k + 3))) (goto boot_code "2") s) with (go (S (2 + (4 * k + 3))) (I (Bhs "3") :: drop 15 el1_entry) s1).
    rewrite run_bhs, Hc, (proj2 (Z.leb_gt _ _)) by lia.
    change (go (2 + (4 * k + 3)) (drop 15 el1_entry) s1) with (go (4 * k + 3) (goto boot_code "2") s2).
    assert (Hx : X s2 0 = X s 0 /\ X s2 1 = X s 1 + 16 /\ X s2 2 = X s 2 /\ SP s2 = SP s /\ SR s2 = SR s /\
      MEM s2 = wr (wr (MEM s) (X s 1) 0) (X s 1 + 8) 0).
    { destruct s as [x0 sp0 sr zf cf m]. cbn [X] in *. split_and!; try done; lazy -[ea Z.add wr]; rewrite !ea_ok by lia;
        by rewrite ?Z.add_0_r. }
    destruct Hx as (E0 & E1 & E2 & E3 & E4 & E5). destruct (IH s2) as (s' & Hr & F0 & F1 & F2 & F3); [lia..|].
    exists s'. rewrite Hr, F0, F1, F2, E0, E3, E4. split_and!; [done..|]. intros w. rewrite F3, E1, E2, E5. apply zeroed_step. lia.
Qed.

(** What the linker script places: the ends of .bss on 16 bytes, as the loop that
    stores two words at a time needs them. *)
Record boot_symbols : Prop := {
  bs_stack : is_u64 (sym "__boot_stack_top");
  bs_start : is_u64 (sym "__bss_start");
  bs_end : is_u64 (sym "__bss_end");
  bs_order : sym "__bss_start" <= sym "__bss_end";
  bs_align : (sym "__bss_end" - sym "__bss_start") mod 16 = 0
}.

(** Four steps for each pair of words, and the straight code. *)
Definition bss_pairs : nat := Z.to_nat ((sym "__bss_end" - sym "__bss_start") / 16).
Definition boot_fuel : nat := 50 + 4 * bss_pairs.

(** [kernel_init] is called with the bootloader's x0, on the boot stack, with the
    MMU and the floating-point unit off and .bss zero. *)
Record init_call (s s' : cpu) : Prop := {
  ic_x0 : X s' 0 = X s 0;
  ic_sp : SP s' = sym "__boot_stack_top";
  ic_sctlr : SR s' SCTLR_EL1 = 0x30d00818;
  ic_cpacr : SR s' CPACR_EL1 = 0;
  ic_sr : forall r, r ∉ [SCTLR_EL1; CPACR_EL1] -> SR s' r = SR s r;
  ic_mem : forall w, MEM s' w = zeroed (sym "__bss_start") (sym "__bss_end") (MEM s) w
}.

Lemma el1_run s :
  boot_symbols -> exists s', init_call s s' /\
  go (14 + (4 * bss_pairs + 1)) (goto boot_code "el1_entry") s = Called "kernel_init" s' [L "4"; I Wfe; I (B "4")].
Proof.
  intros [Hs H0 H1 Ho Ha]. unfold is_u64 in *. set (blk := take 11 (straight_ins el1_entry)). set (s1 := foldl (exec sym) s blk).
  assert (Hx : X s1 0 = X s 0 /\ X s1 1 = sym "__bss_start" /\ X s1 2 = sym "__bss_end" /\ SP s1 = sym "__boot_stack_top").
  { destruct s. split_and!; [done|..]; (etransitivity; [|by apply page_lo12]); done. }
  destruct Hx as (E0 & E1 & E2 & E3).
  assert (Hk : sym "__bss_start" + 16 * Z.of_nat bss_pairs = sym "__bss_end").
  { unfold bss_pairs. rewrite Z2Nat.id by (apply Z.div_pos; lia).
    pose proof (Z.div_mod (sym "__bss_end" - sym "__bss_start") 16 ltac:(lia)). lia. }
  destruct (bss_loop bss_pairs s1) as (s' & Hr & F0 & F1 & F2 & F3); [rewrite ?E1, ?E2; lia..|]. exists (set 30 lr s'). split.
  - split; [exact (eq_trans F0 E0)|exact (eq_trans F1 E3)|cbn [set]..].
    + change (SR s' SCTLR_EL1 = 0x30d00818). rewrite F2. by destruct s.
    + change (SR s' CPACR_EL1 = 0). rewrite F2. by destruct s.
    + intros r Hr'. change (SR s' r = SR s r). rewrite F2. destruct s, r; try done; exfalso; apply Hr'; repeat (done || constructor).
    + intros w. change (MEM s' w = zeroed (sym "__bss_start") (sym "__bss_end") (MEM s) w). rewrite F3, E1, E2. by destruct s.
  - rewrite <- Hr. replace (14 + (4 * bss_pairs + 1))%nat with (11 + S (4 * bss_pairs + 3))%nat by lia.
    exact (run_block sym lr boot_code blk (S (4 * bss_pairs + 3)) (drop 12 el1_entry) s eq_refl).
Qed.

Lemma run_enough n m k s o : go n k s = o -> finished o -> (n <= m)%nat -> go m k s = o.
Proof. intros <- Hf Hm. replace m with (n + (m - n))%nat by lia. by apply run_mono. Qed.

(** The processor that runs [kernel_init]: interrupts masked, at EL1; from EL2 also
    with the registers of EL2 that EL1 depends on. *)
Definition entered (s s' : cpu) : Prop :=
  Z.land (SR s' DAIF) 0x3C0 = 0x3C0 /\ el s' = 1 /\ (el s = 2 -> dropped s s').

Lemma masked_daif z : Z.land (Z.lor z 0x3C0) 0x3C0 = 0x3C0.
Proof.
  apply Z.bits_inj'. intros i _. rewrite Z.land_spec, Z.lor_spec. by destruct (Z.testbit z i), (Z.testbit 0x3C0 i).
Qed.

Lemma boot_el1 s :
  boot_symbols -> affinity s = 0 -> el s = 1 -> exists s',
  boot_run sym lr boot_code boot_fuel s = Called "kernel_init" s' [L "4"; I Wfe; I (B "4")] /\ entered s s' /\
  X s' 0 = X s 0 /\ SP s' = sym "__boot_stack_top" /\ SR s' SCTLR_EL1 = 0x30d00818 /\ SR s' CPACR_EL1 = 0 /\
  forall w, MEM s' w = zeroed (sym "__bss_start") (sym "__bss_end") (MEM s) w.
Proof.
  intros Hb Ha He. destruct (phase0 s) as (s1 & (K0 & K1 & K2) & Hd & _ & Hrun). specialize (Hrun Ha).
  assert (He1 : el s1 = 1) by (unfold el; rewrite K2; [done|sr_list]).
  destruct (level s1) as (Hl & _ & _). destruct (Hl He1) as (s2 & (L0 & L1 & L2) & Hrun2).
  destruct (el1_run s2 Hb) as (s' & [I0 I1 I2 I3 I4 I5] & Hr). exists s'. split.
  - unfold boot_run. rewrite (run_enough (8 + (4 + (14 + (4 * bss_pairs + 1)))) boot_fuel _ s (Called "kernel_init" s' [L "4"; I Wfe; I (B "4")])); [done| |done|unfold boot_fuel; lia].
    by rewrite Hrun, Hrun2.
  - split; [|split_and!; [congruence|done|done|done|]].
    + unfold entered, el in *. rewrite !I4, !L2 by sr_list. rewrite Hd. split_and!; [apply masked_daif|done|lia].
    + intros w. by rewrite I5, L1, K1.
Qed.

Lemma boot_el2 s :
  boot_symbols -> affinity s = 0 -> el s = 2 -> exists s',
  boot_run sym lr boot_code boot_fuel s = Called "kernel_init" s' [L "4"; I Wfe; I (B "4")] /\ entered s s' /\
  X s' 0 = X s 0 /\ SP s' = sym "__boot_stack_top" /\ SR s' SCTLR_EL1 = 0x30d00818 /\ SR s' CPACR_EL1 = 0 /\
  forall w, MEM s' w = zeroed (sym "__bss_start") (sym "__bss_end") (MEM s) w.
Proof.
  intros Hb Ha He. destruct (phase0 s) as (s1 & (K0 & K1 & K2) & _ & _ & Hrun). specialize (Hrun Ha).
  assert (He1 : el s1 = 2) by (unfold el; rewrite K2; [done|sr_list]).
  destruct (level s1) as (_ & Hl & _). destruct (Hl He1) as (s2 & (L0 & L1 & L2) & Hrun2).
  destruct (el2_drop s2) as (s3 & Hr3 & (M0 & M1 & M2) & D).
  destruct (el1_run (eret_el2 s3) Hb) as (s' & [I0 I1 I2 I3 I4 I5] & Hr). exists s'.
  assert (Hsp : SR s3 SPSR_EL2 = 0x3c5) by apply D. split.
  - unfold boot_run. rewrite (run_enough (8 + (7 + 29)) boot_fuel _ s (Returned s3)); [|by rewrite Hrun, Hrun2|done|unfold boot_fuel; lia].
    rewrite (proj2 (Z.eqb_eq _ _)) by apply D. eapply run_enough; [exact Hr|done|unfold boot_fuel; lia].
  - assert (Hin : forall r, r ∈ el2_regs -> SR s' r = SR s3 r).
    { intros r Hin. destruct r; (exfalso; revert Hin; sr_list) || by rewrite I4 by sr_list. }
    split; [|split_and!; [rewrite I0; change (X (eret_el2 s3) 0) with (X s3 0); congruence|done|done|done|]].
    + split_and!.
      * rewrite I4 by sr_list. change (SR (eret_el2 s3) DAIF) with (Z.land (SR s3 SPSR_EL2) 0x3C0). by rewrite Hsp.
      * unfold el. rewrite I4 by sr_list. change (SR (eret_el2 s3) CurrentEL) with (Z.land (SR s3 SPSR_EL2) 0xC). by rewrite Hsp.
      * intros _. unfold dropped, hcr in *. rewrite !Hin by sr_list.
        assert (G : SR s2 CNTHCTL_EL2 = SR s CNTHCTL_EL2 /\ SR s2 MDCR_EL2 = SR s MDCR_EL2 /\ SR s2 ID_AA64ISAR1_EL1 = SR s ID_AA64ISAR1_EL1)
          by (rewrite !L2, !K2 by sr_list; done).
        destruct G as (<- & <- & <-). exact D.
    + intros w. rewrite I5. change (MEM (eret_el2 s3)) with (MEM s3). by rewrite M1, L1, K1.
Qed.

Lemma boot_parks s :
  ~ (affinity s = 0 /\ (el s = 1 \/ el s = 2)) ->
  exists s', boot_run sym lr boot_code boot_fuel s = Parked s' /\ MEM s' = MEM s.
Proof.
  intros Hc.
  destruct (phase0 s) as (s1 & (K0 & K1 & K2) & Hd & Hpark & Hrun). unfold boot_run.
  destruct (decide (affinity s = 0)) as [Ha|Ha].
  - assert (He1 : el s1 = el s) by (unfold el; rewrite K2; [done|sr_list]).
    destruct (level s1) as (_ & _ & Hl). destruct Hl as (s2 & (L0 & L1 & L2) & Hr); [lia..|]. exists s2.
    rewrite (run_enough (8 + 10) boot_fuel _ s (Parked s2)); [split; congruence|by rewrite (Hrun Ha)|done|unfold boot_fuel; lia].
  - exists s1. rewrite (run_enough 21 boot_fuel _ s (Parked s1)); [split; congruence|by apply Hpark|done|unfold boot_fuel; lia].
Qed.

(** C24: boot.S, from the bootloader's jump.  On core 0, entered at EL1 or EL2, the
    code comes to the call of [kernel_init] after at most [boot_fuel] steps on
    each side of the [eret]: at EL1 with interrupts masked, with the bootloader's
    x0 (the device tree), on the boot stack, with the fixed SCTLR_EL1 and
    CPACR_EL1, and with memory changed in one way only, that .bss is zero; and
    from EL2 with exactly the hypervisor registers of the source, pointer
    authentication handed to EL1 if and only if the core has it.  Every other core,
    and an entry at EL3 or EL0, ends in the endless wait with memory untouched. *)
Theorem boot_exact s :
  boot_symbols ->
  if bool_decide (affinity s = 0 /\ (el s = 1 \/ el s = 2)) then exists s',
    boot_run sym lr boot_code boot_fuel s = Called "kernel_init" s' [L "4"; I Wfe; I (B "4")] /\ entered s s' /\
    X s' 0 = X s 0 /\ SP s' = sym "__boot_stack_top" /\ SR s' SCTLR_EL1 = 0x30d00818 /\ SR s' CPACR_EL1 = 0 /\
    forall w, MEM s' w = zeroed (sym "__bss_start") (sym "__bss_end") (MEM s) w
  else exists s', boot_run sym lr boot_code boot_fuel s = Parked s' /\ MEM s' = MEM s.
Proof.
  intros Hb. case_bool_decide as Hc.
  { destruct Hc as (Ha & [He|He]); [by apply boot_el1|by apply boot_el2]. }
  by apply boot_parks.
Qed.
End boot.

(** ** Examples *)

Module AsmEx.

(** Addresses, and a core that enters at EL2, core 0, with pointer authentication. *)
Definition syms (f : string) : Z :=
  if String.eqb f "__current_context" then 0x40080000 else
  if String.eqb f "__bss_start" then 0x40090000 else if String.eqb f "__bss_end" then 0x40090020 else
  if String.eqb f "__boot_stack_top" then 0x400A0000 else if String.eqb f "__exc_stack_top" then 0x400B0000 else 0x40200000.

Definition core : cpu :=
  mkCpu (fun r => r) 0x400A0000 (fun r => if sr_code r =? sr_code CurrentEL then 8 else if sr_code r =? sr_code MPIDR_EL1 then 0x80000000 else 0x10)
    false false (fun a => if a =? 0x40080000 then 0x40070000 else a).

Lemma boot_exact_witness :
  affinity core = 0 /\ el core = 2 /\ exists s',
  boot_run syms 0 boot_code (boot_fuel syms) core = Called "kernel_init" s' [L "4"; I Wfe; I (B "4")] /\ entered syms core s' /\
  X s' 0 = X core 0 /\ SP s' = 0x400A0000 /\ SR s' SCTLR_EL1 = 0x30d00818 /\ SR s' CPACR_EL1 = 0 /\
  forall w, MEM s' w = zeroed 0x40090000 0x40090020 (MEM core) w.
Proof.
  split; [reflexivity|]. split; [reflexivity|].
  refine (boot_exact syms 0 core _). split; vm_compute; repeat split; congruence || reflexivity.
Defined.

Lemma trap_roundtrip_witness :
  trap_ok syms core /\ exists s1,
  run syms 0 vector_code 60 (LOWER_ENTRY "el0_sync") core = CalledAt (syms "el0_sync") s1 user_restore /\
  X s1 0 = MEM core (cc syms) /\ SP s1 = SP core /\ SR s1 = SR core /\
  context_at (MEM s1) (MEM core (cc syms)) = user_regs core /\
  (forall a, a < MEM core (cc syms) \/ MEM core (cc syms) + 288 <= a -> a < SP core - 16 \/ SP core <= a -> MEM s1 a = MEM core a) /\
  forall s2, 0 <= MEM s2 (cc syms) -> MEM s2 (cc syms) + 288 <= U64 -> exists s3,
  run syms 0 vector_code 41 user_restore s2 = Returned s3 /\ user_regs s3 = context_at (MEM s2) (MEM s2 (cc syms)) /\
  MEM s3 = MEM s2 /\ SP s3 = SP s2.
Proof.
  assert (Ht : trap_ok syms core).
  { split; [split; vm_compute; congruence|split; vm_compute; congruence|split; vm_compute; congruence|left; vm_compute; congruence|
      left; vm_compute; congruence]. }
  split; [exact Ht|]. apply (trap_roundtrip syms 0 "el0_sync" core Ht). split; vm_compute; congruence.
Defined.

Lemma enter_user_exact_witness :
  exists s', run syms 0 vector_code 44 enter_user core = Returned s' /\ user_regs s' = context_at (MEM core) 0x40070000 /\
  MEM s' = MEM core /\ SP s' = 0x400A0000.
Proof. apply (enter_user_exact syms 0 core); try split; vm_compute; congruence. Defined.

Lemma irq_transparent_witness : exists s1,
  run syms 0 vector_code 40 (IRQ_ENTRY "irq_current") core = Called "irq_current" s1 [I (B "__exc_restore")] /\
  SP s1 = SP core - 176 /\ SR s1 = SR core /\ (forall a, a < SP core - 176 \/ SP core <= a -> MEM s1 a = MEM core a) /\
  forall s2, SP s2 = SP s1 -> (forall r, 19 <= r <= 28 -> X s2 r = X s1 r) ->
  (forall a, SP core - 176 <= a < SP core -> MEM s2 a = MEM s1 a) -> exists s3,
  run syms 0 vector_code 40 [I (B "__exc_restore")] s2 = Returned s3 /\ SP s3 = SP core /\ MEM s3 = MEM s2 /\ SR s3 = SR s2 /\
  forall r, 0 <= r <= 30 -> X s3 r = X core r.
Proof. apply (irq_transparent syms 0 "irq_current" core). split; vm_compute; congruence. Defined.

Lemma vector_table_witness : length vectors = 16%nat /\ vectors !! 4%nat = Some (FATAL_ENTRY 4) /\ exists s1 rest,
  run syms 0 vector_code 20 (FATAL_ENTRY 4) core = Called "exception_fatal" s1 rest /\ SP s1 = 0x400B0000.
Proof.
  destruct (vector_table syms 0) as [Hlen Hslots]; [split; vm_compute; congruence|]. split; [exact Hlen|]. split; [reflexivity|].
  destruct (Hslots 4%nat _ eq_refl) as [_ [[E _]|[[E _]|[[E _]|[[E _]|[[E _]|[_ Hf]]]]]]]; try discriminate E.
  destruct (Hf core) as (s1 & rest & Hr & _ & Hsp & _). exists s1, rest. split; [exact Hr|exact Hsp].
Defined.

End AsmEx.
