(* ===== verification/Entry.v ===== *)
(** * From the first Rust instruction to the root task

    kernel/src/main.rs: [kernel_init], [enable_mmu], [kernel_main] with every
    console message, and the two self-checks [check_wx] and [check_user_wx] with
    the address-translation probes of crates/k0-mm ([can_read], [can_write],
    [can_user_read], [can_user_write], [can_read_pan_checked]).  The state is the
    processor and its devices (Arch.v), the kernel's table pool and physical
    memory.  A probe is the architecture's stage-1 walk over the tables in
    memory with the permission check of the access.

    The jump to the higher half is the call of [kernel_main] by [start_kernel]; the
    linker symbols are the record [Symbols], with the order and alignment that the
    linker scripts give them (Link.v) as [symbols_ok].  The steps from the window to the
    handoff are those of Boot.v, here with their messages; [main_refines_boot]
    shows that they compute the same state.  Timer interrupts taken by the kernel
    while it boots only count and print ([irq_current] of Arch.v) and are left
    out. *)

From Stdlib Require Import String.
From S2P Require Import Prelude Abi Cap Task Sched Ipc Radix Paging User Build Kernel System Fdt FdtBuild Spawn Boot Image Arch.

#[local] Close Scope string_scope.
#[local] Open Scope Z_scope.
Import SysReg.

(** ** Messages *)

(** [{v:#x}]. *)
Definition hex (v : Z) : list Z := lit "0x" ++ format_hex v.
(** [{v:02x}]. *)
Definition hex2 (v : Z) : list Z := hex_digits 2 v.
(** [{b}]. *)
Definition show_bool (b : bool) : list Z := if b then lit "true" else lit "false".

(** [{e:?}] and [e as u64] of the error types. *)
Definition mmu_name (e : MmuError.t) : list Z :=
  match e with
  | MmuError.AlreadyEnabled => lit "AlreadyEnabled" | MmuError.NotEnabled => lit "NotEnabled"
  | MmuError.GranuleUnsupported => lit "GranuleUnsupported" | MmuError.OutOfTables => lit "OutOfTables"
  | MmuError.OutOfFrames => lit "OutOfFrames" | MmuError.Misaligned => lit "Misaligned"
  | MmuError.Overlap => lit "Overlap" | MmuError.NullPage => lit "NullPage"
  | MmuError.BadTable => lit "BadTable" | MmuError.MissingTable => lit "MissingTable"
  end.
Definition mmu_code (e : MmuError.t) : Z :=
  match e with
  | MmuError.AlreadyEnabled => 0 | MmuError.NotEnabled => 1 | MmuError.GranuleUnsupported => 2
  | MmuError.OutOfTables => 3 | MmuError.OutOfFrames => 4 | MmuError.Misaligned => 5 | MmuError.Overlap => 6
  | MmuError.NullPage => 7 | MmuError.BadTable => 8 | MmuError.MissingTable => 9
  end.
Definition boot_name (e : BootError.t) : list Z :=
  match e with
  | BootError.NullPointer => lit "NullPointer" | BootError.Misaligned => lit "Misaligned"
  | BootError.BadMagic => lit "BadMagic" | BootError.BadHeader => lit "BadHeader"
  | BootError.UnsupportedVersion => lit "UnsupportedVersion" | BootError.OverlapsKernel => lit "OverlapsKernel"
  | BootError.Truncated => lit "Truncated" | BootError.BadStructure => lit "BadStructure"
  | BootError.TooDeep => lit "TooDeep" | BootError.BadString => lit "BadString"
  | BootError.UnsupportedCells => lit "UnsupportedCells" | BootError.BadReg => lit "BadReg"
  | BootError.TooManyRegions => lit "TooManyRegions" | BootError.NoMemory => lit "NoMemory"
  end.
Definition boot_code (e : BootError.t) : Z :=
  match e with
  | BootError.NullPointer => 0 | BootError.Misaligned => 1 | BootError.BadMagic => 2 | BootError.BadHeader => 3
  | BootError.UnsupportedVersion => 4 | BootError.OverlapsKernel => 5 | BootError.Truncated => 6
  | BootError.BadStructure => 7 | BootError.TooDeep => 8 | BootError.BadString => 9
  | BootError.UnsupportedCells => 10 | BootError.BadReg => 11 | BootError.TooManyRegions => 12
  | BootError.NoMemory => 13
  end.
Definition spawn_name (e : SpawnError.t) : list Z :=
  match e with
  | SpawnError.BadLayout => lit "BadLayout"
  | SpawnError.Mmu e => lit "Mmu(" ++ mmu_name e ++ lit ")"
  end.
Definition cap_name (e : CapError.t) : list Z :=
  match e with CapError.OutOfSlots => lit "OutOfSlots" | CapError.BadRegion => lit "BadRegion" end.
Definition irq_name (e : IrqError.t) : list Z :=
  match e with IrqError.GicRwpTimeout => lit "GicRwpTimeout" | IrqError.GicWakeTimeout => lit "GicWakeTimeout" end.

(** What [kernel_main] prints before it parks, by the step that failed. *)
Definition fail_text (e : boot_fail) : list Z :=
  match e with
  | DeviceOverlap m dev => lit "k0: dtb memory " ++ hex (m_base m) ++ lit " + " ++ hex (m_size m) ++
                           lit " overlaps device window " ++ hex (start dev)
  | NoWindow => lit "k0: no frame window in memory map"
  | WindowMap e => lit "k0: window map failed: " ++ mmu_name e
  | FrameAllocFailed e => lit "k0: frame alloc failed: " ++ mmu_name e
  | BootinfoFrame e => lit "k0: bootinfo frame alloc failed: " ++ mmu_name e
  | TooManySegments => lit "k0: too many root task segments"
  | SpawnFailed e => lit "k0: root task spawn failed: " ++ spawn_name e
  | CapFailed e => lit "k0: cap bootstrap failed: " ++ cap_name e
  end.

(** ** State *)

(** The linker symbols, as physical addresses, and the addresses of two statics. *)
Record Symbols := mkSym {
  kernel_start : Z;
  kernel_end : Z;
  rodata_start : Z;
  data_start : Z;
  boot_stack_bottom : Z;
  boot_stack_top : Z;
  vectors : Z;
  root_tcb : Z
}.

(** The processor, the kernel's tables, memory, and the user root that TTBR0
    holds once it no longer holds the identity map. *)
Record estate (D : Type) := mkE { e_arch : arch D; e_pool : Pool; e_words : words; e_user : option Z }.
Arguments mkE {D}.
Arguments e_arch {D}.
Arguments e_pool {D}.
Arguments e_words {D}.
Arguments e_user {D}.

Section entry.
Context `{Platform, PoolVa} {D : Type} `{!Hw D} (fuel : nat).
Context `{hash : Hash} (mem : Z -> Z) (sym : Symbols) (gen : Generated).

Abbreviation N := (M (estate D) stop).

Definition on_cpu {X} (m : M (arch D) stop X) : N X := fun s =>
  let '(r, a) := m (e_arch s) in (r, mkE a (e_pool s) (e_words s) (e_user s)).
Definition set_pool (p : Pool) : N unit := modS (fun s => mkE (e_arch s) p (e_words s) (e_user s)).
Definition set_mem (w : words) : N unit := modS (fun s => mkE (e_arch s) (e_pool s) w (e_user s)).

(** [install_user_ttbr0]: the register write, and the change of the low half. *)
Definition install_user (root : Z) : N unit :=
  do! _ := on_cpu (acts [Dsb; Msr TTBR0_EL1 root; Isb; TlbiVmalle1; Dsb; Isb]) in
  modS (fun s => mkE (e_arch s) (e_pool s) (e_words s) (Some root)).

Definition say (l : list Z) : N unit := on_cpu (put_str fuel l).
(** [writeln!]. *)
Definition line (l : list Z) : N unit := say (l ++ [10]).
Definition park_here {X} : N X := throw Stopped.

(** A step of the boot sequence: its result, or its message and the end. *)
Definition attempt {X} (r : res boot_fail X) : N X :=
  match r with
  | Ok x => ret x
  | Err e => do! _ := line (fail_text e) in park_here
  | Panic => panic
  | OutOfFuel => lift OutOfFuel
  end.

(** ** Address-translation probes *)

(** The stage-1 walk: the low half through TTBR0, the high half through TTBR1,
    anything between the halves faults. *)
Definition walk_va (s : estate D) (va : Z) : option Z :=
  if va <? 2 ^ 48 then
    match e_user s with
    | None => translate (e_pool s) 0 va
    | Some root => utranslate (e_words s) root va
    end
  else if U64 - 2 ^ 48 <=? va then translate (e_pool s) (root1 (e_pool s)) va else None.

(** The permission check of an access: a valid page with the access flag, AP[1]
    opens it to EL0 and, under PAN, closes it to EL1, AP[2] makes it read-only. *)
Definition permits (el0 write pan : bool) (d : Z) : bool :=
  (Z.land d 3 =? 3) && Z.testbit d 10 &&
  (if el0 then Z.testbit d 6 else negb (pan && Z.testbit d 6)) &&
  (if write then negb (Z.testbit d 7) else true).

(** [AT]: PAR_EL1.F is clear. *)
Definition at_op (el0 write pan : bool) (va : Z) (s : estate D) : bool :=
  match walk_va s va with Some d => permits el0 write pan d | None => false end.

(** PSTATE.PAN, once set. *)
Definition pan_on (s : estate D) : bool :=
  existsb (fun e => match e with SetPan => true | _ => false end) (log (e_arch s)).

Definition can_read (va : Z) (s : estate D) : bool := at_op false false false va s.
Definition can_write (va : Z) (s : estate D) : bool := at_op false true false va s.
Definition can_user_read (va : Z) (s : estate D) : bool := at_op true false false va s.
Definition can_user_write (va : Z) (s : estate D) : bool := at_op true true false va s.
Definition can_read_pan_checked (va : Z) (s : estate D) : bool := at_op false false (pan_on s) va s.

(** The loop over a table of (name, measured, expected). *)
Fixpoint run_checks (what : list Z) (checks : list (list Z * bool * bool)) (ok : bool) : N bool :=
  match checks with
  | [] => ret ok
  | (name, got, want) :: checks' =>
    if Bool.eqb got want then run_checks what checks' ok else
    do! _ := line (what ++ name ++ lit " (got " ++ show_bool got ++ lit ", want " ++ show_bool want ++ lit ")") in
    run_checks what checks' false
  end.

Definition alias (a : Z) : Z := a + KERNEL_VA_OFFSET.

Definition wx_checks (s : estate D) : list (list Z * bool * bool) :=
  let text := alias (kernel_start sym) in
  let rodata := alias (rodata_start sym) in
  let stack_bottom := alias (boot_stack_bottom sym) in
  let stack_top := alias (boot_stack_top sym) in
  [(lit "text+r", can_read text s, true);
   (lit "text+w", can_write text s, false);
   (lit "rodata+w", can_write rodata s, false);
   (lit "guard+r", can_read (stack_bottom - GRANULE) s, false);
   (lit "stack+w", can_write (stack_top - GRANULE) s, true);
   (lit "id+r", can_read (text - KERNEL_VA_OFFSET) s, true)].

Definition check_wx : N unit :=
  do! s := getS in
  do! ok := run_checks (lit "k0: w^x check fail: ") (wx_checks s) true in
  if (ok : bool)
  then line (lit "k0: w^x checks pass (granule " ++ format_dec (GRANULE / 1024) ++ lit "K, wxn)")
  else park_here.

Definition find_text (segs : list LoadSeg) : option Z :=
  match list_find (fun s => s_kind s = SegKind.Text) segs with Some (_, s) => Some (s_va s) | None => None end.

Definition user_checks (text : Z) (hard : Hardening) (s : estate D) : list (list Z * bool * bool) :=
  let ktext_va := alias (kernel_start sym) in
  let stack_top := USER_STACK_TOP in
  let guard := stack_top - USER_STACK_SIZE - GRANULE in
  let utext_k := if pan2 hard then (lit "utext+kp", can_read_pan_checked text s, false)
                 else (lit "utext+k", can_read text s, true) in
  [(lit "utext+r", can_user_read text s, true);
   (lit "utext+w", can_user_write text s, false);
   (lit "ustack+w", can_user_write (stack_top - GRANULE) s, true);
   (lit "uguard+r", can_user_read guard s, false);
   (lit "ktext+u", can_user_read ktext_va s, false);
   (lit "binfo+r", can_user_read bootinfo.VA s, true);
   (lit "binfo+w", can_user_write bootinfo.VA s, false);
   utext_k;
   (lit "id+r", can_read (ktext_va - KERNEL_VA_OFFSET) s, false)].

Definition check_user_wx (segs : list LoadSeg) (hard : Hardening) : N unit :=
  match find_text segs with
  | None => do! _ := line (lit "k0: user w^x check fail: no text segment") in park_here
  | Some text =>
    do! s := getS in
    do! ok := run_checks (lit "k0: user w^x check fail: ") (user_checks text hard s) true in
    if (ok : bool) then line (lit "k0: user w^x checks pass") else park_here
  end.

(** ** Before the jump *)

Definition kernel_layout (dtb_lo dtb_hi : Z) : res stop KernelLayout :=
  let? guard := sub_p (boot_stack_bottom sym) GRANULE in
  Ok (mkLayout (mkRange (kernel_start sym) (rodata_start sym)) (mkRange (rodata_start sym) (data_start sym))
        (mkRange (data_start sym) guard) (mkRange (boot_stack_bottom sym) (boot_stack_top sym))
        (mkRange dtb_lo dtb_hi) device_windows).

(** [enable_paging] with its register accesses. *)
Definition paging_on (l : KernelLayout) : N (res MmuError.t unit) :=
  do! mmfr0 := on_cpu (mrs ID_AA64MMFR0_EL1) in
  do! s := getS in
  let '(r, p) := enable_paging mmfr0 l (e_pool s) in
  do! _ := set_pool p in
  match r with
  | Ok (t0, t1, tc) => do! _ := on_cpu (switch_on t0 t1 tc) in ret (Ok tt)
  | Err e => ret (Err e)
  | Panic => panic
  | OutOfFuel => lift OutOfFuel
  end.

Definition enable_mmu (dtb_lo dtb_hi : Z) : N unit :=
  do! l := lift (kernel_layout dtb_lo dtb_hi) in
  do! r := paging_on l in
  match r with
  | Ok _ => say (lit "k0: mmu on (identity + higher-half alias)" ++ [10])
  | Err e =>
    do! _ := say (lit "k0: mmu enable failed, code = ") in
    do! _ := on_cpu (put_hex fuel (mmu_code e)) in
    do! _ := say [10] in
    park_here
  | Panic => panic
  | OutOfFuel => lift OutOfFuel
  end.

Definition kernel_init (dtb_phys : Z) : N unit :=
  do! _ := on_cpu (install (vectors sym)) in
  do! _ := say (lit "k0: entry phase 1 (pre-MMU)" ++ [10]) in
  do! _ := say (lit "k0: dtb = ") in
  do! _ := on_cpu (put_hex fuel dtb_phys) in
  do! _ := say [10] in
  match dtb_span mem dtb_phys with
  | Ok (lo, hi) =>
    do! _ := enable_mmu lo hi in
    say (lit "k0: jumping to higher half" ++ [10])
  | Err e =>
    do! _ := say (lit "k0: dtb header rejected, code = ") in
    do! _ := on_cpu (put_hex fuel (boot_code e)) in
    do! _ := say [10] in
    park_here
  | Panic => panic
  | OutOfFuel => lift OutOfFuel
  end.

(** ** After the jump *)

Definition image : Range := mkRange (kernel_start sym) (kernel_end sym).

Definition main_banner (pc : Z) : N unit :=
  do! _ := on_cpu (install (alias (vectors sym))) in
  do! _ := on_cpu use_higher_half in
  line (lit "k0: higher half (pc = " ++ hex pc ++ lit ")").

Fixpoint lines_of (text : MemRegion -> list Z) (ms : list MemRegion) : N unit :=
  match ms with [] => ret tt | m :: ms' => do! _ := line (text m) in lines_of text ms' end.

Definition region_text (what : list Z) (m : MemRegion) : list Z := what ++ hex (m_base m) ++ lit " + " ++ hex (m_size m).

Definition main_dtb (dtb_phys : Z) : N BootInfo :=
  match parse mem dtb_phys (start image) (end_ image) KERNEL_VA_OFFSET with
  | Ok info =>
    do! _ := lines_of (region_text (lit "k0: memory ")) (memory info) in
    do! _ := lines_of (region_text (lit "k0: dtb reserved ")) (reserved info) in
    do! _ := attempt (check_memory_map info) in
    ret info
  | Err e => do! _ := line (lit "k0: dtb rejected: " ++ boot_name e) in park_here
  | Panic => panic
  | OutOfFuel => lift OutOfFuel
  end.

Definition main_verify : N VerifiedRootTask :=
  match verify_root_task gen with
  | Ok rt =>
    do! _ := say (lit "k0: root task integrity ok (" ++ format_dec (Z.of_nat (length (rt_image rt))) ++
                  lit " bytes, sha256 ") in
    do! _ := say (take 4 (digest (rt_image rt)) ≫= hex2) in
    do! _ := line (lit "..)") in
    ret rt
  | Err VerifyError.HashMismatch => do! _ := line (lit "k0: root task rejected: HashMismatch") in park_here
  | Panic => panic
  | OutOfFuel => lift OutOfFuel
  end.

Definition main_harden (info : BootInfo) : N Hardening :=
  do! cntpct := on_cpu (mrs CNTPCT_EL0) in
  do! rnd := on_cpu rndr in
  match derive_pac_keys (entropy info) [cntpct; default 0 rnd] with
  | Ok keys =>
    do! _ := line (lit "k0: entropy dtb=" ++ format_dec (Z.of_nat (length (entropy info))) ++ lit "B rndr=" ++
                   match rnd with Some _ => lit "on" | None => lit "absent" end) in
    do! _ := if bool_decide (entropy info = []) && bool_decide (rnd = None)
             then line (lit "k0: WARNING pac key entropy low (cntpct only)") else ret tt in
    do! hard := on_cpu (enable keys) in
    do! _ := line (lit "k0: pac=" ++ (if pac hard then lit "on" else lit "absent") ++
                   lit " bti=" ++ (if bti hard then lit "present" else lit "absent") ++
                   lit " pan=" ++ (if pan hard then lit "on" else lit "absent")) in
    ret hard
  | Err e => match e : Empty_set with end
  | Panic => panic
  | OutOfFuel => lift OutOfFuel
  end.

(** [match irq::init(..)]. *)
Definition main_irq : N unit := fun s =>
  match on_cpu irq_init s with
  | (Ok _, s') => line (lit "k0: irq on (timer 1s)") s'
  | (Err (Irq e), s') => (do! _ := line (lit "k0: irq init failed: " ++ irq_name e) in park_here) s'
  | (Err Stopped, s') => (Err Stopped, s')
  | (Panic, s') => (Panic, s')
  | (OutOfFuel, s') => (OutOfFuel, s')
  end.

(** The boot window, its alias, the frame allocator and the bootinfo frame. *)
Definition main_window (info : BootInfo) : N (Range * Z * FrameAlloc) :=
  do! win := attempt (pick_window info (end_ image)) in
  do! s := getS in
  do! wm := attempt (run WindowMap (map_kernel_window win) (e_pool s)) in
  do! _ := set_pool wm.2 in
  do! _ := line (lit "k0: kernel table pool " ++ format_dec (table_pool_usage wm.2).1 ++ lit "/" ++
                 format_dec (table_pool_usage wm.2).2) in
  do! fa := attempt (map_err FrameAllocFailed (fa_new win)) in
  do! bi := attempt (run BootinfoFrame fa_alloc (fa, e_words s)) in
  do! _ := set_mem bi.2.2 in
  ret (win, bi.1, bi.2.1).

Definition main_spawn (rt : VerifiedRootTask) (bi : Z) (fa : FrameAlloc) : N (Tcb * Z) :=
  if 4 <? Z.of_nat (length (rt_segments rt)) then attempt (Err TooManySegments) else
  do! s := getS in
  do! sp := attempt (run SpawnFailed (spawn_root (rt_image rt) (rt_base rt) (rt_entry rt) (rt_segments rt) bi)
                       (fa, e_words s)) in
  do! _ := set_mem sp.2.2 in
  do! _ := line (lit "k0: root task loaded (entry " ++ hex (rt_entry rt) ++ lit ", ttbr0 " ++ hex sp.1.2 ++ lit ")") in
  ret sp.1.

Definition untyped_text (c : Cap.t) : option (list Z) :=
  match c with
  | Cap.Untyped base size _ => Some (lit "k0: untyped " ++ hex base ++ lit " + " ++ hex size)
  | _ => None
  end.

(** The loop over the slots: a line for each untyped capability, and their count. *)
Fixpoint untyped_lines (cs : list Cap.t) (count : Z) : N Z :=
  match cs with
  | [] => ret count
  | c :: cs' =>
    match untyped_text c with
    | Some l => do! _ := line l in untyped_lines cs' (count + 1)
    | None => untyped_lines cs' count
    end
  end.

Definition main_caps (info : BootInfo) (win : Range) (user_root bi : Z) : N CNode :=
  do! rsv := attempt (boot_reserved info image win) in
  do! cn := attempt (map_err CapFailed (bootstrap (phys <$> memory info) rsv user_root)) in
  do! n := untyped_lines (filled cn) 0 in
  do! _ := line (lit "k0: root cnode ready (" ++ format_dec (Z.of_nat (length (filled cn))) ++ lit " caps, " ++
                 format_dec n ++ lit " untyped)") in
  do! s := getS in
  do! w := attempt (write_bootinfo bi cn (e_words s)) in
  do! _ := set_mem w in
  do! _ := line (lit "k0: bootinfo page ready") in
  ret cn.

(** From the device tree to the bootinfo page. *)
Definition main_boot (dtb_phys : Z) : N (VerifiedRootTask * Hardening * Tcb * Z * CNode) :=
  do! info := main_dtb dtb_phys in
  do! rt := main_verify in
  do! hard := main_harden info in
  do! _ := main_irq in
  do! wbf := main_window info in
  let '(win, bi, fa) := wbf in
  do! tr := main_spawn rt bi fa in
  let '(t, user_root) := tr in
  do! cn := main_caps info win user_root bi in
  ret (rt, hard, t, user_root, cn).

(** [kernel_main] up to the state that [handoff] enters user mode with. *)
Definition kernel_main (pc dtb_phys : Z) : N kstate :=
  do! _ := main_banner pc in
  do! _ := check_wx in
  do! r := main_boot dtb_phys in
  let '(rt, hard, t, user_root, cn) := r in
  do! _ := install_user user_root in
  do! _ := check_user_wx (rt_segments rt) hard in
  do! _ := line (lit "k0: entering root task (el0)") in
  do! s := getS in
  ret (mkK cn (boot_tasks (root_tcb sym) t user_root) (e_pool s) (e_words s) []).

(** The whole boot: the jump is the call of [kernel_main]. *)
Definition start_kernel (pc dtb_phys : Z) : N kstate :=
  do! _ := kernel_init dtb_phys in kernel_main pc dtb_phys.
End entry.

(** ** Theory *)

Section theory.
Context `{Platform, PoolVa} {D : Type} `{!Hw D} (fuel : nat).

Abbreviation N := (M (estate D) stop).

(** Tables, memory and TTBR0 are untouched. *)
Definition same (s s' : estate D) : Prop :=
  e_pool s' = e_pool s /\ e_words s' = e_words s /\ e_user s' = e_user s.

Lemma same_sys_refl s : same s s.
Proof. done. Qed.

Lemma same_sys_trans s1 s2 s3 : same s1 s2 -> same s2 s3 -> same s1 s3.
Proof. unfold same. intros (-> & -> & ->) (? & ? & ?). done. Qed.

(** [m] goes through with [Q], or stops the machine, which it does only in a
    state of [may]; it never panics. *)
Definition goes (may : estate D -> Prop) {X} (base : Z) (m : N X) (s : estate D) (Q : X -> estate D -> list event -> Prop) : Prop :=
  BASE (e_arch (m s).2) = base /\ exists evs,
    log (e_arch (m s).2) = log (e_arch s) ++ evs /\
    match (m s).1 with Ok x => Q x (m s).2 evs | Err Stopped => may (m s).2 | _ => False end.

Section rules.
Context (may : estate D -> Prop) (base : Z).

Lemma goes_bind {X Y} (m : N X) (k : X -> N Y) s Q Q' :
  goes may base m s Q ->
  (forall x s1 evs, BASE (e_arch s1) = base -> log (e_arch s1) = log (e_arch s) ++ evs -> Q x s1 evs ->
     goes may base (k x) s1 (fun y s2 evs' => Q' y s2 (evs ++ evs'))) ->
  goes may base (bind m k) s Q'.
Proof.
  unfold goes, bind. intros (Hb & evs & Hl & Hm) Hk. destruct (m s) as [[x|[]| |] s1]; simpl in *; try done.
  - destruct (Hk x s1 evs Hb Hl Hm) as (Hb' & evs' & Hl' & Hx). split; [done|]. exists (evs ++ evs').
    rewrite Hl', Hl, app_assoc. done.
  - split; [done|]. by exists evs.
Qed.

(** After a step that cannot stop, even if it moves the console. *)
Lemma goes_then {X Y} base' (m : N X) (k : X -> N Y) s Q Q' :
  goes (fun _ => False) base' m s Q ->
  (forall x s1 evs, BASE (e_arch s1) = base' -> log (e_arch s1) = log (e_arch s) ++ evs -> Q x s1 evs ->
     goes may base (k x) s1 (fun y s2 evs' => Q' y s2 (evs ++ evs'))) ->
  goes may base (bind m k) s Q'.
Proof.
  unfold goes, bind. intros (Hb & evs & Hl & Hm) Hk. destruct (m s) as [[x|[]| |] s1]; simpl in *; try done.
  destruct (Hk x s1 evs Hb Hl Hm) as (Hb' & evs' & Hl' & Hx). split; [done|]. exists (evs ++ evs').
  rewrite Hl', Hl, app_assoc. done.
Qed.

Lemma goes_ret {X} (x : X) s (Q : X -> estate D -> list event -> Prop) :
  BASE (e_arch s) = base -> Q x s [] -> goes may base (ret x) s Q.
Proof. intros Hb HQ. split; [done|]. exists []. by rewrite app_nil_r. Qed.

Lemma goes_park {X} s (Q : X -> estate D -> list event -> Prop) :
  BASE (e_arch s) = base -> may s -> goes may base park_here s Q.
Proof. intros Hb Hm. split; [done|]. exists []. by rewrite app_nil_r. Qed.

Lemma goes_get {Y} (k : estate D -> N Y) s Q : goes may base (k s) s Q -> goes may base (bind getS k) s Q.
Proof. done. Qed.

Lemma goes_mono {X} (m : N X) s (Q Q' : X -> estate D -> list event -> Prop) :
  goes may base m s Q -> (forall x s' evs, Q x s' evs -> Q' x s' evs) -> goes may base m s Q'.
Proof.
  intros (Hb & evs & Hl & Hm) HQ. split; [done|]. exists evs. split; [done|]. destruct (m s) as [[x|[]| |] s1]; simpl in *; auto.
Qed.

(** Processor and device accesses. *)
Lemma goes_cpu {X} (m : M (arch D) stop X) Q s :
  does base m Q never -> BASE (e_arch s) = base -> goes may base (on_cpu m) s (fun x s' evs => same s s' /\ Q x evs).
Proof.
  intros Hm Hb. destruct (Hm (e_arch s) Hb) as (evs & Hb' & _ & Hl & Hx). unfold goes, on_cpu.
  destruct (m (e_arch s)) as [r a]. simpl in *. split; [done|]. exists evs. split; [done|]. by destruct r as [x|e| |].
Qed.

Lemma goes_set_pool p s :
  BASE (e_arch s) = base ->
  goes may base (set_pool p) s (fun _ s' evs => s' = mkE (e_arch s) p (e_words s) (e_user s) /\ evs = []).
Proof. intros Hb. split; [done|]. exists []. by rewrite app_nil_r. Qed.

Lemma goes_set_mem w s :
  BASE (e_arch s) = base ->
  goes may base (set_mem w) s (fun _ s' evs => s' = mkE (e_arch s) (e_pool s) w (e_user s) /\ evs = []).
Proof. intros Hb. split; [done|]. exists []. by rewrite app_nil_r. Qed.

Context (Hbase : base = MMIO_BASE \/ base = MMIO_BASE + KERNEL_VA_OFFSET).
Context (Hready : forall d, becomes_ready base fuel d = true).

Lemma goes_say l s :
  BASE (e_arch s) = base -> goes may base (say fuel l) s (fun _ s' evs => same s s' /\ says base (l ≫= crlf) evs).
Proof. intros Hb. eapply goes_cpu; [by apply put_str_does|done]. Qed.

(** A line of text as it is sent. *)
Definition ln (l : list Z) : list Z := (l ++ [10]) ≫= crlf.

Lemma ln_app l l' : ln (l ++ l') = (l ≫= crlf) ++ ln l'.
Proof. unfold ln. by rewrite <- bind_app, app_assoc. Qed.

Lemma goes_line l s :
  BASE (e_arch s) = base -> goes may base (line fuel l) s (fun _ s' evs => same s s' /\ says base (ln l) evs).
Proof. apply goes_say. Qed.

Lemma goes_hex v s :
  BASE (e_arch s) = base -> goes may base (on_cpu (put_hex fuel v)) s (fun _ s' evs => same s s' /\ says base (hex16 v) evs).
Proof. intros Hb. eapply goes_cpu; [by apply put_hex_does|done]. Qed.

(** A message before parking. *)
Lemma goes_fail {X} l s (Q : X -> estate D -> list event -> Prop) :
  BASE (e_arch s) = base -> (forall s', may s') -> goes may base (do! _ := line fuel l in park_here) s Q.
Proof. intros Hb Hm. eapply goes_bind; [by apply goes_line|]. intros _ s1 evs Hb1 _ _. by apply goes_park. Qed.

(** A step of the sequence [b]. *)
Lemma goes_attempt {X Y} (b : res boot_fail Y) (r : res boot_fail X) (k : X -> res boot_fail Y) s :
  b = rbind r k -> BASE (e_arch s) = base -> returns b -> (forall e s', b = Err e -> may s') ->
  goes may base (attempt fuel r) s (fun x s' evs => r = Ok x /\ b = k x /\ s' = s /\ evs = []).
Proof.
  intros -> Hb [Hp Hf] Hm. destruct r as [x|e| |]; try done; cbn [attempt rbind] in *; [by apply goes_ret|].
  apply goes_fail; [done|]. intros s'. by apply (Hm e).
Qed.

(** The self-checks. *)
Definition all_match (checks : list (list Z * bool * bool)) : bool := forallb (fun c => Bool.eqb c.1.2 c.2) checks.

Lemma run_checks_goes what checks ok s :
  BASE (e_arch s) = base ->
  goes may base (run_checks fuel what checks ok) s
    (fun b s' evs => same s s' /\ b = ok && all_match checks /\ (all_match checks = true -> evs = [])).
Proof.
  revert ok s. induction checks as [|[[name got] want] checks IH]; intros ok s Hb; cbn [run_checks all_match forallb].
  { apply goes_ret; [done|]. by rewrite andb_true_r. }
  fold (all_match checks). cbn [fst snd]. destruct (Bool.eqb got want); [by apply IH|].
  eapply goes_bind; [by apply goes_line|]. intros _ s1 evs Hb1 _ [Hs _].
  eapply goes_mono; [by apply IH|]. intros b s2 evs' (Hs2 & -> & _). rewrite andb_false_r.
  split_and!; [by eapply same_sys_trans|done|done].
Qed.
End rules.

(** *** What the console shows *)

Context `{hash : Hash} (mem : Z -> Z) (sym : Symbols) (gen : Generated).

Definition wx_line : list Z := lit "k0: w^x checks pass (granule " ++ format_dec (GRANULE / 1024) ++ lit "K, wxn)".

Definition verify_line (rt : VerifiedRootTask) : list Z :=
  (lit "k0: root task integrity ok (" ++ format_dec (Z.of_nat (length (rt_image rt))) ++ lit " bytes, sha256 ") ++
  (take 4 (digest (rt_image rt)) ≫= hex2) ++ lit "..)".

Definition harden_lines (info : BootInfo) (rnd : option Z) (hard : Hardening) : list (list Z) :=
  [lit "k0: entropy dtb=" ++ format_dec (Z.of_nat (length (entropy info))) ++ lit "B rndr=" ++
   match rnd with Some _ => lit "on" | None => lit "absent" end] ++
  (if bool_decide (entropy info = []) && bool_decide (rnd = None)
   then [lit "k0: WARNING pac key entropy low (cntpct only)"] else []) ++
  [lit "k0: pac=" ++ (if pac hard then lit "on" else lit "absent") ++
   lit " bti=" ++ (if bti hard then lit "present" else lit "absent") ++
   lit " pan=" ++ (if pan hard then lit "on" else lit "absent")].

Definition pool_line (p : Pool) : list Z :=
  lit "k0: kernel table pool " ++ format_dec (table_pool_usage p).1 ++ lit "/" ++ format_dec (table_pool_usage p).2.

Definition spawn_line (rt : VerifiedRootTask) (root : Z) : list Z :=
  lit "k0: root task loaded (entry " ++ hex (rt_entry rt) ++ lit ", ttbr0 " ++ hex root ++ lit ")".

Definition caps_lines (cn : CNode) : list (list Z) :=
  let untyped := omap untyped_text (filled cn) in
  untyped ++ [lit "k0: root cnode ready (" ++ format_dec (Z.of_nat (length (filled cn))) ++ lit " caps, " ++
              format_dec (Z.of_nat (length untyped)) ++ lit " untyped)"] ++
  [lit "k0: bootinfo page ready"].

(** Everything [kernel_main] prints on the way to the root task. *)
Definition main_lines (pc : Z) (info : BootInfo) (rt : VerifiedRootTask) (rnd : option Z) (hard : Hardening) (k : kstate) :
    list (list Z) :=
  [lit "k0: higher half (pc = " ++ hex pc ++ lit ")"; wx_line] ++
  (region_text (lit "k0: memory ") <$> memory info) ++ (region_text (lit "k0: dtb reserved ") <$> reserved info) ++
  [verify_line rt] ++ harden_lines info rnd hard ++ [lit "k0: irq on (timer 1s)"] ++
  [pool_line (k_pool k)] ++ [spawn_line rt (ttbr0 (k_tasks k))] ++ caps_lines (k_cnode k) ++
  [lit "k0: user w^x checks pass"; lit "k0: entering root task (el0)"].

Definition init_lines (dtb_phys : Z) : list (list Z) :=
  [lit "k0: entry phase 1 (pre-MMU)"; lit "k0: dtb = " ++ hex16 dtb_phys;
   lit "k0: mmu on (identity + higher-half alias)"; lit "k0: jumping to higher half"].

(** *** The stages *)

Section stages.
Context (may : estate D -> Prop) (base : Z).
Context (Hbase : base = MMIO_BASE \/ base = MMIO_BASE + KERNEL_VA_OFFSET).
Context (Hready : forall d, becomes_ready base fuel d = true).

Lemma says_bind (l : list (list Z)) l' evs evs' :
  says base (l ≫= ln) evs -> says base (l' ≫= ln) evs' -> says base ((l ++ l') ≫= ln) (evs ++ evs').
Proof. rewrite bind_app. apply says_app. Qed.

Lemma says_ln l evs : says base (ln l) evs -> says base ([l] ≫= ln) evs.
Proof. by rewrite bind_cons, app_nil_r. Qed.

Lemma check_wx_goes s :
  BASE (e_arch s) = base -> all_match (wx_checks sym s) = true \/ (forall s', may s') ->
  goes may base (check_wx fuel sym) s (fun _ s' evs => same s s' /\ says base (ln wx_line) evs).
Proof.
  intros Hb Hc. apply goes_get. eapply goes_bind; [by apply run_checks_goes|].
  intros ok s1 evs Hb1 _ (Hs & -> & He). destruct (all_match _) eqn:Ha; cbn [andb].
  2:{ destruct Hc as [?|Hc]; [done|]. by apply goes_park. }
  rewrite (He eq_refl). eapply goes_mono; [by apply goes_line|]. intros _ s2 evs' [Hs2 Hx]. split; [by eapply same_sys_trans|done].
Qed.

Lemma lines_of_goes text ms s :
  BASE (e_arch s) = base ->
  goes may base (lines_of fuel text ms) s (fun _ s' evs => same s s' /\ says base ((text <$> ms) ≫= ln) evs).
Proof.
  revert s. induction ms as [|m ms IH]; intros s Hb; cbn [lines_of fmap list_fmap]; [by apply goes_ret|].
  eapply goes_bind; [by apply goes_line|]. intros _ s1 evs Hb1 _ [Hs Hx]. eapply goes_mono; [by apply IH|].
  intros _ s2 evs' [Hs2 Hx2]. split; [by eapply same_sys_trans|]. rewrite bind_cons. by apply says_app.
Qed.

Lemma main_dtb_goes {Y} dtb_phys info (b : res boot_fail Y) k s :
  parse mem dtb_phys (kernel_start sym) (kernel_end sym) KERNEL_VA_OFFSET = Ok info ->
  b = rbind (check_memory_map info) k -> returns b -> (forall e s', b = Err e -> may s') -> BASE (e_arch s) = base ->
  goes may base (main_dtb fuel mem sym dtb_phys) s (fun i s' evs => i = info /\ b = k tt /\ same s s' /\
    says base (((region_text (lit "k0: memory ") <$> memory info) ++
                (region_text (lit "k0: dtb reserved ") <$> reserved info)) ≫= ln) evs).
Proof.
  intros Hp Hbk Hr Hm Hb. unfold main_dtb, image. cbn [start end_]. rewrite Hp.
  eapply goes_bind; [by apply lines_of_goes|]. intros _ s1 evs1 Hb1 _ [Hs1 Hx1].
  eapply goes_bind; [by apply lines_of_goes|]. intros _ s2 evs2 Hb2 _ [Hs2 Hx2].
  eapply goes_bind; [by eapply goes_attempt|]. intros [] s3 evs3 Hb3 _ (_ & Hk & -> & ->).
  apply goes_ret; [done|]. split_and!; [done|done|by eapply same_sys_trans|]. rewrite !app_nil_r. by apply says_bind.
Qed.

Lemma main_verify_goes rt s :
  verify_root_task gen = Ok rt -> BASE (e_arch s) = base ->
  goes may base (main_verify fuel gen) s (fun r s' evs => r = rt /\ same s s' /\ says base (ln (verify_line rt)) evs).
Proof.
  intros Hv Hb. unfold main_verify. rewrite Hv.
  eapply goes_bind; [by apply goes_say|]. intros _ s1 evs1 Hb1 _ [Hs1 Hx1].
  eapply goes_bind; [by apply goes_say|]. intros _ s2 evs2 Hb2 _ [Hs2 Hx2].
  eapply goes_bind; [by apply goes_line|]. intros _ s3 evs3 Hb3 _ [Hs3 Hx3].
  apply goes_ret; [done|]. split_and!; [done|do 2 (eapply same_sys_trans; [eassumption|]); done|].
  rewrite app_nil_r. unfold verify_line. rewrite (ln_app (_ ++ _)), ln_app. apply says_app; [done|by apply says_app].
Qed.

(** PSTATE.PAN is set. *)
Definition sets_pan (evs : list event) : bool := existsb (fun e => match e with SetPan => true | _ => false end) evs.

Lemma enable_quiet keys isar1 pfr1 mmfr1 dfr0 v1 v2 : tx base (enable_events keys isar1 pfr1 mmfr1 dfr0 v1 v2) = [].
Proof. unfold enable_events. by destruct (has_pmu dfr0), (has_pac isar1), (has_generic isar1), (1 <=? field mmfr1 20). Qed.

Lemma rndr_does : does (D := D) base rndr (fun _ evs => tx base evs = []) never.
Proof.
  unfold rndr. step. destruct (_ =? 0); [by step|].
  eapply (does_bind _ _ _ (fun _ evs => tx base evs = []) never); [by apply does_rndr|by intros ? ? []|].
  intros [v' ok] evs Hx. step. rewrite app_nil_r. exact Hx.
Qed.

Lemma main_harden_goes `{!HashOk} info s :
  (length (entropy info) <= 72)%nat -> BASE (e_arch s) = base ->
  goes may base (main_harden fuel info) s (fun hard s' evs => same s s' /\
    (exists rnd, tx base evs = harden_lines info rnd hard ≫= ln) /\ (pan2 hard = true -> sets_pan evs = true)).
Proof.
  intros Hd Hb. unfold main_harden.
  eapply goes_bind; [eapply (goes_cpu _ _ _ (fun _ evs => tx base evs = [])); [by step|done]|].
  intros cntpct s1 evs1 Hb1 _ [Hs1 Hx1].
  eapply goes_bind; [eapply goes_cpu; [apply rndr_does|done]|]. intros rnd s2 evs2 Hb2 _ [Hs2 Hx2].
  destruct (derive_words (entropy info) [cntpct; default 0 rnd]) as (keys & -> & _); [cbn [length]; lia|].
  eapply goes_bind; [by apply goes_line|]. intros _ s3 evs3 Hb3 _ [Hs3 [Hx3 _]].
  set (low := bool_decide (entropy info = []) && bool_decide (rnd = None)).
  eapply (goes_bind _ _ _ _ _ (fun _ s' evs => same s3 s' /\
    tx base evs = (if low then [lit "k0: WARNING pac key entropy low (cntpct only)"] else []) ≫= ln)).
  { destruct low; [|by apply goes_ret]. eapply goes_mono; [by apply goes_line|]. intros _ s' evs [Hs [Hx _]].
    by rewrite Hx, bind_cons, app_nil_r. }
  intros _ s4 evs4 Hb4 _ [Hs4 Hx4].
  eapply goes_bind; [eapply goes_cpu; [apply enable_does|done]|].
  intros hard s5 evs5 Hb5 _ [Hs5 (isar1 & pfr1 & mmfr1 & dfr0 & v1 & v2 & -> & Hh)].
  eapply goes_bind; [by apply goes_line|]. intros _ s6 evs6 Hb6 _ [Hs6 [Hx6 _]].
  apply goes_ret; [done|]. split_and!.
  - do 5 (eapply same_sys_trans; [eassumption|]). done.
  - exists rnd. rewrite !tx_app, Hx1, Hx2, Hx3, Hx4, Hx6, enable_quiet. unfold harden_lines.
    rewrite !bind_app, !bind_cons. cbn [app mbind list_bind]. by rewrite !app_nil_r.
  - intros Hp. unfold sets_pan. rewrite !existsb_app, enable_events_pan. rewrite Hh in Hp. cbn [pan2] in Hp.
    apply Z.leb_le in Hp. rewrite (proj2 (Z.leb_le 1 _)) by lia. by rewrite !orb_true_r.
Qed.

Lemma quiet_reads (l : list Z) a : tx base (Rd a <$> l) = [].
Proof. unfold tx. induction l; [done|]. cbn. done. Qed.

Lemma polled_quiet a mask evs : polled a mask evs -> tx base evs = [].
Proof. intros (busy & v & -> & _). by rewrite tx_app, quiet_reads. Qed.

Lemma gic_quiet pre : plat = PlatVirt -> base = MMIO_BASE + KERNEL_VA_OFFSET -> gic_configured pre -> tx base pre = [].
Proof.
  intros Hv Hhi (p1 & w & p2 & sre & -> & H1 & H2). rewrite !tx_app, (polled_quiet _ _ _ H1), (polled_quiet _ _ _ H2).
  assert (Hq : forall a v, (a =? base + UART_DATA) = false -> tx base [Wr a v] = []) by (intros a v E; unfold tx; cbn; by rewrite E).
  assert (Hc : forall e (l : list event), e :: l = [e] ++ l) by done.
  rewrite (Hc (Rd _ _)), (Hc (Wr GICR_IGROUPR0 _)), (Hc (Wr GICR_ISENABLER0 _)), !tx_app.
  rewrite !Hq; [done|..]; rewrite Hhi; unfold MMIO_BASE, UART_BASE, UART_DATA; rewrite Hv; reflexivity.
Qed.

(** The log shows that the interrupt controller did not answer. *)
Definition gic_timeout (s : estate D) : Prop := exists e pre evs post,
  plat = PlatVirt /\ gic_failed e evs /\ log (e_arch s) = pre ++ evs ++ post.

Lemma main_irq_goes s :
  base = MMIO_BASE + KERNEL_VA_OFFSET -> (forall s', gic_timeout s' -> may s') -> BASE (e_arch s) = base ->
  goes may base (main_irq fuel) s (fun _ s' evs => same s s' /\ tx base evs = ln (lit "k0: irq on (timer 1s)")).
Proof.
  intros Hhi Hmay Hb. destruct (irq_init_does base (e_arch s) Hb) as (evs & Hb' & _ & Hl & Hx).
  unfold goes, main_irq, on_cpu. destruct (irq_init (e_arch s)) as [r a]. cbn [fst snd] in *.
  set (s1 := mkE a (e_pool s) (e_words s) (e_user s)). destruct r as [[]|[|e]| |]; [|done| |done|done].
  - destruct (goes_line may base Hbase Hready (lit "k0: irq on (timer 1s)") s1 Hb') as (Hb2 & evs2 & Hl2 & Hx2).
    split; [done|]. exists (evs ++ evs2). split; [rewrite Hl2; simpl; by rewrite Hl, app_assoc|].
    destruct (line _ _ s1) as [[x|[]| |] s2]; cbn [fst snd] in *; try done. destruct Hx2 as [Hs2 [Hx2 _]].
    split; [done|]. rewrite tx_app, Hx2. destruct Hx as (pre & f & Hp & ->). rewrite tx_app.
    replace (tx base pre) with (@nil Z); [done|]. destruct plat eqn:Ep; [by rewrite gic_quiet|by subst].
  - destruct (goes_line may base Hbase Hready (lit "k0: irq init failed: " ++ irq_name e) s1 Hb') as (Hb2 & evs2 & Hl2 & Hx2).
    unfold bind, park_here, throw. destruct (line _ _ s1) as [[x|[]| |] s2]; cbn [fst snd] in *; try done.
    + split; [done|]. exists (evs ++ evs2). split; [rewrite Hl2; simpl; by rewrite Hl, app_assoc|].
      apply Hmay. exists e, (log (e_arch s)), evs, evs2. destruct Hx as [? ?]. split_and!; try done.
      rewrite Hl2. simpl. by rewrite Hl, app_assoc.
    + split; [done|]. exists (evs ++ evs2). split; [|done]. rewrite Hl2. simpl. by rewrite Hl, app_assoc.
Qed.

(** The stages from the window on follow the boot sequence [b] step by step. *)
Section steps.
Context {Y : Type} (b : res boot_fail Y) (Hret : returns b) (Hmay : forall e s, b = Err e -> may s).

Lemma main_window_goes info (k : Range -> Pool -> Z -> FrameAlloc * words -> res boot_fail Y) s :
  b = (let? win := pick_window info (kernel_end sym) in
       let? wm := run WindowMap (map_kernel_window win) (e_pool s) in
       let? fa := map_err FrameAllocFailed (fa_new win) in
       let? bi := run BootinfoFrame fa_alloc (fa, e_words s) in k win wm.2 bi.1 bi.2) ->
  BASE (e_arch s) = base ->
  goes may base (main_window fuel sym info) s (fun r s' evs =>
    b = k r.1.1 (e_pool s') r.1.2 (r.2, e_words s') /\ e_user s' = e_user s /\
    says base (ln (pool_line (e_pool s'))) evs).
Proof.
  intros Hbk Hb. unfold main_window.
  eapply goes_bind; [by eapply goes_attempt|]. intros win s1 evs1 Hb1 _ (_ & Hk1 & -> & ->). apply goes_get.
  eapply goes_bind; [by eapply goes_attempt|]. intros wm s1 evs1 _ _ (_ & Hk2 & -> & ->).
  eapply goes_bind; [by apply goes_set_pool|]. intros _ s1 evs1 _ _ (-> & ->).
  eapply goes_bind; [by apply goes_line|]. intros _ s2 evs2 Hb2 _ [(P2 & W2 & U2) Hx2].
  eapply goes_bind; [by eapply goes_attempt|]. intros fa s3 evs3 Hb3 _ (_ & Hk3 & -> & ->).
  eapply goes_bind; [by eapply goes_attempt|]. intros [bi [fa1 w1]] s3 evs3 _ _ (_ & Hk4 & -> & ->).
  eapply goes_bind; [by apply goes_set_mem|]. intros _ s3 evs3 Hb4 _ (-> & ->).
  apply goes_ret; [done|]. cbn [fst snd e_pool e_words e_user app] in *. rewrite app_nil_r, P2, U2. done.
Qed.

Lemma main_spawn_goes rt bi fa (k : Tcb * Z -> FrameAlloc * words -> res boot_fail Y) s :
  b = (if 4 <? Z.of_nat (length (rt_segments rt)) then Err TooManySegments else
       let? sp := run SpawnFailed (spawn_root (rt_image rt) (rt_base rt) (rt_entry rt) (rt_segments rt) bi)
                    (fa, e_words s) in k sp.1 sp.2) ->
  BASE (e_arch s) = base ->
  goes may base (main_spawn fuel rt bi fa) s (fun r s' evs => exists fa',
    b = k r (fa', e_words s') /\ e_pool s' = e_pool s /\ e_user s' = e_user s /\ says base (ln (spawn_line rt r.2)) evs).
Proof.
  intros Hbk Hb. unfold main_spawn. destruct (4 <? _).
  { eapply goes_mono; [apply (goes_attempt may base Hbase Hready b (Err TooManySegments) (fun _ => Err TooManySegments)); done|].
    by intros ? ? ? [? _]. }
  apply goes_get. eapply goes_bind; [by eapply goes_attempt|]. intros [tr [fa1 w1]] s1 evs1 _ _ (_ & Hk1 & -> & ->).
  eapply goes_bind; [by apply goes_set_mem|]. intros _ s1 evs1 Hb1 _ (-> & ->).
  eapply goes_bind; [by apply goes_line|]. intros _ s2 evs2 Hb2 _ [(P2 & W2 & U2) Hx2].
  apply goes_ret; [done|]. cbn [fst snd e_pool e_words e_user app] in *. exists fa1. rewrite app_nil_r, P2, W2, U2. done.
Qed.

Lemma untyped_lines_goes cs n s :
  BASE (e_arch s) = base ->
  goes may base (untyped_lines fuel cs n) s (fun m s' evs => m = n + Z.of_nat (length (omap untyped_text cs)) /\
    same s s' /\ says base (omap untyped_text cs ≫= ln) evs).
Proof.
  revert n s. induction cs as [|c cs IH]; intros n s Hb; cbn [untyped_lines omap list_omap].
  { apply goes_ret; [done|]. split_and!; [simpl; lia|done..]. }
  destruct (untyped_text c) as [l|]; [|by apply IH].
  eapply goes_bind; [by apply goes_line|]. intros _ s1 evs1 Hb1 _ [Hs1 Hx1].
  eapply goes_mono; [by apply IH|]. intros m s2 evs2 (-> & Hs2 & Hx2).
  split_and!; [simpl; lia|by eapply same_sys_trans|]. rewrite bind_cons. by apply says_app.
Qed.

Lemma main_caps_goes info win user_root bi (k : CNode -> words -> res boot_fail Y) s :
  b = (let? rsv := boot_reserved info (image sym) win in
       let? cn := map_err CapFailed (bootstrap (phys <$> memory info) rsv user_root) in
       let? w := write_bootinfo bi cn (e_words s) in k cn w) ->
  BASE (e_arch s) = base ->
  goes may base (main_caps fuel sym info win user_root bi) s (fun cn s' evs =>
    b = k cn (e_words s') /\ e_pool s' = e_pool s /\ e_user s' = e_user s /\ says base (caps_lines cn ≫= ln) evs).
Proof.
  intros Hbk Hb. unfold main_caps.
  eapply goes_bind; [by eapply goes_attempt|]. intros rsv s1 evs1 _ _ (_ & Hk1 & -> & ->).
  eapply goes_bind; [by eapply goes_attempt|]. intros cn s1 evs1 _ _ (_ & Hk2 & -> & ->).
  eapply goes_bind; [by apply untyped_lines_goes|]. intros n s2 evs2 Hb2 _ (-> & (P2 & W2 & U2) & Hx2).
  eapply goes_bind; [by apply goes_line|]. intros _ s3 evs3 Hb3 _ [(P3 & W3 & U3) Hx3]. apply goes_get.
  assert (Hw : e_words s3 = e_words s) by congruence. rewrite Hw.
  eapply goes_bind; [by eapply goes_attempt|]. intros w s4 evs4 _ _ (_ & Hk4 & -> & ->).
  eapply goes_bind; [by apply goes_set_mem|]. intros _ s4 evs4 Hb4 _ (-> & ->).
  eapply goes_bind; [by apply goes_line|]. intros _ s5 evs5 Hb5 _ [(P5 & W5 & U5) Hx5].
  apply goes_ret; [done|]. cbn [fst snd e_pool e_words e_user app] in *. rewrite app_nil_r, W5.
  split_and!; [done|congruence|congruence|]. unfold caps_lines. apply says_bind; [done|].
  apply says_bind; by apply says_ln.
Qed.
End steps.

Lemma check_user_wx_goes segs hard text s :
  find_text segs = Some text -> all_match (user_checks sym text hard s) = true -> BASE (e_arch s) = base ->
  goes may base (check_user_wx fuel sym segs hard) s
    (fun _ s' evs => same s s' /\ says base (ln (lit "k0: user w^x checks pass")) evs).
Proof.
  intros Ht Hc Hb. unfold check_user_wx. rewrite Ht. apply goes_get. eapply goes_bind; [by apply run_checks_goes|].
  intros ok s1 evs Hb1 _ (Hs & -> & He). rewrite Hc, (He Hc). cbn [andb].
  eapply goes_mono; [by apply goes_line|]. intros _ s2 evs' [Hs2 Hx]. split; [by eapply same_sys_trans|done].
Qed.
End stages.
End theory.

(** ** The self-checks pass *)

Section checks.
Context `{Platform, PoolVa, !PoolVaOk} {D : Type} `{!Hw D}.

(** The linker scripts: sections on granule boundaries, a hole of a granule below
    the boot stack, everything within the physical address space and apart from
    the devices; the root TCB is a static of the image. *)
Record symbols_ok (sym : Symbols) : Prop := {
  so_aligned : Forall (fun a => a mod GRANULE = 0)
    [kernel_start sym; rodata_start sym; data_start sym; boot_stack_bottom sym; boot_stack_top sym; kernel_end sym];
  so_order : 0 <= kernel_start sym < rodata_start sym /\ rodata_start sym < data_start sym /\
    data_start sym <= boot_stack_bottom sym - GRANULE /\ boot_stack_bottom sym < boot_stack_top sym /\
    boot_stack_top sym <= kernel_end sym /\ kernel_end sym < 2 ^ 48;
  so_devices : Forall (fun d => end_ d <= kernel_start sym \/ kernel_end sym <= start d) device_windows;
  so_tcb : alias (kernel_start sym) <= root_tcb sym < alias (kernel_end sym)
}.

Definition layout (sym : Symbols) (dtb_lo dtb_hi : Z) : KernelLayout :=
  mkLayout (mkRange (kernel_start sym) (rodata_start sym)) (mkRange (rodata_start sym) (data_start sym))
    (mkRange (data_start sym) (boot_stack_bottom sym - GRANULE)) (mkRange (boot_stack_bottom sym) (boot_stack_top sym))
    (mkRange dtb_lo dtb_hi) device_windows.

(** Only the attributes of a page descriptor decide. *)
Lemma permits_desc el0 write pan a attrs :
  0 <= a < 2 ^ 48 -> a mod GRANULE = 0 -> permits el0 write pan (Z.lor a attrs) = permits el0 write pan attrs.
Proof.
  intros Ha Hm. pose proof page_shift_bounds. unfold permits. rewrite Z.land_lor_distr_l, !Z.lor_spec.
  rewrite !(testbit_addr a) by (done || lia). replace (Z.land a 3) with 0; [done|].
  change 3 with (Z.ones 2). rewrite Z.land_ones by lia. symmetry. unfold GRANULE in Hm. destruct plat; div_lia.
Qed.

Lemma walk_high (s : estate D) a :
  0 <= a < 2 ^ 48 -> walk_va s (alias a) = translate (e_pool s) (root1 (e_pool s)) (alias a) /\ vpn (alias a) = a / GRANULE.
Proof.
  intros Ha. assert (Hk : KERNEL_VA_OFFSET + 2 ^ 48 = U64) by reflexivity. unfold walk_va, alias. split; [|by apply vpn_high].
  destruct (Z.ltb_spec (a + KERNEL_VA_OFFSET) (2 ^ 48)) as [Hl|_]; [unfold KERNEL_VA_OFFSET in Hl; lia|].
  by rewrite (proj2 (Z.leb_le _ _)) by lia.
Qed.

Section kernel_space.
Context (s : estate D) (segs : list (Z * Z * Perm.t)).
Context (Hmaps : maps_exactly segs (e_pool s)) (Hroot : root1 (e_pool s) = 1).

Lemma probe_high el0 write pan a :
  0 <= a < 2 ^ 48 ->
  at_op el0 write pan (alias a) s =
  match seg_at segs (a / GRANULE) with Some perm => permits el0 write pan (Perm.attrs perm) | None => false end.
Proof.
  intros Ha. destruct (walk_high s a Ha) as [Hw Hv]. unfold at_op. rewrite Hw, Hroot, Hmaps by set_solver. rewrite Hv.
  destruct (seg_at segs _); [|done]. cbn [fmap option_fmap option_map]. destruct (vpn_addr (alias a)) as [V1 V2]. rewrite Hv in *.
  unfold linear. by rewrite permits_desc.
Qed.

Lemma probe_low el0 write pan a :
  e_user s = None -> 0 <= a < 2 ^ 48 ->
  at_op el0 write pan a s =
  match seg_at segs (a / GRANULE) with Some perm => permits el0 write pan (Perm.attrs perm) | None => false end.
Proof.
  intros Hu Ha. unfold at_op, walk_va. rewrite (proj2 (Z.ltb_lt _ _)), Hu, Hmaps by (lia || set_solver).
  rewrite (vpn_low a Ha). destruct (seg_at segs _); [|done]. cbn [fmap option_fmap option_map].
  destruct (vpn_addr a) as [V1 V2]. rewrite vpn_low in V1, V2 by done. unfold linear. by rewrite permits_desc.
Qed.
End kernel_space.

Lemma pages_lt a b : a mod GRANULE = 0 -> b mod GRANULE = 0 -> a < b -> a / GRANULE < b / GRANULE.
Proof. intros. unfold GRANULE in *. destruct plat; div_lia. Qed.

Lemma pages_le a b : a <= b -> a / GRANULE <= b / GRANULE.
Proof. intros. unfold GRANULE. destruct plat; div_lia. Qed.

Lemma page_below a : (a - GRANULE) / GRANULE = a / GRANULE - 1.
Proof. unfold GRANULE. destruct plat; div_lia. Qed.

(** A range apart from [lo, hi) covers none of its pages. *)
Lemma apart_pages lo hi s e q :
  e <= lo \/ hi <= s -> lo / GRANULE <= q < hi / GRANULE -> ~ (s / GRANULE <= q < e / GRANULE).
Proof. intros [Hx|Hx] Hq; apply pages_le in Hx; lia. Qed.

(** Nor does the device tree, rounded out to pages, if it is apart. *)
Lemma dtb_pages lo hi s e :
  lo mod GRANULE = 0 -> hi mod GRANULE = 0 -> 0 <= s < U64 -> e <= lo \/ hi <= s ->
  div_ceil e GRANULE * GRANULE <= lo \/ hi <= Z.land s (not64 (GRANULE - 1)).
Proof.
  intros Hlo Hhi Hs Hc. rewrite granule_pow2, land_not64_pow2, <- granule_pow2; [|pose proof page_shift_bounds; lia|done].
  unfold div_ceil, GRANULE in *. destruct Hc as [Hc|Hc]; [left|right]; destruct plat; div_lia.
Qed.

Lemma dev_seg_at devs q :
  Forall (fun d => ~ (start d / GRANULE <= q < end_ d / GRANULE)) devs -> seg_at (dev_segs devs) q = None.
Proof. induction 1 as [|d devs Hd _ IH]; [done|]. simpl. by rewrite decide_False. Qed.

Lemma image_pages sym lo hi :
  symbols_ok sym -> 0 <= lo < U64 -> hi <= kernel_start sym \/ kernel_end sym <= lo ->
  let at_ a := seg_at (kernel_segs (layout sym lo hi)) (a / GRANULE) in
  at_ (kernel_start sym) = Some Perm.Text /\ at_ (rodata_start sym) = Some Perm.Ro /\
  at_ (boot_stack_bottom sym - GRANULE) = None /\ at_ (boot_stack_top sym - GRANULE) = Some Perm.Rw.
Proof.
  intros [Hal (O1 & O2 & O3 & O4 & O5 & O6) Hdev _] Hlo Hdtb at_. rewrite !list.Forall_cons in Hal.
  destruct Hal as (A1 & A2 & A3 & A4 & A5 & A6 & _).
  pose proof (pages_lt _ _ A1 A2 ltac:(lia)). pose proof (pages_lt _ _ A2 A3 ltac:(lia)).
  pose proof (pages_le _ _ O3) as P3. pose proof (pages_lt _ _ A4 A5 O4) as P4. pose proof (pages_le _ _ O5) as P5.
  rewrite page_below in P3. unfold at_. rewrite !page_below. unfold kernel_segs, layout.
  cbn [seg_at app text rodata rw0 rw1 dtb devices start end_]. rewrite page_below.
  split_and!.
  - by rewrite decide_True by lia.
  - by rewrite decide_False, decide_True by lia.
  - rewrite !decide_False by lia. rewrite decide_False.
    2:{ apply (apart_pages (kernel_start sym) (kernel_end sym)); [|lia]. by apply dtb_pages. }
    apply dev_seg_at. eapply list.Forall_impl; [exact Hdev|]. intros d Hd.
    apply (apart_pages (kernel_start sym) (kernel_end sym)); [done|lia].
  - by rewrite !decide_False, decide_True by lia.
Qed.

Lemma wx_checks_pass sym lo hi (s : estate D) :
  symbols_ok sym -> 0 <= lo < U64 -> hi <= kernel_start sym \/ kernel_end sym <= lo ->
  maps_exactly (kernel_segs (layout sym lo hi)) (e_pool s) -> root1 (e_pool s) = 1 -> e_user s = None ->
  all_match (wx_checks sym s) = true.
Proof.
  intros Hsym Hlo Hd Hm Hr Hu. destruct (image_pages sym lo hi Hsym Hlo Hd) as (I1 & I2 & I3 & I4).
  destruct Hsym as [_ (O1 & O2 & O3 & O4 & O5 & O6) _ _]. pose proof granule_bounds.
  unfold wx_checks, can_read, can_write.
  replace (alias (boot_stack_bottom sym) - GRANULE) with (alias (boot_stack_bottom sym - GRANULE)) by (unfold alias; lia).
  replace (alias (boot_stack_top sym) - GRANULE) with (alias (boot_stack_top sym - GRANULE)) by (unfold alias; lia).
  replace (alias (kernel_start sym) - KERNEL_VA_OFFSET) with (kernel_start sym) by (unfold alias; lia).
  rewrite !(probe_high s _ Hm Hr), (probe_low s _ Hm) by (done || lia). rewrite I1, I2, I3, I4. vm_compute. reflexivity.
Qed.

(** The root task's pages and the kernel's do not meet: its image covers neither
    the identity address of the kernel nor the guard below its own stack. *)
Definition user_layout (sym : Symbols) (rt : VerifiedRootTask) : Prop :=
  let apart_from (a : Z) := a + GRANULE <= rt_base rt \/ rt_base rt + Z.of_nat (length (rt_image rt)) <= a in
  apart_from (kernel_start sym) /\ apart_from (USER_STACK_TOP - USER_STACK_SIZE - GRANULE) /\
  (kernel_start sym + GRANULE <= USER_STACK_TOP - USER_STACK_SIZE \/ USER_STACK_TOP <= kernel_start sym) /\
  (kernel_start sym + GRANULE <= bootinfo.VA \/ bootinfo.VA + GRANULE <= kernel_start sym).

Lemma find_text_Some segs :
  Exists (fun s => s_kind s = SegKind.Text) segs ->
  exists sg, sg ∈ segs /\ s_kind sg = SegKind.Text /\ find_text segs = Some (s_va sg).
Proof.
  intros He. unfold find_text. destruct (list_find _ segs) as [[i sg]|] eqn:E.
  - apply list_find_Some in E as (Hi & Hk & _). exists sg. split_and!; [by eapply list_elem_of_lookup_2|done..].
  - apply list_find_None in E. apply list.Exists_exists in He as (sg & Hin & Hk).
    by apply (proj1 (list.Forall_forall _ _) E sg Hin) in Hk.
Qed.

Section user_space.
Context (s : estate D) (root : Z) (us : list urange).
Context (Hu : e_user s = Some root) (Hmaps : forall va, utranslate (e_words s) root va = umap_at us (vpn va)).
Context (Hap : apart us) (Hok : Forall u_ok us).

Lemma probe_user el0 write pan va :
  0 <= va < 2 ^ 48 ->
  at_op el0 write pan va s =
  match umap_at us (va / GRANULE) with Some d => permits el0 write pan d | None => false end.
Proof.
  intros Ha. unfold at_op, walk_va. by rewrite (proj2 (Z.ltb_lt _ _)), Hu, Hmaps, vpn_low by lia.
Qed.

Lemma probe_user_in el0 write pan va u :
  u ∈ us -> u_va u <= va < u_va u + u_len u ->
  at_op el0 write pan va s = permits el0 write pan (UserPerm.attrs (u_perm u)).
Proof.
  intros Hin Hva. destruct (apart_placed us u Hap Hin) as (P0 & P1 & P2 & P3 & P4). pose proof granule_bounds.
  rewrite probe_user, <- (vpn_low va) by lia. rewrite (umap_at_in us u va) by (try done; rewrite !vpn_low by lia;
    unfold GRANULE in *; destruct plat; div_lia).
  pose proof (proj1 (list.Forall_forall _ _) Hok u Hin) as (U0 & U1 & U2).
  apply permits_desc; [|by rewrite Z_mod_plus_full]. rewrite !vpn_low by lia. unfold GRANULE in *. destruct plat; div_lia.
Qed.

Lemma probe_user_out el0 write pan va :
  0 <= va < 2 ^ 48 -> va mod GRANULE = 0 ->
  (forall u, u ∈ us -> va + GRANULE <= u_va u \/ u_va u + u_len u <= va) ->
  at_op el0 write pan va s = false.
Proof.
  intros Hva Hm Hout. rewrite probe_user by done. rewrite umap_at_out; [done|]. intros u Hin.
  pose proof (Hout u Hin) as Hx. destruct (apart_placed us u Hap Hin) as (U0 & U1 & U2 & U3 & U4).
  pose proof granule_bounds. rewrite vpn_low by lia. unfold GRANULE in *. destruct plat; div_lia.
Qed.
End user_space.

(** The kernel's half is closed to EL0. *)
Lemma probe_kernel_user (s : estate D) a write pan :
  kernel_space_inv (e_pool s) -> 0 <= a < 2 ^ 48 -> at_op true write pan (alias a) s = false.
Proof.
  intros (_ & _ & Hr & Hsafe) Ha. destruct (walk_high s a Ha) as [Hw _]. unfold at_op. rewrite Hw, Hr.
  destruct (translate (e_pool s) 1 (alias a)) as [d|] eqn:E; [|done]. destruct (Hsafe 1 _ d ltac:(set_solver) E) as (_ & He & _).
  unfold permits. unfold el0_accessible in He. rewrite He. by rewrite !andb_false_r.
Qed.

Lemma elem_of_rev {A} (x : A) l : x ∈ rev l <-> x ∈ l.
Proof. by rewrite list_elem_of_In, <- in_rev, <- list_elem_of_In. Qed.

Lemma spawn_maps_avoid rt frames stack bi a :
  let len := Z.of_nat (length (rt_image rt)) in
  Forall (seg_ok (rt_base rt) (rt_base rt + len) (rt_entry rt)) (rt_segments rt) ->
  rt_base rt mod GRANULE = 0 -> len mod GRANULE = 0 ->
  (a + GRANULE <= rt_base rt \/ rt_base rt + len <= a) ->
  (a + GRANULE <= USER_STACK_TOP - USER_STACK_SIZE \/ USER_STACK_TOP <= a) ->
  (a + GRANULE <= bootinfo.VA \/ bootinfo.VA + GRANULE <= a) ->
  forall u, u ∈ spawn_maps (rt_base rt) frames stack bi (rt_segments rt) -> a + GRANULE <= u_va u \/ u_va u + u_len u <= a.
Proof.
  intros len Hsegs Hb Hl Ha1 Ha2 Ha3 u. unfold spawn_maps. rewrite !elem_of_cons, elem_of_rev, list_elem_of_fmap.
  intros [->|[->|(sg & -> & Hin)]]; [done| |].
  - simpl. unfold USER_STACK_SIZE, USER_STACK_TOP in *. lia.
  - pose proof (proj1 (list.Forall_forall _ _) Hsegs sg Hin) as (S1 & S2 & S3 & S4 & _).
    pose proof (Spawn.seg_fits (rt_base rt) len sg Hb Hl S3 S4 S2) as Hf. simpl. lia.
Qed.

Lemma user_checks_pass sym rt sg hard k (s : estate D) :
  symbols_ok sym -> user_layout sym rt -> root_space rt k -> kernel_space_inv (e_pool s) ->
  e_user s = Some (ttbr0 (k_tasks k)) -> e_words s = k_words k -> (pan2 hard = true -> pan_on s = true) ->
  sg ∈ rt_segments rt -> s_kind sg = SegKind.Text -> all_match (user_checks sym (s_va sg) hard s) = true.
Proof.
  intros Hsym (L1 & L2 & L3 & L4) (frames & stack & bi & Hm & Hap & Hok & Hsegs & Hb & Hl) Hk Hu Hw Hpan Hin Htext.
  rewrite <- Hw in Hm. set (us := spawn_maps _ _ _ _ _) in *. pose proof granule_bounds as Hg.
  destruct Hsym as [Hal (O1 & O2 & O3 & O4 & O5 & O6) _ _]. rewrite list.Forall_cons in Hal. destruct Hal as [A1 _].
  pose proof (proj1 (list.Forall_forall _ _) Hsegs sg Hin) as (S1 & S2 & S3 & S4 & _).
  assert (Hus : mkU bootinfo.VA bi GRANULE UserPerm.RoUser ∈ us) by by left.
  assert (Hst : mkU (USER_STACK_TOP - USER_STACK_SIZE) stack USER_STACK_SIZE UserPerm.RwUser ∈ us) by by right; left.
  assert (Htx : seg_range (rt_base rt) frames sg ∈ us).
  { right. right. apply elem_of_rev, list_elem_of_fmap. by exists sg. }
  pose proof (apart_placed us _ Hap Htx) as (_ & _ & _ & Hlen & _). cbn [u_len seg_range] in Hlen.
  assert (Hgc : USER_STACK_TOP = 0x10000000 /\ USER_STACK_SIZE = 0x10000 /\ bootinfo.VA = 0x0F000000) by done.
  assert (Hpt : forall el0 write pan, at_op el0 write pan (s_va sg) s = permits el0 write pan (UserPerm.attrs UserPerm.TextUser)).
  { intros. rewrite (probe_user_in s _ us Hu Hm Hap Hok el0 write pan _ _ Htx) by (simpl; lia). simpl. by rewrite Htext. }
  assert (Hguard : (USER_STACK_TOP - USER_STACK_SIZE - GRANULE) mod GRANULE = 0) by (unfold GRANULE; by destruct plat).
  unfold user_checks, can_user_read, can_user_write, can_read, can_read_pan_checked. rewrite !Hpt.
  rewrite !(probe_user_in s _ us Hu Hm Hap Hok _ _ _ (USER_STACK_TOP - GRANULE) _ Hst) by (simpl; lia).
  rewrite !(probe_user_in s _ us Hu Hm Hap Hok _ _ _ bootinfo.VA _ Hus) by (simpl; lia).
  rewrite (probe_user_out s _ us Hu Hm Hap _ _ _ (USER_STACK_TOP - USER_STACK_SIZE - GRANULE)); [|lia|done|].
  2:{ apply spawn_maps_avoid; try done; [left; lia|lia]. }
  rewrite probe_kernel_user by (done || lia).
  replace (alias (kernel_start sym) - KERNEL_VA_OFFSET) with (kernel_start sym) by (unfold alias; lia).
  rewrite (probe_user_out s _ us Hu Hm Hap _ _ _ (kernel_start sym)); [|lia|done|by apply spawn_maps_avoid].
  destruct (pan2 hard); [rewrite Hpan by done|]; vm_compute; reflexivity.
Qed.
End checks.

(** ** The whole sequence *)

Section main.
Context `{Platform, PoolVa, !PoolVaOk} {D : Type} `{!Hw D} (fuel : nat).
Context `{hash : Hash, !HashOk} (mem : Z -> Z) (sym : Symbols) (gen : Generated).

(** The console's address after the jump. *)
Definition HIGH : Z := MMIO_BASE + KERNEL_VA_OFFSET.

Context (Hready : forall d, becomes_ready HIGH fuel d = true).
Context (Hsym : symbols_ok sym).

Lemma high_base : HIGH = MMIO_BASE \/ HIGH = MMIO_BASE + KERNEL_VA_OFFSET.
Proof. by right. Qed.

Lemma higher_half_goes (s : estate D) :
  goes (fun _ => False) HIGH (on_cpu use_higher_half) s (fun _ s' evs => same s s' /\ evs = []).
Proof.
  unfold on_cpu, use_higher_half. rewrite add_p_ok by (unfold MMIO_BASE, UART_BASE; by destruct plat).
  split; [done|]. exists []. by rewrite app_nil_r.
Qed.

Lemma main_banner_goes may pc (s : estate D) :
  goes may HIGH (main_banner fuel sym pc) s (fun _ s' evs => same s s' /\
    tx HIGH evs = ln (lit "k0: higher half (pc = " ++ hex pc ++ lit ")")).
Proof.
  unfold main_banner. eapply goes_then.
  { apply (goes_cpu _ (BASE (e_arch s)) _ (fun _ evs => evs = [Msr VBAR_EL1 (alias (vectors sym)); Isb])); [by apply does_acts|done]. }
  intros _ s1 evs1 _ _ [Hs1 ->]. eapply goes_then; [apply higher_half_goes|]. intros _ s2 evs2 Hb2 _ [Hs2 ->].
  eapply goes_mono; [apply (goes_line fuel may HIGH high_base Hready); done|]. intros _ s3 evs3 [Hs3 [Hx3 _]].
  split; [eapply same_sys_trans; [exact Hs1|by eapply same_sys_trans]|]. done.
Qed.

Section run.
Context (may : estate D -> Prop) (info : BootInfo) (rt : VerifiedRootTask) (b : res boot_fail kstate).
Context (Hent : (length (entropy info) <= 72)%nat) (Hret : returns b) (Hmay : forall e s, b = Err e -> may s) (Hgic : forall s, gic_timeout s -> may s).

Lemma main_boot_goes dtb_phys s :
  parse mem dtb_phys (kernel_start sym) (kernel_end sym) KERNEL_VA_OFFSET = Ok info ->
  verify_root_task gen = Ok rt -> b = boot info (image sym) rt (root_tcb sym) (e_pool s) (e_words s) ->
  BASE (e_arch s) = HIGH ->
  goes may HIGH (main_boot fuel mem sym gen dtb_phys) s
    (fun r s' evs => let '(rt', hard, t, root, cn) := r in
       let k := mkK cn (boot_tasks (root_tcb sym) t root) (e_pool s') (e_words s') [] in
       rt' = rt /\ b = Ok k /\ e_user s' = e_user s /\
       (pan2 hard = true -> sets_pan evs = true) /\ exists rnd,
       tx HIGH evs = ((region_text (lit "k0: memory ") <$> memory info) ++
         (region_text (lit "k0: dtb reserved ") <$> reserved info) ++ [verify_line rt] ++ harden_lines info rnd hard ++
         [lit "k0: irq on (timer 1s)"] ++ [pool_line (e_pool s')] ++ [spawn_line rt root] ++ caps_lines cn) ≫= ln).
Proof.
  intros Hp Hv Hk Hb. pose proof high_base as Hhi.
  eapply goes_bind; [by eapply main_dtb_goes|]. intros i s1 evs1 Hb1 _ (-> & Hk1 & (P1 & W1 & U1) & [Hx1 _]). cbv beta in Hk1.
  eapply goes_bind; [by eapply main_verify_goes|]. intros r s2 evs2 Hb2 _ (-> & (P2 & W2 & U2) & [Hx2 _]).
  eapply goes_bind; [by eapply main_harden_goes|]. intros hard s3 evs3 Hb3 _ ((P3 & W3 & U3) & [rnd Hx3] & Hpan).
  eapply goes_bind; [by eapply main_irq_goes|]. intros _ s4 evs4 Hb4 _ ((P4 & W4 & U4) & Hx4).
  rewrite <- P1, <- P2, <- P3, <- P4, <- W1, <- W2, <- W3, <- W4 in Hk1.
  set (kD p (tr : Tcb * Z) cn w := @Ok boot_fail kstate (mkK cn (boot_tasks (root_tcb sym) tr.1 tr.2) p w [])).
  set (kC win p bi (tr : Tcb * Z) (m : FrameAlloc * words) :=
    let? rsv := boot_reserved info (image sym) win in
    let? cn := map_err CapFailed (bootstrap (phys <$> memory info) rsv tr.2) in
    let? w := write_bootinfo bi cn m.2 in kD p tr cn w).
  eapply goes_bind.
  { apply (main_window_goes fuel sym may HIGH Hhi Hready b Hret Hmay info (fun win p bi m =>
      if 4 <? Z.of_nat (length (rt_segments rt)) then Err TooManySegments else
      let? sp := run SpawnFailed (spawn_root (rt_image rt) (rt_base rt) (rt_entry rt) (rt_segments rt) bi) m in
      kC win p bi sp.1 sp.2)); [exact Hk1|done]. }
  intros [[win bi] fa] s5 evs5 Hb5 _ (Hk5 & U5 & [Hx5 _]). cbn [fst snd] in Hk5.
  eapply goes_bind; [by apply (main_spawn_goes fuel may HIGH Hhi Hready b Hret Hmay rt bi fa (kC win (e_pool s5) bi))|].
  intros [t root] s6 evs6 Hb6 _ (fa' & Hk6 & P6 & U6 & [Hx6 _]). unfold kC in Hk6. cbn [fst snd] in Hk6.
  eapply goes_bind; [by apply (main_caps_goes fuel sym may HIGH Hhi Hready b Hret Hmay info win root bi (kD (e_pool s5) (t, root)))|].
  intros cn s7 evs7 Hb7 _ (Hk7 & P7 & U7 & [Hx7 _]).
  apply goes_ret; [done|]. rewrite P7, P6. split_and!; [done|done|congruence| |].
  - intros Hp2. unfold sets_pan in *. rewrite !existsb_app, (Hpan Hp2). by rewrite orb_true_r, !orb_true_r.
  - exists rnd. rewrite !tx_app, Hx1, Hx2, Hx3, Hx4, Hx5, Hx6, Hx7, !bind_app. cbn [mbind list_bind tx omap list_omap].
    by rewrite !app_nil_r, <- !app_assoc.
Qed.

Lemma install_user_goes root s :
  BASE (e_arch s) = HIGH ->
  goes may HIGH (install_user root) s (fun _ s' evs => tx HIGH evs = [] /\ e_pool s' = e_pool s /\
    e_words s' = e_words s /\ e_user s' = Some root).
Proof.
  intros Hb. unfold install_user. eapply goes_bind.
  { eapply goes_cpu; [apply (does_acts _ _ (fun _ evs => tx HIGH evs = [])); done|done]. }
  intros _ s1 evs1 Hb1 _ [(P1 & W1 & U1) Hx1]. split; [done|]. exists []. rewrite !app_nil_r. done.
Qed.

(** A device tree and a root task that are accepted. *)
Lemma kernel_main_goes pc dtb_phys lo hi s :
  parse mem dtb_phys (kernel_start sym) (kernel_end sym) KERNEL_VA_OFFSET = Ok info ->
  verify_root_task gen = Ok rt -> b = boot info (image sym) rt (root_tcb sym) (e_pool s) (e_words s) ->
  boot_pre info (image sym) rt (root_tcb sym) (e_pool s) -> ~ high_window info (image sym) ->
  0 <= lo < U64 -> hi <= kernel_start sym \/ kernel_end sym <= lo ->
  maps_exactly (kernel_segs (layout sym lo hi)) (e_pool s) -> e_user s = None ->
  user_layout sym rt -> Exists (fun sg => s_kind sg = SegKind.Text) (rt_segments rt) ->
  goes may HIGH (kernel_main fuel mem sym gen pc dtb_phys) s (fun k s' evs =>
    b = Ok k /\ e_pool s' = k_pool k /\ e_words s' = k_words k /\ e_user s' = Some (ttbr0 (k_tasks k)) /\
    exists rnd hard, tx HIGH evs = main_lines pc info rt rnd hard k ≫= ln).
Proof.
  intros Hp Hv Hk Hpre Hlow Hlo Hclear Hmaps Hu Hul Htext. pose proof high_base as Hhi. unfold kernel_main.
  eapply goes_bind; [apply main_banner_goes|]. intros _ s1 evs1 Hb1 _ [(P1 & W1 & U1) Hx1].
  eapply goes_bind.
  { apply check_wx_goes; [done..|]. left. apply (wx_checks_pass sym lo hi); try done; [by rewrite P1|..|by rewrite U1].
    rewrite P1. apply (bp_pool _ _ _ _ _ Hpre). }
  intros _ s2 evs2 Hb2 _ [(P2 & W2 & U2) [Hx2 _]].
  eapply goes_bind; [by apply (main_boot_goes dtb_phys s2); [done|done|rewrite P2, P1, W2, W1|]|].
  intros [[[[rt' hard] t] root] cn] s3 evs3 Hb3 Hl3 (-> & Hok & U3 & Hpan & rnd & Hx3).
  eapply goes_bind; [by apply install_user_goes|]. intros _ s4 evs4 Hb4 Hl4 (Hx4 & P4 & W4 & U4).
  set (k := mkK _ _ _ _ _) in Hok. pose proof (boot_spec _ _ _ _ _ (e_words s) Hpre Hlow) as Hbs. rewrite <- Hk, Hok in Hbs.
  destruct Hbs as [[Hrs Hki] _].
  destruct (find_text_Some _ Htext) as (sg & Hin & Hkind & Hft).
  eapply goes_bind.
  { eapply check_user_wx_goes; [done..| |done]. apply (user_checks_pass sym rt sg hard k); try done.
    - by rewrite P4.
    - intros Hp2. unfold pan_on. rewrite Hl4, Hl3, !existsb_app. unfold sets_pan in Hpan. rewrite (Hpan Hp2).
      by rewrite orb_true_r. }
  intros _ s5 evs5 Hb5 _ [(P5 & W5 & U5) [Hx5 _]].
  eapply goes_bind; [by apply goes_line|]. intros _ s6 evs6 Hb6 _ [(P6 & W6 & U6) [Hx6 _]]. apply goes_get.
  apply goes_ret; [done|]. rewrite P6, P5, P4, W6, W5, W4, U6, U5, U4. split_and!; [done..|].
  exists rnd, hard. rewrite !tx_app, Hx1, Hx2, Hx3, Hx4, Hx5, Hx6. unfold main_lines.
  cbn [k_pool k_tasks k_cnode]. rewrite !bind_app, !bind_cons. cbn [mbind list_bind tx omap list_omap].
  by rewrite !app_nil_r, <- !app_assoc.
Qed.
End run.

(** Whatever is refused, the kernel stops with a message. *)
Lemma kernel_main_refuses may pc dtb_phys (s : estate D) :
  (forall s', may s') ->
  match parse mem dtb_phys (kernel_start sym) (kernel_end sym) KERNEL_VA_OFFSET with
  | Ok info => Forall region_ok (memory info) /\ exists e, verify_root_task gen = Err e
  | Err _ => True
  | _ => False
  end ->
  goes may HIGH (kernel_main fuel mem sym gen pc dtb_phys) s (fun _ _ _ => False).
Proof.
  intros Hmay Hr. pose proof high_base as Hhi. unfold kernel_main.
  eapply goes_bind; [apply main_banner_goes|]. intros _ s1 evs1 Hb1 _ [_ _].
  eapply goes_bind; [apply check_wx_goes; try done; by right|]. intros _ s2 evs2 Hb2 _ [_ _].
  eapply (goes_bind _ _ _ _ _ (fun _ _ _ => False)); [|by intros ? ? ? ? ? []]. unfold main_boot.
  destruct (parse mem dtb_phys _ _ _) as [info|e| |] eqn:Hp; try done.
  - destruct Hr as [Hreg [[] Hv]]. eapply goes_bind.
    { apply (main_dtb_goes fuel mem sym may HIGH Hhi Hready dtb_phys info (let? _ := check_memory_map info in Ok tt) (fun _ => Ok tt));
        try done. pose proof (check_devices_spec device_windows (memory info) Hreg) as Hc. unfold check_memory_map.
      by destruct (check_devices _ _). }
    intros i s3 evs3 Hb3 _ _. eapply (goes_bind _ _ _ _ _ (fun _ _ _ => False)); [|by intros ? ? ? ? ? []].
    unfold main_verify. rewrite Hv. by apply goes_fail.
  - eapply (goes_bind _ _ _ _ _ (fun _ _ _ => False)); [|by intros ? ? ? ? ? []].
    unfold main_dtb, image. cbn [start end_]. rewrite Hp. by apply goes_fail.
Qed.
End main.

(** *** Before the jump *)

Section init.
Context `{Platform, PoolVa, !PoolVaOk} {D : Type} `{!Hw D} (fuel : nat) (mem : Z -> Z) (sym : Symbols).
Context (Hready : forall d, becomes_ready MMIO_BASE fuel d = true) (Hsym : symbols_ok sym).
Context (may : estate D -> Prop).

Lemma low_base : MMIO_BASE = MMIO_BASE \/ MMIO_BASE = MMIO_BASE + KERNEL_VA_OFFSET.
Proof. by left. Qed.

Lemma hex16_crlf v : hex16 v ≫= crlf = hex16 v.
Proof.
  apply crlf_lit. unfold hex16. apply Forall_app. split; [by repeat constructor|]. generalize 16%nat as n. intros n. revert v.
  induction n as [|n IH]; intros v; [constructor|]. cbn [hex_digits]. apply Forall_app. split; [apply IH|].
  repeat constructor. unfold digit. pose proof (Z.mod_pos_bound v 16). destruct (_ <? _); lia.
Qed.

Lemma layout_fits lo hi : 0 <= lo -> 0 <= hi <= 2 ^ 48 -> layout_pa (layout sym lo hi).
Proof.
  intros Hlo Hhi. destruct Hsym as [_ (O1 & O2 & O3 & O4 & O5 & O6) _ _]. pose proof granule_bounds.
  unfold layout_pa, layout. cbn [app text rodata rw0 rw1 dtb devices]. repeat (constructor; [simpl; lia|]).
  unfold device_windows, UART_BASE, GICD_BASE, GICD_SIZE, GICR_BASE, GICR_SIZE, GRANULE.
  destruct plat; repeat (apply list.Forall_cons; split; [simpl; lia|]); apply Forall_nil; exact I.
Qed.

Lemma paging_on_goes l s :
  layout_pa l -> (forall mmfr0 e p s', enable_paging mmfr0 l initial_pool = (Err e, p) -> may s') ->
  e_pool s = initial_pool -> BASE (e_arch s) = MMIO_BASE ->
  goes may MMIO_BASE (paging_on l) s (fun r s' evs => tx MMIO_BASE evs = [] /\ e_words s' = e_words s /\ e_user s' = e_user s /\
    match r with
    | Ok _ => exists mmfr0 t0 t1 tc, enable_paging mmfr0 l initial_pool = (Ok (t0, t1, tc), e_pool s') /\
        Msr TTBR0_EL1 t0 ∈ evs /\ Msr TTBR1_EL1 t1 ∈ evs
    | Err e => forall s', may s'
    | _ => False
    end).
Proof.
  intros Hl Hmay Hp Hb. unfold paging_on. eapply goes_bind.
  { apply (goes_cpu _ MMIO_BASE _ (fun v evs => evs = [Mrs ID_AA64MMFR0_EL1 v])); [by step|done]. }
  intros mmfr0 s1 evs1 Hb1 _ [(P1 & W1 & U1) ->]. apply goes_get. rewrite P1, Hp.
  pose proof (enable_paging_total mmfr0 l Hl) as [Hn1 Hn2].
  destruct (enable_paging mmfr0 l initial_pool) as [r p] eqn:E. cbn [fst] in *.
  eapply goes_bind; [by apply goes_set_pool|]. intros _ s2 evs2 Hb2 _ (-> & ->).
  destruct r as [[[t0 t1] tc]|e| |]; try done.
  - eapply goes_bind.
    { apply (goes_cpu _ MMIO_BASE _ (fun _ evs => tx MMIO_BASE evs = [] /\ Msr TTBR0_EL1 t0 ∈ evs /\ Msr TTBR1_EL1 t1 ∈ evs)); [|done].
      unfold switch_on. step. step. split; [done|]. rewrite !elem_of_cons. tauto. }
    intros _ s3 evs3 Hb3 _ [(P3 & W3 & U3) (Hx3 & T0 & T1)]. cbn [e_pool e_words e_user] in *.
    apply goes_ret; [done|]. rewrite P3, W3, U3, app_nil_r. cbn [app]. split_and!; [exact Hx3|done|done|].
    exists mmfr0, t0, t1, tc. split_and!; [done|by right..].
  - apply goes_ret; [done|]. cbn [e_pool e_words e_user]. split_and!; [done..|]. intros s'. by eapply Hmay.
Qed.

(** A code in hexadecimal and the end. *)
Lemma goes_code {X} l v s (Q : X -> estate D -> list event -> Prop) :
  BASE (e_arch s) = MMIO_BASE -> (forall s', may s') ->
  goes may MMIO_BASE (do! _ := say fuel l in do! _ := on_cpu (put_hex fuel v) in do! _ := say fuel [10] in park_here) s Q.
Proof.
  intros Hb Hm. pose proof low_base as Hlow.
  eapply goes_bind; [by apply goes_say|]. intros _ s1 evs1 Hb1 _ _.
  eapply goes_bind; [by apply goes_hex|]. intros _ s2 evs2 Hb2 _ _.
  eapply goes_bind; [by apply goes_say|]. intros _ s3 evs3 Hb3 _ _. by apply goes_park.
Qed.

Lemma enable_mmu_goes lo hi s :
  0 <= lo -> 0 <= hi <= 2 ^ 48 ->
  (forall mmfr0 e p s', enable_paging mmfr0 (layout sym lo hi) initial_pool = (Err e, p) -> may s') ->
  e_pool s = initial_pool -> BASE (e_arch s) = MMIO_BASE ->
  goes may MMIO_BASE (enable_mmu fuel sym lo hi) s (fun _ s' evs => exists mmfr0 t0 t1 tc,
    enable_paging mmfr0 (layout sym lo hi) initial_pool = (Ok (t0, t1, tc), e_pool s') /\
    e_words s' = e_words s /\ e_user s' = e_user s /\
    tx MMIO_BASE evs = ln (lit "k0: mmu on (identity + higher-half alias)") /\
    Msr TTBR0_EL1 t0 ∈ evs /\ Msr TTBR1_EL1 t1 ∈ evs).
Proof.
  intros Hlo Hhi Hmay Hp Hb. pose proof low_base as Hlow. unfold enable_mmu, kernel_layout.
  destruct Hsym as [_ (O1 & O2 & O3 & _) _ _]. rewrite sub_p_ok by lia. cbn [rbind]. fold (layout sym lo hi).
  change (bind (lift (Ok ?l)) ?k) with (k l). cbv beta.
  eapply goes_bind; [apply paging_on_goes; [by apply layout_fits|done..]|].
  intros r s1 evs1 Hb1 _ (Hx1 & W1 & U1 & Hr). destruct r as [[]|e| |]; try done.
  - destruct Hr as (mmfr0 & t0 & t1 & tc & E & T0 & T1). eapply goes_mono; [by apply goes_say|].
    intros _ s2 evs2 [(P2 & W2 & U2) [Hx2 _]]. exists mmfr0, t0, t1, tc. rewrite P2, W2, U2, tx_app, Hx1.
    split_and!; [done..|by apply elem_of_app; left|by apply elem_of_app; left].
  - by apply goes_code.
Qed.

(** The span of the device tree, the kernel's tables and the console. *)
Lemma kernel_init_goes dtb_phys s :
  0 <= dtb_phys -> dtb_phys + MAX_DTB_SIZE <= 2 ^ 48 ->
  (forall e s', dtb_span mem dtb_phys = Err e -> may s') ->
  (forall lo hi mmfr0 e p s', dtb_span mem dtb_phys = Ok (lo, hi) ->
     enable_paging mmfr0 (layout sym lo hi) initial_pool = (Err e, p) -> may s') ->
  e_pool s = initial_pool -> BASE (e_arch s) = MMIO_BASE ->
  goes may MMIO_BASE (kernel_init fuel mem sym dtb_phys) s (fun _ s' evs => exists hi mmfr0 t0 t1 tc,
    dtb_span mem dtb_phys = Ok (dtb_phys, hi) /\ 0 <= hi <= 2 ^ 48 /\
    enable_paging mmfr0 (layout sym dtb_phys hi) initial_pool = (Ok (t0, t1, tc), e_pool s') /\
    e_words s' = e_words s /\ e_user s' = e_user s /\ tx MMIO_BASE evs = init_lines dtb_phys ≫= ln /\
    Msr TTBR0_EL1 t0 ∈ evs /\ Msr TTBR1_EL1 t1 ∈ evs).
Proof.
  intros Hd0 Hd1 Hm1 Hm2 Hp Hb. pose proof low_base as Hlow. unfold kernel_init.
  eapply goes_bind.
  { apply (goes_cpu _ MMIO_BASE _ (fun _ evs => tx MMIO_BASE evs = [])); [by apply does_acts|done]. }
  intros _ s1 evs1 Hb1 _ [(P1 & W1 & U1) Hx1].
  eapply goes_bind; [by apply goes_say|]. intros _ s2 evs2 Hb2 _ [(P2 & W2 & U2) [Hx2 _]].
  eapply goes_bind; [by apply goes_say|]. intros _ s3 evs3 Hb3 _ [(P3 & W3 & U3) [Hx3 _]].
  eapply goes_bind; [by apply goes_hex|]. intros _ s4 evs4 Hb4 _ [(P4 & W4 & U4) [Hx4 _]].
  eapply goes_bind; [by apply goes_say|]. intros _ s5 evs5 Hb5 _ [(P5 & W5 & U5) [Hx5 _]].
  assert (Hdu : 0 <= dtb_phys < U64) by (unfold MAX_DTB_SIZE in Hd1; lia).
  pose proof (dtb_span_post mem dtb_phys Hdu) as Hsp. unfold HEADER_SIZE in Hsp.
  destruct (dtb_span mem dtb_phys) as [[lo hi]|e| |]; try done; [|apply goes_code; [done|intros s'; by apply (Hm1 e)]].
  cbn [post fst snd] in Hsp. destruct Hsp as (-> & Hsz & _).
  eapply goes_bind; [apply enable_mmu_goes; [done|lia|by intros; eapply Hm2|congruence|done]|].
  intros _ s6 evs6 Hb6 _ (mmfr0 & t0 & t1 & tc & E & W6 & U6 & Hx6 & T0 & T1).
  eapply goes_mono; [by apply goes_say|]. intros _ s7 evs7 [(P7 & W7 & U7) [Hx7 _]].
  exists hi, mmfr0, t0, t1, tc. rewrite P7. split_and!; [done|lia|lia|done|congruence|congruence|..].
  - rewrite !tx_app, Hx1, Hx2, Hx3, Hx4, Hx5, Hx6, Hx7. unfold init_lines. rewrite !bind_cons.
    assert (Ed : ln (lit "k0: dtb = " ++ hex16 dtb_phys) = (lit "k0: dtb = " ≫= crlf) ++ hex16 dtb_phys ++ ([10] ≫= crlf)).
    { rewrite ln_app. unfold ln. by rewrite bind_app, hex16_crlf. }
    rewrite Ed. unfold ln. cbn [mbind list_bind app]. by rewrite !app_nil_r, <- !app_assoc.
  - rewrite !elem_of_app. tauto.
  - rewrite !elem_of_app. tauto.
Qed.
End init.

(** ** Theorems *)

Section start.
Context `{Platform, PoolVa, !PoolVaOk} {D : Type} `{!Hw D} (fuel : nat).
Context `{hash : Hash, !HashOk} (mem : Z -> Z) (sym : Symbols) (gen : Generated) (dtb_phys : Z).

(** What the firmware, the hardware and the build provide: a console that becomes
    ready, a linked image, bytes in memory that the higher half
    shows at their aliases, a device tree placed within the 48-bit physical
    space, and a root task that the build accepted and that keeps clear of the
    kernel's identity addresses. *)
Record machine_ok : Prop := {
  mo_ready : forall d, becomes_ready MMIO_BASE fuel d = true /\ becomes_ready HIGH fuel d = true;
  mo_symbols : symbols_ok sym;
  mo_bytes : forall a, is_byte (mem a);
  mo_alias : forall a, 0 <= a < 2 ^ 48 -> mem (alias a) = mem a;
  mo_dtb : 0 <= dtb_phys /\ dtb_phys + MAX_DTB_SIZE <= 2 ^ 48;
  mo_gen : gen_ok gen;
  mo_user : user_layout sym (mkRT (ROOT_TASK_IMAGE gen) (ROOT_TASK_BASE gen) (ROOT_TASK_ENTRY gen) (ROOT_TASK_SEGMENTS gen))
}.

(** The boot window of the declared RAM is in the 48-bit range.  This is a
    condition on the device tree that the kernel does not check. *)
Definition window_low : Prop :=
  forall info, parse mem dtb_phys (kernel_start sym) (kernel_end sym) KERNEL_VA_OFFSET = Ok info -> ~ high_window info (image sym).

(** Why the kernel may stop before it enters the root task. *)
Inductive refused (w0 : words) (s : estate D) : Prop :=
| RefusedHeader e : dtb_span mem dtb_phys = Err e -> refused w0 s
| RefusedPaging lo hi mmfr0 e p : dtb_span mem dtb_phys = Ok (lo, hi) ->
    enable_paging mmfr0 (layout sym lo hi) initial_pool = (Err e, p) -> refused w0 s
| RefusedTree e : parse mem dtb_phys (kernel_start sym) (kernel_end sym) KERNEL_VA_OFFSET = Err e -> refused w0 s
| RefusedImage e : verify_root_task gen = Err e -> refused w0 s
| RefusedIrq : gic_timeout s -> refused w0 s
| RefusedBoot lo hi mmfr0 x p0 info rt e : dtb_span mem dtb_phys = Ok (lo, hi) ->
    enable_paging mmfr0 (layout sym lo hi) initial_pool = (Ok x, p0) ->
    parse mem dtb_phys (kernel_start sym) (kernel_end sym) KERNEL_VA_OFFSET = Ok info ->
    verify_root_task gen = Ok rt -> boot info (image sym) rt (root_tcb sym) p0 w0 = Err e -> refused w0 s.

Context (Hmo : machine_ok) (Hlow : window_low).

Lemma span_alias lo hi lo' hi' :
  dtb_span mem dtb_phys = Ok (lo, hi) -> dtb_span mem (alias dtb_phys) = Ok (lo', hi') -> hi - lo = hi' - lo'.
Proof.
  destruct (mo_dtb Hmo) as [H0' H1']. unfold MAX_DTB_SIZE in H1'. assert (Hk : KERNEL_VA_OFFSET + 2 ^ 48 = U64) by reflexivity.
  assert (Hr : read_be32_phys mem (alias dtb_phys + 4) = read_be32_phys mem (dtb_phys + 4)).
  { unfold read_be32_phys, read_bytes. f_equal. apply list_fmap_ext. intros i x Hx. apply lookup_seq in Hx as [-> Hx].
    unfold alias. replace (dtb_phys + KERNEL_VA_OFFSET + 4 + _) with (alias (dtb_phys + 4 + Z.of_nat (0 + i))) by (unfold alias; lia).
    apply (mo_alias Hmo). lia. }
  unfold dtb_span. destruct (_ =? 0); [done|]. destruct (negb _); [done|]. destruct (negb _); [done|].
  rewrite add_p_ok by lia. cbn [rbind]. destruct (negb _); [done|].
  intros E. apply rbind_Ok in E as (h & Eh & [= <- <-]). unfold checked_add in Eh. destruct (_ <? U64); [|done]. injection Eh as <-.
  destruct (_ =? 0); [done|]. destruct (negb _); [done|]. destruct (negb _); [done|].
  rewrite add_p_ok by (unfold alias; lia). cbn [rbind]. rewrite Hr. destruct (negb _); [done|].
  intros E. apply rbind_Ok in E as (h & Eh & [= <- <-]). unfold checked_add in Eh. destruct (_ <? U64); [|done]. injection Eh as <-.
  lia.
Qed.

(** The parser, from the higher half, sees the span that [kernel_init] mapped. *)
Lemma parse_span info lo hi :
  dtb_span mem dtb_phys = Ok (lo, hi) ->
  parse mem dtb_phys (kernel_start sym) (kernel_end sym) KERNEL_VA_OFFSET = Ok info ->
  hi <= kernel_start sym \/ kernel_end sym <= dtb_phys.
Proof.
  intros Hs Hp. pose proof (mo_dtb Hmo) as [Hd0 Hd1].
  assert (Hdu : 0 <= dtb_phys < U64) by (unfold MAX_DTB_SIZE in Hd1; lia).
  pose proof (dtb_span_post mem dtb_phys Hdu) as Hsp. rewrite Hs in Hsp. destruct Hsp as (Hlo & _). cbn [fst] in Hlo. subst lo.
  unfold parse in Hp. apply rbind_Ok in Hp as (rb & Erb & Hp). unfold checked_add in Erb.
  destruct (_ <? U64); [|done]. injection Erb as <-. apply rbind_Ok in Hp as ([lo' hi'] & Es & Hp).
  pose proof (span_alias _ _ _ _ Hs Es) as Hlen. apply rbind_Ok in Hp as (h & Eh & Hp). unfold checked_add in Eh.
  destruct (_ <? U64); [|done]. injection Eh as <-. cbn [fst snd] in Hp.
  destruct (_ && _) eqn:Ek; [done|]. rewrite andb_false_iff, !Z.ltb_ge in Ek. lia.
Qed.

(** The tables that [kernel_init] builds. *)
Lemma tables_built hi mmfr0 t0 t1 tc p0 :
  0 <= hi <= 2 ^ 48 -> enable_paging mmfr0 (layout sym dtb_phys hi) initial_pool = (Ok (t0, t1, tc), p0) ->
  kernel_space_inv p0 /\ maps_exactly (kernel_segs (layout sym dtb_phys hi)) p0 /\ t0 = pool_pa /\ t1 = pool_pa + GRANULE.
Proof.
  intros Hhi E. assert (Hl : layout_u64 (layout sym dtb_phys hi)).
  { eapply list.Forall_impl; [apply (layout_fits sym (mo_symbols Hmo) dtb_phys hi); [apply (mo_dtb Hmo)|done]|].
    intros r [? ?]. split; lia. }
  destruct (enable_paging_ok _ _ _ _ _ _ Hl E) as (Hi & Hex & He & Hr & Ht). split; [|by split].
  split_and!; try done. intros root va d Hin Hd. rewrite (Hex root va Hin) in Hd. destruct (seg_at _ _); [|done]. injection Hd as <-. apply linear_safe.
Qed.

Lemma boot_pre_holds info rt p0 :
  parse mem dtb_phys (kernel_start sym) (kernel_end sym) KERNEL_VA_OFFSET = Ok info ->
  verify_root_task gen = Ok rt -> kernel_space_inv p0 -> boot_pre info (image sym) rt (root_tcb sym) p0.
Proof.
  intros Hp Hv Hk. pose proof (mo_dtb Hmo) as [Hd0 _].
  pose proof (parse_post mem dtb_phys (kernel_start sym) (kernel_end sym) KERNEL_VA_OFFSET (mo_bytes Hmo) Hd0 ltac:(done)) as Hpp.
  rewrite Hp in Hpp. destruct Hpp as (_ & Hm & _ & Hr & _ & _ & Es & Hsz & He & _). unfold HEADER_SIZE in Hsz.
  destruct (mo_symbols Hmo) as [_ (O1 & O2 & O3 & O4 & O5 & O6) _ Ht]. pose proof granule_bounds.
  unfold verify_root_task in Hv. destruct (negb _); [done|]. injection Hv as <-. destruct (mo_gen Hmo) as (G1 & G2 & _).
  split; [done|done|lia| |exact Ht|done|done]. simpl. lia.
Qed.

Lemma main_spec pc hi mmfr0 t0 t1 tc s :
  dtb_span mem dtb_phys = Ok (dtb_phys, hi) -> 0 <= hi <= 2 ^ 48 ->
  enable_paging mmfr0 (layout sym dtb_phys hi) initial_pool = (Ok (t0, t1, tc), e_pool s) -> e_user s = None ->
  goes (refused (e_words s)) HIGH (kernel_main fuel mem sym gen pc dtb_phys) s (fun k s' evs =>
    exists info rt rnd hard,
      parse mem dtb_phys (kernel_start sym) (kernel_end sym) KERNEL_VA_OFFSET = Ok info /\
      verify_root_task gen = Ok rt /\
      boot info (image sym) rt (root_tcb sym) (e_pool s) (e_words s) = Ok k /\
      (ram_addressable info -> booted info (image sym) (root_tcb sym) k) /\
      (e_pool s' = k_pool k /\ e_words s' = k_words k /\ e_user s' = Some (ttbr0 (k_tasks k))) /\
      tx HIGH evs = main_lines pc info rt rnd hard k ≫= ln).
Proof.
  intros Hs Hhi He Hu. destruct (tables_built _ _ _ _ _ _ Hhi He) as (Hk & Hmaps & _ & _). pose proof (mo_dtb Hmo) as [Hd0 Hd1].
  assert (Hready : forall d, becomes_ready HIGH fuel d = true) by (intros; apply (mo_ready Hmo)).
  pose proof (parse_post mem dtb_phys (kernel_start sym) (kernel_end sym) KERNEL_VA_OFFSET (mo_bytes Hmo) Hd0 ltac:(done)) as Hpp.
  destruct (parse mem dtb_phys _ _ _) as [info|e| |] eqn:Hp; try done.
  2:{ eapply goes_mono; [apply kernel_main_refuses; [done|intros; by eapply RefusedTree|by rewrite Hp]|done]. }
  destruct (verify_root_task gen) as [rt|e| |] eqn:Hv; [| |by unfold verify_root_task in Hv; destruct (negb _)..].
  2:{ eapply goes_mono; [apply kernel_main_refuses; [done|intros; by eapply RefusedImage|]|done].
      rewrite Hp. split; [apply Hpp|by exists e]. }
  pose proof (boot_pre_holds info rt (e_pool s) Hp Hv Hk) as Hpre.
  pose proof (boot_spec info (image sym) rt (root_tcb sym) (e_pool s) (e_words s) Hpre (Hlow info Hp)) as Hbs.
  set (b := boot info (image sym) rt (root_tcb sym) (e_pool s) (e_words s)) in *.
  eapply goes_mono.
  { apply (kernel_main_goes fuel mem sym gen Hready (mo_symbols Hmo) (refused (e_words s)) info rt b)
      with (lo := dtb_phys) (hi := hi); try done.
    - apply Hpp.
    - by destruct b.
    - intros e s' Eb. by eapply RefusedBoot.
    - intros s'. apply RefusedIrq.
    - by apply Hlow.
    - unfold MAX_DTB_SIZE in Hd1. lia.
    - by eapply parse_span.
    - unfold verify_root_task in Hv. destruct (negb _); [done|]. injection Hv as <-. apply (mo_user Hmo).
    - unfold verify_root_task in Hv. destruct (negb _); [done|]. injection Hv as <-. apply (mo_gen Hmo). }
  intros k s' evs (Eb & P & W & U & rnd & hard & Hx). rewrite Eb in Hbs. exists info, rt, rnd, hard.
  split_and!; try done. apply Hbs.
Qed.

Lemma start_spec pc d w0 :
  let out := start_kernel fuel mem sym gen pc dtb_phys (mkE (mkArch d [] MMIO_BASE 0) initial_pool w0 None) in
  match out.1 with
  | Ok k => exists hi mmfr0 tc p0 info rt rnd hard evs1 evs2,
      (dtb_span mem dtb_phys = Ok (dtb_phys, hi) /\
       enable_paging mmfr0 (layout sym dtb_phys hi) initial_pool = (Ok (pool_pa, pool_pa + GRANULE, tc), p0) /\
       parse mem dtb_phys (kernel_start sym) (kernel_end sym) KERNEL_VA_OFFSET = Ok info /\
       verify_root_task gen = Ok rt /\ boot info (image sym) rt (root_tcb sym) p0 w0 = Ok k) /\
      (ram_addressable info -> booted info (image sym) (root_tcb sym) k) /\
      (e_pool out.2 = k_pool k /\ e_words out.2 = k_words k /\ e_user out.2 = Some (ttbr0 (k_tasks k))) /\
      log (e_arch out.2) = evs1 ++ evs2 /\ (Msr TTBR0_EL1 pool_pa ∈ evs1 /\ Msr TTBR1_EL1 (pool_pa + GRANULE) ∈ evs1) /\
      tx MMIO_BASE evs1 = init_lines dtb_phys ≫= ln /\ tx HIGH evs2 = main_lines pc info rt rnd hard k ≫= ln
  | Err Stopped => refused w0 out.2
  | _ => False
  end.
Proof.
  set (s0 := mkE _ _ _ _). pose proof (mo_dtb Hmo) as [Hd0 Hd1]. cbv zeta.
  destruct (kernel_init_goes fuel mem sym (fun d => proj1 (mo_ready Hmo d)) (mo_symbols Hmo) (refused w0) dtb_phys s0 Hd0 Hd1)
    as (_ & evs1 & Hl1 & Hi); [by intros; eapply RefusedHeader|by intros; eapply RefusedPaging|done|done|].
  unfold start_kernel, bind. destruct (kernel_init _ _ _ _ s0) as [[[]|[]| |] s1]; cbn [fst snd] in *; try done.
  destruct Hi as (hi & mmfr0 & t0 & t1 & tc & Hs & Hhi & He & W1 & U1 & Hx1 & T0 & T1).
  destruct (tables_built _ _ _ _ _ _ Hhi He) as (_ & _ & -> & ->).
  destruct (main_spec pc hi mmfr0 _ _ tc s1 Hs Hhi He U1) as (_ & evs2 & Hl2 & Hm). rewrite W1 in Hm.
  destruct (kernel_main _ _ _ _ _ _ s1) as [[k|[]| |] s2]; cbn [fst snd] in *; try done.
  destruct Hm as (info & rt & rnd & hard & Hp & Hv & Hb & Hbd & Hst & Hx2).
  exists hi, mmfr0, tc, (e_pool s1), info, rt, rnd, hard, evs1, evs2.
  split_and!; try done; [apply Hst..|]. by rewrite Hl2, Hl1.
Qed.

End start.

(** C7: from the first Rust instruction to the root task.  With a UART that
    becomes ready, a linked image and a built root task, for any other behaviour
    of the hardware and any contents of RAM, a device tree of any contents that is
    placed within the 48-bit space and whose boot window is in that range, the
    kernel never panics and never fails one of its own self-checks: it stops only
    because the tree's header or its contents, the paging features, the root
    task's hash, the interrupt controller or a step of the boot sequence is
    refused.  Otherwise it hands over exactly the state of the boot sequence
    [boot] over the tables that [enable_paging] built, which satisfies the system
    invariant if all RAM that the tree declares is in the 48-bit range; the
    translation registers held those tables, and TTBR0 holds the root task's at
    the end. *)
Theorem main_refines_boot `{Platform, PoolVa, !PoolVaOk} {D} `{!Hw D, HashOk} fuel mem sym gen dtb_phys pc (d : D) w0 :
  machine_ok fuel mem sym gen dtb_phys -> window_low mem sym dtb_phys ->
  let out := start_kernel fuel mem sym gen pc dtb_phys (mkE (mkArch d [] MMIO_BASE 0) initial_pool w0 None) in
  match out.1 with
  | Ok k => exists hi mmfr0 tc p0 info rt,
      dtb_span mem dtb_phys = Ok (dtb_phys, hi) /\
      enable_paging mmfr0 (layout sym dtb_phys hi) initial_pool = (Ok (pool_pa, pool_pa + GRANULE, tc), p0) /\
      parse mem dtb_phys (kernel_start sym) (kernel_end sym) KERNEL_VA_OFFSET = Ok info /\
      verify_root_task gen = Ok rt /\ boot info (image sym) rt (root_tcb sym) p0 w0 = Ok k /\
      (ram_addressable info -> booted info (image sym) (root_tcb sym) k) /\
      (e_pool out.2 = k_pool k /\ e_words out.2 = k_words k /\ e_user out.2 = Some (ttbr0 (k_tasks k))) /\
      Msr TTBR0_EL1 pool_pa ∈ log (e_arch out.2) /\ Msr TTBR1_EL1 (pool_pa + GRANULE) ∈ log (e_arch out.2)
  | Err Stopped => refused mem sym gen dtb_phys w0 out.2
  | _ => False
  end.
Proof.
  intros Hmo Hlow out. pose proof (start_spec fuel mem sym gen dtb_phys Hmo Hlow pc d w0) as Hs. cbv zeta in Hs. fold out in Hs.
  destruct out as [[k|[]| |] s']; cbn [fst snd] in *; try done.
  destruct Hs as (hi & mmfr0 & tc & p0 & info & rt & _ & _ & evs1 & evs2 & (? & ? & ? & ? & ?) & ? & (? & ? & ?) & Hl & [T0 T1] & _).
  exists hi, mmfr0, tc, p0, info, rt. rewrite Hl, !elem_of_app. split_and!; try done; by left.
Qed.


(** ** An instance: a small linked image on the board of the device-tree example *)

Module EntryEx.
Import ImageEx ArchEx.

#[export] Instance ex_pool_va : PoolVa := 0x40084000.
#[export] Instance ex_pool_va_ok : PoolVaOk.
Proof. by split; vm_compute. Qed.

Definition sym : Symbols :=
  mkSym 0x40080000 0x400C0000 0x40082000 0x40083000 0x400B0000 0x400C0000 0x40080800 0xFFFF0000400AE000.

(** The device tree, seen at its address and at its alias. *)
Definition ex_memory (a : Z) : Z := ex_mem (a mod 2 ^ 48).

Lemma symbols : symbols_ok sym.
Proof.
  split; [|by vm_compute| |by vm_compute].
  - repeat (apply list.Forall_cons; split; [by vm_compute|]). by apply Forall_nil.
  - change device_windows with [mkRange 0x9000000 0x9001000; mkRange 0x8000000 0x8010000; mkRange 0x80A0000 0x80C0000].
    repeat (apply list.Forall_cons; split; [simpl; lia|]). by apply Forall_nil.
Qed.

Lemma parses : parse ex_memory 0x48000000 (kernel_start sym) (kernel_end sym) KERNEL_VA_OFFSET = Ok ex_info.
Proof. vm_compute. reflexivity. Qed.

Lemma machine : machine_ok 1 ex_memory sym g 0x48000000.
Proof.
  split.
  - by intros [].
  - exact symbols.
  - intros a. apply ex_mem_byte.
  - intros a Ha. unfold ex_memory, alias, KERNEL_VA_OFFSET. f_equal. div_lia.
  - by vm_compute.
  - exact (build_gen_ok elf g (proj1 elf_bytes) (proj2 elf_bytes) built).
  - vm_compute. repeat split; right; discriminate.
Qed.

Lemma addressable : ram_addressable ex_info.
Proof. repeat constructor. Qed.

Lemma window_in_range : window_low ex_memory sym 0x48000000.
Proof.
  intros i. rewrite parses. intros [= <-] (win & E & Hw).
  assert (Hp : pick_window ex_info (end_ (image sym)) = Ok (mkRange 0x400C0000 0x402C0000)) by (vm_compute; reflexivity).
  rewrite Hp in E. injection E as <-. simpl in Hw. lia.
Qed.

#[local] Abbreviation out := (start_kernel (D := unit) 1 ex_memory sym g 0xFFFF000040081000 0x48000000
  (mkE (mkArch tt [] MMIO_BASE 0) initial_pool ∅ None)).

Lemma starts : match out.1 with Ok k => length (filled (k_cnode k)) = 6%nat | _ => False end.
Proof. vm_compute. reflexivity. Qed.

Lemma main_refines_boot_witness : exists k s', out = (Ok k, s') /\ booted ex_info (image sym) (root_tcb sym) k.
Proof.
  pose proof starts as Ho. pose proof (main_refines_boot 1 ex_memory sym g 0x48000000 0xFFFF000040081000 tt ∅ machine window_in_range) as Hb.
  cbv zeta in Hb. destruct out as [[k|[]| |] s']; cbn [fst snd] in *; [|contradiction..]. exists k, s'. split; [reflexivity|].
  destruct Hb as (hi & mmfr0 & tc & p0 & info & rt & _ & _ & Hp & _ & _ & Hbd & _). rewrite parses in Hp. injection Hp as <-.
  exact (Hbd addressable).
Defined.

End EntryEx.
