(* ===== verification/Link.v ===== *)
(** * The linker scripts

    kernel/virt.ld, kernel/apple.ld and userspace/root-task/user.ld, and what the
    code relies on in them.  The part of the script language that they use is
    the type [script], and [link] runs one: the location counter, the symbols, the
    place of every input section and the extent of every output section, for
    whatever input sections the compiler produced.  An input section is known by
    its alignment and size; an output section starts on the largest alignment of
    its inputs.  The scripts only move the location counter upwards.  KEEP and
    NOLOAD do not bear on addresses and are left out.

    The kernel scripts give exactly what start-up assumes: the symbols of
    [Entry.symbols_ok] and of [Asm.boot_symbols], a page-table pool inside .bss,
    and the words of the boot image header.  The root task's script gives what the
    build script asserts of its ELF, and keeps the task clear of the kernel's
    addresses. *)

From Stdlib Require Import String Sorting.Sorted Sorting.Permutation.
From S2P Require Import Prelude Abi Task Radix Paging User Build Fdt Spawn Boot Image Asm Entry.

#[local] Open Scope Z_scope.

(** ** The script language *)

Inductive expr := Num (n : Z) | Sym (s : string) | Dot | ALIGN (n : Z) | Add (a b : expr) | Sub (a b : expr).

(** [s = e;], [. = e;] and the input sections of a pattern. *)
Inductive stmt := Assign (s : string) (e : expr) | Move (e : expr) | Input (pattern : string).

(** An output section: its own alignment (1 without one), its contents, and the
    program header it goes to. *)
Record output := mkOut { o_name : string; o_align : Z; o_body : list stmt; o_phdr : string }.

Inductive command := Cmd (s : stmt) | Out (o : output) | Discard (patterns : list string).

Record script := mkScript {
  ENTRY : string;
  HEAD : list stmt;
  PHDRS : list (string * Z);
  SECTIONS : list command
}.

Record chunk := mkChunk { c_align : Z; c_size : Z }.

(** The link map: input sections by their pattern and output sections by their
    program header, each with its start and end. *)
Record lmap := mkMap {
  dot : Z;
  syms : list (string * Z);
  placed : list (string * Z * Z);
  outs : list (string * Z * Z)
}.

Fixpoint lookup_sym (f : string) (l : list (string * Z)) : option Z :=
  match l with
  | [] => None
  | (g, a) :: l' => if String.eqb f g then Some a else lookup_sym f l'
  end.

Fixpoint eval (m : lmap) (e : expr) : option Z :=
  match e with
  | Num n => Some n
  | Sym s => lookup_sym s (syms m)
  | Dot => Some (dot m)
  | ALIGN n => Some (round_up n (dot m))
  | Add a b => x ← eval m a; y ← eval m b; Some (x + y)
  | Sub a b => x ← eval m a; y ← eval m b; Some (x - y)
  end.

(** Input sections one after the other, each on its alignment. *)
Fixpoint place_end (d : Z) (cs : list chunk) : Z :=
  match cs with [] => d | c :: cs' => place_end (round_up (c_align c) d + c_size c) cs' end.

Fixpoint place_list (p : string) (d : Z) (cs : list chunk) : list (string * Z * Z) :=
  match cs with
  | [] => []
  | c :: cs' => let a := round_up (c_align c) d in (p, a, a + c_size c) :: place_list p (a + c_size c) cs'
  end.

Definition max_align (cs : list chunk) : Z := foldr (fun c a => Z.max (c_align c) a) 1 cs.

Section link.
Context (inputs : string -> list chunk).

Definition exec_stmt (s : stmt) (m : lmap) : option lmap :=
  match s with
  | Assign f e => a ← eval m e; Some (mkMap (dot m) ((f, a) :: syms m) (placed m) (outs m))
  | Move e => a ← eval m e; Some (mkMap a (syms m) (placed m) (outs m))
  | Input p => Some (mkMap (place_end (dot m) (inputs p)) (syms m) (placed m ++ place_list p (dot m) (inputs p)) (outs m))
  end.

Fixpoint exec_stmts (l : list stmt) (m : lmap) : option lmap :=
  match l with [] => Some m | s :: l' => m' ← exec_stmt s m; exec_stmts l' m' end.

Definition body_inputs (l : list stmt) : list chunk :=
  l ≫= fun s => match s with Input p => inputs p | _ => [] end.

Definition exec_command (c : command) (m : lmap) : option lmap :=
  match c with
  | Cmd s => exec_stmt s m
  | Out o =>
    let start := round_up (Z.max (o_align o) (max_align (body_inputs (o_body o)))) (dot m) in
    m' ← exec_stmts (o_body o) (mkMap start (syms m) (placed m) (outs m));
    Some (mkMap (dot m') (syms m') (placed m') (outs m' ++ [(o_phdr o, start, dot m')]))
  | Discard _ => Some m
  end.

Fixpoint exec_commands (l : list command) (m : lmap) : option lmap :=
  match l with [] => Some m | c :: l' => m' ← exec_command c m; exec_commands l' m' end.

(** Fails on a symbol that is not defined. *)
Definition link (s : script) : option lmap :=
  m ← exec_stmts (HEAD s) (mkMap 0 [] [] []);
  exec_commands (SECTIONS s) m.
End link.

(** The load segment of a program header: from the start of its first output
    section to the end of its last one. *)
Definition segment_of (m : lmap) (p : string * Z) : Z * Z * Z :=
  match filter (fun o => o.1.1 = p.1) (outs m) with
  | [] => (0, 0, p.2)
  | (_, a, e) :: l => (a, foldl (fun _ o => o.2) e l - a, p.2)
  end.

Definition load_segments (s : script) (m : lmap) : list (Z * Z * Z) := segment_of m <$> PHDRS s.

(** ** The scripts *)

Definition discarded : list string := [".comment"; ".eh_frame .eh_frame_hdr"; ".note .note.*"]%string.

Definition virt_ld : script := {|
  ENTRY := "_start";
  HEAD := [
    Assign "__load_pa" (Num 0x40080000);
    Assign "__virt_offset" (Num 0xFFFF000000000000);
    Assign "__load_base" (Add (Sym "__virt_offset") (Sym "__load_pa"));
    Assign "__text_offset" (Sub (Sym "__load_pa") (Num 0x40000000));
    Assign "__image_flags" (Num 2)];
  PHDRS := [("text", 5); ("rodata", 4); ("data", 6)];
  SECTIONS := [
    Cmd (Move (Sym "__load_base"));
    Cmd (Assign "__kernel_start" Dot);
    Out (mkOut ".text" 4096 [Input ".text.boot"; Input ".text .text.*"] "text");
    Cmd (Move (ALIGN 4096));
    Cmd (Assign "__rodata_start" Dot);
    Out (mkOut ".rodata" 1 [Input ".rodata .rodata.*"] "rodata");
    Cmd (Move (ALIGN 4096));
    Cmd (Assign "__data_start" Dot);
    Out (mkOut ".data" 1 [Input ".data .data.*"] "data");
    Cmd (Move (ALIGN 4096));
    Out (mkOut ".bss" 1 [
      Move (ALIGN 16);
      Assign "__bss_start" Dot;
      Input ".bss .bss.*";
      Input "COMMON";
      Move (ALIGN 16);
      Assign "__bss_end" Dot;
      Move (ALIGN 4096);
      Move (Add Dot (Num 4096));
      Assign "__boot_stack_bottom" Dot;
      Move (Add Dot (Num 65536));
      Assign "__boot_stack_top" Dot] "data");
    Cmd (Move (ALIGN 4096));
    Cmd (Assign "__kernel_end" Dot);
    Cmd (Assign "__image_size" (Sub (Sym "__kernel_end") (Sym "__load_base")));
    Discard discarded]
|}%string.

Definition apple_ld : script := {|
  ENTRY := "_start";
  HEAD := [
    Assign "__load_pa" (Num 0x810000000);
    Assign "__virt_offset" (Num 0xFFFF000000000000);
    Assign "__load_base" (Add (Sym "__virt_offset") (Sym "__load_pa"));
    Assign "__text_offset" (Sub (Sym "__load_pa") (Num 0x800000000));
    Assign "__image_flags" (Num 4)];
  PHDRS := [("text", 5); ("rodata", 4); ("data", 6)];
  SECTIONS := [
    Cmd (Move (Sym "__load_base"));
    Cmd (Assign "__kernel_start" Dot);
    Out (mkOut ".text" 16384 [Input ".text.boot"; Input ".text .text.*"] "text");
    Cmd (Move (ALIGN 16384));
    Cmd (Assign "__rodata_start" Dot);
    Out (mkOut ".rodata" 1 [Input ".rodata .rodata.*"] "rodata");
    Cmd (Move (ALIGN 16384));
    Cmd (Assign "__data_start" Dot);
    Out (mkOut ".data" 1 [Input ".data .data.*"] "data");
    Cmd (Move (ALIGN 16384));
    Out (mkOut ".bss" 1 [
      Move (ALIGN 16);
      Assign "__bss_start" Dot;
      Input ".bss .bss.*";
      Input "COMMON";
      Move (ALIGN 16);
      Assign "__bss_end" Dot;
      Move (ALIGN 16384);
      Move (Add Dot (Num 16384));
      Assign "__boot_stack_bottom" Dot;
      Move (Add Dot (Num 65536));
      Assign "__boot_stack_top" Dot] "data");
    Cmd (Move (ALIGN 16384));
    Cmd (Assign "__kernel_end" Dot);
    Cmd (Assign "__image_size" (Sub (Sym "__kernel_end") (Sym "__load_base")));
    Discard discarded]
|}%string.

Definition user_ld : script := {|
  ENTRY := "_start";
  HEAD := [Assign "__user_base" (Num 0x400000)];
  PHDRS := [("text", 5); ("rodata", 4); ("data", 6)];
  SECTIONS := [
    Cmd (Move (Sym "__user_base"));
    Out (mkOut ".text" 16384 [Input ".text .text.*"] "text");
    Cmd (Move (ALIGN 16384));
    Out (mkOut ".rodata" 1 [Input ".rodata .rodata.*"] "rodata");
    Cmd (Move (ALIGN 16384));
    Out (mkOut ".data" 1 [Input ".data .data.*"] "data");
    Out (mkOut ".bss" 1 [Input ".bss .bss.*"; Input "COMMON"] "data");
    Discard discarded]
|}%string.

(** ** Placement *)

Definition chunk_ok (g : Z) (c : chunk) : Prop := 0 < c_align c /\ (c_align c | g) /\ 0 <= c_size c.

(** Room for the input sections, their padding included. *)
Definition extent (cs : list chunk) : Z := foldr (fun c n => c_align c + c_size c + n) 0 cs.

Lemma place_end_spec g cs d :
  Forall (chunk_ok g) cs -> d <= place_end d cs <= d + extent cs /\ foldr (fun c n => c_size c + n) 0 cs <= place_end d cs - d.
Proof.
  intros Hc. revert d. induction Hc as [|c cs (Ha & _ & Hs) _ IH]; intros d; simpl; [lia|].
  destruct (round_up_spec (c_align c) d Ha) as [_ Hr]. specialize (IH (round_up (c_align c) d + c_size c)). lia.
Qed.

Lemma place_list_in g p cs d f a e :
  Forall (chunk_ok g) cs -> (f, a, e) ∈ place_list p d cs -> f = p /\ d <= a <= e /\ e <= place_end d cs.
Proof.
  intros Hc. revert d. induction Hc as [|c cs (Ha & ? & Hs) Hcs IH]; intros d; simpl; [by intros ?%not_elem_of_nil|].
  destruct (round_up_spec (c_align c) d Ha) as [_ Hr].
  pose proof (place_end_spec g cs (round_up (c_align c) d + c_size c) Hcs) as [Hp _].
  intros [[= -> -> ->]|Hin]%elem_of_cons; [split; [done|lia]|]. destruct (IH _ Hin) as [-> ?]. split; [done|lia].
Qed.

Lemma round_up_id g d : 0 < g -> (g | d) -> round_up g d = d.
Proof.
  intros Hg Hd. destruct (round_up_spec g d Hg) as [Hm Hb]. apply Z.mod_divide in Hm; [|lia].
  destruct Hd as [q ->], Hm as [k Hk]. rewrite Hk in *. assert (q <= k < q + 1) by nia. replace k with q by lia. done.
Qed.

Lemma round_up_unique g x d : 0 < g -> (g | d) -> x <= d < x + g -> round_up g x = d.
Proof.
  intros Hg Hd Hx. destruct (round_up_spec g x Hg) as [Hm Hb]. apply Z.mod_divide in Hm; [|lia].
  destruct Hd as [q ->], Hm as [k Hk]. rewrite Hk in *. assert (k = q) by nia. by subst.
Qed.

Lemma max_align_spec g cs : 0 < g -> Forall (chunk_ok g) cs -> 0 < max_align cs /\ (max_align cs | g).
Proof.
  intros Hg. induction 1 as [|c cs (Ha & Hd & _) _ IH]; simpl; [split; [lia|apply Z.divide_1_l]|].
  destruct (Z.max_spec (c_align c) (max_align cs)) as [[_ ->]|[_ ->]]; [done|]. by split.
Qed.

(** An output section whose inputs need no more than the counter has starts there. *)
Lemma section_start g o cs d :
  0 < g -> 0 < o -> (o | g) -> Forall (chunk_ok g) cs -> (g | d) -> round_up (Z.max o (max_align cs)) d = d.
Proof.
  intros Hg Ho Hog Hc Hd. destruct (max_align_spec g cs Hg Hc) as [Hm Hmg].
  apply round_up_id; [lia|]. destruct (Z.max_spec o (max_align cs)) as [[_ ->]|[_ ->]]; by etransitivity.
Qed.

Lemma round_up_divide g d : 0 < g -> (g | round_up g d).
Proof. intros Hg. apply Z.mod_divide; [lia|]. by apply round_up_spec. Qed.

(** ** The kernel's map *)

(** The two kernel scripts differ in the page size, the load address and the words
    of the image header. *)
Definition kernel_ld (g pa ram flags : Z) : script := {|
  ENTRY := "_start";
  HEAD := [
    Assign "__load_pa" (Num pa);
    Assign "__virt_offset" (Num 0xFFFF000000000000);
    Assign "__load_base" (Add (Sym "__virt_offset") (Sym "__load_pa"));
    Assign "__text_offset" (Sub (Sym "__load_pa") (Num ram));
    Assign "__image_flags" (Num flags)];
  PHDRS := [("text", 5); ("rodata", 4); ("data", 6)];
  SECTIONS := [
    Cmd (Move (Sym "__load_base"));
    Cmd (Assign "__kernel_start" Dot);
    Out (mkOut ".text" g [Input ".text.boot"; Input ".text .text.*"] "text");
    Cmd (Move (ALIGN g));
    Cmd (Assign "__rodata_start" Dot);
    Out (mkOut ".rodata" 1 [Input ".rodata .rodata.*"] "rodata");
    Cmd (Move (ALIGN g));
    Cmd (Assign "__data_start" Dot);
    Out (mkOut ".data" 1 [Input ".data .data.*"] "data");
    Cmd (Move (ALIGN g));
    Out (mkOut ".bss" 1 (
      [Move (ALIGN 16);
       Assign "__bss_start" Dot;
       Input ".bss .bss.*";
       Input "COMMON";
       Move (ALIGN 16);
       Assign "__bss_end" Dot] ++
      [Move (ALIGN g);
       Move (Add Dot (Num g));
       Assign "__boot_stack_bottom" Dot;
       Move (Add Dot (Num 65536));
       Assign "__boot_stack_top" Dot]) "data");
    Cmd (Move (ALIGN g));
    Cmd (Assign "__kernel_end" Dot);
    Cmd (Assign "__image_size" (Sub (Sym "__kernel_end") (Sym "__load_base")));
    Discard discarded]
|}%string.

Lemma body_chunks g inputs l :
  (forall p, Forall (chunk_ok g) (inputs p)) -> Forall (chunk_ok g) (body_inputs inputs l).
Proof.
  intros Hc. apply list.Forall_forall. intros c (s & Hs & _)%list_elem_of_bind. destruct s as [| |p]; [by apply not_elem_of_nil in Hs..|].
  by apply (proj1 (list.Forall_forall _ _) (Hc p)).
Qed.

(** Runs the commands of a script on symbolic inputs, up to the start of the
    output sections. *)
Ltac run_script :=
  cbv [link kernel_ld user_ld HEAD SECTIONS exec_stmts exec_stmt exec_commands exec_command eval lookup_sym dot syms placed
    outs o_align o_body o_phdr mbind option_bind String.eqb Ascii.eqb Bool.eqb app].

(** Names the end of the input sections placed from [d] on, and the counter [d]
    rounded up, with what is known of them. *)
Ltac next_end d e :=
  match goal with
  | Hc : forall p, Forall (chunk_ok ?g) (?inputs p), Hl : context [place_end d (?inputs ?p)] |- _ =>
    pose proof (place_end_spec g _ d (Hc p)); pose proof (fun f a x => place_list_in g p _ d f a x (Hc p));
    set (e := place_end d (inputs p)) in *; clearbody e
  end.
Ltac next_up g d e :=
  pose proof (round_up_divide g d ltac:(lia)); pose proof (proj2 (round_up_spec g d ltac:(lia)));
  set (e := round_up g d) in *; clearbody e.

Section kernel.
Context `{Platform} (inputs : string -> list chunk).

Definition kernel_script : script := match plat with PlatVirt => virt_ld | PlatApple => apple_ld end.
Definition load_pa : Z := match plat with PlatVirt => 0x40080000 | PlatApple => 0x810000000 end.
Definition ram_base : Z := match plat with PlatVirt => 0x40000000 | PlatApple => 0x800000000 end.
Definition page_flags : Z := match plat with PlatVirt => 2 | PlatApple => 4 end.

(** What the compiler hands to the linker: alignments up to a page, a boot section
    and constants that are not empty, and a size far below the address space. *)
Record inputs_ok : Prop := {
  io_chunks p : Forall (chunk_ok GRANULE) (inputs p);
  io_boot : 0 < foldr (fun c n => c_size c + n) 0 (inputs ".text.boot");
  io_rodata : 0 < foldr (fun c n => c_size c + n) 0 (inputs ".rodata .rodata.*");
  io_room : extent (inputs ".text.boot") + extent (inputs ".text .text.*") + extent (inputs ".rodata .rodata.*") +
    extent (inputs ".data .data.*") + extent (inputs ".bss .bss.*") + extent (inputs "COMMON") <= 2 ^ 46
}.

(** The virtual addresses of the map, in ascending order. *)
Record kernel_map (m : lmap) (ks rs ds bs be sb ke : Z) : Prop := {
  km_syms : Forall (fun x => lookup_sym x.1 (syms m) = Some x.2)
    [("__kernel_start", ks); ("__rodata_start", rs); ("__data_start", ds); ("__bss_start", bs); ("__bss_end", be);
     ("__boot_stack_bottom", sb); ("__boot_stack_top", ke); ("__kernel_end", ke);
     ("__text_offset", load_pa - ram_base); ("__image_size", ke - ks); ("__image_flags", page_flags)]%string;
  km_start : ks = KERNEL_VA_OFFSET + load_pa;
  km_order : ks < rs /\ rs < ds /\ ds <= bs <= be /\ be <= sb - GRANULE /\ ke = sb + 65536 /\ ke <= ks + 2 ^ 47;
  km_pages : Forall (fun a => (GRANULE | a)) [ks; rs; ds; bs; sb; ke];
  km_bss : (16 | be);
  km_text p a e : (p, a, e) ∈ placed m -> ks <= a <= e /\ e <= be /\ (p = ".bss .bss.*"%string -> bs <= a);
  km_segments : exists tl rl, load_segments kernel_script m = [(ks, tl, 5); (rs, rl, 4); (ds, ke - ds, 6)] /\
    ks + tl <= rs /\ rs + rl <= ds
}.

Lemma load_base_pages : (GRANULE | KERNEL_VA_OFFSET + load_pa).
Proof. unfold GRANULE, load_pa. apply Z.mod_divide; destruct plat; done. Qed.


Lemma kernel_script_eq : kernel_script = kernel_ld GRANULE load_pa ram_base page_flags.
Proof. unfold kernel_script, GRANULE, load_pa, ram_base, page_flags. by destruct plat. Qed.

(** The output sections start where the script puts the counter. *)
Lemma kernel_link_eq :
  (forall p, Forall (chunk_ok GRANULE) (inputs p)) ->
  let ks := KERNEL_VA_OFFSET + load_pa in
  let te := place_end (place_end ks (inputs ".text.boot")) (inputs ".text .text.*") in
  let rs := round_up GRANULE te in
  let re := place_end rs (inputs ".rodata .rodata.*") in
  let ds := round_up GRANULE re in
  let de := place_end ds (inputs ".data .data.*") in
  let bs := round_up GRANULE de in
  let ce := place_end bs (inputs ".bss .bss.*") in
  let be := round_up 16 (place_end ce (inputs "COMMON")) in
  let sb := round_up GRANULE be + GRANULE in
  let st := sb + 65536 in
  let ke := round_up GRANULE st in
  link inputs kernel_script = Some (mkMap ke
    [("__image_size", ke - ks); ("__kernel_end", ke); ("__boot_stack_top", st); ("__boot_stack_bottom", sb);
     ("__bss_end", be); ("__bss_start", bs); ("__data_start", ds); ("__rodata_start", rs); ("__kernel_start", ks);
     ("__image_flags", page_flags); ("__text_offset", load_pa - ram_base); ("__load_base", ks); ("__virt_offset", KERNEL_VA_OFFSET);
     ("__load_pa", load_pa)]%string
    (((((place_list ".text.boot" ks (inputs ".text.boot") ++
     place_list ".text .text.*" (place_end ks (inputs ".text.boot")) (inputs ".text .text.*")) ++
     place_list ".rodata .rodata.*" rs (inputs ".rodata .rodata.*")) ++
     place_list ".data .data.*" ds (inputs ".data .data.*")) ++
     place_list ".bss .bss.*" bs (inputs ".bss .bss.*")) ++ place_list "COMMON" ce (inputs "COMMON"))
    [("text", ks, te); ("rodata", rs, re); ("data", ds, de); ("data", bs, st)]%string).
Proof.
  intros Hc ks te rs re ds de bs ce be sb st ke. pose proof granule_bounds as Hg.
  assert (H16 : (16 | GRANULE)) by (apply Z.mod_divide; unfold GRANULE; destruct plat; done).
  rewrite kernel_script_eq. run_script. change (0xFFFF000000000000 + load_pa) with ks.
  assert (Hs : forall o l d, 0 < o -> (o | GRANULE) -> (GRANULE | d) ->
    round_up (o `max` max_align (body_inputs inputs l)) d = d).
  { intros o l d Ho Hog Hd. apply (section_start GRANULE); try done; [lia|by apply body_chunks]. }
  rewrite (Hs GRANULE) by (done || lia || apply load_base_pages).
  rewrite !(Hs 1) by (lia || apply Z.divide_1_l || apply round_up_divide; lia).
  rewrite (round_up_id 16 (round_up GRANULE de)) by (done || (etransitivity; [done|]; apply round_up_divide; lia)).
  reflexivity.
Qed.

Lemma kernel_linked : inputs_ok -> exists m ks rs ds bs be sb ke,
  link inputs kernel_script = Some m /\ kernel_map m ks rs ds bs be sb ke.
Proof.
  intros [Hc Hboot Hro Hroom]. pose proof granule_bounds as Hg.
  assert (H64 : (GRANULE | 65536)) by (apply Z.mod_divide; unfold GRANULE; destruct plat; done).
  pose proof (kernel_link_eq Hc) as Hl. cbv zeta in Hl. pose proof load_base_pages as Hks. assert (Ek : KERNEL_VA_OFFSET + load_pa = KERNEL_VA_OFFSET + load_pa) by done.
  set (ks := KERNEL_VA_OFFSET + load_pa) in Hks, Hl, Ek at 1. clearbody ks.
  next_end ks e. next_end e te. next_up GRANULE te rs. next_end rs re. next_up GRANULE re ds. next_end ds de.
  next_up GRANULE de bs. next_end bs ce. next_end ce pe. next_up 16 pe be. next_up GRANULE be sb.
  rewrite (round_up_id GRANULE (sb + GRANULE + 65536)) in Hl by (lia || by repeat apply Z.divide_add_r).
  eexists _, ks, rs, ds, bs, be, (sb + GRANULE), (sb + GRANULE + 65536). split; [exact Hl|]. clear Hl. split.
  - repeat constructor; reflexivity.
  - done.
  - lia.
  - repeat constructor; try done; by repeat apply Z.divide_add_r.
  - done.
  - cbn [placed]. intros p a x. rewrite !elem_of_app. intros [[[[[Hin|Hin]|Hin]|Hin]|Hin]|Hin];
      match goal with K : forall f a x, (f, a, x) ∈ place_list ?p ?d _ -> _, Hin : _ ∈ place_list ?p ?d _ |- _ =>
        destruct (K _ _ _ Hin) as (-> & ? & ?) end; (split; [lia|split; [lia|]]; try done; lia).
  - exists (te - ks), (re - rs). rewrite kernel_script_eq. split; [|lia]. reflexivity.
Qed.

(** [pa] of main.rs: the physical address of a symbol, after the jump. *)
Definition pa (sym : Z) : res Empty_set Z := sub_p sym KERNEL_VA_OFFSET.

(** The symbols that main.rs declares, and the addresses of two statics. *)
Definition kernel_symbols (m : lmap) (vectors root_tcb : Z) : option Symbols :=
  let at_pa f := a ← lookup_sym f (syms m); match pa a with Ok p => Some p | _ => None end in
  ks ← at_pa "__kernel_start"%string;
  ke ← at_pa "__kernel_end"%string;
  rs ← at_pa "__rodata_start"%string;
  ds ← at_pa "__data_start"%string;
  sb ← at_pa "__boot_stack_bottom"%string;
  st ← at_pa "__boot_stack_top"%string;
  Some (mkSym ks ke rs ds sb st vectors root_tcb).

(** The addresses that instructions relative to the program counter compute while
    the image runs where it was loaded. *)
Definition loaded_at_pa (m : lmap) (sym : string -> Z) : Prop :=
  forall f a, lookup_sym f (syms m) = Some a -> sym f = a - KERNEL_VA_OFFSET.

(** The root TCB and the table pool are statics of the image, the latter in .bss
    on a page boundary, as its type demands. *)
Record statics (m : lmap) (tcb pool : Z) : Prop := {
  st_tcb : exists p a e, (p, a, e) ∈ placed m /\ a <= tcb < e;
  st_pool : exists a e, (".bss .bss.*"%string, a, e) ∈ placed m /\ a <= pool /\ pool + POOL_LEN * GRANULE <= e;
  st_aligned : pool mod GRANULE = 0
}.

(** The 64 bytes of the boot image header (boot.S), behind the branch [code0]. *)
Definition image_header (m : lmap) (code0 : list Z) : option (list Z) :=
  text_offset ← lookup_sym "__text_offset"%string (syms m);
  image_size ← lookup_sym "__image_size"%string (syms m);
  image_flags ← lookup_sym "__image_flags"%string (syms m);
  Some (mjoin [code0; le_bytes 4 0; le_bytes 8 text_offset; le_bytes 8 image_size; le_bytes 8 image_flags;
    le_bytes 8 0; le_bytes 8 0; le_bytes 8 0; le_bytes 4 0x644d5241; le_bytes 4 0]).

Lemma symbols_linked m ks rs ds bs be sb ke vec tcb pool :
  kernel_map m ks rs ds bs be sb ke -> statics m tcb pool ->
  exists sym, kernel_symbols m vec tcb = Some sym /\ symbols_ok sym /\ kernel_start sym = load_pa.
Proof.
  intros [Hs Hks Ho Hp _ Ht _] [(p & a & e & Hin & Htcb) _ _]. pose proof granule_bounds as Hg.
  repeat (apply list.Forall_cons in Hs as [? Hs]). cbn [fst snd] in *.
  assert (Hpa : 0 <= load_pa < 2 ^ 40) by (unfold load_pa; by destruct plat).
  assert (Hat : forall a, ks <= a -> (match @pa a with Ok p => Some p | _ => None end) = Some (a - KERNEL_VA_OFFSET)).
  { intros x Hx. unfold pa. by rewrite sub_p_ok by lia. }
  unfold kernel_symbols. rewrite H0, H1, H2, H5, H6, H7. cbn [mbind option_bind]. rewrite !Hat by lia. cbn [mbind option_bind].
  eexists. split; [reflexivity|]. split; [|simpl; lia]. split.
  - assert (Hoff : (GRANULE | KERNEL_VA_OFFSET)) by (apply Z.mod_divide; unfold GRANULE; destruct plat; done).
    cbn [kernel_start kernel_end rodata_start data_start boot_stack_bottom boot_stack_top].
    rewrite !list.Forall_cons in Hp |- *. destruct_and! Hp.
    split_and!; try apply Forall_nil_2; apply Z.mod_divide; try lia; by apply Z.divide_sub_r.
  - cbn [kernel_start kernel_end rodata_start data_start boot_stack_bottom boot_stack_top]. split_and!; lia.
  - cbn [kernel_start kernel_end]. apply (list.Forall_impl (fun d => end_ d <= load_pa)); [|lia].
    unfold device_windows, UART_BASE, GRANULE, load_pa. destruct plat; repeat (apply Forall_cons_2; [by vm_compute|]); by apply Forall_nil_2.
  - cbn [kernel_start kernel_end root_tcb]. unfold alias. destruct (Ht p a e Hin) as (? & ? & _). lia.
Qed.

Lemma boot_linked m ks rs ds bs be sb ke sym :
  kernel_map m ks rs ds bs be sb ke -> loaded_at_pa m sym -> boot_symbols sym.
Proof.
  intros [Hs Hks Ho Hp H16 _ _] Hl. repeat (apply list.Forall_cons in Hs as [?%Hl Hs]). cbn [fst snd] in *.
  assert (Hpa : 0 <= load_pa < 2 ^ 40) by (unfold load_pa; by destruct plat). pose proof granule_bounds.
  assert (Hb : (16 | bs)).
  { rewrite !list.Forall_cons in Hp. destruct Hp as (_ & _ & _ & Hb & _). etransitivity; [|exact Hb].
    apply Z.mod_divide; unfold GRANULE; destruct plat; done. }
  split; unfold is_u64; change U64 with (2 ^ 64); try lia. apply Z.mod_divide; [lia|].
  replace (sym "__bss_end"%string - sym "__bss_start"%string) with (be - bs) by lia. by apply Z.divide_sub_r.
Qed.

Lemma pool_linked m ks rs ds bs be sb ke tcb pool :
  kernel_map m ks rs ds bs be sb ke -> statics m tcb pool ->
  @PoolVaOk _ (pool - KERNEL_VA_OFFSET) /\ bs <= pool /\ pool + POOL_LEN * GRANULE <= be.
Proof.
  intros [_ Hks Ho Hp _ Ht _] [_ (a & e & Hin & Hpool) Hal]. destruct (Ht _ _ _ Hin) as (? & ? & Hb). specialize (Hb eq_refl).
  assert (Hpa : 0 <= load_pa < 2 ^ 40) by (unfold load_pa; by destruct plat). pose proof granule_bounds.
  split; [|lia]. split; unfold pool_va.
  - lia.
  - rewrite Zminus_mod, Hal. unfold GRANULE. by destruct plat.
  - unfold POOL_LEN in *. rewrite Z.mod_small; lia.
Qed.

Lemma header_linked m ks rs ds bs be sb ke code0 :
  kernel_map m ks rs ds bs be sb ke -> length code0 = 4%nat -> exists h, image_header m code0 = Some h /\
  length h = 64%nat /\ take 4 h = code0 /\ ram_base + word 8 8 h = load_pa /\ word 8 16 h = ke - ks /\
  Z.shiftl 1024 (2 * Z.shiftr (word 8 24 h) 1) = GRANULE /\ take 4 (drop 56 h) = lit "ARMd".
Proof.
  intros [Hs Hks Ho _ _ _ _] Hc. repeat (apply list.Forall_cons in Hs as [? Hs]). cbn [fst snd] in *.
  unfold image_header. rewrite H8, H9, H10. eexists. split; [reflexivity|]. set (sz := ke - ks).
  assert (Hsz : 0 <= sz < 2 ^ 64) by (pose proof granule_bounds; lia). clearbody sz.
  destruct code0 as [|c0 [|c1 [|c2 [|c3 [|]]]]]; try done.
  assert (Hw : forall v, 0 <= v < 2 ^ 64 -> le_word (le_bytes 8 v) = v).
  { intros v Hv. rewrite le_word_bytes. apply Z.mod_small. exact Hv. }
  split; [done|]. split; [done|]. split; [|split; [|split; [|done]]].
  - change (word 8 8 _) with (le_word (le_bytes 8 (load_pa - ram_base))).
    rewrite Hw; unfold load_pa, ram_base; destruct plat; done.
  - change (word 8 16 _) with (le_word (le_bytes 8 sz)). by apply Hw.
  - change (word 8 24 _) with (le_word (le_bytes 8 page_flags)). rewrite Hw; unfold page_flags, GRANULE; by destruct plat.
Qed.
End kernel.

(** ** The root task's map *)

Section user.
Context (inputs : string -> list chunk).
Context (Hc : forall p, Forall (chunk_ok SEG_ALIGN) (inputs p)).

(** The ELF that the linker writes for a map: an executable with the script's
    program headers, entered at an address in the code. *)
Definition linked_elf (m : lmap) (elf : list Z) : Prop :=
  elf_ok elf /\ ((fun s => (vaddr s, memsz s, flags s)) <$> headers elf) = load_segments user_ld m /\
  exists a e, (".text .text.*"%string, a, e) ∈ placed m /\ a <= word 8 24 elf < e.

Lemma user_linked : exists te rs re ds de bs m,
  link inputs user_ld = Some m /\
  load_segments user_ld m = [(0x400000, te - 0x400000, 5); (rs, re - rs, 4); (ds, dot m - ds, 6)] /\
  0x400000 <= te <= rs /\ rs <= re <= ds /\ ds <= de <= bs /\ bs <= dot m /\
  (SEG_ALIGN | rs) /\ (SEG_ALIGN | ds) /\ rs < te + SEG_ALIGN /\ ds < re + SEG_ALIGN /\
  forall a e, (".text .text.*"%string, a, e) ∈ placed m -> 0x400000 <= a /\ e <= te.
Proof.
  assert (Hs : forall o l d, 0 < o -> (o | SEG_ALIGN) -> (SEG_ALIGN | d) ->
    round_up (o `max` max_align (body_inputs inputs l)) d = d).
  { intros o l d Ho Hog Hd. by apply (section_start SEG_ALIGN), Hd; try apply body_chunks. }
  eassert (Hl : link inputs user_ld = Some _).
  { run_script. change 16384 with SEG_ALIGN. rewrite (Hs SEG_ALIGN) by (done || by apply Z.mod_divide).
    rewrite (Hs 1 [Input ".rodata .rodata.*"]%string), (Hs 1 [Input ".data .data.*"]%string)
      by (done || apply Z.divide_1_l || by apply round_up_divide). reflexivity. }
  assert (Hu : exists ub, ub = 4194304) by eauto. destruct Hu as [ub Eu]. rewrite <- Eu in Hl |- *.
  assert (Hsa : 0 < SEG_ALIGN) by done.
  next_end ub te. next_up SEG_ALIGN te rs. next_end rs re. next_up SEG_ALIGN re ds. next_end ds de.
  set (g := _ `max` max_align _) in Hl. assert (Hg : 0 < g) by lia. clearbody g.
  next_up g de bs. next_end bs be. next_end be ce.
  exists te, rs, re, ds, de, bs. eexists. split; [exact Hl|]. clear Hl. cbn [dot placed]. split; [by rewrite Eu|].
  do 8 (split; [done || lia|]). intros a e. rewrite !elem_of_app. intros [[[[Hin|Hin]|Hin]|Hin]|Hin];
    match goal with K : forall f a x, (f, a, x) ∈ place_list ?p ?d _ -> _, Hin : _ ∈ place_list ?p ?d _ |- _ =>
      destruct (K _ _ _ Hin) as (? & ? & ?) end; [lia|done..].
Qed.

Lemma sort_segs_id l : StronglySorted by_addr l -> sort_segs l = l.
Proof.
  induction 1 as [|s l Hl IH Hs]; simpl; [done|]. rewrite IH. destruct Hs as [|h l Hh _]; [done|].
  simpl. by rewrite (proj2 (Z.leb_le _ _) Hh).
Qed.

(** The non-empty segments: code always, constants and data if there are any. *)
Lemma user_segments m elf : link inputs user_ld = Some m -> linked_elf m elf ->
  exists t r d, segments elf = t :: (if bool_decide (0 < memsz r) then [r] else []) ++ (if bool_decide (0 < memsz d) then [d] else []) /\
    (vaddr t = 0x400000 /\ 0 < memsz t /\ flags t = 5 /\ vaddr t <= word 8 24 elf < seg_end t) /\
    (flags r = 4 /\ 0 <= memsz r /\ (SEG_ALIGN | vaddr r) /\ seg_end t <= vaddr r < seg_end t + SEG_ALIGN) /\
    (flags d = 6 /\ 0 <= memsz d /\ (SEG_ALIGN | vaddr d) /\ seg_end r <= vaddr d < seg_end r + SEG_ALIGN /\ seg_end d = dot m).
Proof.
  intros Hl (Hok & Hh & a & e & Hin & Hent).
  destruct user_linked as (te & rs & re & ds & de & bs & m' & Hl' & Hsg & O1 & O2 & O3 & O4 & A1 & A2 & B1 & B2 & Htext).
  rewrite Hl in Hl'. injection Hl' as <-. rewrite Hsg in Hh. destruct (Htext _ _ Hin) as [T1 T2].
  unfold segments. destruct (headers elf) as [|t [|r [|d [|]]]]; try discriminate Hh.
  injection Hh as ? ? ? ? ? ? ? ? ?. exists t, r, d. unfold seg_end. split.
  - rewrite !filter_cons, filter_nil, decide_True by lia. rewrite !decide_bool_decide.
    assert (by_addr t r /\ by_addr t d /\ by_addr r d) as (? & ? & ?) by (unfold by_addr; lia).
    repeat case_bool_decide; apply sort_segs_id; repeat constructor; done.
  - replace (vaddr r) with rs by done. replace (vaddr d) with ds by done. split_and!; first [assumption|lia].
Qed.

Lemma user_accepted m elf : link inputs user_ld = Some m -> linked_elf m elf ->
  (accepted elf <-> dot m <= 0x400000 + MAX_FLAT_SIZE) /\ base_of (segments elf) = 0x400000 /\
  top_of (segments elf) = round_up SEG_ALIGN (dot m).
Proof.
  intros Hl He. destruct (user_segments m elf Hl He) as (t & r & d & Es & (T1 & T2 & T3 & T4) & (R1 & R2 & R3 & R4) & (D1 & D2 & D3 & D4 & D5)).
  assert (Hb : base_of (segments elf) = 0x400000) by (by rewrite Es).
  assert (Ht : top_of (segments elf) = round_up SEG_ALIGN (dot m)).
  { unfold top_of. rewrite Es. unfold seg_end in *.
    assert (Hsa : 0 < SEG_ALIGN) by done.
    assert (Hd : memsz d = 0 -> round_up SEG_ALIGN (dot m) = vaddr d).
    { intros Hz. rewrite <- D5, Hz, Z.add_0_r. by apply round_up_id. }
    assert (Hr : memsz r = 0 -> vaddr d = vaddr r).
    { intros Hz. rewrite Hz, Z.add_0_r in D4. rewrite <- (round_up_unique _ _ _ Hsa D3 D4). by apply round_up_id. }
    repeat case_bool_decide; cbn -[Z.add]; unfold seg_end; [f_equal; lia| |f_equal; lia|]; rewrite Hd by lia.
    - by apply round_up_unique.
    - rewrite Hr by lia. by apply round_up_unique. }
  split; [|split; [exact Hb|exact Ht]]. assert (Hup : round_up SEG_ALIGN (dot m) <= 0x400000 + MAX_FLAT_SIZE <-> dot m <= 0x400000 + MAX_FLAT_SIZE).
  { destruct (round_up_spec SEG_ALIGN (dot m)) as [R5 R6]; [done|]. split; [lia|]. intros Hle.
    apply (multiple_lt SEG_ALIGN); [done|done|done|lia]. }
  rewrite <- Hup. split; [intros [_ _ _ _ _ _ Hsz]; rewrite Ht, Hb in Hsz; lia|]. intros Hsz.
  assert (Hal : forall s, (SEG_ALIGN | vaddr s) -> vaddr s mod SEG_ALIGN = 0) by (intros s; by apply Z.mod_divide).
  split; [apply He|..]; rewrite ?Hb, ?Ht; [..|lia]; rewrite Es; clear Es Hb Ht.
  - repeat case_bool_decide; simpl; lia.
  - apply list.Forall_cons. split; [by rewrite T1|]. repeat case_bool_decide; repeat constructor; by apply Hal.
  - unfold seg_end in *. repeat case_bool_decide; simpl; unfold seg_end; lia.
  - unfold is_exec, is_writable. repeat case_bool_decide; repeat constructor; rewrite ?T3, ?R1, ?D1; by intros [].
  - left. split; [|exact T4]. unfold is_exec. by rewrite T3.
Qed.

(** The build accepts what the script links, up to its size limit, and the flat
    image starts at the script's base. *)
Lemma user_built `{Hash} m elf :
  Forall is_byte elf -> Z.of_nat (length elf) < 2 ^ 63 -> digest (lit "abc") = ABC_DIGEST -> digest [] = EMPTY_DIGEST ->
  link inputs user_ld = Some m -> linked_elf m elf -> dot m <= 0x400000 + MAX_FLAT_SIZE ->
  exists g, build elf = Ok g /\ flattened elf g /\ ROOT_TASK_BASE g = 0x400000 /\
    Z.of_nat (length (ROOT_TASK_IMAGE g)) = round_up SEG_ALIGN (dot m) - 0x400000.
Proof.
  intros Hb Hlen H1 H2 Hl He Hd. destruct (user_accepted m elf Hl He) as (Ha & Hbase & Htop). apply Ha in Hd as Hacc.
  pose proof (flatten_spec elf Hb Hlen) as Hf. unfold build. rewrite !bool_decide_eq_true_2 by assumption. cbn [require rbind].
  unfold decides in Hf. destruct (flatten elf) as [g|v| |]; [|contradiction (Hf Hacc)| |contradiction].
  - destruct Hf as [_ Hf]. exists g. split; [reflexivity|]. split; [exact Hf|]. split.
    + rewrite (fl_base _ _ Hf). exact Hbase.
    + rewrite (fl_len _ _ Hf), Hbase, Htop. reflexivity.
  - exfalso. apply list.Exists_exists in Hf as (s & Hin & Hs). pose proof (ac_size _ Hacc) as Hsz. rewrite Hbase in Hsz.
    pose proof (ac_order _ Hacc) as Ho. pose proof (segments_sound elf Hb (ac_elf _ Hacc)) as Hss.
    assert (Hm : Forall (fun s => 0 <= memsz s) (segments elf)).
    { eapply list.Forall_impl; [exact Hss|]. simpl. intros x Hx. lia. }
    destruct (last_end_spec _ _ Ho Hm) as (_ & L2 & _). pose proof (proj1 (list.Forall_forall _ _) L2 s Hin) as Hle. simpl in Hle.
    destruct (round_up_spec SEG_ALIGN (last_end (base_of (segments elf)) (segments elf))) as [_ R2]; [done|].
    fold (top_of (segments elf)) in R2. change MAX_FLAT_SIZE with (2 ^ 20) in Hsz. change SEG_ALIGN with (2 ^ 14) in *. lia.
Qed.
End user.

(** The root task stays clear of the addresses that the kernel's self-check probes. *)
Lemma user_clear `{Platform} sym image entry segs :
  kernel_start sym = load_pa -> Z.of_nat (length image) <= MAX_FLAT_SIZE ->
  user_layout sym (mkRT image 0x400000 entry segs).
Proof.
  intros Hs Hl. change MAX_FLAT_SIZE with 0x100000 in Hl. pose proof granule_bounds as Hg.
  assert (Hpa : 0x40080000 <= load_pa) by (unfold load_pa; by destruct plat).
  unfold user_layout. rewrite Hs. cbn [rt_base rt_image]. unfold USER_STACK_TOP, USER_STACK_SIZE, bootinfo.VA. split_and!; lia.
Qed.

(** ** Theorems *)

(** C14: the kernel's linker scripts.  Whatever sections the compiler produces, up
    to page alignment and below the address space, the link succeeds on both
    platforms and start-up finds what it assumes: the symbols that main.rs reads
    are page-aligned, in order, with a page of hole below the boot stack, clear of
    the devices and below 48 bits, the symbols that boot.S reads let its loop clear
    .bss, the page-table pool is page-aligned inside .bss, the load segments are
    write-xor-execute on pages of their own, and the boot image header names the load
    address, the whole size and the page size. *)
Theorem kernel_link_sound `{Platform} inputs vec tcb pool code0 :
  inputs_ok inputs -> length code0 = 4%nat -> exists m, link inputs kernel_script = Some m /\
  (statics m tcb pool -> exists sym, kernel_symbols m vec tcb = Some sym /\ symbols_ok sym /\ kernel_start sym = load_pa /\
     @PoolVaOk _ (pool - KERNEL_VA_OFFSET)) /\
  (forall sym, loaded_at_pa m sym -> boot_symbols sym) /\
  (exists a la b lb c lc, load_segments kernel_script m = [(a, la, 5); (b, lb, 4); (c, lc, 6)] /\
     a + la <= b /\ b + lb <= c /\ Forall (fun x => (GRANULE | x)) [a; b; c]) /\
  exists h size, image_header m code0 = Some h /\ length h = 64%nat /\ lookup_sym "__image_size" (syms m) = Some size /\
    ram_base + word 8 8 h = load_pa /\ word 8 16 h = size /\ Z.shiftl 1024 (2 * Z.shiftr (word 8 24 h) 1) = GRANULE.
Proof.
  intros Hi Hc. destruct (kernel_linked inputs Hi) as (m & ks & rs & ds & bs & be & sb & ke & Hl & Hm).
  exists m. split; [exact Hl|]. split; [|split; [|split]].
  - intros Hs. destruct (symbols_linked m _ _ _ _ _ _ _ vec tcb pool Hm Hs) as (sym & E & Hok & Hks).
    exists sym. destruct (pool_linked m _ _ _ _ _ _ _ tcb pool Hm Hs) as [Hp _]. done.
  - intros sym. by eapply boot_linked.
  - destruct (km_segments _ _ _ _ _ _ _ _ Hm) as (tl & rl & E & ? & ?). pose proof (km_pages _ _ _ _ _ _ _ _ Hm) as Hp.
    rewrite !list.Forall_cons in Hp. destruct Hp as (? & ? & ? & _). do 6 eexists. split; [exact E|].
    split; [done|]. split; [done|]. by repeat apply Forall_cons_2.
  - destruct (header_linked m _ _ _ _ _ _ _ code0 Hm Hc) as (h & E & L & _ & W1 & W2 & W3 & _).
    pose proof (km_syms _ _ _ _ _ _ _ _ Hm) as Hs. rewrite !list.Forall_cons in Hs.
    destruct Hs as (_ & _ & _ & _ & _ & _ & _ & _ & _ & Hz & _). exists h, (ke - ks). split_and!; assumption.
Qed.

(** C29: the root task's linker script against the build script.  For whatever
    sections the compiler produces, up to 16 KiB alignment, an ELF linked with
    user.ld passes every assertion of the build on its layout, and is rejected only
    when it ends beyond the size limit; the flat image then starts at the script's
    base and keeps clear of every address that the kernel probes in its self-check. *)
Theorem user_link_accepted `{Platform, Hash} inputs elf sym :
  (forall p, Forall (chunk_ok SEG_ALIGN) (inputs p)) -> Forall is_byte elf -> Z.of_nat (length elf) < 2 ^ 63 ->
  digest (lit "abc") = ABC_DIGEST -> digest [] = EMPTY_DIGEST -> kernel_start sym = load_pa ->
  exists m, link inputs user_ld = Some m /\ (linked_elf m elf ->
    (accepted elf <-> dot m <= 0x400000 + MAX_FLAT_SIZE) /\
    (accepted elf -> exists g, build elf = Ok g /\ ROOT_TASK_BASE g = 0x400000 /\
       user_layout sym (mkRT (ROOT_TASK_IMAGE g) (ROOT_TASK_BASE g) (ROOT_TASK_ENTRY g) (ROOT_TASK_SEGMENTS g)))).
Proof.
  intros Hc Hb Hlen H1 H2 Hks. destruct (user_linked inputs Hc) as (_ & _ & _ & _ & _ & _ & m & Hl & _).
  exists m. split; [exact Hl|]. intros He. destruct (user_accepted inputs Hc m elf Hl He) as (Ha & Hbase & Htop).
  split; [exact Ha|]. intros Hacc. pose proof (ac_size _ Hacc) as Hsz. apply Ha in Hacc.
  destruct (user_built inputs Hc m elf Hb Hlen H1 H2 Hl He Hacc) as (g & E & Hf & Eb & El). exists g.
  split; [exact E|]. split; [exact Eb|]. rewrite Eb. apply user_clear; [exact Hks|]. rewrite El. rewrite Hbase, Htop in Hsz. exact Hsz.
Qed.

(** ** Examples *)

Module LinkEx.
Import ImageEx.

(** A kernel with a boot section, constants, a table pool and a root TCB. *)
Definition kernel_inputs (p : string) : list chunk :=
  if String.eqb p ".text.boot" then [mkChunk 4 0x200] else
  if String.eqb p ".text .text.*" then [mkChunk 16 0x1800; mkChunk 2048 0x800] else
  if String.eqb p ".rodata .rodata.*" then [mkChunk 8 0x300] else
  if String.eqb p ".bss .bss.*" then [mkChunk 8 24; mkChunk 4096 0x21000; mkChunk 16 0x400] else [].

Lemma kernel_inputs_ok : inputs_ok kernel_inputs.
Proof.
  split; [|by vm_compute..]. intros p. unfold kernel_inputs.
  repeat case_match; repeat constructor; try done; apply Z.mod_divide; done.
Qed.

Definition no_map : lmap := mkMap 0 [] [] [].
Definition kmap : lmap := Eval vm_compute in default no_map (link kernel_inputs kernel_script).

Lemma kmap_linked : link kernel_inputs kernel_script = Some kmap.
Proof. by vm_compute. Qed.

(** The pool is the second static of .bss, the TCB the third. *)
Lemma kmap_statics : statics kmap 0xFFFF0000400A6000 0xFFFF000040085000.
Proof.
  split; [|exists 0xFFFF000040085000, 0xFFFF0000400A6000|done].
  - exists ".bss .bss.*"%string, 0xFFFF0000400A6000, 0xFFFF0000400A6400. split; [|done]. unfold kmap. cbn [placed].
    apply list_elem_of_lookup_2 with 6%nat. reflexivity.
  - split; [|by vm_compute]. apply list_elem_of_lookup_2 with 5%nat. reflexivity.
Qed.

Lemma kernel_link_sound_witness :
  exists sym h, kernel_symbols kmap 0x40081000 0xFFFF0000400A6000 = Some sym /\ symbols_ok sym /\ kernel_start sym = 0x40080000 /\
  image_header kmap [0; 0; 0; 0x14] = Some h /\ word 8 16 h = 0x38000.
Proof.
  destruct (kernel_link_sound kernel_inputs 0x40081000 0xFFFF0000400A6000 0xFFFF000040085000 [0; 0; 0; 0x14] kernel_inputs_ok eq_refl)
    as (m & Hl & Hs & _ & _ & h & size & Hh & _ & Hz & _ & Hw & _).
  rewrite kmap_linked in Hl. injection Hl as <-. destruct (Hs kmap_statics) as (sym & E & Hok & Hks & _).
  exists sym, h. split; [exact E|]. split; [exact Hok|]. split; [exact Hks|]. split; [exact Hh|].
  rewrite Hw. injection Hz as <-. reflexivity.
Defined.

(** A root task with code, constants and data, and its ELF. *)
Definition user_inputs (p : string) : list chunk :=
  if String.eqb p ".text .text.*" then [mkChunk 4 8] else
  if String.eqb p ".rodata .rodata.*" then [mkChunk 8 4] else
  if String.eqb p ".data .data.*" then [mkChunk 8 4] else
  if String.eqb p ".bss .bss.*" then [mkChunk 8 56] else [].

Lemma user_inputs_ok p : Forall (chunk_ok SEG_ALIGN) (user_inputs p).
Proof. unfold user_inputs. repeat case_match; repeat constructor; try done; apply Z.mod_divide; done. Qed.

Definition umap : lmap := Eval vm_compute in default no_map (link user_inputs user_ld).

Definition user_elf : list Z :=
  ImageEx.header ++ ImageEx.phdr 1 5 232 0x400000 8 8 ++ ImageEx.phdr 1 4 240 0x404000 4 4 ++ ImageEx.phdr 1 6 244 0x408000 4 64 ++
  [1; 2; 3; 4; 5; 6; 7; 8; 9; 10; 11; 12; 13; 14; 15; 16].

Lemma umap_linked : link user_inputs user_ld = Some umap.
Proof. by vm_compute. Qed.

Lemma user_elf_bytes : Forall is_byte user_elf /\ Z.of_nat (length user_elf) < 2 ^ 63.
Proof. split; [apply all_bytes|]; by vm_compute. Qed.

Lemma flattens_accepted elf :
  Forall is_byte elf -> Z.of_nat (length elf) < 2 ^ 63 -> match flatten elf with Ok _ => true | _ => false end = true -> accepted elf.
Proof.
  intros Hb Hl Hok. pose proof (flatten_spec elf Hb Hl) as Hf. unfold decides in Hf.
  destruct (flatten elf); [apply Hf|discriminate Hok..].
Qed.

Lemma user_elf_accepted : accepted user_elf.
Proof. apply (flattens_accepted user_elf (proj1 user_elf_bytes) (proj2 user_elf_bytes)). by vm_compute. Qed.

Lemma user_elf_linked : linked_elf umap user_elf.
Proof.
  split; [exact (ac_elf _ user_elf_accepted)|]. split; [by vm_compute|]. exists 0x400000, 0x400008. split; [|by vm_compute].
  apply list_elem_of_lookup_2 with 0%nat. reflexivity.
Qed.

Lemma user_link_accepted_witness : accepted user_elf /\ exists g, build user_elf = Ok g /\ ROOT_TASK_BASE g = 0x400000.
Proof.
  destruct (user_link_accepted (H := ex_plat) (H0 := test_hash) user_inputs user_elf EntryEx.sym user_inputs_ok (proj1 user_elf_bytes) (proj2 user_elf_bytes)
    eq_refl eq_refl eq_refl) as (m & Hl & Hm).
  rewrite umap_linked in Hl. injection Hl as <-. destruct (Hm user_elf_linked) as (Ha & Hb).
  split; [exact user_elf_accepted|]. destruct (Hb user_elf_accepted) as (g & E & Eb & _). exists g. split; [exact E|exact Eb].
Defined.
End LinkEx.
