(* ===== verification/Scripts.v ===== *)
(** * The cargo build scripts

    kernel/build.rs and userspace/root-task/build.rs, which hand a linker script to
    the linker, and the [main] of crates/k0-boot/build.rs around the conversion of
    Image.v: the environment, the inner cargo run, the two files it writes and the
    lines it prints.  What a script sees of the host is the record [host]: the
    environment, the outcome of a command and the contents of files.  A failed
    [assert!] or [panic!] is an [Err] that names it, an [unwrap] or [expect] of
    nothing is [Panic].  Paths are those of a Unix host without [.] components, as
    cargo passes them.

    The generated Rust file is modelled as text; [read_generated] reads the
    constants back, as the compiler does when roottask.rs includes the file, the
    path of the image as a string literal with its escapes. *)

From Stdlib Require Import String.
From S2P Require Import Prelude Abi Task Radix Fdt FdtBuild Spawn Boot Image Arch Entry Link.

#[local] Close Scope string_scope.
#[local] Open Scope Z_scope.

(** ** The host *)

Inductive env_value := Unicode (s : list Z) | NotUnicode.

Record command := mkCommand { program : list Z; current_dir : list Z; target_dir : list Z; args : list (list Z) }.

Record host := mkHost {
  env : list Z -> option env_value;
  status : command -> option bool;
  read : list Z -> option (list Z);
  write : list Z -> bool
}.

(** [env::var(name).unwrap()]. *)
Definition var {E} (h : host) (name : list Z) : res E (list Z) :=
  match env h name with Some (Unicode s) => Ok s | _ => Panic end.

(** [PathBuf::join]. *)
Definition join (p r : list Z) : list Z :=
  match r, reverse p with
  | 47 :: _, _ | _, [] => r
  | _, 47 :: _ => p ++ r
  | _, _ => p ++ lit "/" ++ r
  end.

(** Without trailing slashes, and up to the last slash. *)
Fixpoint drop_slashes (rev_path : list Z) : list Z :=
  match rev_path with 47 :: l => drop_slashes l | l => l end.

Fixpoint drop_name (rev_path : list Z) : list Z :=
  match rev_path with [] => [] | c :: l => if c =? 47 then c :: l else drop_name l end.

(** [Path::parent]. *)
Definition parent (p : list Z) : option (list Z) :=
  match drop_slashes (reverse p) with
  | [] => None
  | r =>
    let d := drop_name r in
    match drop_slashes d with
    | [] => Some (match d with [] => [] | _ => lit "/" end)
    | l => Some (reverse l)
    end
  end.

(** ** kernel/build.rs and userspace/root-task/build.rs *)

Inductive ConfigError := BothPlatforms | NoPlatform.

(** The lines for the script [path]. *)
Definition link_lines (path : list Z) : list (list Z) :=
  [lit "cargo::rustc-link-arg=-T" ++ path; lit "cargo::rerun-if-changed=" ++ path].

Definition kernel_main (h : host) : res ConfigError (list (list Z)) :=
  let virt := bool_decide (is_Some (env h (lit "CARGO_FEATURE_PLAT_VIRT"))) in
  let apple := bool_decide (is_Some (env h (lit "CARGO_FEATURE_PLAT_APPLE"))) in
  let? script :=
    match virt, apple with
    | true, false => Ok (lit "virt.ld")
    | false, true => Ok (lit "apple.ld")
    | true, true => Err BothPlatforms
    | false, false => Err NoPlatform
    end in
  let? dir := var h (lit "CARGO_MANIFEST_DIR") in
  Ok (link_lines (join dir script)).

Definition root_main (h : host) : res ConfigError (list (list Z)) :=
  let? manifest := var h (lit "CARGO_MANIFEST_DIR") in
  Ok (link_lines (join manifest (lit "user.ld"))).

(** ** crates/k0-boot/build.rs *)

Definition quote : Z := 34.
Definition newline : Z := 10.

Definition kind_text (k : SegKind.t) : list Z :=
  match k with SegKind.Text => lit "Text" | SegKind.Rw => lit "Rw" | SegKind.Ro => lit "Ro" end.

Definition seg_line (s : LoadSeg) : list Z :=
  lit "    crate::roottask::RtSegment { va: " ++ hex (s_va s) ++ lit ", memsz: " ++ hex (s_memsz s) ++
  lit ", kind: crate::roottask::RtSegKind::" ++ kind_text (s_kind s) ++ lit " }," ++ [newline].

(** [{:?}] of an array of bytes, behind the opening bracket. *)
Fixpoint debug_items (l : list Z) : list Z :=
  match l with
  | [] => lit "]"
  | [b] => format_dec b ++ lit "]"
  | b :: l' => format_dec b ++ lit ", " ++ debug_items l'
  end.

(** The text of roottask_gen.rs. *)
Definition generated_text (flat_path : list Z) (g : Generated) : list Z :=
  lit "pub static ROOT_TASK_IMAGE: &[u8] = include_bytes!(" ++ [quote] ++ flat_path ++ [quote] ++ lit ");" ++ [newline] ++
  lit "pub const ROOT_TASK_SHA256: [u8; 32] = [" ++ debug_items (ROOT_TASK_SHA256 g) ++ lit ";" ++ [newline] ++
  lit "pub const ROOT_TASK_BASE: u64 = " ++ hex (ROOT_TASK_BASE g) ++ lit ";" ++ [newline] ++
  lit "pub const ROOT_TASK_ENTRY: u64 = " ++ hex (ROOT_TASK_ENTRY g) ++ lit ";" ++ [newline] ++
  lit "pub static ROOT_TASK_SEGMENTS: &[crate::roottask::RtSegment] = &[" ++ [newline] ++
  (ROOT_TASK_SEGMENTS g ≫= seg_line) ++ lit "];" ++ [newline].

Definition cargo_args : list (list Z) :=
  [lit "build"; lit "-p"; lit "root-task"; lit "--release"; lit "--target"; lit "aarch64-unknown-none-softfloat"].

Definition watched : list (list Z) :=
  [lit "userspace/root-task/src/main.rs"; lit "userspace/root-task/Cargo.toml"; lit "userspace/root-task/build.rs";
   lit "userspace/root-task/user.ld"; lit "crates/k0-abi/src/lib.rs"].

(** [fs::write(..).expect(..)]: the file joins what was written before. *)
Definition write_file (h : host) (files : list (list Z * list Z)) (path bytes : list Z) : R (list (list Z * list Z)) :=
  if write h path then Ok (files ++ [(path, bytes)]) else Panic.

(** Option results whose [unwrap] or [expect] panics. *)
Definition expect {A} (o : option A) : R A := match o with Some x => Ok x | None => Panic end.

(** The files written, in order, and the lines printed. *)
Definition boot_main `{Hash} (h : host) : R (list (list Z * list Z) * list (list Z)) :=
  let? _ := require (bool_decide (digest (lit "abc") = ABC_DIGEST)) Violation.Sha2Broken in
  let? _ := require (bool_decide (digest [] = EMPTY_DIGEST)) Violation.Sha2Broken in
  let? out_dir := var h (lit "OUT_DIR") in
  let? manifest := var h (lit "CARGO_MANIFEST_DIR") in
  let? up := expect (parent manifest) in
  let? workspace := expect (parent up) in
  let rt_target := join out_dir (lit "root-task-target") in
  let? cargo := var h (lit "CARGO") in
  let? success := expect (status h (mkCommand cargo workspace rt_target cargo_args)) in
  let? _ := require success Violation.CargoFailed in
  let elf_path := join rt_target (lit "aarch64-unknown-none-softfloat/release/root-task") in
  let? elf := expect (read h elf_path) in
  let? g := flatten elf in
  let flat_path := join out_dir (lit "root-task.bin") in
  let? files := write_file h [] flat_path (ROOT_TASK_IMAGE g) in
  let? files := write_file h files (join out_dir (lit "roottask_gen.rs")) (generated_text flat_path g) in
  Ok (files, (fun rel => lit "cargo::rerun-if-changed=" ++ join workspace rel) <$> watched).

(** ** Reading the generated file *)

Definition reader (A : Type) : Type := list Z -> option (A * list Z).

Fixpoint strip (pre s : list Z) : option (list Z) :=
  match pre, s with
  | [], _ => Some s
  | p :: pre', c :: s' => if p =? c then strip pre' s' else None
  | _ :: _, [] => None
  end.

Definition is_digit (c : Z) : bool := ((48 <=? c) && (c <=? 57)) || ((97 <=? c) && (c <=? 102)).

(** The number that the digits in front denote. *)
Fixpoint read_digits (radix acc : Z) (s : list Z) : Z * list Z :=
  match s with
  | c :: s' => if is_digit c then read_digits radix (acc * radix + digit_value c) s' else (acc, s)
  | [] => (acc, [])
  end.

(** The rest of a Rust string literal, up to its closing quotation mark: a
    backslash starts an escape, and a bare carriage return is an error.  [\u] and
    the escaped line end are not read. *)
Definition escape (e : Z) : option Z :=
  match list_find (fun p => p.1 = e)
    [(110, 10); (114, 13); (116, 9); (92, 92); (48, 0); (39, 39); (34, 34)] with
  | Some (_, p) => Some p.2
  | None => None
  end.

Fixpoint read_string (s : list Z) : option (list Z * list Z) :=
  match s with
  | [] => None
  | c :: s' =>
    if c =? quote then Some ([], s') else
    if c =? 13 then None else
    if c =? 92 then
      match s' with
      | 120 :: h :: l :: s3 =>
        if is_digit h && is_digit l && (digit_value h <? 8) then
          '(v, r) ← read_string s3; Some (digit_value h * 16 + digit_value l :: v, r)
        else None
      | e :: s2 => b ← escape e; '(v, r) ← read_string s2; Some (b :: v, r)
      | [] => None
      end
    else '(v, r) ← read_string s'; Some (c :: v, r)
  end.

(** Characters that a literal holds as they are. *)
Definition plain (c : Z) : Prop := c <> quote /\ c <> 13 /\ c <> 92.

Definition read_hex : reader Z := fun s => s ← strip (lit "0x") s; Some (read_digits 16 0 s).

Fixpoint read_items (n : nat) (s : list Z) : option (list Z * list Z) :=
  match n with
  | O => s ← strip (lit "]") s; Some ([], s)
  | S n' =>
    let '(b, s) := read_digits 10 0 s in
    match n' with
    | O => s ← strip (lit "]") s; Some ([b], s)
    | _ => s ← strip (lit ", ") s; '(l, s) ← read_items n' s; Some (b :: l, s)
    end
  end.

Definition read_kind : reader SegKind.t := fun s =>
  match strip (lit "Text") s with
  | Some s => Some (SegKind.Text, s)
  | None => match strip (lit "Rw") s with
            | Some s => Some (SegKind.Rw, s)
            | None => s ← strip (lit "Ro") s; Some (SegKind.Ro, s)
            end
  end.

Definition read_seg : reader LoadSeg := fun s =>
  s ← strip (lit "    crate::roottask::RtSegment { va: ") s;
  '(va, s) ← read_hex s;
  s ← strip (lit ", memsz: ") s;
  '(memsz, s) ← read_hex s;
  s ← strip (lit ", kind: crate::roottask::RtSegKind::") s;
  '(kind, s) ← read_kind s;
  s ← strip (lit " }," ++ [newline]) s;
  Some (mkSeg va memsz kind, s).

(** Segments up to the closing bracket. *)
Fixpoint read_segs (fuel : nat) (s : list Z) : option (list LoadSeg * list Z) :=
  match fuel, strip (lit "];" ++ [newline]) s with
  | _, Some s => Some ([], s)
  | O, None => None
  | S fuel', None => '(g, s) ← read_seg s; '(l, s) ← read_segs fuel' s; Some (g :: l, s)
  end.

(** The constants of the included file; the image comes from the file it names. *)
Definition read_generated (files : list (list Z * list Z)) (s : list Z) : option Generated :=
  s ← strip (lit "pub static ROOT_TASK_IMAGE: &[u8] = include_bytes!(") s;
  s ← strip [quote] s;
  '(path, s) ← read_string s;
  image ← list_find (fun f => f.1 = path) files;
  s ← strip (lit ");") s;
  s ← strip [newline] s;
  s ← strip (lit "pub const ROOT_TASK_SHA256: [u8; 32] = [") s;
  '(sha, s) ← read_items 32 s;
  s ← strip (lit ";") s;
  s ← strip [newline] s;
  s ← strip (lit "pub const ROOT_TASK_BASE: u64 = ") s;
  '(base, s) ← read_hex s;
  s ← strip (lit ";") s;
  s ← strip [newline] s;
  s ← strip (lit "pub const ROOT_TASK_ENTRY: u64 = ") s;
  '(entry, s) ← read_hex s;
  s ← strip (lit ";") s;
  s ← strip [newline] s;
  s ← strip (lit "pub static ROOT_TASK_SEGMENTS: &[crate::roottask::RtSegment] = &[") s;
  s ← strip [newline] s;
  '(segs, s) ← read_segs 4 s;
  match s with [] => Some (mkGen image.2.2 sha base entry segs) | _ => None end.

(** ** Theory *)

Lemma strip_app pre s : strip pre (pre ++ s) = Some s.
Proof. induction pre as [|p pre IH]; simpl; [done|]. by rewrite Z.eqb_refl. Qed.

Ltac piece := rewrite strip_app; cbn [mbind option_bind].

Lemma read_string_plain a s : Forall plain a -> read_string (a ++ [quote] ++ s) = Some (a, s).
Proof.
  induction 1 as [|c a (H1 & H2 & H3) _ IH]; [done|]. cbn [app read_string].
  rewrite !(proj2 (Z.eqb_neq _ _)) by done. cbn [app] in IH. by rewrite IH.
Qed.

Lemma is_digit_digit d : 0 <= d < 16 -> is_digit (digit d) = true.
Proof. intros Hd. unfold is_digit, digit. destruct (Z.ltb_spec d 10); lia. Qed.

Lemma read_format n radix v acc s :
  2 <= radix <= 16 -> 0 <= v < radix ^ Z.of_nat n -> (0 < n)%nat ->
  read_digits radix 0 (format_radix n radix v acc ++ s) = read_digits radix v (acc ++ s).
Proof.
  intros Hr. revert v acc. induction n as [|n IH]; intros v acc Hv Hn; [lia|]. cbn [format_radix].
  pose proof (Z.mod_pos_bound v radix ltac:(lia)) as Hm.
  assert (Hd : forall a, read_digits radix a ((digit (v mod radix) :: acc) ++ s) = read_digits radix (a * radix + v mod radix) (acc ++ s)).
  { intros a. cbn [app read_digits]. by rewrite is_digit_digit, digit_value_digit by lia. }
  destruct (Z.ltb_spec v radix) as [Hlt|Hge]; [by rewrite Hd, Z.mod_small by lia|].
  rewrite Nat2Z.inj_succ, Z.pow_succ_r in Hv by lia. destruct n as [|n]; [change (radix ^ Z.of_nat 0) with 1 in Hv; lia|].
  rewrite IH; [rewrite Hd; f_equal; pose proof (Z.div_mod v radix); lia| |lia].
  split; [apply Z.div_pos; lia|apply Z.div_lt_upper_bound; lia].
Qed.

(** Text that ends a number. *)
Definition ends_number (t : list Z) : Prop := match t with c :: _ => is_digit c = false | [] => False end.

Lemma read_digits_end radix v t s : ends_number t -> read_digits radix v (t ++ s) = (v, t ++ s).
Proof. destruct t as [|c t]; [done|]. simpl. by intros ->. Qed.

Lemma read_hex_hex v t s : is_u64 v -> ends_number t -> read_hex (hex v ++ t ++ s) = Some (v, t ++ s).
Proof.
  intros Hv Ht. unfold read_hex, hex. rewrite <- app_assoc, strip_app. cbn [mbind option_bind]. unfold format_hex.
  rewrite read_format; [|lia|exact Hv|lia]. cbn [app]. by rewrite read_digits_end.
Qed.

Lemma read_dec_dec b t s : is_byte b -> ends_number t -> read_digits 10 0 (format_dec b ++ t ++ s) = (b, t ++ s).
Proof.
  intros Hb Ht. unfold format_dec. rewrite read_format; [|lia| |lia].
  - cbn [app]. by rewrite read_digits_end.
  - unfold is_byte in Hb. change (10 ^ Z.of_nat 20) with 100000000000000000000. lia.
Qed.

Lemma read_items_debug l s : Forall is_byte l -> read_items (length l) (debug_items l ++ s) = Some (l, s).
Proof.
  induction 1 as [|b l Hb Hl IH]; [done|]. destruct l as [|b' l].
  - cbn [debug_items length read_items]. rewrite <- app_assoc, read_dec_dec by done. by rewrite strip_app.
  - change (debug_items (b :: b' :: l)) with (format_dec b ++ lit ", " ++ debug_items (b' :: l)).
    rewrite <- !app_assoc. cbn [length read_items]. rewrite read_dec_dec by done. rewrite strip_app. cbn [mbind option_bind].
    cbn [length read_items] in IH. by rewrite IH.
Qed.

Lemma read_kind_text k s : read_kind (kind_text k ++ s) = Some (k, s).
Proof. by destruct k. Qed.

Lemma read_seg_line g s : is_u64 (s_va g) -> is_u64 (s_memsz g) -> read_seg (seg_line g ++ s) = Some (g, s).
Proof.
  intros Hv Hm. unfold read_seg, seg_line. rewrite <- !app_assoc, strip_app. cbn [mbind option_bind].
  rewrite read_hex_hex by done. cbn [mbind option_bind]. rewrite strip_app. cbn [mbind option_bind].
  rewrite read_hex_hex by done. cbn [mbind option_bind]. rewrite strip_app. cbn [mbind option_bind].
  rewrite read_kind_text. cbn [mbind option_bind]. rewrite (app_assoc _ [newline]), strip_app. by destruct g.
Qed.

Lemma read_segs_lines l s fuel :
  Forall (fun g => is_u64 (s_va g) /\ is_u64 (s_memsz g)) l -> (length l <= fuel)%nat ->
  read_segs fuel ((l ≫= seg_line) ++ lit "];" ++ [newline] ++ s) = Some (l, s).
Proof.
  intros Hl. revert fuel. induction Hl as [|g l [Hv Hm] Hl IH]; intros fuel Hf; [by destruct fuel|].
  destruct fuel as [|fuel]; [simpl in Hf; lia|]. change ((g :: l) ≫= seg_line) with (seg_line g ++ (l ≫= seg_line)).
  rewrite <- app_assoc. cbn [read_segs]. rewrite read_seg_line by done.
  replace (strip _ (seg_line g ++ _)) with (@None (list Z)) by done. cbn [mbind option_bind].
  rewrite IH by (simpl in Hf; lia). done.
Qed.

(** What the generated constants satisfy for the text to carry them. *)
Record printable (g : Generated) : Prop := {
  pr_sha : length (ROOT_TASK_SHA256 g) = 32%nat /\ Forall is_byte (ROOT_TASK_SHA256 g);
  pr_base : is_u64 (ROOT_TASK_BASE g);
  pr_entry : is_u64 (ROOT_TASK_ENTRY g);
  pr_segs : Forall (fun s => is_u64 (s_va s) /\ is_u64 (s_memsz s)) (ROOT_TASK_SEGMENTS g) /\
    (length (ROOT_TASK_SEGMENTS g) <= 4)%nat
}.

Lemma read_generated_text files path g i p :
  printable g -> Forall plain path -> list_find (fun f => f.1 = path) files = Some (i, (p, ROOT_TASK_IMAGE g)) ->
  read_generated files (generated_text path g) = Some g.
Proof.
  intros [[Hs Hsb] Hb He [Hg Hl]] Hq Hf. unfold read_generated, generated_text. do 2 piece.
  rewrite read_string_plain by done. cbn [mbind option_bind]. rewrite Hf. cbn [mbind option_bind]. do 3 piece.
  rewrite <- Hs, read_items_debug by done. cbn [mbind option_bind]. do 3 piece.
  rewrite read_hex_hex by done. cbn [mbind option_bind]. do 3 piece.
  rewrite read_hex_hex by done. cbn [mbind option_bind]. do 4 piece.
  change (lit "];" ++ [newline]) with (lit "];" ++ [newline] ++ []). rewrite read_segs_lines by done. by destruct g.
Qed.

Lemma built_printable `{HashOk} elf g :
  Forall is_byte elf -> accepted elf -> flattened elf g -> printable g.
Proof.
  intros Hb Hacc Hf. pose proof (segments_sound elf Hb (ac_elf _ Hacc)) as Hs.
  assert (Hlen : Z.of_nat (length (ROOT_TASK_IMAGE g)) < 2 ^ 61).
  { rewrite (fl_len _ _ Hf). pose proof (ac_size _ Hacc) as Hz. change MAX_FLAT_SIZE with (2 ^ 20) in Hz. lia. }
  assert (Hseg : Forall (fun s => is_u64 (vaddr s) /\ is_u64 (memsz s)) (segments elf)).
  { eapply list.Forall_impl; [exact Hs|]. intros s ((_ & _ & He) & ? & ? & _). unfold seg_end in He. unfold is_u64. lia. }
  split.
  - rewrite (fl_hash _ _ Hf). split; [by apply hash_length|by apply hash_bytes].
  - rewrite (fl_base _ _ Hf). unfold base_of. destruct Hseg as [|s l [Hv _] _]; [done|exact Hv].
  - rewrite (fl_entry _ _ Hf). pose proof (ac_entry _ Hacc) as He. apply list.Exists_exists in He as (s & Hin & _ & He).
    pose proof (proj1 (list.Forall_forall _ _) Hs s Hin) as ((_ & _ & ?) & ? & ? & _). unfold is_u64. lia.
  - rewrite (flattened_segs _ _ Hf), length_fmap. split; [|apply (ac_count _ Hacc)]. by apply Forall_fmap.
Qed.

Lemma join_plain p r : Forall plain p -> Forall plain r -> Forall plain (join p r).
Proof.
  intros Hp Hr. assert (Hs : Forall plain (lit "/")) by (repeat constructor; done).
  unfold join. repeat case_match; subst; try done; repeat (apply Forall_app; split); done.
Qed.

(** The flags of the selected platform, as cargo passes features. *)
Definition selected (h : host) : option platform :=
  match env h (lit "CARGO_FEATURE_PLAT_VIRT"), env h (lit "CARGO_FEATURE_PLAT_APPLE") with
  | Some _, None => Some PlatVirt
  | None, Some _ => Some PlatApple
  | _, _ => None
  end.

Definition script_name (p : platform) : list Z := match p with PlatVirt => lit "virt.ld" | PlatApple => lit "apple.ld" end.

(** kernel/build.rs hands the linker the script of the selected platform, and
    fails the build unless exactly one platform is selected. *)
Lemma kernel_main_exact h :
  match kernel_main h with
  | Ok lines => exists p dir, selected h = Some p /\ env h (lit "CARGO_MANIFEST_DIR") = Some (Unicode dir) /\
      lines = link_lines (join dir (script_name p))
  | Err _ => selected h = None
  | Panic => selected h <> None /\ forall dir, env h (lit "CARGO_MANIFEST_DIR") <> Some (Unicode dir)
  | OutOfFuel => False
  end.
Proof.
  unfold kernel_main, selected, var.
  destruct (env h (lit "CARGO_FEATURE_PLAT_VIRT")), (env h (lit "CARGO_FEATURE_PLAT_APPLE")); cbn [rbind]; try done;
    destruct (env h (lit "CARGO_MANIFEST_DIR")) as [[dir|]|]; cbn [rbind]; try done; by eexists _, dir.
Qed.

(** The steps of [boot_main] before the conversion, when the host does its part. *)
Record host_ok (h : host) (out_dir workspace elf : list Z) : Prop := {
  ho_out : env h (lit "OUT_DIR") = Some (Unicode out_dir);
  ho_manifest : exists manifest up, env h (lit "CARGO_MANIFEST_DIR") = Some (Unicode manifest) /\
    parent manifest = Some up /\ parent up = Some workspace;
  ho_cargo : exists cargo, env h (lit "CARGO") = Some (Unicode cargo) /\
    status h (mkCommand cargo workspace (join out_dir (lit "root-task-target")) cargo_args) = Some true;
  ho_elf : read h (join (join out_dir (lit "root-task-target")) (lit "aarch64-unknown-none-softfloat/release/root-task")) = Some elf;
  ho_write : forall p, write h p = true
}.

Lemma boot_main_eq `{Hash} h out_dir workspace elf :
  host_ok h out_dir workspace elf -> digest (lit "abc") = ABC_DIGEST -> digest [] = EMPTY_DIGEST ->
  boot_main h = (let? g := flatten elf in
    let flat_path := join out_dir (lit "root-task.bin") in
    Ok ([(flat_path, ROOT_TASK_IMAGE g); (join out_dir (lit "roottask_gen.rs"), generated_text flat_path g)],
        (fun rel => lit "cargo::rerun-if-changed=" ++ join workspace rel) <$> watched)).
Proof.
  intros [Eo (man & up & Em & Ep & Ew) (cargo & Ec & Es) Er Hw] D1 D2. unfold boot_main, var.
  rewrite !bool_decide_eq_true_2 by assumption. cbn [require rbind]. rewrite Eo. cbn [rbind]. rewrite Em. cbn [rbind].
  rewrite Ep. cbn [expect rbind]. rewrite Ew. cbn [expect rbind]. rewrite Ec. cbn [rbind]. rewrite Es. cbn [expect require rbind].
  rewrite Er. cbn [expect rbind]. destruct (flatten elf); cbn [rbind]; [|reflexivity..]. unfold write_file. by rewrite !Hw.
Qed.

(** ** Theorems *)

(** C30: the embedded constants.  When the host does its part, the build script of
    k0-boot succeeds exactly on an ELF that it accepts, and what the kernel then
    compiles in is what was built: reading the constants back from the generated
    Rust text, with the image from the file that the text names, gives the flat
    image, its hash, base, entry and segments, and the integrity check of the boot
    accepts them.  The output directory's path, which the text holds unescaped in
    a string literal, must contain no quotation mark, backslash or carriage
    return.  (The script panics, even on an acceptable ELF, only if a segment
    ends in the last 16 KiB of the address space.) *)
Theorem embedded_roundtrip `{HashOk} h out_dir workspace elf :
  host_ok h out_dir workspace elf -> Forall plain out_dir ->
  Forall is_byte elf -> Z.of_nat (length elf) < 2 ^ 63 -> digest (lit "abc") = ABC_DIGEST -> digest [] = EMPTY_DIGEST ->
  match boot_main h with
  | Ok (files, lines) => accepted elf /\ exists g text,
      files = [(join out_dir (lit "root-task.bin"), ROOT_TASK_IMAGE g); (join out_dir (lit "roottask_gen.rs"), text)] /\
      build elf = Ok g /\ read_generated files text = Some g /\ exists rt, verify_root_task g = Ok rt
  | Err _ => ~ accepted elf
  | Panic => Exists (fun s => U64 - SEG_ALIGN < seg_end s) (segments elf)
  | OutOfFuel => False
  end.
Proof.
  intros Hh Hq Hb Hl D1 D2. rewrite (boot_main_eq h out_dir workspace elf Hh D1 D2).
  pose proof (flatten_spec elf Hb Hl) as Hf. unfold decides in Hf.
  assert (Eb : build elf = flatten elf) by (unfold build; by rewrite !bool_decide_eq_true_2 by assumption). rewrite Eb.
  destruct (flatten elf) as [g|v| |]; cbn [rbind]; [|exact Hf..]. destruct Hf as [Hacc Hf]. split; [exact Hacc|].
  exists g, (generated_text (join out_dir (lit "root-task.bin")) g). split; [reflexivity|]. split; [reflexivity|]. split.
  - eapply read_generated_text; [by eapply built_printable| |].
    + apply join_plain; [done|]. repeat constructor; done.
    + cbn [list_find]. rewrite decide_True by reflexivity. reflexivity.
  - eexists. unfold verify_root_task. rewrite bool_decide_eq_true_2 by (symmetry; apply (fl_hash _ _ Hf)). reflexivity.
Qed.

(** ** Examples *)

Module ScriptsEx.
Import ImageEx LinkEx.

Definition vars (name : list Z) : option env_value :=
  if bool_decide (name = lit "OUT_DIR") then Some (Unicode (lit "/k0/target/out")) else
  if bool_decide (name = lit "CARGO_MANIFEST_DIR") then Some (Unicode (lit "/k0/crates/k0-boot")) else
  if bool_decide (name = lit "CARGO") then Some (Unicode (lit "/usr/bin/cargo")) else
  if bool_decide (name = lit "CARGO_FEATURE_PLAT_VIRT") then Some (Unicode (lit "1")) else None.

Definition linux : host := mkHost vars (fun _ => Some true) (fun _ => Some user_elf) (fun _ => true).

Lemma linux_ok : host_ok linux (lit "/k0/target/out") (lit "/k0") user_elf.
Proof.
  split; [reflexivity| | |reflexivity|reflexivity].
  - exists (lit "/k0/crates/k0-boot"), (lit "/k0/crates"). split; [reflexivity|]. split; reflexivity.
  - exists (lit "/usr/bin/cargo"). split; reflexivity.
Qed.

(** The script of virt and a build for which two platforms are selected. *)
Lemma kernel_scripts :
  kernel_main linux = Ok [lit "cargo::rustc-link-arg=-T/k0/crates/k0-boot/virt.ld"; lit "cargo::rerun-if-changed=/k0/crates/k0-boot/virt.ld"] /\
  kernel_main (mkHost (fun _ => Some NotUnicode) (status linux) (read linux) (write linux)) = Err BothPlatforms /\
  root_main linux = Ok [lit "cargo::rustc-link-arg=-T/k0/crates/k0-boot/user.ld"; lit "cargo::rerun-if-changed=/k0/crates/k0-boot/user.ld"].
Proof. split; [|split]; reflexivity. Qed.

(** Escapes, and what becomes of a path with a backslash. *)
Lemma literals :
  read_string (lit "a\n\x41\\b" ++ [quote]) = Some ([97; 10; 65; 92; 98], []) /\
  read_string (lit "C:\target" ++ [quote]) = Some ([67; 58; 9] ++ lit "arget", []) /\
  read_string (lit "C:\out" ++ [quote]) = None.
Proof. split; [|split]; reflexivity. Qed.

Lemma linux_builds : match boot_main linux with Ok _ => true | _ => false end = true.
Proof. by vm_compute. Qed.

Lemma embedded_roundtrip_witness : accepted user_elf /\ exists g files text lines,
  boot_main linux = Ok (files, lines) /\ build user_elf = Ok g /\ read_generated files text = Some g.
Proof.
  assert (Hq : Forall plain (lit "/k0/target/out")) by (repeat constructor; discriminate).
  pose proof (embedded_roundtrip (H := test_hash) linux _ _ user_elf linux_ok Hq (proj1 user_elf_bytes) (proj2 user_elf_bytes)
    eq_refl eq_refl) as Hr.
  pose proof linux_builds as Hb. destruct (boot_main linux) as [[files lines]| | |]; [|discriminate Hb..].
  destruct Hr as [Ha (g & text & _ & E & Er & _)]. split; [exact Ha|]. exists g, files, text, lines.
  split; [reflexivity|]. split; [exact E|exact Er].
Defined.
End ScriptsEx.
