(* ===== verification/PowerOn.v ===== *)
(** * From the first instruction to the root task

    The parts joined: the kernel linked with its script (Link.v), the root task
    linked, built and embedded (Link.v, Image.v), boot.S on the core as the
    firmware leaves it (Asm.v), and the kernel's Rust code up to the root task
    (Entry.v).  What one part leaves is what the next one reads: the device tree in
    the memory that boot.S cleared .bss in, the argument in x0, the table pool that
    .bss holds, the symbols of the link map.  What remains assumed is listed in
    [firmware]. *)

From Stdlib Require Import String.
From S2P Require Import Prelude Abi Cap Task Radix Paging User Build Kernel System Fdt FdtBuild Spawn Boot Image Arch Asm Entry Link.

#[local] Open Scope Z_scope.

(** The byte at [a] of memory held as 64-bit words, at its address or its alias. *)
Definition ram (m : Z -> Z) (a : Z) : Z :=
  let p := a mod 2 ^ 48 in Z.shiftr (m (p - p mod 8)) (8 * (p mod 8)) mod 256.

(** The tables of the pool at [base]. *)
Definition tables_at `{Platform} (m : Z -> Z) (base : Z) : list (list Z) :=
  (fun t => (fun i => m (base + t * GRANULE + 8 * i)) <$> seqZ 0 ENTRIES) <$> seqZ 0 POOL_LEN.

(** The two programs, linked and built. *)
Record images `{Platform, Hash} (m : lmap) (tcb pool : Z) (vec : Z) (sym : Symbols) (gen : Generated) : Prop := {
  im_kernel : exists inputs, inputs_ok inputs /\ link inputs kernel_script = Some m;
  im_statics : statics m tcb pool;
  im_symbols : kernel_symbols m vec tcb = Some sym;
  im_root : exists inputs um elf, (forall p, Forall (chunk_ok SEG_ALIGN) (inputs p)) /\ link inputs user_ld = Some um /\
    linked_elf um elf /\ Forall is_byte elf /\ Z.of_nat (length elf) < 2 ^ 63 /\ build elf = Ok gen
}.

(** The core as the firmware leaves it: the image at its load address, a device
    tree placed within the 48-bit physical space, and a console that becomes
    ready. *)
Record firmware `{Platform} {D} `{!Hw D} (m : lmap) (fsym : string -> Z) (fuel : nat) (dtb_phys : Z) : Prop := {
  fw_loaded : loaded_at_pa m fsym;
  fw_ready : forall d, becomes_ready MMIO_BASE fuel d = true /\ becomes_ready HIGH fuel d = true;
  fw_dtb : 0 <= dtb_phys /\ dtb_phys + MAX_DTB_SIZE <= 2 ^ 48
}.

Lemma fmap_seqZ_const {A} (f : Z -> A) n x : (forall i, 0 <= i < n -> f i = x) -> f <$> seqZ 0 n = replicate (Z.to_nat n) x.
Proof.
  intros Hf. symmetry. apply replicate_as_Forall. rewrite length_fmap, length_seqZ. split; [done|].
  apply Forall_fmap, list.Forall_forall. intros i Hi%elem_of_seqZ. symmetry. apply Hf. lia.
Qed.

Lemma ram_byte m a : is_byte (ram m a).
Proof. unfold ram, is_byte. apply Z.mod_pos_bound. lia. Qed.

Lemma ram_alias m a : ram m (alias a) = ram m a.
Proof. unfold ram, alias. by rewrite <- Z.add_mod_idemp_r, Z.add_0_r by done. Qed.

Lemma ram_ext m m' a : (forall w, m w = m' w) -> ram m a = ram m' a.
Proof. intros Hm. unfold ram. by rewrite Hm. Qed.

Section join.
Context `{Platform} {D : Type} `{!Hw D, hash : Hash, !HashOk}.
Context (m : lmap) (tcb pool vec : Z) (sym : Symbols) (gen : Generated) (Him : images m tcb pool vec sym gen).

Lemma images_linked : exists ks rs ds bs be sb ke, kernel_map m ks rs ds bs be sb ke.
Proof.
  destruct Him as [(inputs & Hi & Hl) _ _ _]. destruct (kernel_linked inputs Hi) as (m' & ks & rs & ds & bs & be & sb & ke & Hl' & Hm).
  rewrite Hl in Hl'. injection Hl' as <-. by exists ks, rs, ds, bs, be, sb, ke.
Qed.

Lemma images_pool : @PoolVaOk _ (pool - KERNEL_VA_OFFSET).
Proof.
  destruct images_linked as (? & ? & ? & ? & ? & ? & ? & Hm). by destruct (pool_linked m _ _ _ _ _ _ _ tcb pool Hm (im_statics _ _ _ _ _ _ Him)).
Qed.

(** The pool lies in what boot.S clears. *)
Lemma pool_cleared fsym w : loaded_at_pa m fsym ->
  tables_at (zeroed (fsym "__bss_start"%string) (fsym "__bss_end"%string) w) (pool - KERNEL_VA_OFFSET) = Paging.tables initial_pool.
Proof.
  intros Hl. destruct images_linked as (ks & rs & ds & bs & be & sb & ke & Hm).
  destruct (pool_linked m _ _ _ _ _ _ _ tcb pool Hm (im_statics _ _ _ _ _ _ Him)) as (_ & P1 & P2).
  pose proof (km_syms _ _ _ _ _ _ _ _ Hm) as Hs. rewrite !list.Forall_cons in Hs.
  destruct Hs as (_ & _ & _ & Ebs%Hl & Ebe%Hl & _). cbn [fst snd] in *. rewrite Ebs, Ebe.
  pose proof (km_pages _ _ _ _ _ _ _ _ Hm) as Hp. rewrite !list.Forall_cons in Hp. destruct Hp as (_ & _ & _ & Hp & _).
  pose proof (st_aligned _ _ _ (im_statics _ _ _ _ _ _ Him)) as Ha. apply Z.mod_divide in Ha; [|pose proof granule_bounds; lia].
  assert (H8 : (8 | GRANULE)) by (apply Z.mod_divide; unfold GRANULE; destruct plat; done).
  assert (He : ENTRIES * 8 = GRANULE) by (unfold ENTRIES, GRANULE; destruct plat; done).
  unfold tables_at, initial_pool. cbn [Paging.tables]. apply fmap_seqZ_const. intros t Ht. apply fmap_seqZ_const. intros i Hi.
  unfold zeroed. assert (Hr : pool <= pool + t * GRANULE + 8 * i < pool + POOL_LEN * GRANULE) by nia.
  assert (Hd : (pool - KERNEL_VA_OFFSET + t * GRANULE + 8 * i - (bs - KERNEL_VA_OFFSET)) mod 8 = 0).
  { apply Z.mod_divide; [done|]. replace (_ - _) with (pool + t * GRANULE + i * 8 - bs) by lia.
    apply Z.divide_sub_r, (Z.divide_trans _ GRANULE); try done. apply Z.divide_add_r; [apply Z.divide_add_r|apply Z.divide_factor_r].
    - by apply (Z.divide_trans _ GRANULE).
    - by apply Z.divide_mul_r. }
  rewrite Hd, (proj2 (Z.leb_le _ _)), (proj2 (Z.ltb_lt _ _)) by lia. done.
Qed.

Lemma images_machine fsym fuel mem dtb_phys :
  firmware m fsym fuel dtb_phys -> (forall a, is_byte (mem a)) -> (forall a, mem (alias a) = mem a) ->
  machine_ok (D := D) fuel mem sym gen dtb_phys.
Proof.
  intros [_ Hr Hd] Hb Ha. destruct images_linked as (ks & rs & ds & bs & be & sb & ke & Hk).
  destruct Him as [_ Hst Hsym (inputs & um & elf & Hc & Hl & He & Hbytes & Hlen & Hbuild)].
  destruct (symbols_linked m _ _ _ _ _ _ _ vec tcb pool Hk Hst) as (sym' & E & Hok & Hks). rewrite E in Hsym. injection Hsym as ->.
  assert (Hg : gen_ok gen) by exact (build_gen_ok elf gen Hbytes Hlen Hbuild).
  split; try assumption; [intros; apply Ha|].
  unfold build in Hbuild. apply rbind_Ok in Hbuild as (_ & _ & Hbuild). apply rbind_Ok in Hbuild as (_ & _ & Hbuild).
  pose proof (flatten_spec elf Hbytes Hlen) as Hf. rewrite Hbuild in Hf. destruct Hf as [Hacc Hf].
  destruct (user_accepted inputs Hc um elf Hl He) as (_ & Hbase & Htop). pose proof (ac_size _ Hacc) as Hsz.
  rewrite (fl_base _ _ Hf), Hbase. apply user_clear; [exact Hks|]. rewrite (fl_len _ _ Hf). exact Hsz.
Qed.
End join.

(** C6: power on.  With the kernel and the root task linked by their scripts and
    built, a core that the firmware enters at EL1 or EL2 with a device tree placed
    within the 48-bit space, and a UART that becomes ready, boot.S reaches
    [kernel_init] with the firmware's x0, and leaves zero the table pool that the
    Rust code starts from.  Over the memory that boot.S leaves, if the boot window
    of the declared RAM is in the 48-bit range, the kernel then never panics: it
    hands over to the root task exactly the state of the boot sequence, with the
    system invariant if all declared RAM is in that range, or stops for one of the
    reasons it reports.  Any other core ends in the wait with memory untouched. *)
Theorem power_on `{Platform} {D} `{!Hw D, hash : Hash, !HashOk} m tcb pool vec sym gen fsym lr fuel pc (d : D) w0 (s : cpu) :
  images m tcb pool vec sym gen ->
  let mem := ram (zeroed (fsym "__bss_start"%string) (fsym "__bss_end"%string) (MEM s)) in
  firmware m fsym fuel (X s 0) -> window_low mem sym (X s 0) ->
  let boots := boot_run fsym lr Asm.boot_code (boot_fuel fsym) s in
  if bool_decide (affinity s = 0 /\ (el s = 1 \/ el s = 2)) then exists s',
    boots = Called "kernel_init" s' [L "4"; I Wfe; I (Asm.B "4")] /\ entered fsym s s' /\ X s' 0 = X s 0 /\
    SP s' = fsym "__boot_stack_top"%string /\ (forall a, ram (MEM s') a = mem a) /\
    tables_at (MEM s') (pool - KERNEL_VA_OFFSET) = Paging.tables initial_pool /\
    let _ : PoolVa := pool - KERNEL_VA_OFFSET in
    let out := start_kernel fuel mem sym gen pc (X s' 0) (mkE (mkArch d [] MMIO_BASE 0) initial_pool w0 None) in
    match out.1 with
    | Ok k => exists info rt p0, parse mem (X s 0) (kernel_start sym) (kernel_end sym) KERNEL_VA_OFFSET = Ok info /\
        verify_root_task gen = Ok rt /\ boot info (image sym) rt (root_tcb sym) p0 w0 = Ok k /\
        (ram_addressable info -> booted info (image sym) (root_tcb sym) k) /\ e_user out.2 = Some (ttbr0 (k_tasks k))
    | Err Stopped => refused mem sym gen (X s 0) w0 out.2
    | _ => False
    end
  else exists s', boots = Parked s' /\ MEM s' = MEM s.
Proof.
  intros Him mem Hfw Hlow boots.
  destruct (images_linked m tcb pool vec sym gen Him) as (ks & rs & ds & bs & be & sb & ke & Hk).
  pose proof (boot_linked m _ _ _ _ _ _ _ fsym Hk (fw_loaded _ _ _ _ Hfw)) as Hbs.
  case_bool_decide as Hc.
  - assert (Hb : exists s', boots = Called "kernel_init" s' [L "4"; I Wfe; I (Asm.B "4")] /\ entered fsym s s' /\
      X s' 0 = X s 0 /\ SP s' = fsym "__boot_stack_top"%string /\ SR s' Sr.SCTLR_EL1 = 0x30d00818 /\ SR s' Sr.CPACR_EL1 = 0 /\
      forall w, MEM s' w = zeroed (fsym "__bss_start"%string) (fsym "__bss_end"%string) (MEM s) w).
    { destruct Hc as (Ha & [He|He]); [by apply boot_el1|by apply boot_el2]. }
    destruct Hb as (s' & Hrun & Hent & Hx0 & Hsp & _ & _ & Hmem). exists s'. split; [exact Hrun|]. split; [exact Hent|].
    split; [exact Hx0|]. split; [exact Hsp|]. pose proof (images_pool m tcb pool vec sym gen Him) as Hpv.
    assert (Hmm : forall a, ram (MEM s') a = mem a) by (intros a; by apply ram_ext). split; [exact Hmm|]. split.
    { rewrite <- (pool_cleared m tcb pool vec sym gen Him fsym (MEM s)) by apply (fw_loaded _ _ _ _ Hfw).
      apply list_fmap_ext. intros _ t _. apply list_fmap_ext. intros _ i _. apply Hmem. }
    intros pv out. assert (Hmo : machine_ok (D := D) fuel mem sym gen (X s 0)).
    { eapply images_machine; [exact Him|exact Hfw|intros a; apply ram_byte|intros a; apply ram_alias]. }
    pose proof (start_spec (H0 := pv) fuel mem sym gen (X s 0) Hmo Hlow pc d w0) as Hs. cbv zeta in Hs.
    unfold out. rewrite Hx0. clear out.
    destruct (start_kernel fuel mem sym gen pc (X s 0) (mkE (mkArch d [] MMIO_BASE 0) initial_pool w0 None)) as [[k|[]| |] s2];
      cbn [fst snd] in *; try done.
    destruct Hs as (hi & mmfr0 & tc & p0 & info & rt & _ & _ & _ & _ & (_ & _ & Hp & Hv & Hb) & Hbd & (_ & _ & Hu) & _).
    by exists info, rt, p0.
  - by apply boot_parks.
Qed.

(** ** An instance: the linked example on the board of the device-tree example *)

Module PowerOnEx.
Import ImageEx ArchEx LinkEx.

(** The addresses of the running image, and a core entered at EL2 with the device
    tree in memory. *)
Definition fsym (f : string) : Z := default 0 (lookup_sym f (syms kmap)) - KERNEL_VA_OFFSET.
Definition words (w : Z) : Z := le_word (ex_mem <$> seqZ w 8).
Definition core : cpu := mkCpu (fun r => if r =? 0 then 0x48000000 else 0) 0 (SR AsmEx.core) false false words.
Definition mem : Z -> Z := ram (zeroed (fsym "__bss_start"%string) (fsym "__bss_end"%string) (MEM core)).
Definition sym : Symbols := Eval vm_compute in default EntryEx.sym (kernel_symbols kmap 0x40081000 0xFFFF0000400A6000).
Definition gen : Generated := get_or_empty (build user_elf).

Lemma gen_built : build user_elf = Ok gen.
Proof.
  assert (Hb : match build user_elf with Ok _ => true | _ => false end = true) by by vm_compute.
  unfold gen. by destruct (build user_elf).
Qed.

Lemma linked : images kmap 0xFFFF0000400A6000 0xFFFF000040085000 0x40081000 sym gen.
Proof.
  split; [|exact kmap_statics|by vm_compute|].
  - exists kernel_inputs. split; [exact kernel_inputs_ok|exact kmap_linked].
  - exists user_inputs, umap, user_elf. split; [exact user_inputs_ok|]. split; [exact umap_linked|]. split; [exact user_elf_linked|].
    split; [apply user_elf_bytes|]. split; [apply user_elf_bytes|exact gen_built].
Qed.

Lemma tree_parses : parse mem 0x48000000 (kernel_start sym) (kernel_end sym) KERNEL_VA_OFFSET = Ok ex_info.
Proof. vm_compute. reflexivity. Qed.

Lemma ready : firmware (D := unit) kmap fsym 1 0x48000000.
Proof.
  split.
  - intros f a Hf. unfold fsym. by rewrite Hf.
  - by intros [].
  - by vm_compute.
Qed.

Lemma window : window_low mem sym 0x48000000.
Proof.
  intros i. rewrite tree_parses. intros [= <-] (win & E & Hw).
  assert (Hp : match pick_window ex_info (end_ (image sym)) with Ok w => end_ w <? 2 ^ 48 | _ => false end = true) by (vm_compute; reflexivity).
  rewrite E in Hp. apply Z.ltb_lt in Hp. lia.
Qed.

#[local] Abbreviation out := (start_kernel (H0 := 0xFFFF000040085000 - KERNEL_VA_OFFSET) (D := unit) 1 mem sym gen 0xFFFF000040081000 0x48000000
  (mkE (mkArch tt [] MMIO_BASE 0) initial_pool ∅ None)).

Lemma root_starts : match out.1 with Ok k => length (filled (k_cnode k)) = 6%nat | _ => False end.
Proof. vm_compute. reflexivity. Qed.

Lemma power_on_witness : exists s' k s2,
  boot_run fsym 0 Asm.boot_code (boot_fuel fsym) core = Called "kernel_init" s' [L "4"; I Wfe; I (Asm.B "4")] /\
  out = (Ok k, s2) /\ booted (H0 := 0xFFFF000040085000 - KERNEL_VA_OFFSET) ex_info (image sym) (root_tcb sym) k.
Proof.
  pose proof (power_on (D := unit) kmap _ _ _ sym gen fsym 0 1 0xFFFF000040081000 tt ∅ core linked ready window) as Hp. cbv zeta in Hp.
  rewrite bool_decide_eq_true_2 in Hp by (split; [reflexivity|right; reflexivity]).
  destruct Hp as (s' & Hrun & _ & Hx & _ & _ & _ & Hs). exists s'. rewrite Hx in Hs. change (X core 0) with 0x48000000 in Hs.
  fold mem in Hs. pose proof root_starts as Ho. destruct out as [[k|[]| |] s2]; cbn [fst snd] in *; [|contradiction..].
  exists k, s2. split; [exact Hrun|]. split; [reflexivity|]. destruct Hs as (info & rt & p0 & Hp & _ & _ & Hbd & _).
  rewrite tree_parses in Hp. injection Hp as <-. exact (Hbd EntryEx.addressable).
Defined.
End PowerOnEx.
