(* ===== verification/Secure.v ===== *)
(** * Security of the whole system

    The theorems about every state that the system reaches from the boot
    sequence: the kernel never panics, user mappings stay apart from the kernel,
    from firmware, devices and other objects, tasks are confined to their
    writable pages, only filtered bytes reach the console, and each system call
    does exactly what its capability arguments allow. *)

From S2P Require Import Prelude Abi Cap Task Sched Ipc Radix Paging User Build Kernel System Fdt Spawn Boot.

Section theory.
Context `{Platform, PoolVa, !PoolVaOk}.

(** ** Reachable states *)

Lemma boot_laid_out info image rt root_tcb p0 w0 k0 k :
  boot_pre info image rt root_tcb p0 -> ram_addressable info -> boot info image rt root_tcb p0 w0 = Ok k0 -> reachable k0 k ->
  exists win b, laid_out info image root_tcb win b /\ kinv b k.
Proof.
  intros Hpre H48 E Hr. pose proof (boot_addressable info image rt root_tcb p0 w0 Hpre H48) as Hb. rewrite E in Hb. destruct Hb as [Hb _].
  destruct Hb as (win & b & Hl & Hk & _). exists win, b. split; [done|].
  eapply reachable_ok; [by apply Hl|done|done].
Qed.

(** Addresses that no user mapping may reach: the kernel image, the device tree,
    firmware reservations and device registers. *)
Definition protected (info : BootInfo) (image : Range) (p : Z) : Prop :=
  start image <= p < end_ image \/ dtb_start info <= p < dtb_end info \/
  Exists (fun m => m_base m <= p < m_base m + m_size m) (reserved info) \/
  Exists (fun dev => start dev <= p < end_ dev) device_windows.

Lemma off_device devs ms m p :
  off_devices devs ms -> m ∈ ms -> m_base m <= p < m_base m + m_size m ->
  ~ Exists (fun dev => start dev <= p < end_ dev) devs.
Proof.
  intros Hd Hin Hp (dev & Hdev & Hr)%list.Exists_exists.
  assert (Hf : start dev < end_ dev -> Forall (fun m => end_ dev <= m_base m \/ m_base m + m_size m <= start dev) ms)
    by exact (proj1 (list.Forall_forall _ _) Hd dev Hdev).
  assert (Hm : end_ dev <= m_base m \/ m_base m + m_size m <= start dev).
  { apply (proj1 (list.Forall_forall _ _) (Hf ltac:(lia)) m Hin). }
  lia.
Qed.

(** Memory given out to user space is not protected. *)
Lemma allowed_unprotected info image root_tcb win b p :
  laid_out info image root_tcb win b -> b_allowed b p -> ~ protected info image p.
Proof.
  intros Hl Ha. apply (lo_allowed _ _ _ _ _ Hl) in Ha as [Hm Hn]. rewrite boot_rsv_spec in Hn.
  unfold memory_at in Hm. apply list.Exists_exists in Hm as (pr & Hin & Hr).
  apply list_elem_of_fmap in Hin as (m & -> & Hin). unfold in_region in Hr. simpl in Hr.
  pose proof (off_device _ _ m p (lo_devices _ _ _ _ _ Hl) Hin Hr). unfold protected. tauto.
Qed.

(** The boot window is not protected. *)
Lemma window_unprotected info image root_tcb win b p :
  laid_out info image root_tcb win b -> start win <= p < end_ win -> ~ protected info image p.
Proof.
  intros Hl Hp. destruct (lo_window _ _ _ _ _ Hl) as [Hlo _ _ Hm Hc].
  apply list.Exists_exists in Hm as (m & Hin & Hm). apply list.Forall_cons in Hc as [Hd Hc].
  pose proof (off_device _ _ m p (lo_devices _ _ _ _ _ Hl) Hin ltac:(lia)) as Hdev.
  intros [Hi|[Hi|[(r & Hr & Hi)%list.Exists_exists|Hi]]]; [lia| | |done].
  - unfold clear_of in Hd. simpl in Hd. lia.
  - assert (Hcl : clear_of (start win) (end_ win) r) by exact (proj1 (list.Forall_forall _ _) Hc r Hr).
    unfold clear_of in Hcl. lia.
Qed.

Lemma leaf_frame b cn d : board_ok b -> caps_inv GRANULE (b_allowed b) cn -> leaf_ok b cn d ->
  frame_ok (Z.land d ADDR_MASK).
Proof.
  intros Hb Hc [_ [Hf|[Hf _]]]; [by apply (bo_frame b Hb)|]. eapply object_frame; eauto.
Qed.

(** A user mapping is apart from every capability's memory but that of a mapped
    frame. *)
Lemma leaf_cap_apart b cn d cp lo hi p :
  board_ok b -> caps_inv GRANULE (b_allowed b) cn -> leaf_ok b cn d ->
  cp ∈ filled cn -> extent GRANULE cp = Some (lo, hi) -> (forall f, cp <> Cap.Frame f true) ->
  Z.land d ADDR_MASK <= p < Z.land d ADDR_MASK + GRANULE -> ~ lo <= p < hi.
Proof.
  intros Hb Hc [_ Hl] [i Hi]%list_elem_of_lookup He Hne Hp Hr.
  assert (Ha : b_allowed b p) by (by eapply (ci_allowed _ _ _ Hc)).
  destruct Hl as [Hf|[[j Hj]%list_elem_of_lookup _]].
  - by apply (bo_frame b Hb) in Hf as (_ & _ & Hn); apply Hn in Ha.
  - assert (Hij : i <> j) by (intros ->; rewrite Hi in Hj; simplify_eq; by eapply Hne).
    pose proof (ci_disjoint _ _ _ Hc i j _ _ Hij Hi Hj) as Hd. unfold disjoint_caps in Hd. rewrite He in Hd.
    simpl in Hd. lia.
Qed.

Lemma leaf_unprotected info image root_tcb win b cn d p :
  laid_out info image root_tcb win b -> caps_inv GRANULE (b_allowed b) cn -> leaf_ok b cn d ->
  Z.land d ADDR_MASK <= p < Z.land d ADDR_MASK + GRANULE -> ~ protected info image p.
Proof.
  intros Hl Hc [_ Hd] Hp. destruct Hd as [Hf|[Hf _]].
  - eapply window_unprotected; [done|]. pose proof (lo_frames _ _ _ _ _ Hl _ (or_intror Hf)). lia.
  - eapply allowed_unprotected; [done|].
    by apply (object_bounds b cn _ _ (lo_board _ _ _ _ _ Hl) Hc Hf eq_refl).
Qed.

(** The table that a walk arrives at is one of the tables in use. *)
Lemma walk_dom b cn w dom tag r n va t :
  spaces_inv b cn w dom tag -> Cap.AddrSpace r ∈ filled cn -> (n <= 3)%nat ->
  walk user_child (umem w) r (ixs n 0 va) = Some t -> dom t.
Proof.
  intros Hsp Hr Hn Hw. destruct (si_roots _ _ _ _ _ Hsp r Hr) as [Hd Htg].
  destruct (si_space _ _ _ _ _ Hsp) as [Htr _].
  assert (Hlen : forall m l, length (ixs m l va) = m) by (intros m; induction m; intros; simpl; auto).
  eapply (walk_tag user_child 3 dom tag _ r) in Hw; [by destruct Hw|exact Htr|done|]. rewrite Htg. simpl. by rewrite Hlen.
Qed.

(** ** Theorems about the system *)

(** C1: the kernel never panics.  On a board whose declared RAM is all in the
    48-bit range, whatever the tasks do from boot on, every synchronous exception
    and every timer tick is handled: control returns to a task in a reachable
    state, or the kernel parks, and then no task could run.  (Any other exception,
    an unexpected interrupt or an SError, is a hardware event that stops the
    machine with a report.) *)
Theorem system_never_panics info image rt root_tcb p0 w0 k0 k k1 ev :
  boot_pre info image rt root_tcb p0 -> ram_addressable info -> boot info image rt root_tcb p0 w0 = Ok k0 ->
  reachable k0 k -> user_run k k1 -> trap_ok ev k1 ->
  exists r k', handle ev k1 = (r, k') /\
    match r with Ok _ => reachable k0 k' | Err Parked => nobody_runs k' | _ => False end.
Proof.
  intros Hpre H48 E Hr Hu Ht. destruct (boot_laid_out _ _ _ _ _ _ _ _ Hpre H48 E Hr) as (win & b & Hl & Hk).
  pose proof (lo_board _ _ _ _ _ Hl) as Hb. pose proof (user_run_ok b k k1 Hb Hk Hu) as Hk1.
  destruct (handle_ok b k1 ev Hb Hk1 Ht) as (r & k' & Eh & Hr'). exists r, k'. split; [done|].
  destruct r as [[]|[]| |]; try done. eapply reach_step; [done|]. by eapply step_trap.
Qed.

(** C2: memory isolation.  In every reachable state (of a board whose declared RAM
    is in the 48-bit range), whatever a user mapping
    names is never writable and executable at EL0 and never executable at EL1;
    it reaches no protected address (kernel image, device tree, firmware
    reservations, device registers), no object of a capability except mapped
    frames (no TCB, endpoint, page table, unmapped frame or free untyped
    memory), and no page table of any address space. *)
Theorem memory_isolation info image rt root_tcb p0 w0 k0 k r va d :
  boot_pre info image rt root_tcb p0 -> ram_addressable info -> boot info image rt root_tcb p0 w0 = Ok k0 -> reachable k0 k ->
  Cap.AddrSpace r ∈ filled (k_cnode k) -> utranslate (k_words k) r va = Some d ->
  user_safe d /\
  forall p, Z.land d ADDR_MASK <= p < Z.land d ADDR_MASK + GRANULE ->
    ~ protected info image p /\
    (forall cp lo hi, cp ∈ filled (k_cnode k) -> extent GRANULE cp = Some (lo, hi) ->
       (forall f, cp <> Cap.Frame f true) -> ~ lo <= p < hi) /\
    (forall r' n va' t, Cap.AddrSpace r' ∈ filled (k_cnode k) -> (n <= 3)%nat ->
       walk user_child (umem (k_words k)) r' (ixs n 0 va') = Some t -> ~ t <= p < t + GRANULE).
Proof.
  intros Hpre H48 E Hr Hin Hd. destruct (boot_laid_out _ _ _ _ _ _ _ _ Hpre H48 E Hr) as (win & b & Hl & Hk).
  pose proof (lo_board _ _ _ _ _ Hl) as Hb. destruct Hk as (Hc & _ & _ & dom & tag & Hsp).
  pose proof (si_leaf _ _ _ _ _ Hsp r va d Hin Hd) as Hleaf. split; [apply Hleaf|].
  intros p Hp. split_and!.
  - by eapply leaf_unprotected.
  - intros cp lo hi Hcp He Hne. by eapply leaf_cap_apart.
  - intros r' n va' t Hr' Hn Hw. pose proof (walk_dom _ _ _ _ _ _ _ _ _ Hsp Hr' Hn Hw) as Hdom.
    pose proof (leaf_table_apart b _ _ dom tag d t Hb Hc Hsp Hleaf Hdom). lia.
Qed.

(** C9: a task is confined.  Whatever the running task executes in user mode, no
    translation of any address space changes, and no word changes in protected
    memory or in the memory of a TCB, an endpoint, a page table, an unmapped
    frame or a free untyped; nor do the capabilities, the kernel's address
    space, or any other task's saved state. *)
Theorem task_confined info image rt root_tcb p0 w0 k0 k k1 :
  boot_pre info image rt root_tcb p0 -> ram_addressable info -> boot info image rt root_tcb p0 w0 = Ok k0 ->
  reachable k0 k -> user_run k k1 ->
  (forall r va, Cap.AddrSpace r ∈ filled (k_cnode k) -> utranslate (k_words k1) r va = utranslate (k_words k) r va) /\
  (forall p, protected info image p \/
     (exists cp lo hi, cp ∈ filled (k_cnode k) /\ extent GRANULE cp = Some (lo, hi) /\
        (forall f, cp <> Cap.Frame f true) /\ lo <= p < hi) -> k_words k1 !! p = k_words k !! p) /\
  k_cnode k1 = k_cnode k /\ k_pool k1 = k_pool k /\
  forall p, p <> current (sched (k_tasks k)) -> tcb (k_tasks k1) p = tcb (k_tasks k) p.
Proof.
  intros Hpre H48 E Hr Hu. destruct (boot_laid_out _ _ _ _ _ _ _ _ Hpre H48 E Hr) as (win & b & Hl & Hk).
  pose proof (lo_board _ _ _ _ _ Hl) as Hb. pose proof (running_root b k Hk) as Hroot.
  pose proof Hk as (Hc & (a & Ht) & _ & dom & tag & Hsp).
  destruct Hu as (cx & w' & Hcx & Hst & ->).
  assert (Hleaf : forall va d, utranslate (k_words k) (ttbr0 (k_tasks k)) va = Some d -> leaf_ok b (k_cnode k) d)
    by (intros; by eapply (si_leaf _ _ _ _ _ Hsp)).
  split_and!; [| |done|done|].
  - intros r va Hin. by apply (user_store_translate b).
  - intros p Hp. simpl. destruct (decide (w' !! p = k_words k !! p)) as [|Hne]; [done|].
    destruct (Hst p Hne) as (va' & d & Hv & _ & Hpd). apply Hleaf in Hv.
    destruct Hp as [Hp|(cp & lo & hi & Hcp & He & Hnf & Hlh)].
    + by destruct (leaf_unprotected _ _ _ _ _ _ _ _ Hl Hc Hv Hpd).
    + by destruct (leaf_cap_apart _ _ _ _ _ _ _ Hb Hc Hv Hcp He Hnf Hpd).
  - intros p Hp. simpl. rewrite (rep_context _ _ (ti_rep _ _ _ _ Ht)), <- (rep_cur _ _ (ti_rep _ _ _ _ Ht)).
    unfold set_ctx. rewrite tcb_upd. by rewrite decide_False.
Qed.
(** C18: returning to user mode is safe.  In every reachable state exactly one
    task is running, the exception return uses its saved registers and its
    address space, which a capability names, and no saved register set can
    return to the kernel's exception level. *)
Theorem user_mode_return info image rt root_tcb p0 w0 k0 k :
  boot_pre info image rt root_tcb p0 -> ram_addressable info -> boot info image rt root_tcb p0 w0 = Ok k0 -> reachable k0 k ->
  let st := k_tasks k in let c := current (sched st) in
  (forall p, state (tcb st p) = Running <-> p = c) /\
  current_context st = c /\ ttbr0 st = ttbr0_pa (tcb st c) /\
  Cap.AddrSpace (ttbr0 st) ∈ filled (k_cnode k) /\
  forall p, Z.land (spsr (ctx (tcb st p))) 0x1F = 0.
Proof.
  intros Hpre H48 E Hr st c. destruct (boot_laid_out _ _ _ _ _ _ _ _ Hpre H48 E Hr) as (win & b & Hl & Hk).
  pose proof (running_root b k Hk) as Hroot. destruct Hk as (_ & (a & [Hrep (Ha & _ & Hm) Hctx _]) & _).
  subst st c. rewrite (rep_cur _ _ Hrep). split_and!; [| | |done|].
  - intros p. rewrite (rep_state _ _ Hrep), (ac_running _ _ _ _ Ha). split; [by intros [= ->]|by intros ->].
  - apply Hrep.
  - by rewrite (rep_mmu _ _ Hrep), (rep_root _ _ Hrep).
  - intros p. rewrite (rep_ctx _ _ Hrep). apply Hctx.
Qed.

(** A task that stores nothing and changes no register. *)
Definition idle (k : kstate) : kstate :=
  let c := current_context (k_tasks k) in
  set_words (k_words k) (set_tasks (set_ctx c (fun _ => ctx (tcb (k_tasks k) c)) (k_tasks k)) k).

Lemma idle_run b k : kinv b k -> user_run k (idle k).
Proof.
  intros (_ & (a & Ha) & _). eexists _, (k_words k). split_and!; [|by intros j []|done].
  rewrite (rep_ctx _ _ (ti_rep _ _ _ _ Ha)). apply (ti_ctxs _ _ _ _ Ha).
Qed.

(** ** Theorems about system calls *)

(** C15: RETYPE erases.  A refused call changes nothing and its code tells the exact
    cause.  A successful one returns the new slot, whose object is an aligned
    granule of the untyped's free memory; afterwards exactly that granule and
    its kernel alias read as zero, every other word and object keeps its value,
    and the alias is the only new kernel mapping, writable and never
    executable. *)
Theorem retype_erases b k slot kind :
  board_ok b -> kinv b k -> is_u64 slot ->
  exists v k', sys_retype slot kind k = (Ok v, k') /\
    (v < 0 /\ k' = k /\ retype_refused k slot kind v \/
     0 <= v /\ exists kd bs s u c, obj_kind kind = Some kd /\
       cap (k_cnode k) slot = Some (Cap.Untyped bs s u) /\ c mod GRANULE = 0 /\ bs + u <= c /\ c + GRANULE <= bs + s /\
       cap (k_cnode k') v = Some (new_cap kd c) /\
       cap (k_cnode k') slot = Some (Cap.Untyped bs s (c + GRANULE - bs)) /\
       (forall a, rd_word (k_words k') a = if decide (c <= a < c + GRANULE) then 0 else rd_word (k_words k) a) /\
       (forall p, let alias := c + KERNEL_VA_OFFSET <= p < c + KERNEL_VA_OFFSET + GRANULE in
          (tcb (k_tasks k') p = if decide alias then zero_tcb else tcb (k_tasks k) p) /\
          (ep (k_tasks k') p = if decide alias then zero_ep else ep (k_tasks k) p)) /\
       (forall va, translate (k_pool k') 1 va =
          if decide (vpn va = c / GRANULE) then Some (linear Perm.Rw (vpn va)) else translate (k_pool k) 1 va)).
Proof.
  intros Hb Hk Hs. destruct (sys_retype_spec b k slot kind Hb Hk Hs) as (v & k' & E & Hr).
  exists v, k'. split; [done|]. destruct Hr as [[Hr ->]|(c & Hd)].
  - left. split; [|done]. destruct Hr as [[-> _]|[_ [[-> _]|[[-> _]|(bs & s & u & _ & [[-> _]|[[-> _]|[-> _]]])]]]]; done.
  - right. pose proof Hk as (Hc & _). pose proof granule_bounds. pose proof (ci_wf _ _ _ Hc) as Hwf.
    destruct Hd as [_ (bs & s & u & kd & Ek & Hf & Hret) -> Ht Hw Hal _ _].
    destruct (retyped_caps PAGE_SHIFT _ _ slot kd bs s u c Hwf Hs Hf Hret) as (Hn & Hsl & _).
    destruct Hret as (Ec & Hfit & _). rewrite <- granule_pow2 in *.
    destruct (round_up_spec GRANULE (bs + u)) as [Hm Hlo]; [lia|]. rewrite <- Ec in *.
    split; [apply Hwf|]. exists kd, bs, s, u, c. rewrite cap_spec by done. split_and!; try done; try lia.
    + intros a. rewrite Hw. apply rd_zero_range.
    + intros p alias. rewrite Ht. split; [apply tcb_zero_objects|apply ep_zero_objects].
    + intros va. rewrite Hal by set_solver. apply decide_ext. tauto.
Qed.

(** C16: MAP is exact.  Every outcome keeps the system invariant.  A refused call
    changes nothing and its code tells the exact cause.  A mapped frame is
    marked and appears at one page of the named address space, with the address
    of the capability, writable exactly if asked, never executable; an installed
    table changes no translation; only words of page tables change. *)
Theorem map_exact b k slot va perm aspace :
  board_ok b -> kinv b k -> is_u64 slot -> is_u64 va ->
  exists v k', sys_map slot va perm aspace k = (Ok v, k') /\ kinv b k' /\
    map_outcome b k slot va perm aspace v k' /\
    forall root base, v = 0 -> cap (k_cnode k) aspace = Some (Cap.AddrSpace root) ->
      cap (k_cnode k) slot = Some (Cap.Frame base false) ->
      cap (k_cnode k') slot = Some (Cap.Frame base true) /\
      exists d, utranslate (k_words k') root va = Some d /\ Z.land d ADDR_MASK = base /\
        el0_writable d = (perm =? perm.RW) /\ el0_executable d = false /\ el1_executable d = false.
Proof.
  intros Hb Hk Hs Hva. destruct (sys_map_spec b k slot va perm aspace Hb Hk Hs Hva) as (v & k' & E & Hk' & Ho).
  exists v, k'. split_and!; try done. intros root base -> Ea Es. pose proof Hk as (Hc & _).
  pose proof (ci_wf _ _ _ Hc) as Hwf. pose proof (cap_filled _ _ _ Es) as Hin.
  assert (Hfr : frame_ok base) by (apply (object_frame b (k_cnode k) (Cap.Frame base false)); eauto).
  unfold map_outcome, map_refused in Ho. rewrite Ea, Es in Ho.
  destruct Ho as [[_ [? _]]|(root' & base' & [= <-] & [[[= <-] (up & Hup & [[_ Hd]|[_ Hx]])]|[[=] _]])];
    [done| |by destruct Hx as [[? _]|[[? _]|[? _]]]].
  destruct Hd as (w' & -> & Hv & _ & _ & Htr). simpl. split.
  - rewrite cap_spec, filled_set_slot by (done || by apply set_slot_wf).
    rewrite cap_spec in Es by done. apply list_lookup_insert_eq. by eapply lookup_lt_Some.
  - exists (Z.lor base (UserPerm.attrs up)). rewrite Htr by (by eapply cap_filled). rewrite decide_True by done.
    split_and!; [done|by apply user_desc_addr|by eapply user_perm_writable|by eapply user_perm_noexec|
                 by apply user_desc_safe].
Qed.
(** *** Tasks *)

(** The addresses that a new task may start with. *)
Definition start_ok (entry stack : Z) : Prop :=
  (entry mod 4 = 0 /\ GRANULE <= entry < 2 ^ 48) /\ (stack mod 16 = 0 /\ GRANULE <= stack <= 2 ^ 48).

#[global] Instance start_ok_dec entry stack : Decision (start_ok entry stack).
Proof. unfold start_ok. apply _. Defined.

Definition configure_refused (k : kstate) (slot entry stack aspace v : Z) : Prop :=
  if decide (start_ok entry stack) then
    match cap (k_cnode k) aspace with
    | None => v = err.BAD_SLOT
    | Some (Cap.AddrSpace _) =>
      match cap (k_cnode k) slot with
      | None => v = err.BAD_SLOT
      | Some (Cap.Tcb base) => v = err.BAD_STATE /\ state (tcb (k_tasks k) (base + KERNEL_VA_OFFSET)) <> Inactive
      | Some _ => v = err.BAD_CAP
      end
    | Some _ => v = err.BAD_CAP
    end
  else v = err.BAD_VA.

(** C20: TCB_CONFIGURE is exact.  A refused call changes nothing and its code tells
    the exact cause, checked in the order of the code.  A successful one turns
    an inactive TCB into a stopped task that starts in the user half, in EL0,
    with all registers and thread pointers zero, in the named address space; no
    other task, no queue and no memory changes. *)
Theorem tcb_configure_exact b k slot entry stack aspace :
  board_ok b -> kinv b k ->
  exists v k', sys_tcb_configure slot entry stack aspace k = (Ok v, k') /\ kinv b k' /\
    (k' = k /\ configure_refused k slot entry stack aspace v \/
     v = 0 /\ start_ok entry stack /\ exists base root st', let t := base + KERNEL_VA_OFFSET in
       cap (k_cnode k) aspace = Some (Cap.AddrSpace root) /\ cap (k_cnode k) slot = Some (Cap.Tcb base) /\
       state (tcb (k_tasks k) t) = Inactive /\ k' = set_tasks st' k /\
       sched st' = sched (k_tasks k) /\ (forall e, ep st' e = ep (k_tasks k) e) /\
       ctx (tcb st' t) = mkContext (replicate 31 0) stack entry 0 0 0 /\
       ttbr0_pa (tcb st' t) = root /\ state (tcb st' t) = Stopped /\
       forall p, p <> t -> tcb st' p = tcb (k_tasks k) p).
Proof.
  intros Hb Hk. destruct (sys_tcb_configure_ok b k slot entry stack aspace Hb Hk) as (v & k' & E & Hk').
  exists v, k'. split_and!; [done..|]. revert E. unfold sys_tcb_configure, configure_refused.
  assert (Hso : start_ok entry stack <->
    negb (entry mod 4 =? 0) || (entry <? GRANULE) || (Z.shiftl 1 48 <=? entry) = false /\
    negb (stack mod 16 =? 0) || (stack <? GRANULE) || (Z.shiftl 1 48 <? stack) = false).
  { rewrite !orb_false_iff, !negb_false_iff, !Z.eqb_eq, !Z.ltb_ge, Z.leb_gt. change (Z.shiftl 1 48) with (2 ^ 48).
    unfold start_ok. lia. }
  destruct (negb _ || _ || _); [rewrite decide_False by (intros [? _]%Hso; done); intros [= <- <-]; by left|].
  destruct (negb _ || _ || _); [rewrite decide_False by (intros [_ ?]%Hso; done); intros [= <- <-]; by left|].
  assert (Hs : start_ok entry stack) by (by apply Hso). rewrite decide_True by done. unfold bind at 1, getS.
  destruct (cap (k_cnode k) aspace) as [[| |root| | | | | |]|] eqn:Ea; try (intros [= <- <-]; by left).
  destruct (cap (k_cnode k) slot) as [[| | | |base| | | |]|] eqn:Es; try (intros [= <- <-]; by left).
  apply cap_filled in Es. unfold bind at 1, lift. rewrite (object_alias b (k_cnode k) (Cap.Tcb base)) by (done || apply Hk).
  case_bool_decide as Ei; [|intros [= <- <-]; by left]. intros [= <- <-]. right. split; [done|]. split; [done|].
  eexists base, root, _. split_and!; try done.
  all: rewrite ?tcb_upd_eq; try done. intros p Hp. by rewrite tcb_upd_ne.
Qed.

Definition resume_refused (k : kstate) (slot v : Z) : Prop :=
  match cap (k_cnode k) slot with
  | None => v = err.BAD_SLOT
  | Some (Cap.Tcb base) => v = err.BAD_STATE /\ state (tcb (k_tasks k) (base + KERNEL_VA_OFFSET)) <> Stopped
  | Some _ => v = err.BAD_CAP
  end.

(** TCB_RESUME is exact.  It starts only a configured, stopped task, exactly
    once: the task becomes ready at the end of the ready queue, keeping its
    registers and address space, and the queue keeps its order.  A refused call
    changes nothing and its code tells the exact cause. *)
Lemma tcb_resume_exact b k slot :
  board_ok b -> kinv b k ->
  exists v k', sys_tcb_resume slot k = (Ok v, k') /\ kinv b k' /\
    (k' = k /\ resume_refused k slot v \/
     v = 0 /\ exists base st' a, let t := base + KERNEL_VA_OFFSET in
       cap (k_cnode k) slot = Some (Cap.Tcb base) /\ state (tcb (k_tasks k) t) = Stopped /\
       k' = set_tasks st' k /\ rep (k_tasks k) a /\
       queue (nx st') (s_head (sched st')) (s_tail (sched st')) (a_ready a ++ [t]) /\
       state (tcb st' t) = Ready /\
       forall p, ctx (tcb st' p) = ctx (tcb (k_tasks k) p) /\ ttbr0_pa (tcb st' p) = ttbr0_pa (tcb (k_tasks k) p) /\
         (p <> t -> state (tcb st' p) = state (tcb (k_tasks k) p))).
Proof.
  intros Hb Hk. destruct (sys_tcb_resume_ok b k slot Hb Hk) as (v & k' & E & Hk').
  exists v, k'. split_and!; [done..|]. revert E. unfold sys_tcb_resume, resume_refused, bind at 1, getS.
  destruct (cap (k_cnode k) slot) as [[| | | |base| | | |]|] eqn:Es; try (intros [= <- <-]; by left).
  apply cap_filled in Es. unfold bind at 1, lift. rewrite (object_alias b (k_cnode k) (Cap.Tcb base)) by (done || apply Hk).
  case_bool_decide as Ei; [|intros [= <- <-]; by left]. intros [= <- <-]. right. split; [done|].
  destruct Hk as (_ & (a & Ht) & _). pose proof (tasks_resume _ _ _ _ base Ht Es Ei) as [Hr' _ _ _].
  destruct Ht as [Hr _ _ _]. eexists base, _, a. split_and!; try done.
  - apply (rep_ready _ _ Hr').
  - rewrite (rep_state _ _ Hr'). simpl. apply upd_eq.
  - intros p. rewrite (rep_ctx _ _ Hr'), (rep_ctx _ _ Hr), (rep_root _ _ Hr'), (rep_root _ _ Hr), (rep_state _ _ Hr'),
      (rep_state _ _ Hr). split_and!; try done. intros Hp. simpl. by rewrite upd_ne.
Qed.

(** *** Faults *)

(** An exception class that is neither a system call nor a trapped WFI or WFE. *)
Definition is_fault (esr : Z) : Prop :=
  let ec := Z.land (Z.shiftr esr 26) 0x3F in ec <> 0x15 /\ ec <> 0x01.

(** C17: a fault is contained.  It makes exactly the faulting task dead: no
    capability, no memory and no kernel mapping changes, every other task keeps
    its registers and its state, except that a caller waiting for the dead
    task's reply is woken with NO_REPLY and a ready task runs next; the kernel
    reports the fault, and parks only if nobody could run. *)
Theorem fault_contained b k esr far :
  board_ok b -> kinv b k -> is_fault esr ->
  let c := current (sched (k_tasks k)) in let caller := reply_to (tcb (k_tasks k) c) in
  exists r k', handle (Sync esr far) k = (r, k') /\
    match r with
    | Ok _ => kinv b k' /\ k_con k' = k_con k ++ [OutFault esr (elr (ctx (tcb (k_tasks k) c))) far]
    | Err Parked => nobody_runs k' /\ caller = 0
    | _ => False
    end /\
    k_cnode k' = k_cnode k /\ k_words k' = k_words k /\ k_pool k' = k_pool k /\
    state (tcb (k_tasks k') c) = Dead /\
    (forall p, p <> caller -> ctx (tcb (k_tasks k') p) = ctx (tcb (k_tasks k) p)) /\
    (forall p, p <> c -> p <> caller -> state (tcb (k_tasks k') p) = state (tcb (k_tasks k) p) \/
       state (tcb (k_tasks k) p) = Ready /\ state (tcb (k_tasks k') p) = Running) /\
    (caller <> 0 -> reg (ctx (tcb (k_tasks k') caller)) 0 = as_u64 err.NO_REPLY).
Proof.
  intros Hb Hk (F1 & F2) c caller. pose proof Hk as (Hc & (a & Ht) & Hp & Hsp). pose proof Ht as [Hr Ha Hctx _].
  destruct (tasks_kill _ _ _ _ Ht) as (r & st' & Hkill & Hout).
  destruct (kill_refines _ _ _ _ Hr Ha) as (st'' & Hkill' & Hr'). rewrite Hkill in Hkill'. injection Hkill' as Er <-.
  pose proof (spec_kill_spec _ _ a Ha Hctx) as (S1 & _ & S3 & S4).
  assert (Ec : c = a_cur a) by apply Hr. assert (Ecl : caller = a_reply a (a_cur a)) by (subst caller; rewrite Ec; apply Hr).
  set (k1 := print (OutFault esr (elr (ctx (tcb (k_tasks k) c))) far) k).
  exists (if r then Ok tt else Err Parked), (if r then set_tasks st' k1 else print OutAllExited (set_tasks st' k1)).
  assert (Hcc : current_context (k_tasks k) = c) by (rewrite Ec; apply Hr).
  split_and!.
  - unfold handle, el0_sync. rewrite (proj2 (Z.eqb_neq _ _) F1), (proj2 (Z.eqb_neq _ _) F2).
    unfold k0_fault, bind at 1, getS. rewrite Hcc. unfold bind at 1, modS. cbv beta iota. fold k1.
    unfold kill, bind at 1, getS. change (k_tasks k1) with (k_tasks k). rewrite Hkill. by destruct r.
  - destruct r.
    + destruct Hout as [a' Ha']. split; [|done]. eapply kinv_set_tasks; [by apply kinv_print|done].
    + split; [done|]. rewrite Ecl. destruct (decide (a_reply a (a_cur a) = 0)) as [|Hn]; [done|].
      apply S4 in Hn as [Hn _]. congruence.
  - by destruct r.
  - by destruct r.
  - by destruct r.
  - replace (k_tasks _) with st' by by destruct r. by rewrite (rep_state _ _ Hr'), Ec.
  - intros p Hpc. replace (k_tasks _) with st' by by destruct r. rewrite (rep_ctx _ _ Hr'), (rep_ctx _ _ Hr). apply S3. by rewrite <- Ecl.
  - intros p P1 P2. replace (k_tasks _) with st' by by destruct r. rewrite (rep_state _ _ Hr'), (rep_state _ _ Hr).
    destruct Ha as [Hac _]. rewrite <- (ac_ready _ _ _ _ Hac). apply spec_kill_others; congruence.
  - intros Hn. replace (k_tasks _) with st' by by destruct r. rewrite (rep_ctx _ _ Hr'). rewrite Ecl in *. by apply S4.
Qed.
(** *** Console *)

(** Console output in which tasks contribute only printable characters and whole
    line ends. *)
Inductive clean : list conout -> Prop :=
| clean_nil : clean []
| clean_char c l : 0x20 <= c <= 0x7E -> clean l -> clean (OutByte c :: l)
| clean_newline l : clean l -> clean (OutByte 13 :: OutByte 10 :: l)
| clean_message o l : (forall c, o <> OutByte c) -> clean l -> clean (o :: l).

Lemma clean_app l l' : clean l -> clean l' -> clean (l ++ l').
Proof. induction 1; simpl; auto using clean. Qed.

Definition filtered (k : kstate) : Prop := clean (k_con k).

(** A computation keeps the console filtered. *)
Definition prints {A} (m : K A) : Prop := forall k, filtered k -> filtered (snd (m k)).

Lemma prints_bind {A B} (m : K A) (f : A -> K B) : prints m -> (forall v, prints (f v)) -> prints (bind m f).
Proof.
  intros Hm Hf k Hk. unfold bind. specialize (Hm k Hk). destruct (m k) as [[v|e| |] k']; simpl in *; try done.
  by apply Hf.
Qed.

Lemma prints_modS f : (forall k, filtered k -> filtered (f k)) -> prints (modS f).
Proof. intros Hf k Hk. by apply Hf. Qed.

Lemma prints_print o : (forall c, o <> OutByte c) -> prints (modS (print o)).
Proof. intros Ho k Hk. apply clean_app; [done|]. by apply clean_message; [|constructor]. Qed.

Lemma prints_putc byte : prints (con_put_byte (safe_byte byte)).
Proof.
  intros k Hk. unfold con_put_byte, safe_byte. set (c := Z.land byte 0xFF).
  destruct (Z.eqb_spec c 10) as [->|Hc]; simpl.
  - unfold filtered. simpl. rewrite <- app_assoc. apply clean_app; [done|]. by apply clean_newline, clean_nil.
  - destruct ((0x20 <=? c) && (c <=? 0x7E)) eqn:E; [|by apply clean_app; [|apply clean_char, clean_nil]].
    rewrite (proj2 (Z.eqb_neq _ _) Hc). apply clean_app; [done|]. apply clean_char, clean_nil. bool_to_prop. lia.
Qed.

Lemma prints_ret {A} (v : A) : prints (ret v).
Proof. by intros k. Qed.

Lemma prints_lift {A} (r : res halt A) : prints (lift r).
Proof. by intros k. Qed.

Lemma prints_getS : prints getS.
Proof. by intros k. Qed.

Lemma prints_park {A} : prints (@park A).
Proof. by intros k. Qed.

Lemma prints_on_tasks f : prints (on_tasks f).
Proof. by intros k. Qed.

Lemma prints_run_mmu {A} (m : M words MmuError.t A) : prints (run_mmu m).
Proof. intros k Hk. unfold run_mmu. by destruct (m (k_words k)) as [[]]. Qed.

Lemma prints_sys_retype slot kind : prints (sys_retype slot kind).
Proof.
  intros k Hk. unfold sys_retype. destruct (obj_kind kind); [|done].
  by destruct (retype _ _ _ _ _) as [r [cn [[p st] wd]]].
Qed.

Lemma prints_ipc_or_park h c : prints (ipc_or_park h c).
Proof.
  intros k Hk. unfold ipc_or_park. destruct (h _ _ _) as [[[]|[]| |] st]; try done.
  by apply (prints_bind _ _ (prints_print OutAllBlocked ltac:(done)) (fun _ => prints_park)).
Qed.

Create HintDb con.
#[local] Hint Resolve prints_bind prints_modS prints_print prints_ret prints_lift prints_getS prints_park prints_on_tasks
  prints_putc prints_run_mmu prints_sys_retype prints_ipc_or_park : con.

Ltac con_step :=
  cbv zeta;
  first [ assumption | solve [auto with con]
        | match goal with
          | |- prints (match ?x with _ => _ end) => destruct x
          | |- prints (bind _ _) => apply prints_bind; [|intros]
          | |- prints (modS (print _)) => apply prints_print; discriminate
          | |- prints (modS _) => apply prints_modS; done
          end ].

Lemma prints_syscall c : prints (k0_syscall c).
Proof.
  unfold k0_syscall, to_x0, sys_putc, sys_map, sys_tcb_configure, sys_tcb_resume, kill, mmu_err. repeat con_step.
Qed.

Lemma prints_handle ev : prints (handle ev).
Proof.
  intros k. destruct ev as [esr far|]; [|apply prints_on_tasks]. unfold handle. generalize (current_context (k_tasks k)).
  intros c. revert k. change (prints (el0_sync c esr far)). pose proof (prints_syscall c).
  unfold el0_sync, k0_fault, kill. repeat con_step.
Qed.

(** C21: the console is filtered.  Whatever the tasks send to DEBUG_PUTC, what
    reaches the UART on their behalf is printable ASCII and line ends, each the
    pair of carriage return and newline that [put_byte] makes of a newline; no
    other control byte is ever sent. *)
Theorem console_filtered info image rt root_tcb p0 w0 k0 k :
  boot info image rt root_tcb p0 w0 = Ok k0 -> reachable k0 k -> filtered k.
Proof.
  intros E Hr. induction Hr as [|k k' _ IH [k1 ev (cx & w' & _ & _ & ->) _ Hh]].
  - apply boot_console in E. unfold filtered. rewrite E. constructor.
  - change k' with (Ok (E:=halt) tt, k').2. rewrite <- Hh. by apply prints_handle.
Qed.
End theory.

(** ** Instances

    The board of [BootEx] after the boot sequence, and after the root task has
    made and started a second task. *)

Module SecureEx.
Import PagingEx BootEx.

#[local] Abbreviation out := (boot ex_info image rt root_tcb pool ∅).
Definition root : Z := 0x40283000.
Definition desc : Z := 9007200331110339.

Lemma out_maps :
  match out with
  | Ok k => filled (k_cnode k) !! 2%nat = Some (Cap.AddrSpace root) /\ utranslate (k_words k) root 0x400000 = Some desc
  | _ => False
  end.
Proof. vm_compute. split; reflexivity. Qed.

Lemma booted_ex : exists k0 b, out = Ok k0 /\ board_ok b /\ kinv b k0.
Proof.
  pose proof (boot_addressable ex_info image rt root_tcb pool ∅ pre low) as Hb. pose proof out_ok as Ho.
  destruct out as [k| | |]; [|contradiction..]. destruct Hb as [(win & b & Hl & Hk & _) _].
  exists k, b. split; [reflexivity|]. split; [apply Hl|exact Hk].
Qed.

Lemma system_never_panics_witness : exists k0 r k',
  out = Ok k0 /\ handle Tick (idle k0) = (r, k') /\
  match r with Ok _ => reachable k0 k' | Err Parked => nobody_runs k' | _ => False end.
Proof.
  destruct booted_ex as (k0 & b & E & _ & Hk).
  destruct (system_never_panics ex_info image rt root_tcb pool ∅ k0 k0 (idle k0) Tick pre low E (reach_init k0)
    (idle_run b k0 Hk) I) as (r & k' & Hh & Hr).
  exists k0, r, k'. split; [exact E|]. split; [exact Hh|exact Hr].
Defined.

Lemma memory_isolation_witness : user_safe desc /\ ~ protected ex_info image (Z.land desc ADDR_MASK).
Proof.
  destruct booted_ex as (k0 & b & E & _ & Hk). pose proof out_maps as Hm. rewrite E in Hm. destruct Hm as [Hr Hd].
  destruct (memory_isolation ex_info image rt root_tcb pool ∅ k0 k0 root 0x400000 desc pre low E (reach_init k0)
    (list_elem_of_lookup_2 _ _ _ Hr) Hd) as [Hs Hp].
  split; [exact Hs|]. apply (Hp (Z.land desc ADDR_MASK)). split; vm_compute; [discriminate|reflexivity].
Defined.

Lemma task_confined_witness : exists k0, out = Ok k0 /\ utranslate (k_words (idle k0)) root 0x400000 = Some desc.
Proof.
  destruct booted_ex as (k0 & b & E & _ & Hk). pose proof out_maps as Hm. rewrite E in Hm. destruct Hm as [Hr Hd].
  destruct (task_confined ex_info image rt root_tcb pool ∅ k0 k0 (idle k0) pre low E (reach_init k0) (idle_run b k0 Hk))
    as [Ht _].
  exists k0. split; [exact E|]. rewrite (Ht root 0x400000 (list_elem_of_lookup_2 _ _ _ Hr)). exact Hd.
Defined.

Lemma user_mode_return_witness : exists k0, out = Ok k0 /\
  Z.land (spsr (ctx (tcb (k_tasks k0) root_tcb))) 0x1F = 0.
Proof.
  destruct booted_ex as (k0 & b & E & _ & Hk).
  destruct (user_mode_return ex_info image rt root_tcb pool ∅ k0 k0 pre low E (reach_init k0)) as (_ & _ & _ & _ & Hs).
  exists k0. split; [exact E|exact (Hs root_tcb)].
Defined.

(** The root task sends [c] to its console. *)
Definition putting (c : Z) (k : kstate) : kstate :=
  set_words (k_words k) (set_tasks (set_ctx (current_context (k_tasks k))
    (fun _ => set_reg 0 3 (set_reg 1 c zeroed)) (k_tasks k)) k).

Definition put (c : Z) (k : kstate) : kstate := snd (handle (Sync 0x56000000 0) (putting c k)).

Lemma put_step k c :
  is_u64 c -> fst (handle (Sync 0x56000000 0) (putting c k)) = Ok tt ->
  user_run k (putting c k) /\ trap_ok (Sync 0x56000000 0) (putting c k) /\
  handle (Sync 0x56000000 0) (putting c k) = (Ok tt, put c k).
Proof.
  intros Hc E. split; [|split; [intros [=]|rewrite <- E; apply surjective_pairing]].
  eexists _, _. split; [|split; [|reflexivity]]; [|by intros j []].
  apply set_reg_ok; [split; [discriminate|reflexivity]|]. apply set_reg_ok; [exact Hc|apply zeroed_ok].
Qed.

Lemma put_reach k0 k c :
  reachable k0 k -> is_u64 c -> fst (handle (Sync 0x56000000 0) (putting c k)) = Ok tt -> reachable k0 (put c k).
Proof. intros Hr Hc E. destruct (put_step k c Hc E) as (? & ? & ?). eapply reach_step; [exact Hr|]. by eapply step_trap. Qed.

(** An escape byte and a newline. *)
Lemma puts_run :
  match out with
  | Ok k0 => fst (handle (Sync 0x56000000 0) (putting 27 k0)) = Ok tt /\
      fst (handle (Sync 0x56000000 0) (putting 10 (put 27 k0))) = Ok tt /\
      k_con (put 10 (put 27 k0)) = [OutByte 63; OutByte 13; OutByte 10]
  | _ => False
  end.
Proof. vm_compute. split; [reflexivity|split; reflexivity]. Qed.

Lemma console_filtered_witness : exists k0 k, out = Ok k0 /\ reachable k0 k /\
  k_con k = [OutByte 63; OutByte 13; OutByte 10] /\ filtered k.
Proof.
  destruct booted_ex as (k0 & b & E & _ & Hk). pose proof puts_run as Hp. rewrite E in Hp. destruct Hp as (P1 & P2 & P3).
  assert (Hr : reachable k0 (put 10 (put 27 k0))).
  { apply put_reach; [|split; [discriminate|reflexivity]|exact P2].
    apply put_reach; [apply reach_init|split; [discriminate|reflexivity]|exact P1]. }
  exists k0, (put 10 (put 27 k0)). split; [exact E|]. split; [exact Hr|]. split; [exact P3|].
  exact (console_filtered ex_info image rt root_tcb pool ∅ k0 _ E Hr).
Defined.

(** The root task makes a frame and a TCB out of the untyped in slot 5, and
    configures and starts the new task. *)
Definition make_task (resume : bool) : K Z :=
  do! _ := sys_retype 5 obj.FRAME in
  do! n := sys_retype 5 obj.TCB in
  do! v := sys_tcb_configure n 0x400010 0x10000000 2 in
  if resume then sys_tcb_resume n else ret v.

Definition child : Z := 0xFFFF000040481000.

Lemma call_ok_bind b m f k :
  call_ok b m k -> (forall v k', kinv b k' -> call_ok b (f v) k') -> call_ok b (bind m f) k.
Proof.
  intros (v & k' & E & Hk') Hf. destruct (Hf v k' Hk') as (v' & k'' & E' & Hk''). exists v', k''. unfold bind. by rewrite E.
Qed.

(** The state after [make_task], of which a computation decides a property. *)
Lemma make_task_ex resume (P : kstate -> Prop) :
  match out with Ok k0 => P (make_task resume k0).2 | _ => False end ->
  exists b k, board_ok b /\ kinv b k /\ P k.
Proof.
  intros HP. destruct booted_ex as (k0 & b & E & Hb & Hk). rewrite E in HP.
  assert (Hc : call_ok b (make_task resume) k0).
  { assert (H5 : is_u64 5) by (split; [discriminate|reflexivity]).
    apply call_ok_bind; [by apply sys_retype_ok|]. intros _ k1 Hk1.
    apply call_ok_bind; [by apply sys_retype_ok|]. intros n k2 Hk2.
    apply call_ok_bind; [by apply sys_tcb_configure_ok|]. intros v k3 Hk3.
    destruct resume; [by apply sys_tcb_resume_ok|by apply ret_ok]. }
  destruct Hc as (v & k & Ek & Hk'). rewrite Ek in HP. exists b, k.
  split; [exact Hb|]. split; [exact Hk'|exact HP].
Qed.

Lemma retype_erases_witness : exists b k k', kinv b k /\ sys_retype 5 obj.FRAME k = (Ok 8, k') /\
  exists c, cap (k_cnode k') 8 = Some (Cap.Frame c false) /\ rd_word (k_words k') c = 0.
Proof.
  destruct (make_task_ex true (fun k => fst (sys_retype 5 obj.FRAME k) = Ok 8)) as (b & k & Hb & Hk & Hs);
    [vm_compute; reflexivity|].
  destruct (retype_erases b k 5 obj.FRAME Hb Hk) as (v & k' & E & Hr); [split; [discriminate|reflexivity]|].
  rewrite E in Hs. injection Hs as ->. exists b, k, k'. split; [exact Hk|]. split; [exact E|].
  destruct Hr as [[Hn _]|(_ & kd & bs & s & u & c & [= <-] & _ & _ & _ & _ & Hc & _ & Hw & _)]; [discriminate Hn|].
  exists c. split; [exact Hc|]. rewrite Hw, decide_True; [reflexivity|]. pose proof granule_bounds. lia.
Defined.

(** The page next to the image's has its tables. *)
Lemma map_exact_witness : exists b k k' d, kinv b k /\ sys_map 6 0x410000 perm.RW 2 k = (Ok 0, k') /\
  utranslate (k_words k') root 0x410000 = Some d /\ el0_writable d = true /\ el0_executable d = false.
Proof.
  destruct (make_task_ex true (fun k => fst (sys_map 6 0x410000 perm.RW 2 k) = Ok 0 /\
    cap (k_cnode k) 2 = Some (Cap.AddrSpace root) /\ cap (k_cnode k) 6 = Some (Cap.Frame 0x40480000 false)))
    as (b & k & Hb & Hk & Hs & Ha & Hf); [vm_compute; split; [reflexivity|split; reflexivity]|].
  destruct (map_exact b k 6 0x410000 perm.RW 2 Hb Hk) as (v & k' & E & _ & _ & Hd);
    [split; [discriminate|reflexivity]..|].
  rewrite E in Hs. injection Hs as ->. destruct (Hd root 0x40480000 eq_refl Ha Hf) as (_ & d & H1 & _ & H2 & H3 & _).
  exists b, k, k', d. split; [exact Hk|]. split; [exact E|]. split; [exact H1|]. split; [exact H2|exact H3].
Defined.

(** A started task cannot be configured again. *)
Lemma tcb_configure_exact_witness : exists b k, kinv b k /\
  sys_tcb_configure 7 0x400010 0x10000000 2 k = (Ok err.BAD_STATE, k).
Proof.
  destruct (make_task_ex true (fun k => fst (sys_tcb_configure 7 0x400010 0x10000000 2 k) = Ok err.BAD_STATE))
    as (b & k & Hb & Hk & Hs); [vm_compute; reflexivity|].
  destruct (tcb_configure_exact b k 7 0x400010 0x10000000 2 Hb Hk) as (v & k' & E & _ & Hr).
  rewrite E in Hs. injection Hs as ->. exists b, k. split; [exact Hk|].
  destruct Hr as [[-> _]|[[=] _]]. exact E.
Defined.

Lemma tcb_resume_exact_witness : exists b k k', kinv b k /\ sys_tcb_resume 7 k = (Ok 0, k') /\
  state (tcb (k_tasks k') child) = Ready.
Proof.
  destruct (make_task_ex false (fun k => fst (sys_tcb_resume 7 k) = Ok 0 /\ cap (k_cnode k) 7 = Some (Cap.Tcb 0x40481000)))
    as (b & k & Hb & Hk & Hs & Hc); [vm_compute; split; reflexivity|].
  destruct (tcb_resume_exact b k 7 Hb Hk) as (v & k' & E & _ & Hr).
  rewrite E in Hs. injection Hs as ->. exists b, k, k'. split; [exact Hk|]. split; [exact E|].
  unfold resume_refused in Hr. rewrite Hc in Hr.
  destruct Hr as [[_ [[=] _]]|(_ & base & st' & a & [= <-] & _ & -> & _ & _ & Hs & _)]. exact Hs.
Defined.

(** A data abort from EL0 (class 0x24) at address 0. *)
Lemma fault_contained_witness : exists b k r k', kinv b k /\
  handle (Sync 0x92000046 0) k = (r, k') /\ state (tcb (k_tasks k') (current (sched (k_tasks k)))) = Dead.
Proof.
  destruct booted_ex as (k & b & _ & Hb & Hk).
  destruct (fault_contained b k 0x92000046 0 Hb Hk) as (r & k' & Er & _ & _ & _ & _ & Hd & _);
    [split; vm_compute; discriminate|].
  exists b, k, r, k'. split; [exact Hk|]. split; [exact Er|exact Hd].
Defined.
End SecureEx.
