(* ===== verification/HighRam.v ===== *)
(** * RAM beyond the kernel's alias range

    The kernel reaches physical memory at its alias, [KERNEL_VA_OFFSET] higher, so
    only addresses below 2^48 have one, and nothing compares the RAM of the device
    tree with that limit (the known gap of design/dtb.md, advisory
    GHSA-hj3f-38h9-hrpj in SECURITY.md).  What happens on such a board, as the
    document says: the addition in [map_kernel_window] overflows and the kernel
    panics, at boot if the boot window is up there, at the RETYPE of a granule up
    there otherwise.  [Boot.ram_addressable] is the hypothesis that excludes it. *)

From S2P Require Import Prelude Abi Cap Task Sched Ipc Radix Paging User Build Kernel System Fdt FdtBuild Spawn Boot Secure.

Section theory.
Context `{Platform, PoolVa, !PoolVaOk}.

Lemma boot_high info image rt root_tcb p0 w0 win :
  boot_pre info image rt root_tcb p0 -> check_memory_map info = Ok tt ->
  pick_window info (end_ image) = Ok win -> 2 ^ 48 <= Paging.start win -> boot info image rt root_tcb p0 w0 = Panic.
Proof.
  intros [Hm Hrsv (D0 & D1 & D2) (I0 & I1 & I2) _ (_ & Hen & _) _] Hc Ew Hh.
  assert (D1' : dtb_start info <= dtb_end info) by lia. assert (I2' : 0 <= end_ image) by lia.
  pose proof (pick_window_spec info (end_ image) Hm Hrsv D0 D1' I2') as Hwin. rewrite Ew in Hwin.
  destruct (fa_new_window _ _ _ _ Hwin) as [_ Hend]. pose proof (gw_size _ _ _ _ Hwin) as Hsz. unfold WINDOW_SIZE in Hsz.
  destruct (proj1 (list.Exists_exists _ _) (gw_memory _ _ _ _ Hwin)) as (m & Hin & _ & He).
  pose proof (proj1 (list.Forall_forall _ _) Hm m Hin) as (? & ? & ?).
  unfold boot. rewrite Hc, Ew. cbn [rbind]. unfold run at 1.
  rewrite high_window_panics; [done|done|lia|apply Hwin|done|lia].
Qed.

Lemma prep_high c p st wd :
  enabled p = true -> c mod GRANULE = 0 -> 2 ^ 48 <= c -> c + GRANULE < U64 ->
  prep_granule c (p, st, wd) = (Panic, (p, st, wd)).
Proof.
  intros Hen Ha Hlo Hhi. pose proof granule_bounds. unfold prep_granule. rewrite add_p_ok by lia.
  rewrite high_window_panics; simpl; [done|done|lia|done| |lia].
  rewrite <- Z.add_mod_idemp_l, Ha, Z.add_0_l, Z_mod_same_full by lia. done.
Qed.

Lemma retype_high k slot kind kd bs s u :
  enabled (k_pool k) = true -> cnode_wf (k_cnode k) -> Forall (cap_wf GRANULE) (filled (k_cnode k)) -> is_u64 slot ->
  obj_kind kind = Some kd -> cap (k_cnode k) slot = Some (Cap.Untyped bs s u) -> Cap.used (k_cnode k) < CNODE_SLOTS ->
  round_up GRANULE (bs + u) + GRANULE <= bs + s -> 2 ^ 48 <= round_up GRANULE (bs + u) ->
  sys_retype slot kind k = (Panic, k).
Proof.
  intros Hen Hwf Hcs Hs Hkd Hcap Hu Hfit Hh. pose proof granule_bounds. pose proof page_shift_bounds.
  assert (Hq : 0 <= PAGE_SHIFT <= 32) by lia.
  assert (Hc : cap_wf GRANULE (Cap.Untyped bs s u)).
  { rewrite cap_spec in Hcap by done. exact (proj1 (list.Forall_forall _ _) Hcs _ (list_elem_of_lookup_2 _ _ _ Hcap)). }
  destruct Hc as (? & ? & ? & ?). destruct (round_up_spec GRANULE (bs + u)) as [Hal _]; [lia|].
  rewrite granule_pow2 in Hcs.
  pose proof (retype_cases PAGE_SHIFT Hq prep_granule (k_cnode k) (k_pool k, k_tasks k, k_words k) slot kd Hwf Hcs Hs) as Hr.
  rewrite <- granule_pow2, Hcap in Hr. rewrite (proj2 (Z.eqb_neq _ _)) in Hr by lia. cbv zeta in Hr.
  rewrite (proj2 (Z.ltb_ge _ _)) in Hr by lia. rewrite prep_high in Hr by (done || lia).
  unfold sys_retype. unfold world in *. rewrite Hkd, Hr. by destruct k.
Qed.

(** RAM that the kernel cannot address makes it panic.  If the boot window that
    the device tree's RAM gives starts above the 48-bit range, the boot sequence
    panics.  If it does not, but an untyped capability's next granule is above
    that range, then RETYPE of it to any object, with a free slot and room in
    the untyped, panics, instead of returning a code to the caller. *)
Theorem high_ram_panics :
  (forall info image rt root_tcb p0 w0 win,
     boot_pre info image rt root_tcb p0 -> check_memory_map info = Ok tt ->
     pick_window info (end_ image) = Ok win -> 2 ^ 48 <= Paging.start win ->
     boot info image rt root_tcb p0 w0 = Panic) /\
  (forall k slot kind kd bs s u,
     enabled (k_pool k) = true -> cnode_wf (k_cnode k) -> Forall (cap_wf GRANULE) (filled (k_cnode k)) -> is_u64 slot ->
     obj_kind kind = Some kd -> cap (k_cnode k) slot = Some (Cap.Untyped bs s u) -> Cap.used (k_cnode k) < CNODE_SLOTS ->
     round_up GRANULE (bs + u) + GRANULE <= bs + s -> 2 ^ 48 <= round_up GRANULE (bs + u) ->
     sys_retype slot kind k = (Panic, k)).
Proof. split; [exact boot_high|exact retype_high]. Qed.
End theory.

(** ** Two boards: all RAM at 2^48, and a second bank there *)

Module HighRamEx.
Import PagingEx BootEx.

Definition board (banks : list (list (Z * Z))) : Board.t := Board.mk (Some (2, 2)%nat) banks [] None [] None None.

(** The tree that the builder writes, placed at 0x48000000, and what the parser
    makes of it. *)
Definition declared (banks : list (list (Z * Z))) : R BootInfo :=
  let blob := Board.blob (board banks) in parse_blob blob 0x48000000 (0x48000000 + Z.of_nat (length blob)).

Definition bank : Z * Z := (0x40000000, 0x8000000).
Definition high : Z * Z := (2 ^ 48, 0x400000).
Definition info (banks : list (list (Z * Z))) : BootInfo :=
  match declared banks with Ok i => i | _ => ex_info end.

Lemma info_high : info [[high]] = mkInfo 0x48000000 (0x48000000 + Z.of_nat (length (Board.blob (board [[high]])))) [mkMem (2 ^ 48) 0x400000] [] [].
Proof. vm_compute. reflexivity. Qed.

Lemma pre_high : boot_pre (info [[high]]) image rt root_tcb pool.
Proof.
  destruct BootEx.pre as [_ _ _ P4 P5 P6 P7]. rewrite info_high. split; [| | |exact P4|exact P5|exact P6|exact P7];
    cbn [memory reserved dtb_start dtb_end].
  - repeat constructor; simpl; lia.
  - constructor.
  - assert (E : length (Board.blob (board [[high]])) = 270%nat) by (vm_compute; reflexivity). rewrite E. lia.
Qed.

Lemma declared_ok :
  declared [[high]] = Ok (info [[high]]) /\ memory (info [[high]]) = [mkMem (2 ^ 48) 0x400000] /\
  declared [[bank; high]] = Ok (info [[bank; high]]) /\
  memory (info [[bank; high]]) = [mkMem 0x40000000 0x8000000; mkMem (2 ^ 48) 0x400000].
Proof. vm_compute. repeat split. Qed.

(** The task asks for a frame from the untyped in [slot]. *)
Definition asking (slot : Z) (k : kstate) : kstate :=
  set_words (k_words k) (set_tasks (set_ctx (current_context (k_tasks k))
    (fun _ => set_reg 8 syscall.RETYPE (set_reg 0 slot (set_reg 1 obj.FRAME zeroed))) (k_tasks k)) k).

#[local] Abbreviation out := (boot (info [[bank; high]]) image rt root_tcb pool ∅).

Definition caps : list Cap.t :=
  [Cap.Empty; Cap.RootTcb; Cap.AddrSpace 0x40283000; Cap.Console; Cap.Untyped 0x40000000 0x80000 0;
   Cap.Untyped 0x40480000 0x7B80000 0; Cap.Untyped (2 ^ 48) 0x400000 0].

Lemma out_high :
  match out with
  | Ok k => (length (slots (k_cnode k)) = 32%nat /\ Cap.used (k_cnode k) = 7 /\ filled (k_cnode k) = caps) /\
      enabled (k_pool k) = true /\ fst (handle (Sync 0x56000000 0) (asking 6 k)) = Panic
  | _ => False
  end.
Proof. vm_compute. repeat split. Qed.

Lemma caps_ok : Forall (cap_wf GRANULE) caps.
Proof. repeat (apply list.Forall_cons; split; [vm_compute; repeat split; discriminate|]). by apply Forall_nil. Qed.

(** Both boards, and the system call on the second one as the task makes it. *)
Lemma high_ram_panics_witness :
  boot (info [[high]]) image rt root_tcb pool ∅ = Panic /\
  exists k, out = Ok k /\ sys_retype 6 obj.FRAME k = (Panic, k) /\ fst (handle (Sync 0x56000000 0) (asking 6 k)) = Panic.
Proof.
  destruct high_ram_panics as [Hb Hr]. split.
  - apply (Hb _ _ _ _ _ _ (mkRange (2 ^ 48) (2 ^ 48 + 0x200000))); [|vm_compute; reflexivity|vm_compute; reflexivity|simpl; lia].
    exact pre_high.
  - pose proof out_high as Ho. destruct out as [k|e| |]; [|contradiction..]. exists k. split; [reflexivity|].
    destruct Ho as ((L & U & F) & En & Hh). split; [|exact Hh].
    apply (Hr k 6 obj.FRAME ObjKind.Frame (2 ^ 48) 0x400000 0); [exact En| |rewrite F; exact caps_ok|split; [discriminate|reflexivity]|
      reflexivity|unfold cap; rewrite F; reflexivity|rewrite U; reflexivity|vm_compute; discriminate|vm_compute; discriminate].
    split; [exact L|rewrite U; split; discriminate].
Defined.
End HighRamEx.
