(* ===== verification/Fair.v ===== *)
(** * Fairness of the scheduler

    Bounded waiting: once a task is in the kernel's ready queue, it runs after at
    most as many timer ticks as there are tasks in front of it, whatever the tasks
    do in between.  They may run, fault, make any system call, pass the processor
    on by IPC, start new tasks and die: none of this lets anyone overtake, because
    the kernel only ever takes tasks from the front of the queue and adds them at
    its end ([moved]), and a tick always takes one. *)

From S2P Require Import Prelude Abi Cap Task Sched Ipc Radix Paging User Build Kernel System Fdt Spawn Boot Secure.

(** ** The ready queue *)

(** From the front the task that runs now may have left, and others have joined at
    the end. *)
Definition moved (l : list Z) (c' : Z) (l' : list Z) : Prop :=
  exists added, l' = l ++ added \/ exists rest, l = c' :: rest /\ l' = rest ++ added.

Lemma moved_grow l c' added : moved l c' (l ++ added).
Proof. exists added. by left. Qed.

Lemma moved_same l c' : moved l c' l.
Proof. exists []. left. by rewrite app_nil_r. Qed.

(** A task that waits does not fall behind. *)
Lemma moved_lookup l c' l' i p :
  moved l c' l' -> l !! i = Some p -> c' = p \/ exists j, l' !! j = Some p /\ (j <= i)%nat.
Proof.
  intros (added & [->|(rest & -> & ->)]) Hi.
  - right. exists i. split; [|done]. apply lookup_app_l_Some. exact Hi.
  - destruct i as [|i]; [left; by injection Hi|]. right. exists i. split; [|lia]. by apply lookup_app_l_Some.
Qed.

Lemma chain_fun nx h l l' : chain nx h l -> chain nx h l' -> l = l'.
Proof.
  revert h l'. induction l as [|p l IH]; intros h [|p' l']; simpl; [done|naive_solver..|].
  intros (-> & _ & Hl) (-> & _ & Hl'). f_equal. by eapply IH.
Qed.

(** *** The contract's steps *)

(** Ready tasks joined. *)
Definition grows (a a' : astate) : Prop := exists added, a_ready a' = a_ready a ++ added.

Lemma grows_same a a' : a_ready a' = a_ready a -> grows a a'.
Proof. intros E. exists []. by rewrite app_nil_r. Qed.

Lemma grows_trans a1 a2 a3 : grows a1 a2 -> grows a2 a3 -> grows a1 a3.
Proof. intros [l E] [l' E']. exists (l ++ l'). by rewrite E', E, app_assoc. Qed.

Lemma grows_enqueue p a a' : grows a a' -> grows a (spec_enqueue p a').
Proof. intros Hg. eapply grows_trans; [exact Hg|]. by exists [p]. Qed.

(** An operation that may have to wait: it does not if somebody is ready, and the
    queue moves. *)
Definition goes (a : astate) (o : bool * astate) : Prop :=
  (a_ready a <> [] -> o.1 = true) /\ (o.1 = true -> moved (a_ready a) (a_cur o.2) (a_ready o.2)).

Lemma goes_true a a' : grows a a' -> goes a (true, a').
Proof. intros [l E]. split; [done|]. intros _. simpl. rewrite E. apply moved_grow. Qed.

Lemma goes_block a a' : grows a a' -> goes a (spec_block a').
Proof.
  intros [l E]. unfold spec_block, goes. rewrite E. destruct (a_ready a) as [|p l'] eqn:Ea.
  - split; [done|]. destruct (l) as [|q l'']; simpl; [done|]. intros _. apply (moved_grow []).
  - simpl. split; [done|]. intros _. exists l. right. by exists l'.
Qed.

Lemma grows_abort h a : grows a (spec_abort h a).
Proof. unfold spec_abort. case_decide; [by apply grows_same|]. by apply grows_enqueue, grows_same. Qed.

Lemma grows_reply a : grows a (spec_reply a).
Proof. unfold spec_reply. case_decide; [by apply grows_same|]. by apply grows_enqueue, grows_same. Qed.

Lemma moved_from l added c' l' : moved (l ++ added) c' l' -> moved l c' l'.
Proof.
  intros (more & [->|(rest & E & ->)]); [rewrite <- app_assoc; apply moved_grow|].
  destruct l as [|p l]; [apply (moved_grow [])|]. injection E as -> <-.
  exists (added ++ more). right. exists l. by rewrite app_assoc.
Qed.

Lemma goes_from a a' o : grows a a' -> goes a' o -> goes a o.
Proof.
  intros [l E] [H1 H2]. rewrite E in H1, H2. split.
  - intros Hn. apply H1. by destruct (a_ready a).
  - intros Ho. by eapply moved_from, H2.
Qed.

Lemma goes_wait e s a : goes a (spec_block_on e s a).
Proof. by apply goes_block, grows_same. Qed.

Create HintDb fair.
#[local] Hint Resolve goes_true goes_block goes_wait grows_enqueue grows_abort grows_reply : fair.
#[local] Hint Extern 1 (grows ?a ?a') => (by apply grows_same) : fair.

Lemma goes_contract k e nb a : goes a (contract k e nb a).
Proof.
  assert (Hrecv : forall a, goes a (spec_recv e nb a)).
  { clear a. intros a. unfold spec_recv. destruct (first_waiter _ e a) as [[t l]|]; [|destruct nb; auto with fair].
    case_decide; [|auto with fair]. apply goes_true. eapply grows_trans; [apply (grows_same a)|apply grows_abort]. done. }
  destruct k; simpl; [|apply Hrecv| |by eapply goes_from; [apply grows_reply|apply Hrecv]].
  - unfold spec_send. destruct (first_waiter _ e a) as [[t l]|]; [|destruct nb; auto with fair].
    apply goes_true. by exists [t].
  - unfold spec_call. destruct (first_waiter _ e a) as [[t l]|]; [|destruct nb; auto with fair].
    apply goes_block, grows_enqueue. eapply grows_trans; [apply (grows_same a)|apply grows_abort]. done.
Qed.

Lemma goes_ipc k cn a : goes a (spec_ipc k cn a).
Proof. unfold spec_ipc. destruct (ep_of cn _); [apply goes_contract|auto with fair..]. Qed.

Lemma goes_kill a : goes a (spec_kill a).
Proof. apply goes_block. eapply grows_trans; [apply grows_abort|by apply grows_same]. Qed.

(** ** Handlers *)

Section handlers.
Context `{Platform, PoolVa, !PoolVaOk}.

(** The linked list that the scheduler keeps. *)
Definition ready_queue (k : kstate) (l : list Z) : Prop :=
  let st := k_tasks k in queue (nx st) (s_head (sched st)) (s_tail (sched st)) l.

#[local] Abbreviation cur_of k := (current (sched (k_tasks k))).

Lemma ready_queue_inv b k l a : tasks_inv b (k_cnode k) (k_tasks k) a -> ready_queue k l -> l = a_ready a.
Proof. intros Ha [Hl _]. destruct (rep_ready _ _ (ti_rep _ _ _ _ Ha)) as [Hc _]. by eapply chain_fun. Qed.

(** A system call that returns to its caller: the caller goes on, others may become
    ready. *)
Definition call_grows (m : K Z) (k : kstate) : Prop := forall l v k',
  ready_queue k l -> m k = (Ok v, k') -> exists added, ready_queue k' (l ++ added).

Lemma ready_queue_frame k k' l :
  sched (k_tasks k') = sched (k_tasks k) -> (forall p, p ∈ l -> nx (k_tasks k') p = nx (k_tasks k) p) ->
  ready_queue k l -> exists added, ready_queue k' (l ++ added).
Proof.
  intros Es Hn Hq. exists []. rewrite app_nil_r. unfold ready_queue. rewrite Es. by eapply queue_frame.
Qed.

Lemma putc_grows slot byte k : call_grows (sys_putc slot byte) k.
Proof.
  intros l v k' Hq E. eapply ready_queue_frame; [..|exact Hq]; revert E; unfold sys_putc, con_put_byte, bind, getS;
    (destruct (cap (k_cnode k) slot) as [[]|]; try (by intros [= _ <-])); destruct (safe_byte byte =? 10); by intros [= _ <-].
Qed.

Lemma map_grows b slot va perm aspace k :
  board_ok b -> kinv b k -> is_u64 slot -> is_u64 va -> call_grows (sys_map slot va perm aspace) k.
Proof.
  intros Hb Hk Hs Hva l v k' Hq E. destruct (sys_map_spec b k slot va perm aspace Hb Hk Hs Hva) as (v1 & k1 & E1 & _ & Ho).
  rewrite E in E1. injection E1 as <- <-.
  assert (Ht : k_tasks k' = k_tasks k).
  { destruct Ho as [[-> _]|(root & base & _ & [[_ (up & _ & [[_ (w & -> & _)]|[-> _]])]|[_ [[_ (w & n & -> & _)]|[-> _]]]])]; done. }
  eapply ready_queue_frame; [..|exact Hq]; by rewrite Ht.
Qed.

Lemma retype_grows b slot kind k :
  board_ok b -> kinv b k -> is_u64 slot -> call_grows (sys_retype slot kind) k.
Proof.
  intros Hb Hk Hs l v k' Hq E. destruct (sys_retype_spec b k slot kind Hb Hk Hs) as (v1 & k1 & E1 & Hr).
  rewrite E in E1. injection E1 as <- <-. destruct Hr as [[_ ->]|(c & [_ (bs & s & u & kd & _ & Hf & Hret) _ Ht _ _ _ _])];
    [by eapply ready_queue_frame; [..|exact Hq]|].
  pose proof Hk as (Hc & (a & Ha) & _). pose proof (ready_queue_inv b k l a Ha Hq) as ->.
  destruct Hret as (Ec & Hfit & _). rewrite <- granule_pow2 in Ec, Hfit. pose proof granule_bounds.
  destruct (round_up_spec GRANULE (bs + u)) as [_ Hlo]; [lia|]. rewrite <- Ec in Hlo.
  eapply ready_queue_frame; [..|exact Hq]; rewrite Ht; [done|]. intros p Hp. unfold nx. rewrite tcb_zero_objects.
  case_decide as Hin; [|done]. exfalso.
  destruct (objects_fresh b (k_cnode k) slot bs s u c p Hb Hc Hf) as [Hl _]; [lia..|]. apply Hl.
  destruct (ti_ainv _ _ _ _ Ha) as [Hac _]. apply (ac_live _ _ _ _ Hac). apply (ac_ready _ _ _ _ Hac) in Hp. by rewrite Hp.
Qed.

Lemma configure_grows b slot entry stack aspace k :
  board_ok b -> kinv b k -> call_grows (sys_tcb_configure slot entry stack aspace) k.
Proof.
  intros Hb Hk l v k' Hq E. assert (Hsame : k' = k -> exists added, ready_queue k' (l ++ added))
    by (intros ->; by eapply ready_queue_frame; [..|exact Hq]).
  revert E. unfold sys_tcb_configure. do 2 (destruct (_ || _ || _); [intros [= _ <-]; by apply Hsame|]). unfold bind at 1, getS.
  destruct (cap (k_cnode k) aspace) as [[| |root| | | | | |]|]; try (intros [= _ <-]; by apply Hsame).
  destruct (cap (k_cnode k) slot) as [[| | | |base| | | |]|] eqn:Es; try (intros [= _ <-]; by apply Hsame). apply cap_filled in Es.
  unfold bind at 1, lift. rewrite (object_alias b (k_cnode k) (Cap.Tcb base)) by (done || apply Hk).
  case_bool_decide; [|intros [= _ <-]; by apply Hsame]. intros [= _ <-].
  eapply ready_queue_frame; [..|exact Hq]; [done|]. intros p _. unfold nx. simpl. rewrite tcb_upd. by case_decide as Ep; [subst p|].
Qed.

Lemma resume_grows b slot k : board_ok b -> kinv b k -> call_grows (sys_tcb_resume slot) k.
Proof.
  intros Hb Hk l v k' Hq E. destruct (tcb_resume_exact b k slot Hb Hk) as (v1 & k1 & E1 & _ & Hr).
  rewrite E in E1. injection E1 as <- <-.
  destruct Hr as [[-> _]|(_ & base & st' & a & _ & _ & -> & Hrep & Hq' & _)]; [by eapply ready_queue_frame; [..|exact Hq]|].
  assert (l = a_ready a) as -> by (eapply chain_fun; [apply Hq|apply (rep_ready _ _ Hrep)]). by eexists.
Qed.

(** A handler does not stop the machine while somebody is ready, and the queue moves. *)
Definition handler_moves (m : K unit) (k : kstate) : Prop := forall l, ready_queue k l ->
  (l <> [] -> fst (m k) = Ok tt) /\
  (fst (m k) = Ok tt -> exists l', ready_queue (snd (m k)) l' /\ moved l (cur_of (snd (m k))) l').

Lemma to_x0_moves b c m k : call_ok b m k -> call_grows m k -> handler_moves (to_x0 c m) k.
Proof.
  intros (v & k1 & E & _) Hg l Hq. destruct (Hg l v k1 Hq E) as [added Hq1]. unfold to_x0, bind. rewrite E. split; [done|].
  intros _. exists (l ++ added). split; [|apply moved_grow]. eapply queue_frame; [|exact Hq1].
  intros p _. unfold nx. simpl. unfold set_ctx. rewrite tcb_upd. by case_decide as Ep; [subst p|].
Qed.

(** The scheduler's own operations, through their contracts. *)
Lemma contract_moves b k l a (o : bool * astate) (r : res halt unit) k' :
  tasks_inv b (k_cnode k) (k_tasks k) a -> ready_queue k l -> goes a o -> rep (k_tasks k') o.2 -> (r = Ok tt <-> o.1 = true) ->
  (l <> [] -> r = Ok tt) /\ (r = Ok tt -> exists l', ready_queue k' l' /\ moved l (cur_of k') l').
Proof.
  intros Ha Hq [G1 G2] Hr Ho. rewrite (ready_queue_inv b k l a Ha Hq). rewrite Ho. split; [done|]. intros E.
  exists (a_ready o.2). split; [apply (rep_ready _ _ Hr)|]. rewrite (rep_cur _ _ Hr). by apply G2.
Qed.

Lemma goes_rotate a : goes a (true, spec_rotate a).
Proof.
  split; [done|]. intros _. unfold spec_rotate. destruct (a_ready a) as [|p l] eqn:E; simpl; [rewrite E; apply moved_same|].
  exists [a_cur a]. right. by exists l.
Qed.

Lemma kill_moves b k : kinv b k -> handler_moves kill k.
Proof.
  intros (_ & (a & Ha) & _) l Hq. destruct (kill_refines _ _ _ _ (ti_rep _ _ _ _ Ha) (ti_ainv _ _ _ _ Ha)) as (st' & E & Hr).
  unfold kill, bind, getS. rewrite E. eapply contract_moves; [exact Ha|exact Hq|apply goes_kill|..].
  - by destruct (fst (spec_kill a)).
  - by destruct (fst (spec_kill a)).
Qed.

Lemma ipc_moves b kd k :
  board_ok b -> kinv b k -> handler_moves (ipc_or_park (handler kd) (current_context (k_tasks k))) k.
Proof.
  intros Hb (Hc & (a & Ha) & _) l Hq.
  destruct (ipc_step _ _ kd (k_cnode k) _ _ (ti_rep _ _ _ _ Ha) (ti_ainv _ _ _ _ Ha) (endpoints_ok_isep b _ Hb Hc)) as (st' & E & Hr).
  unfold ipc_or_park. rewrite E. eapply contract_moves; [exact Ha|exact Hq|apply (goes_ipc kd (k_cnode k))|..].
  - by destruct (fst (spec_ipc kd (k_cnode k) a)).
  - by destruct (fst (spec_ipc kd (k_cnode k) a)).
Qed.

Lemma ready_queue_ctx p f k l : ready_queue k l -> ready_queue (set_tasks (set_ctx p f (k_tasks k)) k) l.
Proof.
  intros Hq. eapply queue_frame; [|exact Hq]. intros q _. unfold nx. simpl. unfold set_ctx. rewrite tcb_upd.
  by case_decide as Ep; [subst q|].
Qed.

Lemma set_ctx_moves p f k : handler_moves (on_tasks (set_ctx p f)) k.
Proof. intros l Hq. split; [done|]. intros _. exists l. split; [by apply ready_queue_ctx|apply moved_same]. Qed.

Lemma rotate_moves b k : kinv b k -> handler_moves (on_tasks rotate) k.
Proof.
  intros (_ & (a & Ha) & _) l Hq.
  eapply (contract_moves b k l a (true, spec_rotate a)); [exact Ha|exact Hq|apply goes_rotate| |done].
  apply (ti_rep _ _ _ _ (tasks_rotate _ _ _ _ Ha)).
Qed.

Lemma getS_moves f k : handler_moves (f k) k -> handler_moves (do! k := getS in f k) k.
Proof. done. Qed.

Lemma print_moves o m k : handler_moves m (print o k) -> handler_moves (do! _ := modS (print o) in m) k.
Proof. done. Qed.

Lemma yield_moves b p k v :
  kinv b k -> is_u64 v -> handler_moves (do! _ := on_tasks (set_ctx p (set_reg 0 v)) in on_tasks rotate) k.
Proof.
  intros Hk Hv l Hq. pose proof Hk as (_ & (a & Ha) & _).
  apply (rotate_moves b (set_tasks (set_ctx p (set_reg 0 v) (k_tasks k)) k)); [|by apply ready_queue_ctx].
  eapply kinv_set_tasks; [done|]. apply tasks_set_ctx; [exact Ha|]. intros. by apply set_reg_ok.
Qed.

Lemma syscall_moves b k : board_ok b -> kinv b k -> handler_moves (k0_syscall (current_context (k_tasks k))) k.
Proof.
  intros Hb Hk. pose proof Hk as (_ & (a & Ha) & _).
  assert (Hreg : forall i, is_u64 (reg (ctx (tcb (k_tasks k) (current_context (k_tasks k)))) i)).
  { intros i. apply reg_u64. rewrite (rep_ctx _ _ (ti_rep _ _ _ _ Ha)). apply (ti_ctxs _ _ _ _ Ha). }
  set (c := current_context (k_tasks k)) in *.
  assert (Hx : forall m, call_ok b m k -> call_grows m k -> handler_moves (to_x0 c m) k) by (intros; by eapply to_x0_moves).
  unfold k0_syscall. apply getS_moves. cbv zeta.
  set (xr := reg (ctx (tcb (k_tasks k) c))) in *. change (forall i, is_u64 (xr i)) in Hreg.
  repeat match goal with |- context [if ?n =? _ then _ else _] => destruct (n =? _) end.
  - apply Hx; [by apply sys_putc_ok|apply putc_grows].
  - by apply (yield_moves b).
  - by apply print_moves, (kill_moves b).
  - apply Hx; [by apply sys_retype_ok|by apply (retype_grows b)].
  - apply Hx; [by apply sys_map_ok|by apply (map_grows b)].
  - apply Hx; [by apply sys_tcb_configure_ok|by apply (configure_grows b)].
  - apply Hx; [by apply sys_tcb_resume_ok|by apply (resume_grows b)].
  - by apply (ipc_moves b Send).
  - by apply (ipc_moves b Recv).
  - by apply (ipc_moves b Call).
  - by apply (ipc_moves b ReplyRecv).
  - by apply print_moves, (kill_moves b).
Qed.

Lemma handle_moves b k ev : board_ok b -> kinv b k -> trap_ok ev k -> handler_moves (handle ev) k.
Proof.
  intros Hb Hk Ht. destruct ev as [esr far|]; [|by apply (rotate_moves b)]. unfold handle. change (handler_moves (el0_sync (current_context (k_tasks k)) esr far) k).
  unfold el0_sync. simpl in Ht.
  destruct (Z.eqb_spec (Z.land (Z.shiftr esr 26) 63) 21); [by apply (syscall_moves b)|].
  destruct (Z.eqb_spec (Z.land (Z.shiftr esr 26) 63) 1) as [E|]; [|by apply getS_moves, print_moves, (kill_moves b)].
  apply getS_moves. cbv zeta. unfold bind, lift, handler_moves. rewrite add_p_ok by (specialize (Ht E); lia). apply set_ctx_moves.
Qed.

(** ** Waiting *)

(** An execution with [n] ticks, in which [p] has not come to run.  Between the
    ticks the tasks may do anything. *)
Inductive waits (p : Z) : nat -> kstate -> kstate -> Prop :=
| waits_start k : waits p 0 k k
| waits_sync n k k1 k2 k' esr far :
    user_run k k1 -> trap_ok (Sync esr far) k1 -> handle (Sync esr far) k1 = (Ok tt, k2) -> cur_of k2 <> p ->
    waits p n k2 k' -> waits p n k k'
| waits_tick n k k1 k2 k' :
    user_run k k1 -> handle Tick k1 = (Ok tt, k2) -> cur_of k2 <> p -> waits p n k2 k' -> waits p (S n) k k'.

Lemma user_run_queue k k1 l : user_run k k1 -> ready_queue k l -> ready_queue k1 l.
Proof. intros (cx & w & _ & _ & ->) Hq. by apply (ready_queue_ctx _ _ k). Qed.

(** A tick takes the first task. *)
Lemma tick_takes b k p l k' :
  kinv b k -> ready_queue k (p :: l) -> handle Tick k = (Ok tt, k') -> cur_of k' = p /\ ready_queue k' (l ++ [cur_of k]).
Proof.
  intros (_ & (a & Ha) & _) Hq [= <-]. pose proof (ready_queue_inv b k _ a Ha Hq) as El.
  pose proof (ti_rep _ _ _ _ (tasks_rotate _ _ _ _ Ha)) as Hr. unfold spec_rotate in Hr. rewrite <- El in Hr.
  split; [exact (rep_cur _ _ Hr)|]. rewrite (rep_cur _ _ (ti_rep _ _ _ _ Ha)). exact (rep_ready _ _ Hr).
Qed.

Lemma step_waits b k k1 ev k2 p l i :
  board_ok b -> kinv b k -> user_run k k1 -> trap_ok ev k1 -> handle ev k1 = (Ok tt, k2) ->
  ready_queue k l -> l !! i = Some p -> cur_of k2 <> p ->
  kinv b k2 /\ exists l' j, ready_queue k2 l' /\ l' !! j = Some p /\ (j + match ev with Tick => 1 | _ => 0 end <= i)%nat.
Proof.
  intros Hb Hk Hu Ht Hh Hq Hi Hp. pose proof (user_run_ok b k k1 Hb Hk Hu) as Hk1.
  pose proof (user_run_queue k k1 l Hu Hq) as Hq1.
  split; [destruct (handle_ok b k1 ev Hb Hk1 Ht) as (r & k' & Eh & Hr); rewrite Hh in Eh; by simplify_eq|].
  destruct ev as [esr far|].
  - destruct (handle_moves b k1 _ Hb Hk1 Ht l Hq1) as [_ Hm]. rewrite Hh in Hm. destruct (Hm eq_refl) as (l' & Hq' & Hmv).
    destruct (moved_lookup _ _ _ i p Hmv Hi) as [?|(j & Hj & Hle)]; [done|]. exists l', j. split_and!; [done|done|lia].
  - destruct l as [|q l]; [done|]. destruct (tick_takes b k1 q l k2 Hk1 Hq1 Hh) as [Ec Hq'].
    destruct i as [|i]; [injection Hi as ->; done|]. exists (l ++ [cur_of k1]), i.
    split_and!; [exact Hq'|by apply lookup_app_l_Some|lia].
Qed.

Lemma waits_queue b p n k k' l i :
  board_ok b -> waits p n k k' -> kinv b k -> ready_queue k l -> l !! i = Some p ->
  kinv b k' /\ exists l' j, ready_queue k' l' /\ l' !! j = Some p /\ (j + n <= i)%nat.
Proof.
  intros Hb Hw. revert l i. induction Hw as [k|n k k1 k2 k' esr far Hu Ht Hh Hp _ IH|n k k1 k2 k' Hu Hh Hp _ IH]; intros l i Hk Hq Hi.
  - split; [done|]. exists l, i. split_and!; [done|done|lia].
  - destruct (step_waits b k k1 _ k2 p l i Hb Hk Hu Ht Hh Hq Hi Hp) as (Hk2 & l2 & i2 & Hq2 & Hi2 & Hle).
    destruct (IH l2 i2 Hk2 Hq2 Hi2) as (Hk' & l' & j & Hq' & Hj & Hle'). split; [done|]. exists l', j. split_and!; [done|done|lia].
  - destruct (step_waits b k k1 Tick k2 p l i Hb Hk Hu I Hh Hq Hi Hp) as (Hk2 & l2 & i2 & Hq2 & Hi2 & Hle).
    destruct (IH l2 i2 Hk2 Hq2 Hi2) as (Hk' & l' & j & Hq' & Hj & Hle'). split; [done|]. exists l', j. split_and!; [done|done|lia].
Qed.

(** Tasks are objects of the CNode, or the root task. *)
Lemma ready_queue_length b k l : kinv b k -> ready_queue k l -> Z.of_nat (length l) <= CNODE_SLOTS.
Proof.
  intros (Hc & (a & Ha) & _) Hq. rewrite (ready_queue_inv b k l a Ha Hq). destruct (ti_ainv _ _ _ _ Ha) as [Hac _].
  set (at_ := fun c => match c with Cap.Tcb base => base + KERNEL_VA_OFFSET | _ => 0 end).
  assert (Hcur : a_state a (a_cur a) = Running) by by apply (ac_running _ _ _ _ Hac).
  assert (Hs : a_cur a :: a_ready a ⊆+ b_root_tcb b :: (at_ <$> filled (k_cnode k))).
  { apply NoDup_submseteq.
    - constructor; [|apply (ac_ready_nodup _ _ _ _ Hac)]. rewrite (ac_ready _ _ _ _ Hac), Hcur. done.
    - intros p Hp. assert (Hl : live b (k_cnode k) p).
      { apply (ac_live _ _ _ _ Hac). apply elem_of_cons in Hp as [->|Hp]; [by rewrite Hcur|].
        apply (ac_ready _ _ _ _ Hac) in Hp. by rewrite Hp. }
      destruct Hl as [->|(base & Hin & ->)]; [by left|]. right. apply list_elem_of_fmap. by exists (Cap.Tcb base). }
  apply submseteq_length in Hs. simpl in Hs. rewrite length_fmap, (length_filled _ (ci_wf _ _ _ Hc)) in Hs.
  destruct (ci_wf _ _ _ Hc). lia.
Qed.

(** C19: bounded waiting.  A ready task [p] stands somewhere in the kernel's ready
    queue, which holds at most one task for each capability slot.  Whatever the
    tasks do from then on - run, fault, make any system call, exchange messages,
    start tasks, exit - as long as [p] has not run, at most as many timer ticks
    have passed as tasks stood in front of it; every further exception is handled
    and returns to a task; and a tick beyond that bound runs [p]. *)
Theorem preemption_fair b k p :
  board_ok b -> kinv b k -> state (tcb (k_tasks k) p) = Ready ->
  exists l i, ready_queue k l /\ l !! i = Some p /\ Z.of_nat (length l) <= CNODE_SLOTS /\
    forall n k', waits p n k k' -> (n <= i)%nat /\
      forall k1 ev, user_run k' k1 -> trap_ok ev k1 -> exists k2, handle ev k1 = (Ok tt, k2) /\
        (ev = Tick -> n = i -> current (sched (k_tasks k2)) = p).
Proof.
  intros Hb Hk Hs. pose proof Hk as (_ & (a & Ha) & _). destruct (ti_ainv _ _ _ _ Ha) as [Hac _].
  rewrite (rep_state _ _ (ti_rep _ _ _ _ Ha)) in Hs. apply (ac_ready _ _ _ _ Hac), list_elem_of_lookup in Hs as [i Hi].
  pose proof (rep_ready _ _ (ti_rep _ _ _ _ Ha)) as Hq. change (ready_queue k (a_ready a)) in Hq. exists (a_ready a), i.
  split; [done|]. split; [done|]. split; [by eapply ready_queue_length|]. intros n k' Hw.
  destruct (waits_queue b p n k k' _ i Hb Hw Hk Hq Hi) as (Hk' & l' & j & Hq' & Hj & Hle). split; [lia|]. intros k1 ev Hu Ht.
  pose proof (user_run_ok b k' k1 Hb Hk' Hu) as Hk1. pose proof (user_run_queue _ _ _ Hu Hq') as Hq1.
  destruct (handle_moves b k1 ev Hb Hk1 Ht l' Hq1) as [Hok _]. specialize (Hok ltac:(by destruct l')).
  exists (snd (handle ev k1)). assert (E : handle ev k1 = (Ok tt, snd (handle ev k1))) by (rewrite <- Hok; apply surjective_pairing).
  split; [exact E|]. intros -> ->. assert (j = 0%nat) as -> by lia. destruct l' as [|q l']; [done|]. injection Hj as ->.
  by apply (tick_takes b k1 p l').
Qed.
End handlers.

Module FairEx.
Import PagingEx BootEx SecureEx.

(** The root task has started a second task: it waits, the root task sends a byte
    to the console, and the next tick runs it. *)
Lemma preemption_fair_witness : exists b k k1 k2, kinv b k /\ waits child 0 k k1 /\ handle Tick (idle k1) = (Ok tt, k2) /\
  current (sched (k_tasks k2)) = child.
Proof.
  destruct (make_task_ex true (fun k => state (tcb (k_tasks k) child) = Ready /\ s_head (sched (k_tasks k)) = child /\
    fst (handle (Sync 0x56000000 0) (putting 65 k)) = Ok tt /\ current (sched (k_tasks (put 65 k))) <> child))
    as (b & k & Hb & Hk & Hs & Hh & Hp & Hc); [vm_compute; repeat split; discriminate|].
  destruct (put_step k 65) as (Hu & Ht & Hst); [split; [discriminate|reflexivity]|exact Hp|].
  assert (Hw : waits child 0 k (put 65 k)) by (eapply waits_sync; [exact Hu|exact Ht|exact Hst|exact Hc|apply waits_start]).
  assert (Hk1 : kinv b (put 65 k)) by (eapply (step_ok b k); [exact Hb|exact Hk|eapply step_trap; [exact Hu|exact Ht|exact Hst]]).
  destruct (preemption_fair b k child Hb Hk Hs) as (l & i & ((Hl & _ & Hn) & Hi & _ & Hf)).
  assert (i = 0%nat) as ->.
  { destruct l as [|q l]; [discriminate Hi|]. destruct Hl as (E & _). eapply NoDup_lookup; [exact Hn|exact Hi|]. simpl. congruence. }
  destruct (Hf 0%nat (put 65 k) Hw) as [_ Hnext].
  destruct (Hnext (idle (put 65 k)) Tick (idle_run b _ Hk1) I) as (k2 & E & Hrun).
  exists b, k, (put 65 k), k2. split; [exact Hk|]. split; [exact Hw|]. split; [exact E|exact (Hrun eq_refl eq_refl)].
Defined.
End FairEx.
