(* ===== verification/Machine.v ===== *)
(** * User programs on the kernel

    Programs are interaction trees over the operations of EL0 code: system
    calls, loads and stores through the MMU, atomics, the thread pointers, and
    instructions that trap.  The machine interleaves one program per task as the
    processor does: the current task runs until it traps or the timer fires, the
    vectors save its registers (crates/k0-arch/src/vectors.S), the kernel handles
    the exception, and whichever task is current then goes on.  The schedule says
    when the timer fires and is arbitrary.

    [machine_refines] shows that every run of the machine, for every program and
    every schedule, is an execution of the system of System.v, so that the
    theorems of Secure.v hold of it. *)

From ITree Require Import Core.ITreeDefinition.
From S2P Require Import Prelude Abi Cap Task Sched Ipc Radix Paging User Kernel System Fdt Spawn Boot Secure.

(** ** Programs *)

Inductive userE : Type -> Type :=
(* [svc #0] with x8 and x0 up to x5; returns x0 to x5 *)
| Svc (nr : Z) (args : list Z) : userE (list Z)
(* aligned 64-bit accesses *)
| Read (va : Z) : userE Z
| Write (va v : Z) : userE unit
| Rmw (va : Z) (f : Z -> Z) : userE Z
| GetTpidr : userE Z
| SetTpidr (v : Z) : userE unit
| GetTpidrro : userE Z
(* an FP/SIMD instruction, and one that is undefined *)
| FpInstr : userE unit
| Undef : userE unit.

(** Entry points never return. *)
Abbreviation prog := (itree userE Empty_set).

Definition op {A} (e : userE A) : itree userE A := ITree.trigger e.

Notation "'let!' x := c 'in' k" := (ITree.bind c (fun x => k))
  (at level 10, x binder, c at level 100, k at level 200).

(** [while cond { body }] and [loop { body }]. *)
Definition while (cond : itree userE bool) (body : itree userE unit) : itree userE unit :=
  ITree.iter (fun _ : unit =>
    let! b := cond in
    if (b : bool) then let! _ := body in Ret (inl tt) else Ret (inr tt)) tt.

Definition forever {A} (body : itree userE unit) : itree userE A :=
  ITree.iter (fun _ : unit => let! _ := body in Ret (inl tt)) tt.

(** Where a task goes on: after a system call, or where it was interrupted. *)
Inductive cont :=
| Back (k : list Z -> prog)
| Go (t : prog).

Record machine := mkMachine {
  m_k : kstate;
  m_threads : gmap Z cont
}.

(** Syndromes of the exceptions from EL0. *)
Definition ESR_SVC : Z := Z.shiftl 0x15 26.
Definition ESR_DATA_ABORT : Z := Z.shiftl 0x24 26.
Definition ESR_FP : Z := Z.shiftl 0x07 26.
Definition ESR_UNKNOWN : Z := 0.

Section machine.
Context `{Platform, PoolVa}.

(** ** Memory *)

Definition phys (d va : Z) : Z := Z.land d ADDR_MASK + va mod GRANULE.

Definition load (w : words) (root va : Z) : option Z :=
  match utranslate w root va with
  | Some d => if el0_accessible d then Some (rd_word w (phys d va)) else None
  | None => None
  end.

Definition store (w : words) (root va v : Z) : option words :=
  match utranslate w root va with
  | Some d => if el0_writable d then Some (<[phys d va := as_u64 v]> w) else None
  | None => None
  end.

(** ** Running a task *)

Definition set_args (nr : Z) (args : list Z) (cx : Context) : Context :=
  set_reg 8 (as_u64 nr) (mkContext ((as_u64 <$> take 6 args) ++ drop (length (take 6 args)) (x cx)) (sp cx) (elr cx) (spsr cx) (tpidr cx) (tpidrro cx)).

Definition results (cx : Context) : list Z := reg cx <$> [0; 1; 2; 3; 4; 5]%nat.

Definition set_tpidr_el0 (v : Z) (cx : Context) : Context :=
  mkContext (x cx) (sp cx) (elr cx) (spsr cx) (as_u64 v) (tpidrro cx).

(** At most [n] operations before the timer fires: the registers and memory at
    the exception, and how the task goes on afterwards. *)
Fixpoint slice (n : nat) (root : Z) (t : prog) (cx : Context) (w : words) : Context * words * (event * cont) :=
  match n with
  | O => (cx, w, (Tick, Go t))
  | S n' =>
    match observe t with
    | RetF r => match r : Empty_set with end
    | TauF t' => slice n' root t' cx w
    | VisF e k =>
      match e in userE X return (X -> prog) -> Context * words * (event * cont) with
      | Svc nr args => fun k => (set_args nr args cx, w, (Sync ESR_SVC 0, Back k))
      | Read va => fun k =>
        match load w root va with
        | Some v => slice n' root (k v) cx w
        | None => (cx, w, (Sync ESR_DATA_ABORT va, Go t))
        end
      | Write va v => fun k =>
        match store w root va v with
        | Some w' => slice n' root (k tt) cx w'
        | None => (cx, w, (Sync ESR_DATA_ABORT va, Go t))
        end
      | Rmw va f => fun k =>
        match load w root va with
        | Some v =>
          match store w root va (f v) with
          | Some w' => slice n' root (k v) cx w'
          | None => (cx, w, (Sync ESR_DATA_ABORT va, Go t))
          end
        | None => (cx, w, (Sync ESR_DATA_ABORT va, Go t))
        end
      | GetTpidr => fun k => slice n' root (k (tpidr cx)) cx w
      | SetTpidr v => fun k => slice n' root (k tt) (set_tpidr_el0 v cx) w
      | GetTpidrro => fun k => slice n' root (k (tpidrro cx)) cx w
      | FpInstr => fun _ => (cx, w, (Sync ESR_FP 0, Go t))
      | Undef => fun _ => (cx, w, (Sync ESR_UNKNOWN 0, Go t))
      end k
    end
  end.

(** ** Turns *)

Context (code : Z -> prog).

(** What the current task runs next; a new task starts at its entry point. *)
Definition resume (m : machine) : prog :=
  let p := current_context (k_tasks (m_k m)) in
  let cx := ctx (tcb (k_tasks (m_k m)) p) in
  match m_threads m !! p with
  | Some (Back k) => k (results cx)
  | Some (Go t) => t
  | None => code (elr cx)
  end.

Inductive outcome :=
| Runs (m : machine)
| Halts (k : kstate)
| Crashes.

Definition turn (n : nat) (m : machine) : outcome :=
  let k := m_k m in
  let p := current_context (k_tasks k) in
  let '(cx, w, (ev, c)) := slice n (ttbr0 (k_tasks k)) (resume m) (ctx (tcb (k_tasks k) p)) (k_words k) in
  match handle ev (set_words w (set_tasks (set_ctx p (fun _ => cx) (k_tasks k)) k)) with
  | (Ok _, k') => Runs (mkMachine k' (<[p := c]> (m_threads m)))
  | (Err Parked, k') => Halts k'
  | _ => Crashes
  end.

Fixpoint turns (sched : nat -> nat) (i n : nat) (m : machine) : outcome :=
  match n with
  | O => Runs m
  | S n' =>
    match turn (sched i) m with
    | Runs m' => turns sched (S i) n' m'
    | o => o
    end
  end.

Lemma turns_S sched i n m :
  turns sched i (S n) m = match turn (sched i) m with Runs m' => turns sched (S i) n m' | o => o end.
Proof. done. Qed.

Lemma turns_app sched i n1 n2 m :
  turns sched i (n1 + n2) m =
    match turns sched i n1 m with Runs m' => turns sched (i + n1) n2 m' | o => o end.
Proof.
  revert i m. induction n1 as [|n1 IH]; intros i m; cbn [turns Nat.add]; [by rewrite Nat.add_0_r|].
  destruct (turn (sched i) m); [|done..]. rewrite IH. by rewrite Nat.add_succ_comm.
Qed.

Definition start (k : kstate) : machine := mkMachine k ∅.

(** *** Tasks that trap by themselves

    A task that traps within [bound] operations does not notice a timer that
    fires later. *)

Definition traps (bound : nat) (m : machine) : bool :=
  let k := m_k m in
  let cx := ctx (tcb (k_tasks k) (current_context (k_tasks k))) in
  match (slice bound (ttbr0 (k_tasks k)) (resume m) cx (k_words k)).2.1 with Sync _ _ => true | Tick => false end.

(** [n] turns, all of which end in a trap. *)
Fixpoint trapping (bound n : nat) (m : machine) : option machine :=
  match n with
  | O => Some m
  | S n' => if traps bound m then match turn bound m with Runs m' => trapping bound n' m' | _ => None end else None
  end.

Lemma trapping_S bound n m m' :
  trapping bound (S n) m = Some m' ->
  traps bound m = true /\ exists m1, turn bound m = Runs m1 /\ trapping bound n m1 = Some m'.
Proof. cbn [trapping]. destruct (traps bound m); [|done]. destruct (turn bound m) as [m1| |]; [|done..]. eauto. Qed.

Lemma slice_more n j root t cx w :
  (slice n root t cx w).2.1 <> Tick -> slice (n + j) root t cx w = slice n root t cx w.
Proof.
  revert t cx w. induction n as [|n IH]; intros t cx w; [done|]. cbn [slice Nat.add].
  destruct (observe t) as [[]|t'|X e kk]; [by apply IH|]. destruct e; try done; try by apply IH.
  - destruct (load w root va); [by apply IH|done].
  - destruct (store w root va v); [by apply IH|done].
  - destruct (load w root va) as [v|]; [|done]. destruct (store w root va (f v)); [by apply IH|done].
Qed.

Lemma turn_more bound n m : traps bound m = true -> (bound <= n)%nat -> turn n m = turn bound m.
Proof.
  intros Ht Hn. unfold turn. replace n with (bound + (n - bound))%nat by lia. rewrite slice_more; [done|].
  intros E. unfold traps in Ht. by rewrite E in Ht.
Qed.

Lemma trapping_turns sched bound i n m m' :
  trapping bound n m = Some m' -> (forall j, bound <= sched j)%nat -> turns sched i n m = Runs m'.
Proof.
  intros Ht Hs. revert i m Ht. induction n as [|n IH]; intros i m; cbn [trapping turns]; [by intros [= ->]|].
  destruct (traps bound m) eqn:E; [|done]. rewrite (turn_more bound (sched i) m E) by apply Hs.
  destruct (turn bound m); [|done..]. apply IH.
Qed.
End machine.

(** ** Runs are executions of the system *)

Section refine.
Context `{Platform, PoolVa, !PoolVaOk}.

Lemma set_args_ok nr args cx : ctx_ok cx -> ctx_ok (set_args nr args cx).
Proof.
  intros (Hl & Hu & Hs). unfold set_args, set_reg. split_and!; cbn [x spsr].
  - rewrite length_insert, length_app, length_fmap, length_drop, length_take. lia.
  - apply Forall_insert; [|apply Z.mod_pos_bound; lia]. apply Forall_app. split; [|by apply Forall_drop].
    apply Forall_fmap, Forall_true. intros v. apply Z.mod_pos_bound. lia.
  - done.
Qed.

Lemma set_tpidr_ok v cx : ctx_ok cx -> ctx_ok (set_tpidr_el0 v cx).
Proof. done. Qed.

(** The current task's saved registers. *)
Lemma current_ctx_ok b k : kinv b k -> ctx_ok (ctx (tcb (k_tasks k) (current_context (k_tasks k)))).
Proof. intros (_ & (a & Ht) & _). rewrite (rep_ctx _ _ (ti_rep _ _ _ _ Ht)). apply (ti_ctxs _ _ _ _ Ht). Qed.

(** What a task can do before it traps. *)
Definition may_trap (ev : event) : Prop :=
  match ev with Sync esr _ => Z.land (Z.shiftr esr 26) 0x3F <> 0x01 | Tick => True end.

Section task.
Context (b : board) (k : kstate) (Hb : board_ok b) (Hk : kinv b k).

Lemma insert_user_store w va d v :
  user_store (ttbr0 (k_tasks k)) (k_words k) w -> utranslate (k_words k) (ttbr0 (k_tasks k)) va = Some d ->
  el0_writable d = true -> user_store (ttbr0 (k_tasks k)) (k_words k) (<[phys d va := v]> w).
Proof.
  intros Hw E Ed j Hj. destruct (decide (j = phys d va)) as [->|Hne].
  - exists va, d. split_and!; [done|done|..]; unfold phys; pose proof granule_bounds;
      pose proof (Z.mod_pos_bound va GRANULE); lia.
  - rewrite lookup_insert_ne in Hj by done. by apply Hw.
Qed.

Lemma store_user_store w va v w' :
  user_store (ttbr0 (k_tasks k)) (k_words k) w -> store w (ttbr0 (k_tasks k)) va v = Some w' ->
  user_store (ttbr0 (k_tasks k)) (k_words k) w'.
Proof.
  intros Hw. unfold store. rewrite (user_store_translate b k w _ va Hb Hk Hw (running_root b k Hk)).
  destruct (utranslate (k_words k) (ttbr0 (k_tasks k)) va) as [d|] eqn:E; [|done].
  destruct (el0_writable d) eqn:Ed; [|done]. intros [= <-]. by apply insert_user_store.
Qed.

Lemma slice_ok n t cx w :
  ctx_ok cx -> user_store (ttbr0 (k_tasks k)) (k_words k) w ->
  let s := slice n (ttbr0 (k_tasks k)) t cx w in
  ctx_ok s.1.1 /\ user_store (ttbr0 (k_tasks k)) (k_words k) s.1.2 /\ may_trap s.2.1.
Proof.
  revert t cx w. induction n as [|n IH]; intros t cx w Hcx Hw; [done|]. cbn [slice].
  destruct (observe t) as [[]|t'|X e kk]; [by apply IH|]. destruct e.
  - split_and!; [by apply set_args_ok|done|done].
  - destruct (load w _ va); [by apply IH|done].
  - destruct (store w _ va v) as [w'|] eqn:E; [|done]. apply IH; [done|by eapply store_user_store].
  - destruct (load w _ va) as [v|]; [|done]. destruct (store w _ va (f v)) as [w'|] eqn:E; [|done].
    apply IH; [done|by eapply store_user_store].
  - by apply IH.
  - by apply IH.
  - by apply IH.
  - done.
  - done.
Qed.
End task.

(** One turn is one step of the system. *)
Lemma turn_step b code n m :
  board_ok b -> kinv b (m_k m) ->
  match turn code n m with
  | Runs m' => step (m_k m) (m_k m')
  | Halts k => nobody_runs k
  | Crashes => False
  end.
Proof.
  intros Hb Hk. unfold turn. set (p := current_context _).
  pose proof (slice_ok b (m_k m) Hb Hk n (resume code m) (ctx (tcb (k_tasks (m_k m)) p)) (k_words (m_k m))
    (current_ctx_ok b _ Hk) ltac:(by intros j Hj)) as (Hcx & Hw & Hev).
  destruct (slice _ _ _ _ _) as [[cx w] [ev c]]. cbn [fst snd] in *. set (k1 := set_words w _).
  assert (Hu : user_run (m_k m) k1) by (exists cx, w; by split_and!).
  assert (Ht : trap_ok ev k1) by (destruct ev; [intros ?; by exfalso|done]).
  destruct (handle_ok b k1 ev Hb (user_run_ok b _ _ Hb Hk Hu) Ht) as (r & k2 & E & Hr). rewrite E.
  destruct r as [[]|[]| |]; [|done..]. by eapply step_trap.
Qed.

Lemma turns_reach b code sched i n m k0 :
  board_ok b -> kinv b k0 -> reachable k0 (m_k m) ->
  match turns code sched i n m with
  | Runs m' => reachable k0 (m_k m')
  | Halts k => nobody_runs k
  | Crashes => False
  end.
Proof.
  intros Hb Hk. revert i m. induction n as [|n IH]; intros i m Hr; [done|]. cbn [turns].
  pose proof (turn_step b code (sched i) m Hb (reachable_ok b k0 _ Hb Hk Hr)) as Ht.
  destruct (turn code (sched i) m) as [m'|k|]; [|done..]. apply IH. by eapply reach_step.
Qed.

(** C5: running programs is running the system.  For every boot with all declared
    RAM in the 48-bit range, every timer, and every program of every task that is
    made of the user-mode events [userE] (system calls, aligned 64-bit
    loads, stores and read-modify-writes, accesses of the thread pointer, and
    trapping instructions), each turn of the machine is a step of the system, so every
    state it passes through is reachable; it never crashes, and it halts only if
    no task can run. *)
Theorem machine_refines info image rt root_tcb p0 w0 k0 code sched n :
  boot_pre info image rt root_tcb p0 -> ram_addressable info -> boot info image rt root_tcb p0 w0 = Ok k0 ->
  match turns code sched 0 n (start k0) with
  | Runs m => reachable k0 (m_k m)
  | Halts k => nobody_runs k
  | Crashes => False
  end.
Proof.
  intros Hpre H48 E. destruct (boot_laid_out _ _ _ _ _ _ _ _ Hpre H48 E (reach_init k0)) as (win & b & Hl & Hk).
  by apply (turns_reach b); [apply Hl| |apply reach_init].
Qed.
End refine.

Module MachineEx.
Import PagingEx BootEx.

(** Every task yields for ever. *)
Definition yielding (pc : Z) : prog := forever (let! _ := op (Svc syscall.YIELD [0]) in Ret tt).

Lemma machine_refines_witness :
  exists k0, boot ex_info image rt root_tcb pool ∅ = Ok k0 /\
    match turns yielding (fun i => i) 0 4 (start k0) with
    | Runs m => reachable k0 (m_k m)
    | Halts k => nobody_runs k
    | Crashes => False
    end.
Proof.
  pose proof out_ok as Ho. destruct (boot ex_info image rt root_tcb pool ∅) as [k0|e| |] eqn:E; [|contradiction..].
  exists k0. split; [reflexivity|].
  exact (machine_refines ex_info image rt root_tcb pool ∅ k0 yielding (fun i => i) 4 pre low E).
Defined.
End MachineEx.
