(* ===== verification/Trap.v ===== *)
(** * Turns of the machine through the vectors

    The assembly of vectors.S (Asm.v) joined with the handlers and the turns of
    the machine (Kernel.v, Machine.v).  The kernel's memory is held by the core as
    words; [holds] says that it holds a kernel state: the context of every task at
    its TCB, and [__current_context] the running task's.  While a task runs, its
    own context is in the registers instead ([user_at]).  [trap_simulates_turn]
    shows that the path through a lower vector, the handler and the restore code
    is a turn of the machine, given that the handler's compiled code takes the
    memory from one held state to the other.

    [Tcb] has no fixed representation: the offset of its context is [off], within
    the granule that the source asserts to be enough for a TCB. *)

From Stdlib Require Import String.
From S2P Require Import Prelude Abi Cap Task Sched Ipc Radix Paging User Build Kernel System Fdt Spawn Boot Asm Secure Machine.

#[local] Open Scope Z_scope.

Definition apart (x n y m : Z) : Prop := x + n <= y \/ y + m <= x.

#[export] Instance apart_dec x n y m : Decision (apart x n y m).
Proof. unfold apart. apply _. Defined.

Lemma not_apart x n y m : 0 < n -> 0 < m -> ~ apart x n y m -> exists a, x <= a < x + n /\ y <= a < y + m.
Proof. intros Hn Hm Ha. exists (Z.max x y). unfold apart in Ha. lia. Qed.

(** A context is 36 words. *)
Lemma context_at_ext m m' p : (forall a, p <= a < p + 288 -> m a = m' a) -> context_at m p = context_at m' p.
Proof.
  intros Hm. unfold context_at. f_equal; [|apply Hm; lia..]. apply list_fmap_ext. intros j i Hj.
  apply lookup_seq in Hj as [-> Hj]. apply Hm. lia.
Qed.

(** ** What memory holds *)

Section holds.
Context `{Platform} (sym : string -> Z) (root off : Z) (lo hi : Z).

(** The statics of the kernel image [lo, hi): the root TCB, whose context is at
    [off], and the pointer to the current context. *)
Record statics_ok : Prop := {
  sk_offset : 0 <= off /\ off + 288 <= GRANULE;
  sk_root : lo <= root + off /\ root + off + 288 <= hi;
  sk_pointer : lo <= cc sym /\ cc sym + 8 <= hi;
  sk_apart : apart (cc sym) 8 (root + off) 288
}.

(** The kernel stack in the image: room for two words, apart from both. *)
Record stack_ok (s : cpu) : Prop := {
  so_room : lo <= SP s - 16 /\ SP s < hi;
  so_root : apart (root + off) 288 (SP s - 16) 16;
  so_pointer : apart (cc sym) 8 (SP s - 16) 16
}.

Definition tcb_at (cn : CNode) (p : Z) : Prop :=
  p = root \/ exists base, Cap.Tcb base ∈ filled cn /\ p = base + KERNEL_VA_OFFSET.

Definition current_of (k : kstate) : Z := current_context (k_tasks k).

(** Memory holds the kernel state, but for the registers of the tasks in [P]. *)
Record holds_but (P : Z -> Prop) (m : Z -> Z) (k : kstate) : Prop := {
  ho_current : m (cc sym) = current_of k + off;
  ho_context : forall p, tcb_at (k_cnode k) p -> ~ P p -> context_at m (p + off) = ctx (tcb (k_tasks k) p)
}.

Definition holds : (Z -> Z) -> kstate -> Prop := holds_but (fun _ => False).

(** A task runs with registers [cx]. *)
Definition user_at (s : cpu) (k : kstate) (cx : Context) : Prop :=
  holds_but (fun p => p = current_of k) (MEM s) k /\ user_regs s = cx.
End holds.

Section trap.
Context `{Platform, PoolVa, !PoolVaOk} (sym : string -> Z) (lr : Z) (b : board) (off lo hi : Z).
#[local] Abbreviation root := (b_root_tcb b).
#[local] Abbreviation holds := (holds sym root off).
#[local] Abbreviation user_at := (user_at sym root off).
#[local] Abbreviation stack_ok := (stack_ok sym root off lo hi).

Context (Hb : board_ok b) (Hst : statics_ok sym root off lo hi).

(** No capability names memory of the image. *)
Context (Hlo : KERNEL_VA_OFFSET <= lo) (Hhi : hi <= U64) (Himage : forall a, lo <= a < hi -> ~ b_allowed b (a - KERNEL_VA_OFFSET)).

(** *** Contexts do not overlap *)

Lemma cap_tcb_allowed k base a :
  kinv b k -> Cap.Tcb base ∈ filled (k_cnode k) ->
  base + KERNEL_VA_OFFSET + off <= a < base + KERNEL_VA_OFFSET + off + 288 -> b_allowed b (a - KERNEL_VA_OFFSET).
Proof.
  intros (Hc & _) Hin Ha. apply list_elem_of_lookup in Hin as (i & Hi). destruct (sk_offset _ _ _ _ _ Hst).
  eapply (ci_allowed _ _ _ Hc i _ base (base + GRANULE)); [exact Hi|done|lia].
Qed.

Lemma image_apart k p y n :
  kinv b k -> live b (k_cnode k) p -> p <> b_root_tcb b -> lo <= y -> y + n <= hi -> 0 < n -> apart (p + off) 288 y n.
Proof.
  intros Hk [->|(base & Hin & ->)] Hne Hy Hn Hpos; [done|].
  destruct (decide (apart (base + KERNEL_VA_OFFSET + off) 288 y n)) as [|Ha]; [done|].
  apply not_apart in Ha as (a & A1 & A2); [|lia..]. 
  exfalso. apply (Himage a); [lia|]. by eapply cap_tcb_allowed.
Qed.

Lemma contexts_apart k p q :
  kinv b k -> live b (k_cnode k) p -> live b (k_cnode k) q -> p <> q -> apart (p + off) 288 (q + off) 288.
Proof.
  intros Hk Hp Hq Hne. destruct (sk_root _ _ _ _ _ Hst).
  destruct (decide (q = b_root_tcb b)) as [->|Hq']; [apply (image_apart k); try done; lia|].
  destruct (decide (p = b_root_tcb b)) as [->|Hp'].
  { apply or_comm, (image_apart k); try done; lia. }
  destruct Hp as [->|(b1 & Hb1 & ->)], Hq as [->|(b2 & Hb2 & ->)]; try done.
  apply list_elem_of_lookup in Hb1 as (i & Hi), Hb2 as (j & Hj). destruct Hk as (Hc & _). destruct (sk_offset _ _ _ _ _ Hst).
  assert (Hij : i <> j) by (intros ->; congruence).
  pose proof (ci_disjoint _ _ _ Hc i j _ _ Hij Hi Hj) as Hd. unfold disjoint_caps in Hd. cbn [extent] in Hd. unfold apart. lia.
Qed.

Lemma current_live k : kinv b k -> live b (k_cnode k) (current_of k).
Proof.
  intros (_ & (a & Ht) & _). unfold current_of. rewrite (rep_context _ _ (ti_rep _ _ _ _ Ht)).
  apply (ainv_cur_live _ _ _ (ti_ainv _ _ _ _ Ht)).
Qed.

(** A context lies in the kernel's half, below the end of the address space. *)
Lemma context_u64 k p : kinv b k -> live b (k_cnode k) p -> 0 <= p + off /\ p + off + 288 <= U64.
Proof.
  intros Hk [->|(base & Hin & ->)].
  - destruct (sk_root _ _ _ _ _ Hst). unfold KERNEL_VA_OFFSET in *. lia.
  - destruct (sk_offset _ _ _ _ _ Hst). unfold KERNEL_VA_OFFSET in *.
    pose proof (bo_allowed b Hb _ (cap_tcb_allowed k base (base + KERNEL_VA_OFFSET + off) Hk Hin ltac:(lia))).
    pose proof (bo_allowed b Hb _ (cap_tcb_allowed k base (base + KERNEL_VA_OFFSET + off + 287) Hk Hin ltac:(lia))).
    unfold KERNEL_VA_OFFSET in *. lia.
Qed.

(** *** In and out *)

Lemma running_trap_ok s k : kinv b k -> stack_ok s -> MEM s (cc sym) = current_of k + off -> Asm.trap_ok sym s.
Proof.
  intros Hk [[S1 S2] S3 S4] Hc. pose proof (current_live k Hk) as Hl. pose proof (context_u64 k _ Hk Hl).
  destruct (sk_pointer _ _ _ _ _ Hst). unfold KERNEL_VA_OFFSET in *.
  assert (Hs : apart (current_of k + off) 288 (SP s - 16) 16).
  { destruct (decide (current_of k = b_root_tcb b)) as [->|Hne]; [done|]. apply (image_apart k); try done; lia. }
  unfold apart in *. split; rewrite ?Hc; unfold is_u64; lia.
Qed.

(** Saving the registers makes memory hold the state in which the handler runs. *)
Lemma save_holds s s1 k w :
  kinv b k -> stack_ok s -> user_at s k (user_regs s) ->
  context_at (MEM s1) (MEM s (cc sym)) = user_regs s ->
  (forall a, a < MEM s (cc sym) \/ MEM s (cc sym) + 288 <= a -> a < SP s - 16 \/ SP s <= a -> MEM s1 a = MEM s a) ->
  holds (MEM s1) (set_words w (set_tasks (set_ctx (current_of k) (fun _ => user_regs s) (k_tasks k)) k)).
Proof.
  intros Hk [[S1 S2] S3 S4] [[Hc Ho] _] Hcx Hf. rewrite Hc in Hcx, Hf. pose proof (current_live k Hk) as Hl.
  destruct (sk_pointer _ _ _ _ _ Hst). split.
  - rewrite Hf; [exact Hc| |unfold apart in S4; lia].
    destruct (decide (current_of k = b_root_tcb b)) as [->|Hne]; [pose proof (sk_apart _ _ _ _ _ Hst); unfold apart in *; lia|].
    destruct (image_apart k (current_of k) (cc sym) 8 Hk Hl Hne); lia.
  - intros p Hp _. cbn [k_cnode set_words set_tasks k_tasks] in *.
    destruct (decide (p = current_of k)) as [->|Hne].
    + rewrite Hcx. unfold tcb, set_ctx, upd_tcb. cbn [tcbs]. by rewrite lookup_insert_eq.
    + replace (tcb _ p) with (tcb (k_tasks k) p) by (unfold tcb, set_ctx, upd_tcb; cbn [tcbs]; by rewrite lookup_insert_ne).
      rewrite <- Ho by done. apply context_at_ext. intros a Ha.
      destruct (contexts_apart k p (current_of k) Hk Hp Hl Hne); (apply Hf; [lia|]);
        (destruct (decide (p = b_root_tcb b)) as [->|Hr]; [unfold apart in S3; lia|]);
        destruct (image_apart k p (SP s - 16) 16 Hk Hp Hr); lia.
Qed.

(** Restoring goes back to user mode with the context of the current task. *)
Lemma restore_user s2 k :
  kinv b k -> holds (MEM s2) k -> exists s3,
  run sym lr vector_code 41 user_restore s2 = Returned s3 /\ SP s3 = SP s2 /\
  user_at s3 k (ctx (tcb (k_tasks k) (current_of k))).
Proof.
  intros Hk [Hc Ho]. pose proof (current_live k Hk) as Hl. destruct (context_u64 k _ Hk Hl) as [U1 U2].
  destruct (restore_run sym lr s2) as (s3 & Hr3 & Hu & Hm & Hsp); rewrite ?Hc; try done.
  { destruct (sk_pointer _ _ _ _ _ Hst). unfold is_u64, KERNEL_VA_OFFSET in *. lia. }
  exists s3. split; [done|]. split; [done|]. split; [|rewrite Hu, Hc; apply (Ho _ Hl); by intros []].
  rewrite Hm. split; [done|]. intros p Hp _. apply (Ho _ Hp). by intros [].
Qed.

Lemma turn_simulated code n m m' h s :
  kinv b (m_k m) -> stack_ok s -> is_u64 (sym h) -> turn code n m = Runs m' ->
  let k := m_k m in let p := current_of k in
  let sl := slice n (ttbr0 (k_tasks k)) (resume code m) (ctx (tcb (k_tasks k) p)) (k_words k) in
  user_at s k sl.1.1 ->
  let k1 := set_words sl.1.2 (set_tasks (set_ctx p (fun _ => sl.1.1) (k_tasks k)) k) in
  handle sl.2.1 k1 = (Ok tt, m_k m') /\
  exists s1, run sym lr vector_code 60 (LOWER_ENTRY h) s = CalledAt (sym h) s1 user_restore /\
    X s1 0 = p + off /\ SP s1 = SP s /\ holds (MEM s1) k1 /\
    forall s2, holds (MEM s2) (m_k m') -> exists s3, run sym lr vector_code 41 user_restore s2 = Returned s3 /\
      SP s3 = SP s2 /\ user_at s3 (m_k m') (ctx (tcb (k_tasks (m_k m')) (current_of (m_k m')))).
Proof.
  intros Hk Hs Hh Ht k p sl Hu k1. subst k1 sl p k.
  pose proof (turn_step b code n m Hb Hk) as Hstep. rewrite Ht in Hstep. pose proof (step_ok b _ _ Hb Hk Hstep) as Hk'.
  unfold turn in Ht. fold (current_of (m_k m)) in Ht. destruct (slice _ _ _ _ _) as [[cx w] [ev c]]. cbn [fst snd] in *.
  split.
  { destruct (handle ev _) as [[[]|[]| |] k2] eqn:E; try discriminate Ht. by injection Ht as <-. }
  pose proof Hu as [Hho Hr]. pose proof (running_trap_ok s _ Hk Hs (ho_current _ _ _ _ _ _ Hho)) as Htr.
  destruct (lower_save sym lr h s Htr Hh) as (s' & Hrun & E0 & Esp & _ & Hcx & Hf). exists (set 30 lr s'). split; [exact Hrun|].
  split; [by rewrite <- (ho_current _ _ _ _ _ _ Hho)|]. split; [exact Esp|]. subst cx. split.
  - by apply (save_holds s).
  - intros s2 H2. by apply restore_user.
Qed.
End trap.

(** The image's memory is reserved at boot. *)
Lemma image_reserved `{Platform, PoolVa, !PoolVaOk} info image root_tcb win b a :
  laid_out info image root_tcb win b -> Paging.start image <= a < end_ image -> ~ b_allowed b a.
Proof.
  intros Hl Ha Hx. apply (lo_allowed _ _ _ _ _ Hl) in Hx as [_ Hx]. apply Hx. left. unfold in_region. simpl. lia.
Qed.

Lemma slice_regs `{Platform, PoolVa, !PoolVaOk} b k n t :
  board_ok b -> kinv b k ->
  length (x (slice n (ttbr0 (k_tasks k)) t (ctx (tcb (k_tasks k) (current_of k))) (k_words k)).1.1) = 31%nat.
Proof.
  intros Hb Hk. destruct (slice_ok b k Hb Hk n t (ctx (tcb (k_tasks k) (current_of k))) (k_words k)) as (Hc & _);
    [by apply (current_ctx_ok b)|by intros j Hj|]. apply Hc.
Qed.

(** ** Theorem *)

(** C8: through the vectors.  In every reachable state, a task runs with the
    registers that its time slice leaves, and the kernel's memory holds the rest of
    the state.  The vector then calls the handler with the pointer to the task's
    context, with memory holding exactly the state that the machine's turn hands to
    [handle].  If the handler leaves memory holding the state after the turn, the
    code behind the call returns to user mode with exactly the registers of the
    task that the turn made current, and memory still holds everything else: the
    state in which the next turn starts. *)
Theorem trap_simulates_turn `{Platform, PoolVa, !PoolVaOk} info image rt root_tcb p0 w0 k0 sym lr off code n m m' h s :
  boot_pre info image rt root_tcb p0 -> ram_addressable info -> boot info image rt root_tcb p0 w0 = Ok k0 -> reachable k0 (m_k m) ->
  end_ image <= 2 ^ 48 -> let lo := Paging.start image + KERNEL_VA_OFFSET in let hi := end_ image + KERNEL_VA_OFFSET in
  statics_ok sym root_tcb off lo hi -> stack_ok sym root_tcb off lo hi s -> is_u64 (sym h) -> turn code n m = Runs m' ->
  let k := m_k m in let p := current_of k in
  let sl := slice n (ttbr0 (k_tasks k)) (resume code m) (ctx (tcb (k_tasks k) p)) (k_words k) in
  user_at sym root_tcb off s k sl.1.1 ->
  let k1 := set_words sl.1.2 (set_tasks (set_ctx p (fun _ => sl.1.1) (k_tasks k)) k) in
  handle sl.2.1 k1 = (Ok tt, m_k m') /\
  exists s1, run sym lr vector_code 60 (LOWER_ENTRY h) s = CalledAt (sym h) s1 user_restore /\
    X s1 0 = p + off /\ SP s1 = SP s /\ holds sym root_tcb off (MEM s1) k1 /\
    forall s2, holds sym root_tcb off (MEM s2) (m_k m') -> exists s3,
      run sym lr vector_code 41 user_restore s2 = Returned s3 /\ SP s3 = SP s2 /\
      user_at sym root_tcb off s3 (m_k m') (ctx (tcb (k_tasks (m_k m')) (current_of (m_k m')))).
Proof.
  intros Hpre H48 E Hr Hend lo hi Hst Hstack Hh Ht k p sl Hu k1.
  destruct (boot_laid_out _ _ _ _ _ _ _ _ Hpre H48 E Hr) as (win & b & Hl & Hk). pose proof (lo_tcb _ _ _ _ _ Hl) as Hroot.
  destruct (bp_image _ _ _ _ _ Hpre) as (Hi & _ & _). subst root_tcb. assert (Hkv : KERNEL_VA_OFFSET + 2 ^ 48 = U64) by reflexivity.
  apply (turn_simulated sym lr b off lo hi (lo_board _ _ _ _ _ Hl) Hst); try done; [unfold lo; lia|unfold hi; lia|].
  intros a Ha. apply (image_reserved _ _ _ _ _ _ Hl). unfold lo, hi in Ha. lia.
Qed.

(** ** An instance: the first turn of the booted example *)

Module TrapEx.
Import PagingEx BootEx MachineEx.

(** A core with the registers of a context. *)
Definition core_of (cx : Context) (stack : Z) (m : Z -> Z) : cpu :=
  mkCpu (fun r => default 0 (x cx !! Z.to_nat r)) stack
    (fun r => match r with
              | Sr.SP_EL0 => sp cx | Sr.ELR_EL1 => elr cx | Sr.SPSR_EL1 => spsr cx
              | Sr.TPIDR_EL0 => tpidr cx | Sr.TPIDRRO_EL0 => tpidrro cx | _ => 0
              end) false false m.

Lemma core_of_regs cx stack m : length (x cx) = 31%nat -> user_regs (core_of cx stack m) = cx.
Proof.
  intros Hl. destruct cx as [xs a b c d e]. unfold user_regs, core_of. cbn [X SR x sp elr spsr tpidr tpidrro] in *. f_equal.
  do 31 (destruct xs as [|? xs]; [discriminate Hl|]). destruct xs; [|discriminate Hl]. reflexivity.
Qed.

Definition syms (f : string) : Z := if String.eqb f "__current_context" then 0xFFFF000040220000 else 0xFFFF000040090000.

Definition first_turn (k : kstate) : bool :=
  match turn yielding 3 (start k) with Runs _ => true | _ => false end &&
  forallb (fun c => match c with Cap.Tcb _ => false | _ => true end) (filled (k_cnode k)) &&
  (current_of k =? root_tcb).

Lemma first_turn_runs : match boot ex_info image rt root_tcb pool ∅ with Ok k => first_turn k | _ => false end = true.
Proof. vm_compute. reflexivity. Qed.

Lemma image_statics : statics_ok syms root_tcb 0 (Paging.start image + KERNEL_VA_OFFSET) (end_ image + KERNEL_VA_OFFSET).
Proof. split; vm_compute; (split; discriminate) || (right; discriminate) || (left; discriminate). Qed.

Lemma core_stack cx m :
  stack_ok syms root_tcb 0 (Paging.start image + KERNEL_VA_OFFSET) (end_ image + KERNEL_VA_OFFSET) (core_of cx 0xFFFF000040240000 m).
Proof. split; vm_compute; (split; [discriminate|reflexivity]) || (left; discriminate) || (right; discriminate). Qed.

(** Before the first turn the root task is the only one. *)
Lemma core_user k cx :
  first_turn k = true -> length (x cx) = 31%nat -> user_at syms root_tcb 0 (core_of cx 0xFFFF000040240000 (fun _ => root_tcb)) k cx.
Proof.
  unfold first_turn. rewrite !andb_true_iff. intros [[_ Hc] Hcur%Z.eqb_eq] Hx. split; [|by apply core_of_regs].
  split; [rewrite Hcur; reflexivity|]. rewrite forallb_forall in Hc.
  intros p [->|(base & Hin & _)] Hne; [by destruct Hne|]. by apply list_elem_of_In, Hc in Hin.
Qed.

Lemma trap_simulates_turn_witness : exists k0 m' s s1,
  boot ex_info image rt root_tcb pool ∅ = Ok k0 /\ turn yielding 3 (start k0) = Runs m' /\
  run syms 0 vector_code 60 (LOWER_ENTRY "el0_sync") s = CalledAt (syms "el0_sync") s1 user_restore /\ X s1 0 = root_tcb /\
  forall s2, holds syms root_tcb 0 (MEM s2) (m_k m') -> exists s3, run syms 0 vector_code 41 user_restore s2 = Returned s3 /\
    user_regs s3 = ctx (tcb (k_tasks (m_k m')) (current_of (m_k m'))).
Proof.
  pose proof first_turn_runs as Hf. destruct (boot ex_info image rt root_tcb pool ∅) as [k0|e| |] eqn:E; [|discriminate Hf..].
  pose proof Hf as Ht. unfold first_turn in Ht. rewrite !andb_true_iff in Ht. destruct Ht as [[Ht _] Hcur%Z.eqb_eq].
  destruct (turn yielding 3 (start k0)) as [m'| |] eqn:Et; [|discriminate Ht..].
  destruct (boot_laid_out _ _ _ _ _ _ _ _ pre low E (reach_init k0)) as (win & b & Hl & Hk).
  set (sl := slice 3 (ttbr0 (k_tasks k0)) (resume yielding (start k0)) (ctx (tcb (k_tasks k0) (current_of k0))) (k_words k0)).
  assert (Hcx : length (x sl.1.1) = 31%nat) by exact (slice_regs b k0 3 (resume yielding (start k0)) (lo_board _ _ _ _ _ Hl) Hk).
  set (s := core_of sl.1.1 0xFFFF000040240000 (fun _ => root_tcb)).
  destruct (trap_simulates_turn ex_info image rt root_tcb pool ∅ k0 syms 0 0 yielding 3 (start k0) m' "el0_sync" s
    pre low E (reach_init k0) ltac:(vm_compute; discriminate) image_statics (core_stack _ _) ltac:(split; vm_compute; congruence) Et
    (core_user k0 sl.1.1 Hf Hcx)) as (_ & s1 & Hrun & Hx & _ & _ & Hback).
  exists k0, m', s, s1. split; [reflexivity|]. split; [exact Et|]. split; [exact Hrun|].
  split; [rewrite Hx, Z.add_0_r; exact Hcur|]. intros s2 Hs2. destruct (Hback s2 Hs2) as (s3 & Hr3 & _ & [_ Hu]).
  exists s3. split; [exact Hr3|exact Hu].
Defined.
End TrapEx.
