(* ===== verification/RootTask.v ===== *)
(** * The root task

    userspace/root-task/src/main.rs as programs of the machine: the system call
    wrappers, the children and the self-test of [_start].  Statics are words of
    the task's data segment, reached through the MMU like all its memory. *)

From ITree Require Import Core.ITreeDefinition.
From stdpp Require Import strings.
From S2P Require Import Prelude Abi Cap Task Sched Ipc Radix Paging User Kernel System Fdt Spawn Boot Secure Machine.

(** ** Constants and statics *)

Definition TEST_VA : Z := 0x20000000.
Definition CHILD_EXIT_TARGET : Z := 100000.
Definition ROOT_TPIDR : Z := 0x5EED0000C0FFEE01.
Definition CHILD_TPIDR : Z := 0xBAD0000000000BAD.
Definition CM_FIFO_A : list Z := [0xC1A0; 1; 2; 3].
Definition CM_FIFO_B : list Z := [0xC2B0; 4; 5; 6].
Definition CM_CALL : list Z := [0xC3C0; 7; 8; 9].

Inductive static :=
| CON_SLOT | ASPACE_SLOT | BUSY_COUNTER | EXIT_COUNTER | EP_SLOT | EP2_SLOT | SRV_COUNT | SRV_DIE | SRV_HOLD
| CLIENT_STATUS | FAULT_STAGE | FAULT_SURVIVED | CHILD_SAW_TPIDR | SRV_MR (i : nat).

(** The initial values, all 0 but one. *)
Definition static_init (s : static) : Z := match s with CLIENT_STATUS => 1 | _ => 0 end.

(** The functions whose addresses are taken. *)
Inductive fn :=
| child_exit_fn | child_busy_fn | server_fn | client_fn | client2_fn | child_fault_fn | child_fp_fn | start_fn.

Section program.
(** Where the linker puts them. *)
Context (at_ : static -> Z) (fn_va : fn -> Z).

Definition ld (s : static) : itree userE Z := op (Read (at_ s)).
Definition st (s : static) (v : Z) : itree userE unit := op (Write (at_ s) v).
Definition fetch_add (s : static) (n : Z) : itree userE Z := op (Rmw (at_ s) (fun v => as_u64 (v + n))).
Definition swap (s : static) (v : Z) : itree userE Z := op (Rmw (at_ s) (fun _ => v)).

(** ** System calls *)

Definition ret0 (l : list Z) : Z := default 0 (l !! 0%nat).

Definition sys1 (nr a0 : Z) : itree userE Z := let! r := op (Svc nr [a0]) in Ret (ret0 r).
Definition sys3 (nr a0 a1 a2 : Z) : itree userE Z := let! r := op (Svc nr [a0; a1; a2]) in Ret (ret0 r).
Definition sys4 (nr a0 a1 a2 a3 : Z) : itree userE Z := let! r := op (Svc nr [a0; a1; a2; a3]) in Ret (ret0 r).

Definition putc (slot b : Z) : itree userE Z := let! r := sys3 syscall.DEBUG_PUTC slot b 0 in Ret (as_i64 r).

Fixpoint for_each {A} (l : list A) (f : A -> itree userE unit) : itree userE unit :=
  match l with [] => Ret tt | a :: l' => let! _ := f a in for_each l' f end.

Definition put_bytes (l : list Z) : itree userE unit :=
  let! con := ld CON_SLOT in
  for_each l (fun b => let! _ := putc con b in Ret tt).

Definition put_str (s : string) : itree userE unit := put_bytes (lit s).
Definition put_line (s : string) : itree userE unit := put_bytes (lit s ++ [10]).

Definition nibble (v : Z) (i : nat) : Z :=
  let nib := Z.land (Z.shiftr v (Z.of_nat i * 4)) 0xF in
  if nib <? 10 then 48 + nib else 97 + nib - 10.

Definition put_hex (v : Z) : itree userE unit :=
  let! _ := put_str "0x" in
  put_bytes (nibble v <$> rev (seq 0 16)).

Definition fail {A} (step : string) : itree userE A :=
  let! _ := put_str "root: FAIL " in
  let! _ := put_str step in
  let! _ := put_bytes [10] in
  let! _ := sys1 syscall.EXIT 1 in
  ITree.spin.

(** The panic handler, and arithmetic with overflow checks. *)
Definition panic {A} : itree userE A := let! _ := sys1 syscall.EXIT 1 in ITree.spin.

Definition checked (n : Z) : itree userE Z := if n <? U64 then Ret n else panic.

Definition check (step : string) (ok : bool) : itree userE unit := if ok then Ret tt else fail step.

Definition retype (slot kind : Z) : itree userE Z := let! r := sys3 syscall.RETYPE slot kind 0 in Ret (as_i64 r).

Definition map_into (slot va p aspace : Z) : itree userE Z :=
  let! r := sys4 syscall.MAP (as_u64 slot) va p aspace in Ret (as_i64 r).

Definition map (slot va p : Z) : itree userE Z := let! a := ld ASPACE_SLOT in map_into slot va p a.

Definition tcb_configure (slot entry stack aspace : Z) : itree userE Z :=
  let! r := sys4 syscall.TCB_CONFIGURE (as_u64 slot) entry stack aspace in Ret (as_i64 r).

Definition tcb_resume (slot : Z) : itree userE Z := let! r := sys1 syscall.TCB_RESUME (as_u64 slot) in Ret (as_i64 r).

Record IpcRet := mkIpcRet { status : Z; mr : list Z }.

Definition sys_ipc (nr slot flags : Z) (m : list Z) : itree userE IpcRet :=
  let! r := op (Svc nr ([slot; flags] ++ m)) in
  Ret (mkIpcRet (as_i64 (ret0 r)) (take 4 (drop 2 r))).

Definition send (slot flags : Z) (m : list Z) : itree userE IpcRet := sys_ipc syscall.SEND (as_u64 slot) flags m.
Definition recv (slot flags : Z) : itree userE IpcRet := sys_ipc syscall.RECV (as_u64 slot) flags [0; 0; 0; 0].
Definition call (slot flags : Z) (m : list Z) : itree userE IpcRet := sys_ipc syscall.CALL (as_u64 slot) flags m.
Definition reply_recv (slot flags : Z) (m : list Z) : itree userE IpcRet :=
  sys_ipc syscall.REPLY_RECV (as_u64 slot) flags m.

Definition yield : itree userE unit := let! _ := sys1 syscall.YIELD 0 in Ret tt.

(** The thread registers, read and written without the kernel. *)
Definition get_tpidr : itree userE Z := op GetTpidr.
Definition get_tpidrro : itree userE Z := op GetTpidrro.
Definition set_tpidr (v : Z) : itree userE unit := op (SetTpidr v).

(** [u64::rotate_left]. *)
Definition rotate_left (v n : Z) : Z := as_u64 (Z.lor (Z.shiftl v n) (Z.shiftr v (64 - n))).

Definition xform (m : list Z) : list Z :=
  let g i := default 0 (m !! i) in
  [as_u64 (g 0%nat + 1); Z.lxor (g 1%nat) 0xF0F0F0F0; as_u64 (g 2%nat * 3); rotate_left (g 3%nat) 16].

(** ** Children *)

Definition child_exit_entry : prog :=
  forever (let! old := fetch_add EXIT_COUNTER 1 in
           let! v := checked (old + 1) in
           if v =? CHILD_EXIT_TARGET then let! _ := sys1 syscall.EXIT 7 in Ret tt else Ret tt).

Definition child_busy_entry : prog := forever (let! _ := fetch_add BUSY_COUNTER 1 in Ret tt).

Definition store_mr (m : list Z) : itree userE unit :=
  for_each (seq 0 4) (fun i => st (SRV_MR i) (default 0 (m !! i))).

Definition server_entry : prog :=
  let! e := ld EP_SLOT in
  let ep := as_i64 e in
  let! r := recv ep 0 in
  ITree.iter (fun r : IpcRet =>
    let! _ := if negb (status r =? 0) then fail "server recv" else Ret tt in
    let! die := ld SRV_DIE in
    let! _ := if negb (die =? 0) then let! _ := sys1 syscall.EXIT 9 in Ret tt else Ret tt in
    let! _ := store_mr (mr r) in
    let! _ := fetch_add SRV_COUNT 1 in
    let! hold := swap SRV_HOLD 0 in
    let! r := if negb (hold =? 0) then recv ep 0 else reply_recv ep 0 (xform (mr r)) in
    Ret (inl r)) r.

Definition client_entry : prog :=
  let! e := ld EP2_SLOT in
  let! r := send (as_i64 e) 0 CM_FIFO_A in
  let! _ := if negb (status r =? 0) then fail "client send" else Ret tt in
  let! e := ld EP_SLOT in
  let! r := call (as_i64 e) 0 CM_CALL in
  let! _ := st CLIENT_STATUS (as_u64 (status r)) in
  let! _ := sys1 syscall.EXIT 11 in
  ITree.spin.

Definition client2_entry : prog :=
  let! e := ld EP2_SLOT in
  let! r := send (as_i64 e) 0 CM_FIFO_B in
  let! _ := if negb (status r =? 0) then fail "client2 send" else Ret tt in
  let! _ := sys1 syscall.EXIT 12 in
  ITree.spin.

Definition child_fault_entry : prog :=
  let! v := get_tpidr in
  let! _ := st CHILD_SAW_TPIDR v in
  let! _ := set_tpidr CHILD_TPIDR in
  let! _ := st FAULT_STAGE 1 in
  let! _ := yield in
  let! _ := op (Write 0 0) in
  let! _ := fetch_add FAULT_SURVIVED 1 in
  forever yield.

Definition child_fp_entry : prog :=
  let! _ := st FAULT_STAGE 2 in
  let! _ := op FpInstr in
  let! _ := fetch_add FAULT_SURVIVED 1 in
  forever yield.

(** ** The self-test *)

(** What the test finds in the bootinfo page.  Once it has found an untyped of 32
    frames, [TEST_VA + i * frame_size] does not overflow for the [i] below 32 of
    the tests. *)
Record found := mkFound { f_ut : Z; f_aspace : Z; f_con : Z; f_frame : Z }.

Definition is_power_of_two (v : Z) : bool := (0 <? v) && (Z.land v (v - 1) =? 0).

(** [if slot == 0 && d.kind == kind && ... { slot = i }]: [more] is the rest of
    the condition. *)
Definition pick (slot d kind i : Z) (more : itree userE bool) : itree userE Z :=
  if slot =? 0 then
    let! k := op (Read d) in
    if k =? kind then let! ok := more in Ret (if (ok : bool) then i else slot) else Ret slot
  else Ret slot.

Definition search (frame_size cap_count : Z) : itree userE (Z * Z * Z) :=
  ITree.iter (fun s : Z * (Z * Z * Z) =>
    let '(i, (ut, aspace, con)) := s in
    if i <? cap_count then
      let d := bootinfo.VA + 24 + 24 * i in
      let! ut := pick ut d cap_kind.UNTYPED i
        (let! size := op (Read (d + 16)) in let! need := checked (frame_size * 32) in Ret (need <=? size)) in
      let! aspace := pick aspace d cap_kind.ADDR_SPACE i (Ret true) in
      let! con := pick con d cap_kind.CONSOLE i (Ret true) in
      Ret (inl (i + 1, (ut, aspace, con)))
    else Ret (inr (ut, aspace, con))) (0, (0, 0, 0)).

Definition read_bootinfo : itree userE found :=
  let! version := op (Read bootinfo.VA) in
  let! frame_size := op (Read (bootinfo.VA + 8)) in
  let! cap_count := op (Read (bootinfo.VA + 16)) in
  let! _ := check "bootinfo version" (version =? bootinfo.VERSION) in
  let! _ := check "bootinfo frame size" ((0 <? frame_size) && is_power_of_two frame_size) in
  let! s := search frame_size cap_count in
  let '(ut, aspace, con) := s in
  let! _ := check "console search" (negb (con =? 0)) in
  let! _ := st CON_SLOT con in
  let! _ := put_line "root: hello from EL0" in
  let! _ := check "untyped search" (negb (ut =? 0)) in
  let! _ := check "aspace search" (negb (aspace =? 0)) in
  let! _ := st ASPACE_SLOT aspace in
  let! _ := put_str "root: untyped slot " in
  let! _ := put_hex ut in
  let! _ := put_bytes [10] in
  Ret (mkFound ut aspace con frame_size).

(** [check(step, call == expected)]. *)
Definition expect (step : string) (t : itree userE Z) (v : Z) : itree userE unit :=
  let! r := t in check step (r =? v).

(** [let x = call; check(step, x > 0)]. *)
Definition obtain (step : string) (t : itree userE Z) : itree userE Z :=
  let! r := t in let! _ := check step (0 <? r) in Ret r.

Definition expect_ipc (step : string) (t : itree userE IpcRet) (v : Z) : itree userE unit :=
  let! r := t in check step (status r =? v).

Definition console_tests (s : found) : itree userE unit :=
  let! _ := expect "putc bad cap" (putc (f_aspace s) 120) err.BAD_CAP in
  let! _ := expect "putc bad slot" (putc 9999 120) err.BAD_SLOT in
  let! _ := put_str "root: control byte filter [" in
  let! _ := expect "putc esc" (putc (f_con s) 0x1b) 0 in
  put_line "]".

(** Returns the first frame's slot. *)
Definition retype_map_tests (s : found) : itree userE Z :=
  let ut := f_ut s in
  let fsz := f_frame s in
  let! _ := expect "retype null slot" (retype 0 obj.FRAME) err.NOT_UNTYPED in
  let! _ := expect "retype bad type" (retype ut 99) err.BAD_TYPE in
  let! f := obtain "retype frame" (retype ut obj.FRAME) in
  let! _ := expect "map before pt" (map f TEST_VA perm.RW) err.MISSING_TABLE in
  let! _ := expect "map bad aspace" (map_into f TEST_VA perm.RW (f_con s)) err.BAD_CAP in
  let! _ := expect "map bad aspace slot" (map_into f TEST_VA perm.RW 9999) err.BAD_SLOT in
  let! pt := obtain "retype pt" (retype ut obj.PAGE_TABLE) in
  let! _ := expect "map pt" (map pt TEST_VA 0) 0 in
  let! _ := expect "map pt twice" (map pt TEST_VA 0) err.ALREADY_MAPPED in
  let! _ := expect "map null va" (map f 0 perm.RW) err.BAD_VA in
  let! _ := expect "map bad perm" (map f TEST_VA 7) err.BAD_PERM in
  let! _ := expect "map frame" (map f TEST_VA perm.RW) 0 in
  let head := TEST_VA in
  let tail := TEST_VA + fsz - 8 in
  let! _ := op (Write head 0xA5A55A5ADEADBEEF) in
  let! _ := op (Write tail 0x0123456789ABCDEF) in
  let! _ := expect "frame rw head" (op (Read head)) 0xA5A55A5ADEADBEEF in
  let! _ := expect "frame rw tail" (op (Read tail)) 0x0123456789ABCDEF in
  let! _ := expect "map frame twice" (map f (TEST_VA + fsz) perm.RW) err.ALREADY_MAPPED in
  let! f2 := retype ut obj.FRAME in
  let! _ := check "retype frame 2" ((0 <? f2) && negb (f2 =? f)) in
  let! _ := expect "map overlap" (map f2 TEST_VA perm.RW) err.OVERLAP in
  let! _ := expect "map frame 2" (map f2 (TEST_VA + fsz) perm.RW) 0 in
  let q := TEST_VA + fsz in
  let! _ := op (Write q 0x1111222233334444) in
  let! _ := expect "frame 2 rw" (op (Read q)) 0x1111222233334444 in
  let! _ := expect "frame isolation" (op (Read head)) 0xA5A55A5ADEADBEEF in
  let! f3 := obtain "retype frame 3" (retype ut obj.FRAME) in
  let! _ := expect "map frame ro" (map f3 (TEST_VA + 2 * fsz) perm.RO) 0 in
  let! _ := expect "frame ro zeroed" (op (Read (TEST_VA + 2 * fsz))) 0 in
  let! _ := put_line "root: retype/map tests pass" in
  Ret f.

(** A frame mapped at granule [i] of the test range, as a stack. *)
Definition stack_at (s : found) (retype_step map_step : string) (i : Z) : itree userE unit :=
  let! f := obtain retype_step (retype (f_ut s) obj.FRAME) in
  expect map_step (map f (TEST_VA + i * f_frame s) perm.RW) 0.

(** Returns the slot of the busy child's TCB. *)
Definition child_exit_tests (s : found) (f : Z) : itree userE Z :=
  let ut := f_ut s in
  let aspace := f_aspace s in
  let! _ := stack_at s "retype stack 1" "map stack 1" 4 in
  let! _ := stack_at s "retype stack 2" "map stack 2" 6 in
  let sp_busy := TEST_VA + 5 * f_frame s in
  let sp_exit := TEST_VA + 7 * f_frame s in
  let! tcb_busy := obtain "retype tcb busy" (retype ut obj.TCB) in
  let! tcb_exit := obtain "retype tcb exit" (retype ut obj.TCB) in
  let entry_busy := fn_va child_busy_fn in
  let entry_exit := fn_va child_exit_fn in
  let! _ := expect "resume unconfigured" (tcb_resume tcb_busy) err.BAD_STATE in
  let! _ := expect "configure bad tcb" (tcb_configure f entry_busy sp_busy aspace) err.BAD_CAP in
  let! _ := expect "configure bad aspace" (tcb_configure tcb_busy entry_busy sp_busy (as_u64 f)) err.BAD_CAP in
  let! _ := expect "configure bad stack" (tcb_configure tcb_busy entry_busy (sp_busy - 8) aspace) err.BAD_VA in
  let! _ := expect "configure tcb exit" (tcb_configure tcb_exit entry_exit sp_exit aspace) 0 in
  let! _ := expect "configure twice" (tcb_configure tcb_exit entry_exit sp_exit aspace) err.BAD_STATE in
  let! _ := expect "resume tcb exit" (tcb_resume tcb_exit) 0 in
  let! _ := expect "resume twice" (tcb_resume tcb_exit) err.BAD_STATE in
  let! _ := while (let! c := ld EXIT_COUNTER in Ret (negb (c =? CHILD_EXIT_TARGET))) yield in
  let! _ := put_line "root: child exit test pass" in
  Ret tcb_busy.

Definition nb : Z := ipc.NONBLOCK.

(** Waits until the server has handled [n] messages. *)
Definition until_count (n : Z) : itree userE unit :=
  while (let! c := ld SRV_COUNT in Ret (c <? n)) yield.

Definition expect_mr (step : string) (m : list Z) : itree userE unit :=
  for_each (seq 0 4) (fun i => expect step (ld (SRV_MR i)) (default 0 (m !! i))).

(** Returns the endpoint's slot. *)
Definition endpoint_tests (s : found) (f : Z) : itree userE Z :=
  let ut := f_ut s in
  let! ep := obtain "retype ep" (retype ut obj.ENDPOINT) in
  let! _ := expect "map ep" (map ep (TEST_VA + 10 * f_frame s) perm.RW) err.BAD_CAP in
  let! _ := expect_ipc "send nb empty" (send ep nb [1; 2; 3; 4]) err.WOULD_BLOCK in
  let! _ := expect_ipc "recv nb empty" (recv ep nb) err.WOULD_BLOCK in
  let! _ := expect_ipc "call nb empty" (call ep nb [1; 2; 3; 4]) err.WOULD_BLOCK in
  let! _ := expect_ipc "reply_recv nb empty" (reply_recv ep nb [0; 0; 0; 0]) err.WOULD_BLOCK in
  let! _ := expect_ipc "send bad cap" (send f 0 [0; 0; 0; 0]) err.BAD_CAP in
  let! _ := expect_ipc "send bad slot" (sys_ipc syscall.SEND 9999 0 [0; 0; 0; 0]) err.BAD_SLOT in
  Ret ep.

Definition eq_mr (a b : list Z) : bool := bool_decide (a = b).

Definition rendezvous_tests (s : found) (ep : Z) : itree userE unit :=
  let ut := f_ut s in
  let! _ := stack_at s "retype stack 3" "map stack 3" 8 in
  let! tcb_srv := obtain "retype tcb srv" (retype ut obj.TCB) in
  let! _ := st EP_SLOT (as_u64 ep) in
  let! _ := expect "configure tcb srv" (tcb_configure tcb_srv (fn_va server_fn) (TEST_VA + 9 * f_frame s) (f_aspace s)) 0 in
  let! _ := expect "resume tcb srv" (tcb_resume tcb_srv) 0 in
  let m1 := [0x1111; 0x2222; 0x3333; 0x4444] in
  let! _ := expect_ipc "send first" (send ep 0 m1) 0 in
  let! _ := until_count 1 in
  let! _ := expect_mr "send first data" m1 in
  let m2 := [0x5555; 0x6666; 0x7777; 0x8888] in
  let! _ := expect_ipc "send to waiting nb" (send ep nb m2) 0 in
  let! _ := until_count 2 in
  let! _ := expect_mr "send waiting data" m2 in
  let m3 := [0xAAAA; 0xBBBB; 0xCCCC; 0xDDDD] in
  let! r := call ep 0 m3 in
  let! _ := check "call status" (status r =? 0) in
  let! _ := check "call reply" (eq_mr (mr r) (xform m3)) in
  let! _ := expect "call count" (ld SRV_COUNT) 3 in
  let m4 := [0x1010; 0x2020; 0x3030; 0x4040] in
  let! _ := expect_ipc "send before call" (send ep 0 m4) 0 in
  let m5 := [0x0101; 0x0202; 0x0303; 0x0404] in
  let! r := call ep 0 m5 in
  let! _ := check "queued call status" (status r =? 0) in
  let! _ := check "queued call reply" (eq_mr (mr r) (xform m5)) in
  let! _ := expect "queued call count" (ld SRV_COUNT) 5 in
  let m6 := [0x9999; 0x8888; 0x7777; 0x6666] in
  let! r := call ep nb m6 in
  check "call again nb" ((status r =? 0) && eq_mr (mr r) (xform m6)).

(** [recv] without blocking, yielding until a message is there. *)
Definition poll_recv (ep2 : Z) : itree userE IpcRet :=
  let! r := recv ep2 nb in
  ITree.iter (fun r : IpcRet =>
    if status r =? err.WOULD_BLOCK then let! _ := yield in let! r := recv ep2 nb in Ret (inl r)
    else Ret (inr r)) r.

Definition overwrite_tests (s : found) (ep : Z) : itree userE unit :=
  let ut := f_ut s in
  let! ep2 := obtain "retype ep2" (retype ut obj.ENDPOINT) in
  let! _ := st EP2_SLOT (as_u64 ep2) in
  let! _ := st SRV_HOLD 1 in
  let! _ := stack_at s "retype stack 4" "map stack 4" 11 in
  let! _ := stack_at s "retype stack 5" "map stack 5" 13 in
  let! tcb_cl := retype ut obj.TCB in
  let! tcb_cl2 := retype ut obj.TCB in
  let! _ := check "retype client tcbs" ((0 <? tcb_cl) && (0 <? tcb_cl2)) in
  let! _ := expect "configure client" (tcb_configure tcb_cl (fn_va client_fn) (TEST_VA + 12 * f_frame s) (f_aspace s)) 0 in
  let! _ := expect "configure client 2" (tcb_configure tcb_cl2 (fn_va client2_fn) (TEST_VA + 14 * f_frame s) (f_aspace s)) 0 in
  let! _ := expect "resume client" (tcb_resume tcb_cl) 0 in
  let! _ := expect "resume client 2" (tcb_resume tcb_cl2) 0 in
  let! r1 := poll_recv ep2 in
  let! _ := check "fifo first" ((status r1 =? 0) && eq_mr (mr r1) CM_FIFO_A) in
  let! r2 := poll_recv ep2 in
  let! _ := check "fifo second" ((status r2 =? 0) && eq_mr (mr r2) CM_FIFO_B) in
  let! _ := until_count 7 in
  let! _ := expect_mr "held call data" CM_CALL in
  let! _ := expect "client still held" (ld CLIENT_STATUS) 1 in
  let m7 := [0x0707; 0x1717; 0x2727; 0x3737] in
  let! r := call ep 0 m7 in
  let! _ := check "overwrite call" ((status r =? 0) && eq_mr (mr r) (xform m7)) in
  let! _ := expect "old caller aborted" (ld CLIENT_STATUS) (as_u64 err.NO_REPLY) in
  let! _ := expect "overwrite count" (ld SRV_COUNT) 8 in
  let! _ := st SRV_DIE 1 in
  let! r := call ep 0 [0xE0E0; 0; 0; 0] in
  let! _ := check "call no reply" (status r =? err.NO_REPLY) in
  let! _ := expect "no reply count" (ld SRV_COUNT) 8 in
  put_line "root: ipc tests pass".

Definition yields (n : nat) : itree userE unit := for_each (seq 0 n) (fun _ => yield).

Definition until_stage (n : Z) : itree userE unit :=
  while (let! c := ld FAULT_STAGE in Ret (c <? n)) yield.

Definition fault_tests (s : found) : itree userE unit :=
  let ut := f_ut s in
  let aspace := f_aspace s in
  let! _ := stack_at s "retype stack 6" "map stack 6" 16 in
  let! _ := stack_at s "retype stack 7" "map stack 7" 18 in
  let! tcb_fault := retype ut obj.TCB in
  let! tcb_fp := retype ut obj.TCB in
  let! _ := check "retype fault tcbs" ((0 <? tcb_fault) && (0 <? tcb_fp)) in
  let entry_fault := fn_va child_fault_fn in
  let sp_fault := TEST_VA + 17 * f_frame s in
  let! _ := expect "configure misaligned entry" (tcb_configure tcb_fault (entry_fault + 2) sp_fault aspace) err.BAD_VA in
  let! _ := set_tpidr ROOT_TPIDR in
  let! _ := expect "configure tcb fault" (tcb_configure tcb_fault entry_fault sp_fault aspace) 0 in
  let! _ := expect "resume tcb fault" (tcb_resume tcb_fault) 0 in
  let! _ := until_stage 1 in
  let! _ := expect "child tpidr zeroed" (ld CHILD_SAW_TPIDR) 0 in
  let! _ := expect "root tpidr isolated" get_tpidr ROOT_TPIDR in
  let! _ := expect "root tpidrro zero" get_tpidrro 0 in
  let! _ := yields 4 in
  let! _ := expect "fault child killed" (ld FAULT_SURVIVED) 0 in
  let! _ := expect "root tpidr after kill" get_tpidr ROOT_TPIDR in
  let! _ := expect "dead tcb resume" (tcb_resume tcb_fault) err.BAD_STATE in
  let! _ := expect "configure tcb fp" (tcb_configure tcb_fp (fn_va child_fp_fn) (TEST_VA + 19 * f_frame s) aspace) 0 in
  let! _ := expect "resume tcb fp" (tcb_resume tcb_fp) 0 in
  let! _ := until_stage 2 in
  let! _ := yields 4 in
  let! _ := expect "fp child killed" (ld FAULT_SURVIVED) 0 in
  let! _ := set_tpidr 0 in
  put_line "root: fault isolation tests pass".

Definition preempt_tests (s : found) (tcb_busy : Z) : itree userE unit :=
  let! _ := expect "configure tcb busy"
    (tcb_configure tcb_busy (fn_va child_busy_fn) (TEST_VA + 5 * f_frame s) (f_aspace s)) 0 in
  let! _ := expect "resume tcb busy" (tcb_resume tcb_busy) 0 in
  let! _ := while (let! c := ld BUSY_COUNTER in Ret (c =? 0)) yield in
  let! _ := put_line "root: preempt test pass" in
  put_line "root: sched tests pass".

Definition start_entry : prog :=
  let! s := read_bootinfo in
  let! _ := console_tests s in
  let! f := retype_map_tests s in
  let! tcb_busy := child_exit_tests s f in
  let! ep := endpoint_tests s f in
  let! _ := rendezvous_tests s ep in
  let! _ := overwrite_tests s ep in
  let! _ := fault_tests s in
  let! _ := preempt_tests s tcb_busy in
  forever yield.

Definition entry (f : fn) : prog :=
  match f with
  | child_exit_fn => child_exit_entry
  | child_busy_fn => child_busy_entry
  | server_fn => server_entry
  | client_fn => client_entry
  | client2_fn => client2_entry
  | child_fault_fn => child_fault_entry
  | child_fp_fn => child_fp_entry
  | start_fn => start_entry
  end.

(** The code at an address; elsewhere, an undefined instruction. *)
Definition code (pc : Z) : prog :=
  match find (fun f => fn_va f =? pc)
    [child_exit_fn; child_busy_fn; server_fn; client_fn; client2_fn; child_fault_fn; child_fp_fn; start_fn] with
  | Some f => entry f
  | None => let! _ := op Undef in ITree.spin
  end.
End program.

(** ** Counting

    The finite child counts to 100000 in its memory; a slice of [2 * j]
    operations of it adds [j] to the counter.  The busy child counts for ever. *)

Section count.
Context `{Platform, PoolVa, !PoolVaOk} (at_ : static -> Z) (fn_va : fn -> Z).

Lemma child_observe :
  exists k, observe (child_exit_entry at_) = VisF (Rmw (at_ EXIT_COUNTER) (fun v => as_u64 (v + 1))) k /\
    forall v, v + 1 <> CHILD_EXIT_TARGET -> v + 1 < U64 -> observe (k v) = TauF (child_exit_entry at_).
Proof.
  eexists. split; [unfold child_exit_entry, forever, fetch_add; cbn; reflexivity|].
  intros v Hv Hu. apply Z.eqb_neq in Hv. apply Z.ltb_lt in Hu. unfold checked.
  do 3 (unfold observe; cbn). rewrite Hu. do 3 (unfold observe; cbn). rewrite Hv. reflexivity.
Qed.

Context (root : Z) (w0 : words) (d : Z).
#[local] Abbreviation cell := (phys d (at_ EXIT_COUNTER)).
Context (Hd : el0_accessible d = true /\ el0_writable d = true).
Context (Htr : forall v, utranslate (<[cell := v]> w0) root (at_ EXIT_COUNTER) = Some d).

Lemma count_slice j n cx v :
  0 <= v -> v + Z.of_nat j < CHILD_EXIT_TARGET ->
  slice (2 * j + n) root (child_exit_entry at_) cx (<[cell := v]> w0) =
  slice n root (child_exit_entry at_) cx (<[cell := v + Z.of_nat j]> w0).
Proof.
  destruct child_observe as (k & Ho & Hk). destruct Hd as [D1 D2]. unfold CHILD_EXIT_TARGET in *.
  revert v. induction j as [|j IH]; intros v Hv Hj.
  - by rewrite Z.add_0_r.
  - assert (Hld : load (<[cell := v]> w0) root (at_ EXIT_COUNTER) = Some v).
    { unfold load. rewrite Htr, D1. unfold rd_word. by rewrite lookup_insert_eq. }
    assert (Hst : store (<[cell := v]> w0) root (at_ EXIT_COUNTER) (as_u64 (v + 1)) = Some (<[cell := v + 1]> w0)).
    { unfold store, as_u64. rewrite Htr, D2, Z.mod_mod, (Z.mod_small (v + 1)) by lia. by rewrite insert_insert_eq. }
    replace (2 * S j + n)%nat with (S (S (2 * j + n)))%nat by lia. cbn [slice]. rewrite Ho, Hld, Hst, Hk by lia.
    replace (v + Z.of_nat (S j)) with (v + 1 + Z.of_nat j) by lia. apply IH; lia.
Qed.
End count.

Section busy.
Context `{Platform, PoolVa, !PoolVaOk} (at_ : static -> Z) (fn_va : fn -> Z).

Lemma busy_observe :
  exists k, observe (child_busy_entry at_) = VisF (Rmw (at_ BUSY_COUNTER) (fun v => as_u64 (v + 1))) k /\
    forall v, observe (k v) = TauF (child_busy_entry at_).
Proof. eexists. split; [unfold child_busy_entry, forever, fetch_add; cbn; reflexivity|]. intros v. do 3 (unfold observe; cbn). reflexivity. Qed.

Context (root : Z) (w0 : words) (d : Z).
#[local] Abbreviation cell := (phys d (at_ BUSY_COUNTER)).
Context (Hd : el0_accessible d = true /\ el0_writable d = true).
Context (Htr : forall v, utranslate (<[cell := v]> w0) root (at_ BUSY_COUNTER) = Some d).

(** However long its slice is, the timer ends it and the counter has moved. *)
Lemma busy_slice n cx v :
  0 <= v -> v + Z.of_nat (S n) < U64 ->
  exists c t, 0 < c /\ slice (S n) root (child_busy_entry at_) cx (<[cell := v]> w0) = (cx, <[cell := c]> w0, (Tick, Go t)).
Proof.
  destruct busy_observe as (k & Ho & Hk). destruct Hd as [D1 D2]. revert v.
  induction n as [n IH] using lt_wf_ind. intros v Hv Hn.
  assert (Hld : load (<[cell := v]> w0) root (at_ BUSY_COUNTER) = Some v).
  { unfold load. rewrite Htr, D1. unfold rd_word. by rewrite lookup_insert_eq. }
  assert (Hst : store (<[cell := v]> w0) root (at_ BUSY_COUNTER) (as_u64 (v + 1)) = Some (<[cell := v + 1]> w0)).
  { unfold store, as_u64. rewrite Htr, D2, Z.mod_mod, (Z.mod_small (v + 1)) by lia. by rewrite insert_insert_eq. }
  destruct n as [|[|n]]; cbn [slice]; rewrite Ho, Hld, Hst; [| |rewrite Hk].
  - exists (v + 1), (k v). split; [lia|done].
  - rewrite Hk. exists (v + 1), (child_busy_entry at_). split; [lia|done].
  - apply IH; lia.
Qed.
End busy.

(** ** A turn of the counting child *)

Definition poke (a v : Z) (m : machine) : machine :=
  mkMachine (set_words (<[a := v]> (k_words (m_k m))) (m_k m)) (m_threads m).

(** The timer interrupts the current task, which has stored [c] at [a] and goes
    on with [t]. *)
Definition ticked `{Platform, PoolVa} (a c : Z) (t : prog) (m : machine) : outcome :=
  let k := m_k m in
  let p := current_context (k_tasks k) in
  match handle Tick (set_words (<[a := c]> (k_words k)) (set_tasks (set_ctx p (fun _ => ctx (tcb (k_tasks k) p)) (k_tasks k)) k)) with
  | (Ok _, k') => Runs (mkMachine k' (<[p := Go t]> (m_threads m)))
  | (Err Parked, k') => Halts k'
  | _ => Crashes
  end.

Section turn_counts.
Context `{Platform, PoolVa, !PoolVaOk} (at_ : static -> Z) (fn_va : fn -> Z).

Lemma turn_counts b m d v j n :
  board_ok b -> kinv b (m_k m) -> resume (code at_ fn_va) m = child_exit_entry at_ ->
  utranslate (k_words (m_k m)) (ttbr0 (k_tasks (m_k m))) (at_ EXIT_COUNTER) = Some d ->
  el0_accessible d = true -> el0_writable d = true ->
  k_words (m_k m) !! phys d (at_ EXIT_COUNTER) = Some v -> 0 <= v -> v + Z.of_nat j < CHILD_EXIT_TARGET ->
  turn (code at_ fn_va) (2 * j + n) m =
  turn (code at_ fn_va) n (poke (phys d (at_ EXIT_COUNTER)) (v + Z.of_nat j) m).
Proof.
  intros Hb Hk Hr Ht D1 D2 Hw Hv Hj. unfold turn. set (p := current_context (k_tasks (m_k m))).
  change (resume (code at_ fn_va) (poke _ _ m)) with (resume (code at_ fn_va) m). rewrite Hr. cbn [poke m_k m_threads].
  change (k_tasks (set_words _ (m_k m))) with (k_tasks (m_k m)). fold p.
  change (k_words (set_words ?w (m_k m))) with w.
  rewrite <- (insert_id (k_words (m_k m)) (phys d (at_ EXIT_COUNTER)) v Hw) at 1.
  rewrite (count_slice at_ _ _ d); [|done| |done|done].
  - by destruct (slice _ _ _ _ _) as [[cx w] [ev c]].
  - intros v'. rewrite (user_store_translate b (m_k m)); [done|done|done| |by eapply running_root].
    by apply insert_user_store; [intros ? []| |].
Qed.

Lemma turn_busy b m d v n :
  board_ok b -> kinv b (m_k m) -> resume (code at_ fn_va) m = child_busy_entry at_ ->
  utranslate (k_words (m_k m)) (ttbr0 (k_tasks (m_k m))) (at_ BUSY_COUNTER) = Some d ->
  el0_accessible d = true -> el0_writable d = true ->
  k_words (m_k m) !! phys d (at_ BUSY_COUNTER) = Some v -> 0 <= v -> (0 < n)%nat -> v + Z.of_nat n < U64 ->
  exists c t, 0 < c /\ turn (code at_ fn_va) n m = ticked (phys d (at_ BUSY_COUNTER)) c t m.
Proof.
  intros Hb Hk Hr Ht D1 D2 Hw Hv H0n Hn. destruct n as [|n]; [lia|].
  destruct (busy_slice at_ (ttbr0 (k_tasks (m_k m))) (k_words (m_k m)) d) with (n := n) (v := v)
    (cx := ctx (tcb (k_tasks (m_k m)) (current_context (k_tasks (m_k m))))) as (c & t & Hc & E); [done| |done|done|].
  { intros v'. rewrite (user_store_translate b (m_k m)); [done|done|done| |by eapply running_root].
    by apply insert_user_store; [intros ? []| |]. }
  exists c, t. split; [done|]. unfold turn. rewrite Hr. rewrite insert_id in E by done. by rewrite E.
Qed.
End turn_counts.
