(* ===== verification/SelfTest.v ===== *)
(** * The root task's self-test, from boot

    The system on the board of the device-tree example: the boot sequence, the
    kernel and the programs of the root task.  With every timer whose slices let
    the finite child finish, the whole self-test passes and the console shows what
    tools/qemu-boot-test.sh looks for: between the two counting children all tasks
    trap within 100 operations, which is computed, and the children's slices are
    followed for any length, by [RootTask.turn_counts] and [RootTask.turn_busy].
    With a timer that strikes at one particular moment it fails although the
    kernel is right: the test has a race. *)

From stdpp Require Import strings.
From S2P Require Import Prelude Abi Cap Task Sched Ipc Radix Paging User Kernel System Fdt Spawn Boot Secure Machine RootTask.

Module SelfTestEx.
Import PagingEx.

(** ** The root task's image *)

Definition static_index (s : static) : Z :=
  match s with
  | CON_SLOT => 0 | ASPACE_SLOT => 1 | BUSY_COUNTER => 2 | EXIT_COUNTER => 3 | EP_SLOT => 4 | EP2_SLOT => 5
  | SRV_COUNT => 6 | SRV_DIE => 7 | SRV_HOLD => 8 | CLIENT_STATUS => 9 | FAULT_STAGE => 10 | FAULT_SURVIVED => 11
  | CHILD_SAW_TPIDR => 12 | SRV_MR i => 13 + Z.of_nat i
  end.

Definition static_va (s : static) : Z := 0x401000 + 8 * static_index s.

Definition fn_va (f : fn) : Z :=
  match f with
  | start_fn => 0x400010 | child_exit_fn => 0x400100 | child_busy_fn => 0x400200 | server_fn => 0x400300
  | client_fn => 0x400400 | client2_fn => 0x400500 | child_fault_fn => 0x400600 | child_fp_fn => 0x400700
  end.

(** A page of code, whose bytes do not matter here, and a page of statics, in
    the order of [static_index]; each is eight little-endian bytes. *)
Definition static_bytes (s : static) : list Z := static_init s :: replicate 7 0.

Definition statics : list static :=
  [CON_SLOT; ASPACE_SLOT; BUSY_COUNTER; EXIT_COUNTER; EP_SLOT; EP2_SLOT; SRV_COUNT; SRV_DIE; SRV_HOLD; CLIENT_STATUS;
   FAULT_STAGE; FAULT_SURVIVED; CHILD_SAW_TPIDR; SRV_MR 0; SRV_MR 1; SRV_MR 2; SRV_MR 3].

Definition root_image : list Z :=
  replicate 4096 1 ++ concat (static_bytes <$> statics) ++ replicate (4096 - 8 * length statics) 0.

Definition segs : list LoadSeg := [mkSeg 0x400000 4096 SegKind.Text; mkSeg 0x401000 256 SegKind.Rw].

Definition rt : VerifiedRootTask := mkRT root_image 0x400000 0x400010 segs.

Definition booted : res boot_fail kstate := boot ex_info BootEx.image rt BootEx.root_tcb pool ∅.

Lemma selftest_pre : boot_pre ex_info BootEx.image rt BootEx.root_tcb pool.
Proof.
  destruct BootEx.pre as [P1 P2 P3 P4 P5 P6 _]. split; [exact P1|exact P2|exact P3|exact P4|exact P5|exact P6|].
  split; [simpl; lia|]. repeat constructor; simpl; lia.
Qed.

Lemma booted_laid_out k0 k :
  booted = Ok k0 -> reachable k0 k ->
  exists win b, laid_out ex_info BootEx.image BootEx.root_tcb win b /\ kinv b k.
Proof. unfold booted. exact (boot_laid_out _ _ _ _ _ _ _ _ selftest_pre BootEx.low). Qed.

Definition program : Z -> prog := code static_va fn_va.

(** ** Counting *)

(** The cell of a static, as the running task reaches it. *)
Definition cell (s : static) (m : machine) : Z :=
  match utranslate (k_words (m_k m)) (ttbr0 (k_tasks (m_k m))) (static_va s) with
  | Some d => phys d (static_va s)
  | None => 0
  end.

(** The task at [f] is about to start, and its counter is 0. *)
Definition ready (f : fn) (s : static) (m : machine) : bool :=
  let p := current_context (k_tasks (m_k m)) in
  match m_threads m !! p with None => true | _ => false end &&
  (elr (ctx (tcb (k_tasks (m_k m)) p)) =? fn_va f) &&
  match utranslate (k_words (m_k m)) (ttbr0 (k_tasks (m_k m))) (static_va s) with
  | Some d => el0_accessible d && el0_writable d && bool_decide (k_words (m_k m) !! phys d (static_va s) = Some 0)
  | None => false
  end.

Lemma ready_spec f s m :
  ready f s m = true -> exists d,
    utranslate (k_words (m_k m)) (ttbr0 (k_tasks (m_k m))) (static_va s) = Some d /\ el0_accessible d = true /\
    el0_writable d = true /\ k_words (m_k m) !! phys d (static_va s) = Some 0 /\ cell s m = phys d (static_va s) /\
    resume program m = program (fn_va f).
Proof.
  unfold ready, cell. intros Hm. apply andb_prop in Hm as [Hm Hw]. apply andb_prop in Hm as [Ht He]. apply Z.eqb_eq in He.
  destruct (utranslate _ _ _) as [d|] eqn:Ed; [|discriminate Hw].
  apply andb_prop in Hw as [Hw Hz]. apply andb_prop in Hw as [D1 D2]. apply bool_decide_eq_true_1 in Hz.
  exists d. split_and!; try done. unfold resume. destruct (m_threads m !! _); [discriminate Ht|]. by rewrite He.
Qed.

Definition COUNTED : nat := Z.to_nat 99999.

Lemma counted : Z.of_nat COUNTED = 99999.
Proof. unfold COUNTED. rewrite Z2Nat.id; [reflexivity|lia]. Qed.

#[local] Opaque COUNTED.

Definition skipped (m : machine) : machine := poke (cell EXIT_COUNTER m) 99999 m.

Lemma turn_skips k0 m n :
  booted = Ok k0 -> reachable k0 (m_k m) -> ready child_exit_fn EXIT_COUNTER m = true ->
  turn program (2 * COUNTED + n) m = turn program n (skipped m).
Proof.
  intros Hb Hr Hm. destruct (booted_laid_out k0 _ Hb Hr) as (win & b & Hl & Hk).
  destruct (ready_spec _ _ _ Hm) as (d & Ed & D1 & D2 & Hz & Hc & Hres).
  unfold program, skipped. rewrite Hc, (turn_counts static_va fn_va b m d 0 COUNTED n (lo_board _ _ _ _ _ Hl) Hk);
    [by rewrite counted|exact Hres|exact Ed|exact D1|exact D2|exact Hz|lia|by rewrite counted].
Qed.

Lemma turn_ticks k0 m n :
  booted = Ok k0 -> reachable k0 (m_k m) -> ready child_busy_fn BUSY_COUNTER m = true ->
  (0 < n)%nat -> Z.of_nat n < U64 ->
  exists c t, turn program n m = ticked (cell BUSY_COUNTER m) (Z.pos c) t m.
Proof.
  intros Hb Hr Hm H0n Hn. destruct (booted_laid_out k0 _ Hb Hr) as (win & b & Hl & Hk).
  destruct (ready_spec _ _ _ Hm) as (d & Ed & D1 & D2 & Hz & Hc & Hres).
  destruct (turn_busy static_va fn_va b m d 0 n (lo_board _ _ _ _ _ Hl) Hk Hres Ed D1 D2 Hz) as (c & t & Hpos & E); [lia..|].
  destruct c as [|c|c]; [lia| |lia]. exists c, t. by rewrite Hc.
Qed.

(** ** Runs *)

#[local] Opaque booted.

Definition run_from (sched : nat -> nat) (n : nat) (k : res boot_fail kstate) : outcome :=
  match k with Ok k0 => turns program sched 0 n (start k0) | _ => Crashes end.

Definition run_with (sched : nat -> nat) (n : nat) : outcome := run_from sched n booted.

(** The child's first slice, turn 152, lasts long enough for it to finish. *)
Definition timer (f : nat -> nat) (i : nat) : nat := if (i =? 152)%nat then (2 * COUNTED + 100)%nat else f i.

Definition run (f : nat -> nat) (n : nat) : outcome := run_with (timer f) n.

(** The same without counting. *)
Definition go_on (f : nat -> nat) (n : nat) (o : outcome) : outcome :=
  match o with
  | Runs m => match turn program 100 (skipped m) with Runs m' => turns program (timer f) 153 n m' | o => o end
  | o => o
  end.

Definition fast (f : nat -> nat) (n : nat) : outcome := go_on f n (run f 152).

Lemma run_fast f n :
  match run f 152 with Runs m => ready child_exit_fn EXIT_COUNTER m = true | _ => False end -> run f (152 + S n) = fast f n.
Proof.
  unfold fast, run, run_with, run_from, go_on. destruct booted as [k0|e| |] eqn:Eb; [|done..]. rewrite turns_app. intros Hr.
  pose proof (booted_laid_out k0 _ Eb (reach_init k0)) as (win & b & Hl & Hk).
  pose proof (turns_reach b program (timer f) 0 152 (start k0) k0 (lo_board _ _ _ _ _ Hl) Hk (reach_init k0)) as Hreach.
  destruct (turns program (timer f) 0 152 (start k0)) as [m|k|]; [|contradiction..].
  cbn [turns]. change (timer f (0 + 152)) with (2 * COUNTED + 100)%nat. by rewrite (turn_skips k0 m 100 Eb Hreach Hr).
Qed.

Definition console (o : outcome) : list conout :=
  match o with Runs m => k_con (m_k m) | Halts k => k_con k | Crashes => [] end.

Definition say (s : string) : list conout := OutByte <$> (lit s ++ [13; 10]).

Definition transcript : list conout :=
  say "root: hello from EL0" ++ say "root: untyped slot 0x0000000000000004" ++
  say "root: control byte filter [?]" ++ say "root: retype/map tests pass" ++
  [OutExited 7] ++ say "root: child exit test pass" ++
  [OutExited 12; OutExited 11; OutExited 9] ++ say "root: ipc tests pass" ++
  [OutFault ESR_DATA_ABORT (fn_va child_fault_fn) 0; OutFault ESR_FP (fn_va child_fp_fn) 0] ++
  say "root: fault isolation tests pass" ++ say "root: preempt test pass" ++ say "root: sched tests pass".

(** *** The passing run

    Up to the finite child, from there to the busy child, and from its
    interruption, with any value of its counter, to the end, all tasks trap
    within 100 operations. *)

Definition to_end (c : positive) (t : prog) (m : machine) : option machine :=
  match ticked (cell BUSY_COUNTER m) (Z.pos c) t m with Runs m' => trapping program 100 47 m' | _ => None end.

Lemma stages :
  match booted with
  | Ok k0 =>
    match trapping program 100 152 (start k0) with
    | Some m1 => ready child_exit_fn EXIT_COUNTER m1 = true /\
      match trapping program 100 164 (skipped m1) with
      | Some m2 => ready child_busy_fn BUSY_COUNTER m2 = true /\
        forall c t, match to_end c t m2 with Some m3 => k_con (m_k m3) = transcript | None => False end
      | None => False
      end
    | None => False
    end
  | _ => False
  end.
Proof. vm_compute. split; [reflexivity|]. split; [reflexivity|]. intros c t. reflexivity. Qed.

(** A timer whose slices are long enough for the finite child to finish in one
    of them; the upper bound keeps the busy child's counter from wrapping. *)
Definition patient (sched : nat -> nat) : Prop :=
  forall i, (2 * COUNTED + 100 <= sched i)%nat /\ Z.of_nat (sched i) < U64.

Section patient.
Context (sched : nat -> nat) (Hp : patient sched) (k0 : kstate) (Hb : booted = Ok k0).

Lemma patient_100 j : (100 <= sched j)%nat.
Proof. destruct (Hp j). lia. Qed.

Lemma turns_reached i n m m' : reachable k0 (m_k m) -> turns program sched i n m = Runs m' -> reachable k0 (m_k m').
Proof.
  intros Hr E. pose proof (booted_laid_out k0 _ Hb (reach_init k0)) as (win & b & Hl & Hk).
  pose proof (turns_reach b program sched i n m k0 (lo_board _ _ _ _ _ Hl) Hk Hr) as Ht. by rewrite E in Ht.
Qed.

Lemma to_busy_turns i m1 m2 :
  reachable k0 (m_k m1) -> ready child_exit_fn EXIT_COUNTER m1 = true -> trapping program 100 164 (skipped m1) = Some m2 ->
  turns program sched i 164 m1 = Runs m2.
Proof.
  intros Hr Hm E. destruct (Hp i) as [Hi _]. destruct (trapping_S program 100 163 (skipped m1) m2 E) as (Et & m & Em & E').
  rewrite (turns_S program sched i 163). replace (sched i) with (2 * COUNTED + (sched i - 2 * COUNTED))%nat by lia.
  rewrite (turn_skips k0 m1 _ Hb Hr Hm), (turn_more program 100 (sched i - 2 * COUNTED) (skipped m1) Et), Em by lia.
  eapply trapping_turns; [exact E'|apply patient_100].
Qed.

Lemma to_end_turns i m2 :
  reachable k0 (m_k m2) -> ready child_busy_fn BUSY_COUNTER m2 = true ->
  exists c t, forall m3, to_end c t m2 = Some m3 -> turns program sched i 48 m2 = Runs m3.
Proof.
  intros Hr Hm. destruct (Hp i) as [Hi Hu]. destruct (turn_ticks k0 m2 (sched i) Hb Hr Hm) as (c & t & E); [lia|done|].
  exists c, t. intros m3. unfold to_end. rewrite (turns_S program sched i 47), E. clear E.
  destruct (ticked (cell BUSY_COUNTER m2) (Z.pos c) t m2) as [m|k|]; [|discriminate..].
  intros Ht. eapply trapping_turns; [exact Ht|apply patient_100].
Qed.
End patient.

Lemma run_booted sched n k0 : booted = Ok k0 -> run_with sched n = turns program sched 0 n (start k0).
Proof. intros E. unfold run_with. by rewrite E. Qed.

Lemma stages_found : exists k0 m1 m2,
  booted = Ok k0 /\ trapping program 100 152 (start k0) = Some m1 /\ ready child_exit_fn EXIT_COUNTER m1 = true /\
  trapping program 100 164 (skipped m1) = Some m2 /\ ready child_busy_fn BUSY_COUNTER m2 = true /\
  forall c t, exists m3, to_end c t m2 = Some m3 /\ k_con (m_k m3) = transcript.
Proof.
  pose proof stages as Hs. destruct booted as [k0|e| |]; [|contradiction..].
  destruct (trapping program 100 152 (start k0)) as [m1|] eqn:E1; [|contradiction]. destruct Hs as [R1 Hs].
  destruct (trapping program 100 164 (skipped m1)) as [m2|] eqn:E2; [|contradiction]. destruct Hs as [R2 Hs].
  exists k0, m1, m2. split_and!; try assumption; [reflexivity|]. intros c t. specialize (Hs c t).
  destruct (to_end c t m2) as [m3|]; [|contradiction]. exists m3. split; [reflexivity|exact Hs].
Qed.


(** A timer that strikes once more, six operations into the server's first
    message: after it has counted the message, before it waits for the next. *)
Definition unlucky (i : nat) : nat := if (i =? 195)%nat then 6 else 100.

(** C4: the self-test has a race: the root task takes the server's count as a sign
    that the server is waiting, sends without blocking, is refused, and reports a
    failure; the server then waits for ever and the kernel parks. *)
Theorem selftest_race :
  console (run unlucky (152 + S 100)) =
    say "root: hello from EL0" ++ say "root: untyped slot 0x0000000000000004" ++
    say "root: control byte filter [?]" ++ say "root: retype/map tests pass" ++
    [OutExited 7] ++ say "root: child exit test pass" ++
    say "root: FAIL send to waiting nb" ++ [OutExited 1; OutAllBlocked].
Proof.
  rewrite run_fast by (vm_compute; reflexivity). vm_compute. reflexivity.
Qed.

(** The shortest such slice, and a longer one every second time. *)
Definition alternating (i : nat) : nat := 2 * COUNTED + 100 + (if Nat.even i then 0 else COUNTED).

Lemma alternating_patient : patient alternating.
Proof. intros i. pose proof counted. unfold alternating. destruct (Nat.even i); lia. Qed.

End SelfTestEx.
